(** * KeyDB core: a shallow embedding of the value object, the MVCC clock,
      the storage version guard and the periodic database driver.

    Sources embedded here:
    - [src/server.cpp]: [incrementMvccTstamp], [getMvccTstamp], [call],
      [updateCachedTime], [parseVersion], [compareVersion],
      [hasActiveChildProcess],
      [tryResizeHashTables], [databasesCron], the shared integers of
      [createSharedObjects];
    - [src/server.h]: [redisObject] with [FExpires], [getrefcount],
      [addref], [release], and the object constants;
    - [src/object.cpp]: object creation, [incrRefCount], [decrRefCount],
      [tryObjectEncoding], [SetFExpires], [setrefcount], and the stored
      object (de)serialisers;
    - [src/storage/rocksdbfactory.cpp]: the constructor's version check and
      [setVersion].

    The later modules add: [src/adlist.c] (the whole list library);
    [clientsCronTrackExpansiveClients], [clientsCronTrackClientsMemUsage],
    [trackInstantaneousMetric], [htNeedsResize], [alsoPropagate] and the
    [redisOpArray] functions, [populateCommandTableParseFlags],
    [dictEncObjKeyCompare] of [src/server.cpp]; [robj_sharedptr] of
    [src/server.h]; [dupStringObject], [getDecodedObject] and the string
    comparisons of [src/object.cpp]; the column families and [create] of
    [src/storage/rocksdbfactory.cpp]; [getMonotonicUs_posix] of
    [src/monotonic.c].

    Machine integers are [Z] with the wrap-around written out; C++ objects
    live in a store indexed by address; [serverPanic]/[serverAssert] and
    C++ [throw] are results of a small state-and-error monad.  The MVCC
    clock is shared between threads: [incrementMvccTstamp] and [call] are
    step functions, one atomic access a step, and a schedule interleaves
    the steps of the callers. *)

From Stdlib Require Import ZArith Lia List String Ascii Bool DecimalString.
From stdpp Require Import base gmap strings list.
From ITree Require Import ITree.
Import ListNotations.

Open Scope Z_scope.

(** ** Fixed-width integers *)

Definition wrap (bits : Z) (z : Z) : Z := z mod 2 ^ bits.
Definition u64 (z : Z) : Z := wrap 64 z.
Definition u32 (z : Z) : Z := wrap 32 z.

(** Two's complement reading of a 64-bit word, the [(long)] cast. *)
Definition s64 (z : Z) : Z :=
  let w := u64 z in if w <? 2 ^ 63 then w else w - 2 ^ 64.

Definition LONG_MIN : Z := - 2 ^ 63.
Definition LONG_MAX : Z := 2 ^ 63 - 1.
Definition ULLONG_MAX : Z := 2 ^ 64 - 1.

Lemma u64_range z : 0 <= u64 z < 2 ^ 64.
Proof. unfold u64, wrap. apply Z.mod_pos_bound. lia. Qed.

Lemma u32_range z : 0 <= u32 z < 2 ^ 32.
Proof. unfold u32, wrap. apply Z.mod_pos_bound. lia. Qed.

Lemma u64_small z : 0 <= z < 2 ^ 64 -> u64 z = z.
Proof. intros H. unfold u64, wrap. apply Z.mod_small. lia. Qed.

Lemma u32_small z : 0 <= z < 2 ^ 32 -> u32 z = z.
Proof. intros H. unfold u32, wrap. apply Z.mod_small. lia. Qed.

Lemma s64_u64 z : LONG_MIN <= z <= LONG_MAX -> s64 (u64 z) = z.
Proof.
  unfold LONG_MIN, LONG_MAX, s64. intros H.
  rewrite (u64_small (u64 z)) by apply u64_range.
  unfold u64, wrap.
  destruct (Z.ltb_spec (z mod 2 ^ 64) (2 ^ 63)) as [Hlt|Hge].
  - destruct (Z.neg_nonneg_cases z) as [Hn|Hp].
    + replace z with (z + 2 ^ 64 - 1 * 2 ^ 64) in Hlt by lia.
      rewrite Zminus_mod, Z_mod_mult, Z.sub_0_r, Z.mod_mod in Hlt by lia.
      rewrite Z.mod_small in Hlt; lia.
    + apply Z.mod_small. lia.
  - destruct (Z.neg_nonneg_cases z) as [Hn|Hp].
    + replace z with (z + 2 ^ 64 - 1 * 2 ^ 64) at 1 by lia.
      rewrite Zminus_mod, Z_mod_mult, Z.sub_0_r, Z.mod_mod by lia.
      rewrite Z.mod_small; lia.
    + rewrite Z.mod_small in Hge; lia.
Qed.

(** ** Results of running server code

    [Done] is a normal return, [Panic] is [serverPanic] or a failed
    [serverAssert] (the process aborts), [Throw] is a C++ exception leaving
    the function, [Undefined] is a step C++ gives no meaning to (a dangling
    pointer, a read past the end of a buffer). *)

Inductive outcome (A : Type) : Type :=
| Done (a : A)
| Panic (msg : string)
| Throw (msg : string)
| Undefined (what : string).
Arguments Done {A} a.
Arguments Panic {A} msg.
Arguments Throw {A} msg.
Arguments Undefined {A} what.

Definition M (S A : Type) : Type := S -> outcome (A * S).

Definition ret {S A} (a : A) : M S A := fun s => Done (a, s).

Definition bind {S A B} (m : M S A) (k : A -> M S B) : M S B :=
  fun s =>
    match m s with
    | Done (a, s') => k a s'
    | Panic msg => Panic msg
    | Throw msg => Throw msg
    | Undefined what => Undefined what
    end.

Definition get {S} : M S S := fun s => Done (s, s).
Definition put {S} (s : S) : M S unit := fun _ => Done (tt, s).
Definition modify {S} (f : S -> S) : M S unit := fun s => Done (tt, f s).
Definition serverPanic {S A} (msg : string) : M S A := fun _ => Panic msg.
Definition throw {S A} (msg : string) : M S A := fun _ => Throw msg.
Definition undefined {S A} (what : string) : M S A := fun _ => Undefined what.
Definition serverAssert {S} (b : bool) (what : string) : M S unit :=
  if b then ret tt else serverPanic what.

Declare Scope server_scope.
Delimit Scope server_scope with server.
Notation "'do' x <- m ; k" := (bind m (fun x => k))
  (at level 10, x name, m at level 100, k at level 200) : server_scope.
Notation "'do' ' pat <- m ; k" :=
  (bind m (fun x => match x with pat => k end))
  (at level 10, pat pattern, m at level 100, k at level 200) : server_scope.
Notation "'exec' m ; k" := (bind m (fun _ => k))
  (at level 10, m at level 100, k at level 200) : server_scope.
Open Scope server_scope.

Lemma bind_Done {S A B} (m : M S A) (k : A -> M S B) s a s' :
  m s = Done (a, s') -> bind m k s = k a s'.
Proof. intros H. unfold bind. now rewrite H. Qed.

Lemma bind_Panic {S A B} (m : M S A) (k : A -> M S B) s msg :
  m s = Panic msg -> bind m k s = Panic msg.
Proof. intros H. unfold bind. now rewrite H. Qed.

(** ** The MVCC clock ([server.cpp]) *)

Module Mvcc.

Definition MVCC_MS_SHIFT : Z := 20.

(** The fields of [g_pserver] that [call] and the clock touch. *)
Record redisServer : Type := {
  mvcc_tstamp : Z;        (* uint64_t *)
  mstime : Z;             (* long long, cached milliseconds *)
  dirty : Z;              (* long long *)
  fixed_time_expire : Z
}.

Definition set_mvcc_tstamp (v : Z) (s : redisServer) : redisServer :=
  {| mvcc_tstamp := v; mstime := mstime s; dirty := dirty s;
     fixed_time_expire := fixed_time_expire s |}.

Definition set_mstime (v : Z) (s : redisServer) : redisServer :=
  {| mvcc_tstamp := mvcc_tstamp s; mstime := v; dirty := dirty s;
     fixed_time_expire := fixed_time_expire s |}.

Definition set_fixed_time_expire (v : Z) (s : redisServer) : redisServer :=
  {| mvcc_tstamp := mvcc_tstamp s; mstime := mstime s; dirty := dirty s;
     fixed_time_expire := v |}.

Definition wf_server (s : redisServer) : Prop :=
  0 <= mvcc_tstamp s < 2 ^ 64 /\ - 2 ^ 63 <= mstime s < 2 ^ 63.

(** [getMvccTstamp]: one atomic load of the clock word. *)
Definition getMvccTstamp (s : redisServer) : Z := mvcc_tstamp s.

(** [updateCachedTime], as far as the cached milliseconds go: one atomic
    store of [ustime() / 1000]. *)
Definition updateCachedTime (ustime : Z) (s : redisServer) : redisServer :=
  set_mstime (Z.quot ustime 1000) s.

(** *** [incrementMvccTstamp], one atomic access at a time

    The function loads the clock, loads the cached time, and then either
    adds one to the clock word or stores the shifted time.  The three
    accesses are separate atomic operations: there is no compare-and-swap,
    so another thread can change the clock between the load and the
    update.  A thread inside the function is at one of these places. *)
Inductive increment_pc : Type :=
| load_clock                      (* before the load of [mvcc_tstamp] *)
| load_time (msPrev : Z)          (* before the load of [mstime] *)
| update (msPrev mst : Z)         (* before the [fetch_add] or the store *)
| increment_done.

(** One access.  The comparison is unsigned, the [fetch_add] adds to the
    word as it is at that moment and wraps, the store is the shifted time
    truncated to 64 bits. *)
Definition increment_step (p : increment_pc) (s : redisServer)
  : increment_pc * redisServer :=
  match p with
  | load_clock => (load_time (Z.shiftr (mvcc_tstamp s) MVCC_MS_SHIFT), s)
  | load_time msPrev => (update msPrev (mstime s), s)
  | update msPrev mst =>
      (increment_done,
       if u64 mst <=? msPrev
       then set_mvcc_tstamp (u64 (mvcc_tstamp s + 1)) s
       else set_mvcc_tstamp (u64 (Z.shiftl (u64 mst) MVCC_MS_SHIFT)) s)
  | increment_done => (increment_done, s)
  end.

(** [incrementMvccTstamp] when no other thread touches the server between
    its three accesses. *)
Definition incrementMvccTstamp (s : redisServer) : redisServer :=
  let '(p, s) := increment_step load_clock s in
  let '(p, s) := increment_step p s in
  snd (increment_step p s).

(** *** [call], one access at a time *)

Definition CMD_WRITE : Z := Z.shiftl 1 0.
Definition CMD_READONLY : Z := Z.shiftl 1 1.
Definition CMD_CALL_ASYNC : Z := Z.shiftl 1 5.

Record client : Type := {
  mvccCheckpoint : Z
}.

(** Where a thread is inside [call], from the assertion on its first line
    to the stamping of the client; [dirty0] is the local [dirty] sampled
    before the command, [d] the difference computed after it. *)
Inductive call_pc : Type :=
| enter                               (* at the [serverAssert] *)
| sample_dirty                        (* [dirty = g_pserver->dirty] *)
| freeze_read (dirty0 : Z)            (* [fixed_time_expire++], the read *)
| freeze_write (dirty0 count : Z)     (* [fixed_time_expire++], the write *)
| increment (dirty0 : Z) (p : increment_pc)
| run_proc (dirty0 : Z)               (* [c->cmd->proc(c)] *)
| read_dirty (dirty0 : Z)             (* [dirty = g_pserver->dirty-dirty] *)
| checkpoint (d : Z)                  (* [if (dirty) ... getMvccTstamp()] *)
| returned
| panicked.                           (* the assertion failed *)

(** One activation of [call(c, flags)]: its arguments, what
    [GlobalLocksAcquired()] answers on its thread, the command procedure
    [c->cmd->proc] as a transformer of server and client, and the place
    the thread is at.  The lock itself is taken outside [call] (by the
    event loop, [ae.cpp], not part of these sources). *)
Record caller : Type := {
  flags : Z;
  cmd_flags : Z;
  GlobalLocksAcquired : bool;
  proc : redisServer * client -> redisServer * client;
  c : client;
  pc : call_pc
}.

Definition at_pc (p : call_pc) (k : caller) : caller :=
  {| flags := flags k; cmd_flags := cmd_flags k;
     GlobalLocksAcquired := GlobalLocksAcquired k; proc := proc k;
     c := c k; pc := p |}.

Definition with_client (cl : client) (k : caller) : caller :=
  {| flags := flags k; cmd_flags := cmd_flags k;
     GlobalLocksAcquired := GlobalLocksAcquired k; proc := proc k;
     c := cl; pc := pc k |}.

(** The condition of the assertion on the first line of [call]:
    [((flags & CMD_CALL_ASYNC) && (c->cmd->flags & CMD_READONLY)) ||
     GlobalLocksAcquired()]. *)
Definition asserted (k : caller) : bool :=
  (negb (Z.land (flags k) CMD_CALL_ASYNC =? 0) &&
   negb (Z.land (cmd_flags k) CMD_READONLY =? 0))
  || GlobalLocksAcquired k.

(** One step of [call].  The statements between the assertion and the
    sampling of the dirty counter, and the thread-local counters, touch
    none of the fields kept here.  The increment of [fixed_time_expire] is
    a plain read followed by a plain write.  The command procedure is code
    outside [call] and is taken as one step of its caller; the steps of
    the other callers come before and after it. *)
Definition call_step (k : caller) (s : redisServer) : caller * redisServer :=
  match pc k with
  | enter =>
      if asserted k then (at_pc sample_dirty k, s) else (at_pc panicked k, s)
  | sample_dirty => (at_pc (freeze_read (dirty s)) k, s)
  | freeze_read dirty0 =>
      (at_pc (freeze_write dirty0 (fixed_time_expire s)) k, s)
  | freeze_write dirty0 count =>
      (at_pc (increment dirty0 load_clock) k, set_fixed_time_expire (count + 1) s)
  | increment dirty0 p =>
      let '(p', s') := increment_step p s in
      (at_pc (match p' with
              | increment_done => run_proc dirty0
              | _ => increment dirty0 p'
              end) k, s')
  | run_proc dirty0 =>
      let '(s', cl) := proc k (s, c k) in
      (at_pc (read_dirty dirty0) (with_client cl k), s')
  | read_dirty dirty0 =>
      let d := if negb (Z.land (flags k) CMD_CALL_ASYNC =? 0) then 0
               else dirty s - dirty0 in
      let d := if d <? 0 then 0 else d in
      (at_pc (if negb (d =? 0) then checkpoint d else returned) k, s)
  | checkpoint d =>
      (at_pc returned (with_client {| mvccCheckpoint := getMvccTstamp s |} k), s)
  | returned => (k, s)
  | panicked => (k, s)
  end.

(** [n] steps of one caller with no step of another thread in between. *)
Fixpoint steps (n : nat) (k : caller) (s : redisServer) : caller * redisServer :=
  match n with
  | O => (k, s)
  | S n => let '(k', s') := call_step k s in steps n k' s'
  end.

(** [call] when no other thread touches the server while it runs: ten
    steps take a caller from the assertion to the end. *)
Definition call (k : caller) (s : redisServer) : caller * redisServer :=
  steps 10 k s.

(** *** The threads of a process

    The server, the activations of [call] in progress, each on a thread
    of its own, and whether a failed assertion has ended the process.
    The accesses of the threads take effect one at a time, in the order
    of the schedule. *)
Record process : Type := {
  server : redisServer;
  callers : list caller;
  aborted : bool
}.

(** What happens next: the thread of caller [t] performs its next step,
    or the cached time is updated. *)
Inductive event : Type :=
| thread_step (t : nat)
| cached_time (ustime : Z).

Definition is_panicked (p : call_pc) : bool :=
  match p with panicked => true | _ => false end.

Definition perform (e : event) (w : process) : process :=
  if aborted w then w
  else
    match e with
    | thread_step t =>
        match callers w !! t with
        | Some k =>
            let '(k', s') := call_step k (server w) in
            {| server := s'; callers := <[t := k']> (callers w);
               aborted := is_panicked (pc k') |}
        | None => w
        end
    | cached_time ustime =>
        {| server := updateCachedTime ustime (server w);
           callers := callers w; aborted := false |}
    end.

(** A schedule, first event first. *)
Definition run (sched : list event) (w : process) : process :=
  fold_left (fun w e => perform e w) sched w.

(** Caller [t] runs a whole call with no other event in between. *)
Definition alone (t : nat) : list event := repeat (thread_step t) 10.

(** *** Ranges and conditions *)

(** The clock word is not full and the cached time fits the 44 bits. *)
Definition in_range (s : redisServer) : Prop :=
  0 <= mvcc_tstamp s < 2 ^ 64 - 1 /\ 0 <= mstime s < 2 ^ 44.

(** A command procedure that never lowers the clock. *)
Definition keeps_clock (proc : redisServer * client -> redisServer * client) : Prop :=
  forall x, mvcc_tstamp (fst x) <= mvcc_tstamp (fst (proc x)).


(** The server as [call] has it when it reaches the increment. *)
Definition entering (s : redisServer) : redisServer :=
  set_fixed_time_expire (fixed_time_expire s + 1) s.


(** *** One caller at a time *)

Lemma incrementMvccTstamp_alone s :
  incrementMvccTstamp s =
    if u64 (mstime s) <=? Z.shiftr (mvcc_tstamp s) MVCC_MS_SHIFT
    then set_mvcc_tstamp (u64 (mvcc_tstamp s + 1)) s
    else set_mvcc_tstamp (u64 (Z.shiftl (u64 (mstime s)) MVCC_MS_SHIFT)) s.
Proof. reflexivity. Qed.

Lemma incrementMvccTstamp_other_fields s :
  mstime (incrementMvccTstamp s) = mstime s /\
  dirty (incrementMvccTstamp s) = dirty s /\
  fixed_time_expire (incrementMvccTstamp s) = fixed_time_expire s.
Proof. rewrite incrementMvccTstamp_alone. now destruct (_ <=? _). Qed.

(** Away from the two ends of the 64-bit word a call that nothing
    overlaps moves the clock forward. *)
Lemma incrementMvccTstamp_lt s :
  in_range s -> mvcc_tstamp s < mvcc_tstamp (incrementMvccTstamp s).
Proof.
  intros [Hc Ht]. rewrite incrementMvccTstamp_alone. unfold MVCC_MS_SHIFT.
  rewrite (u64_small (mstime s)) by lia.
  rewrite Z.shiftr_div_pow2, Z.shiftl_mul_pow2 by lia.
  destruct (Z.leb_spec (mstime s) (mvcc_tstamp s / 2 ^ 20)) as [Hle|Hgt]; cbn.
  - rewrite u64_small; lia.
  - rewrite u64_small by lia.
    pose proof (Z.div_mod (mvcc_tstamp s) (2 ^ 20) ltac:(lia)) as Hdm.
    pose proof (Z.mod_pos_bound (mvcc_tstamp s) (2 ^ 20) ltac:(lia)) as Hm.
    lia.
Qed.

Lemma steps_app n m : forall k s,
  steps (n + m) k s = let '(k', s') := steps n k s in steps m k' s'.
Proof.
  induction n as [|n IH]; intros k s; [reflexivity|].
  cbn [Nat.add steps]. destruct (call_step k s) as [k1 s1]. apply IH.
Qed.


Lemma steps_panicked n : forall k s, pc k = panicked -> steps n k s = (k, s).
Proof.
  induction n as [|n IH]; intros k s Hk; [reflexivity|].
  cbn [steps]. unfold call_step. rewrite Hk. now apply IH.
Qed.

(** A caller whose assertion fails stops there. *)
Lemma steps_refused n k s :
  pc k = enter -> asserted k = false ->
  steps (S n) k s = (at_pc panicked k, s).
Proof.
  intros Hk Ha. cbn [steps]. unfold call_step. rewrite Hk, Ha.
  now apply steps_panicked.
Qed.

(** The first seven steps of a caller whose assertion holds: the dirty
    counter is sampled, the expire freeze counted and the clock
    incremented; the command procedure is next. *)
Lemma steps_to_proc k s :
  pc k = enter -> asserted k = true ->
  steps 7 k s = (at_pc (run_proc (dirty s)) k, incrementMvccTstamp (entering s)).
Proof.
  intros Hk Ha. destruct k as [fl cf gl pr cl p]. cbn [pc] in Hk. subst p.
  cbn [steps]. unfold call_step at 1. cbn [pc]. rewrite Ha.
  rewrite incrementMvccTstamp_alone. unfold entering.
  cbn [steps call_step at_pc pc increment_step set_fixed_time_expire
       mvcc_tstamp mstime dirty fixed_time_expire flags cmd_flags
       GlobalLocksAcquired proc c].
  destruct (u64 (mstime s) <=? Z.shiftr (mvcc_tstamp s) MVCC_MS_SHIFT);
    reflexivity.
Qed.

(** The last three steps: the procedure, the dirty counter, the stamp. *)
Definition finish (k : caller) (dirty0 : Z) (s : redisServer) : caller * redisServer :=
  let after := proc k (s, c k) in
  let d := if negb (Z.land (flags k) CMD_CALL_ASYNC =? 0) then 0
           else dirty (fst after) - dirty0 in
  let d := if d <? 0 then 0 else d in
  (at_pc returned
     (with_client (if negb (d =? 0)
                   then {| mvccCheckpoint := getMvccTstamp (fst after) |}
                   else snd after) k),
   fst after).

Lemma steps_from_proc k dirty0 s :
  pc k = run_proc dirty0 -> steps 3 k s = finish k dirty0 s.
Proof.
  intros Hk. destruct k as [fl cf gl pr cl p]. cbn [pc] in Hk. subst p.
  unfold finish. cbn [steps]. unfold call_step at 1.
  cbn [pc proc c flags]. destruct (pr (s, cl)) as [s' cl'] eqn:E.
  cbn [fst snd]. unfold call_step at 1. cbn [pc at_pc with_client flags].
  destruct (negb (Z.land fl CMD_CALL_ASYNC =? 0)).
  - cbn. reflexivity.
  - destruct (dirty s' - dirty0 <? 0).
    + cbn. reflexivity.
    + destruct (dirty s' - dirty0 =? 0); cbn; reflexivity.
Qed.

(** The whole call, alone. *)
Lemma call_alone k s :
  pc k = enter -> asserted k = true ->
  call k s = finish k (dirty s) (incrementMvccTstamp (entering s)).
Proof.
  intros Hk Ha. unfold call. change 10%nat with (7 + 3)%nat.
  rewrite steps_app, (steps_to_proc k s Hk Ha).
  rewrite (steps_from_proc _ (dirty s)) by reflexivity.
  unfold finish. destruct k; reflexivity.
Qed.

Lemma call_refused k s :
  pc k = enter -> asserted k = false -> call k s = (at_pc panicked k, s).
Proof. intros Hk Ha. now apply steps_refused. Qed.

(** *** Schedules *)

Lemma run_app a b w : run (a ++ b) w = run b (run a w).
Proof. unfold run. apply fold_left_app. Qed.







(** *** The claim *)




Definition far_future : redisServer :=
  {| mvcc_tstamp := 2 ^ 20; mstime := 2 ^ 44; dirty := 0;
     fixed_time_expire := 0 |}.

Definition sample_server : redisServer :=
  {| mvcc_tstamp := 5 * 2 ^ 20 + 7; mstime := 5; dirty := 0;
     fixed_time_expire := 0 |}.

(** A server whose clock is behind the cached time. *)
Definition behind_server : redisServer :=
  {| mvcc_tstamp := 5 * 2 ^ 20 + 7; mstime := 9; dirty := 0;
     fixed_time_expire := 0 |}.

Definition sample_client : client := {| mvccCheckpoint := 0 |}.

(** A write: the procedure raises the dirty counter. *)
Definition sample_write (x : redisServer * client) : redisServer * client :=
  ({| mvcc_tstamp := mvcc_tstamp (fst x); mstime := mstime (fst x);
      dirty := dirty (fst x) + 1;
      fixed_time_expire := fixed_time_expire (fst x) |}, snd x).

(** A read: the procedure leaves the server as it is. *)
Definition sample_read (x : redisServer * client) : redisServer * client := x.

(** A read-only command called asynchronously, without the lock, and a
    write called under the lock. *)
Definition reader : caller :=
  {| flags := CMD_CALL_ASYNC; cmd_flags := CMD_READONLY;
     GlobalLocksAcquired := false; proc := sample_read; c := sample_client;
     pc := enter |}.

Definition writer : caller :=
  {| flags := 0; cmd_flags := CMD_WRITE; GlobalLocksAcquired := true;
     proc := sample_write; c := sample_client; pc := enter |}.

(** A reader and two writes; the reader loads the clock and the cached
    time, the two writes run one after the other, each alone, and then
    the reader stores what it decided on. *)
Definition overlapping : process :=
  {| server := behind_server; callers := [reader; writer; writer];
     aborted := false |}.

Definition stale_store : list event :=
  repeat (thread_step 0) 6 ++ alone 1 ++ alone 2.


(** A cached time of 2^44 ms or more does not fit the high 44 bits: the
    shifted value is truncated. *)
Lemma far_future_truncates :
  wf_server far_future /\
  mvcc_tstamp (incrementMvccTstamp far_future) = 0.
Proof. split; [unfold wf_server; cbn; lia | vm_compute; reflexivity]. Qed.







End Mvcc.

(** ** Bytes

    A byte is a [Z] in [0, 256); multi-byte fields are little-endian, as on
    the x86-64 and AArch64 targets of the server. *)

Fixpoint le_bytes (n : nat) (z : Z) : list Z :=
  match n with
  | O => []
  | S k => (z mod 256) :: le_bytes k (z / 256)
  end.

Fixpoint le_word (bs : list Z) : Z :=
  match bs with
  | [] => 0
  | b :: rest => b + 256 * le_word rest
  end.

Definition bytes_of_string (s : string) : list Z :=
  map (fun a => Z.of_N (N_of_ascii a)) (list_ascii_of_string s).

Lemma length_le_bytes n z : length (le_bytes n z) = n.
Proof. revert z. induction n as [|n IH]; intros z; cbn; [reflexivity|]. now rewrite IH. Qed.

Lemma le_word_bytes n z : le_word (le_bytes n z) = z mod 256 ^ Z.of_nat n.
Proof.
  revert z. induction n as [|n IH]; intros z.
  - cbn. now rewrite Z.mod_1_r.
  - cbn [le_bytes le_word]. rewrite IH.
    rewrite Nat2Z.inj_succ, Z.pow_succ_r by lia.
    rewrite Z.rem_mul_r by lia. lia.
Qed.

Lemma le_word_bytes8 z : le_word (le_bytes 8 z) = u64 z.
Proof. now rewrite le_word_bytes. Qed.

(** ** The value object ([server.h], [object.cpp]) *)

Module Obj.

(** *** Constants of [server.h] *)

Definition OBJ_STRING : Z := 0.
Definition OBJ_LIST : Z := 1.
Definition OBJ_SET : Z := 2.
Definition OBJ_ZSET : Z := 3.
Definition OBJ_HASH : Z := 4.
Definition OBJ_MODULE : Z := 5.
Definition OBJ_STREAM : Z := 6.
Definition OBJ_CRON : Z := 7.
Definition OBJ_NESTEDHASH : Z := 8.

Definition OBJ_ENCODING_RAW : Z := 0.
Definition OBJ_ENCODING_INT : Z := 1.
Definition OBJ_ENCODING_HT : Z := 2.
Definition OBJ_ENCODING_ZIPMAP : Z := 3.
Definition OBJ_ENCODING_LINKEDLIST : Z := 4.
Definition OBJ_ENCODING_ZIPLIST : Z := 5.
Definition OBJ_ENCODING_INTSET : Z := 6.
Definition OBJ_ENCODING_SKIPLIST : Z := 7.
Definition OBJ_ENCODING_EMBSTR : Z := 8.
Definition OBJ_ENCODING_QUICKLIST : Z := 9.
Definition OBJ_ENCODING_STREAM : Z := 10.

Definition LRU_BITS : Z := 24.
Definition OBJ_SHARED_REFCOUNT : Z := 0x7FFFFFFF.
Definition OBJ_STATIC_REFCOUNT : Z := OBJ_SHARED_REFCOUNT - 1.
Definition OBJ_FIRST_SPECIAL_REFCOUNT : Z := OBJ_STATIC_REFCOUNT.
Definition OBJ_MVCC_INVALID : Z := 0xFFFFFFFFFFFFFFFF.
Definition OBJ_SHARED_INTEGERS : Z := 10000.

Definition MAXMEMORY_FLAG_LRU : Z := Z.shiftl 1 0.
Definition MAXMEMORY_FLAG_LFU : Z := Z.shiftl 1 1.
Definition MAXMEMORY_FLAG_ALLKEYS : Z := Z.shiftl 1 2.
Definition MAXMEMORY_FLAG_NO_SHARED_INTEGERS : Z :=
  Z.lor MAXMEMORY_FLAG_LRU MAXMEMORY_FLAG_LFU.
Definition MAXMEMORY_VOLATILE_LRU : Z := Z.lor (Z.shiftl 0 8) MAXMEMORY_FLAG_LRU.
Definition MAXMEMORY_NO_EVICTION : Z := Z.shiftl 7 8.
Definition LFU_INIT_VAL : Z := 5.
Definition UINT8_MAX : Z := 255.

(** [object.cpp]: the initialiser of the global; nothing in the sources
    assigns it. *)
Definition OBJ_ENCODING_EMBSTR_SIZE_LIMIT : Z := 52.

(** Sizes on the LP64 targets.  [static_assert(sizeof(redisObject) <= 24)]
    and [sizeof(robj) + sizeof(mvcc) == sizeof(redisObjectStack)] are in
    the sources; the four members are 4 bytes of bit-fields, the 4-byte
    atomic count, the expire entry and the 8-byte pointer. *)
Definition sizeof_robj : Z := 24.
Definition sizeof_redisObjectExtended : Z := 8.
Definition sizeof_m_ptr : Z := 8.
Definition sizeof_void_ptr : Z := 8.

(** Modelled from the spec: [sds.h] is not part of these sources.  The
    embedded string uses the one-byte-length header ([len], [alloc],
    [flags]), whose type tag is [SDS_TYPE_8]. *)
Definition SDS_TYPE_8 : Z := 1.
Definition sizeof_sdshdr8 : Z := 3.

(** Modelled from the spec: [rdb.h] is not part of these sources; section
    6.2 writes the leading byte of a stored string as "type=STRING". *)
Definition RDB_TYPE_STRING : Z := 0.

(** *** Strings and objects *)

(** An sds: its bytes (without the terminator) and the unused tail of the
    allocation. *)
Record sds : Type := { buf : list Z; avail : Z }.

Definition sdslen (s : sds) : Z := Z.of_nat (length (buf s)).
Definition sdsavail (s : sds) : Z := avail s.

(** [struct redisObject] with what lies around it in memory:
    [mvcc_tstamp] is the [redisObjectExtended] allocated in front of the
    object on an active replica; [m_ptr] is the word in the pointer slot
    (an address, or the integer of an INT-encoded string, or for EMBSTR the
    first bytes of the header and buffer that overlay the slot);
    [sdsdata] is the string [ptrFromObj] leads to, when there is one. *)
Record redisObject : Type := {
  mvcc_tstamp : Z;
  type : Z;          (* unsigned type:4 *)
  encoding : Z;      (* unsigned encoding:4 *)
  lru : Z;           (* unsigned lru:LRU_BITS *)
  refcount : Z;      (* std::atomic<unsigned>, bit 31 is the expire flag *)
  expire : Z;        (* expireEntry, as the raw 8 bytes *)
  m_ptr : Z;
  sdsdata : option sds
}.

Definition set_mvcc (v : Z) (o : redisObject) : redisObject :=
  {| mvcc_tstamp := v; type := type o; encoding := encoding o; lru := lru o;
     refcount := refcount o; expire := expire o; m_ptr := m_ptr o;
     sdsdata := sdsdata o |}.
Definition set_type (v : Z) (o : redisObject) : redisObject :=
  {| mvcc_tstamp := mvcc_tstamp o; type := v mod 16; encoding := encoding o;
     lru := lru o; refcount := refcount o; expire := expire o;
     m_ptr := m_ptr o; sdsdata := sdsdata o |}.
Definition set_encoding (v : Z) (o : redisObject) : redisObject :=
  {| mvcc_tstamp := mvcc_tstamp o; type := type o; encoding := v mod 16;
     lru := lru o; refcount := refcount o; expire := expire o;
     m_ptr := m_ptr o; sdsdata := sdsdata o |}.
Definition set_lru (v : Z) (o : redisObject) : redisObject :=
  {| mvcc_tstamp := mvcc_tstamp o; type := type o; encoding := encoding o;
     lru := v mod 2 ^ LRU_BITS; refcount := refcount o; expire := expire o;
     m_ptr := m_ptr o; sdsdata := sdsdata o |}.
Definition set_refcount (v : Z) (o : redisObject) : redisObject :=
  {| mvcc_tstamp := mvcc_tstamp o; type := type o; encoding := encoding o;
     lru := lru o; refcount := v; expire := expire o; m_ptr := m_ptr o;
     sdsdata := sdsdata o |}.
Definition set_m_ptr (v : Z) (d : option sds) (o : redisObject) : redisObject :=
  {| mvcc_tstamp := mvcc_tstamp o; type := type o; encoding := encoding o;
     lru := lru o; refcount := refcount o; expire := expire o; m_ptr := v;
     sdsdata := d |}.

(** *** The refcount word ([server.h], the inline members) *)

Definition EXPIRE_BIT : Z := Z.shiftl 1 31.          (* 1U << 31 *)
Definition REFCOUNT_MASK : Z := u32 (Z.lnot EXPIRE_BIT).  (* ~(1U << 31) *)

Definition FExpires (o : redisObject) : bool :=
  negb (Z.shiftr (refcount o) 31 =? 0).

Definition getrefcount (o : redisObject) : Z :=
  Z.land (refcount o) REFCOUNT_MASK.

(** [fetch_add(1)] *)
Definition addref (o : redisObject) : redisObject :=
  set_refcount (u32 (refcount o + 1)) o.

(** [fetch_sub(1) & ~(1U << 31)]: the masked previous count and the
    object after the subtraction. *)
Definition release (o : redisObject) : Z * redisObject :=
  (Z.land (refcount o) REFCOUNT_MASK, set_refcount (u32 (refcount o - 1)) o).

Definition sdsEncodedObject (o : redisObject) : bool :=
  (encoding o =? OBJ_ENCODING_RAW) || (encoding o =? OBJ_ENCODING_EMBSTR).

(** *** The process: live objects, allocator, server settings *)

(** What the object code asks of collaborators that own the payloads. *)
Inductive event : Type :=
| EvSdsFree (ptr : Z)                  (* sdsfree *)
| EvZfree (ptr : Z)                    (* zfree *)
| EvQuicklistRelease (ptr : Z)
| EvDictRelease (ptr : Z)
| EvZsetRelease (ptr : Z)              (* dictRelease, zslFree, zfree of a zset *)
| EvModuleFree (ptr : Z)
| EvFreeStream (ptr : Z)
| EvFreeCronObject (obj : Z)
| EvFreeNestedHashObject (obj : Z)
| EvDestructor (obj : Z).              (* o->~redisObject() *)

Record redisServer : Type := {
  maxmemory : Z;
  maxmemory_policy : Z;
  fActiveReplica : bool;
  lruclock : Z;
  unixtime : Z
}.

Record world : Type := {
  heap : gmap Z redisObject;     (* live objects by address, on the heap or a stack *)
  brk : Z;                       (* next address the allocator hands out *)
  junk : Z;                      (* the byte found in uninitialised memory *)
  log : list event;              (* releases requested so far, oldest first *)
  g_pserver : redisServer;
  shared_integers : gmap Z Z     (* shared.integers[] *)
}.

Definition set_heap (f : gmap Z redisObject -> gmap Z redisObject) (w : world) : world :=
  {| heap := f (heap w); brk := brk w; junk := junk w; log := log w;
     g_pserver := g_pserver w; shared_integers := shared_integers w |}.
Definition set_brk (v : Z) (w : world) : world :=
  {| heap := heap w; brk := v; junk := junk w; log := log w;
     g_pserver := g_pserver w; shared_integers := shared_integers w |}.
Definition add_log (e : event) (w : world) : world :=
  {| heap := heap w; brk := brk w; junk := junk w; log := log w ++ [e];
     g_pserver := g_pserver w; shared_integers := shared_integers w |}.
Definition set_shared_integer (j a : Z) (w : world) : world :=
  {| heap := heap w; brk := brk w; junk := junk w; log := log w;
     g_pserver := g_pserver w;
     shared_integers := <[j := a]> (shared_integers w) |}.

(** *** Access to objects through pointers *)

Definition deref (o : Z) : M world redisObject :=
  fun w => match heap w !! o with
           | Some obj => Done (obj, w)
           | None => Undefined "dereference of a pointer to no live object"
           end.

Definition store (o : Z) (obj : redisObject) : M world unit :=
  modify (set_heap (insert o obj)).

Definition update (o : Z) (f : redisObject -> redisObject) : M world unit :=
  do obj <- deref o; store o (f obj).

Definition emit (e : event) : M world unit := modify (add_log e).

(** [zmalloc]/[zcalloc]: a block nothing else occupies. *)
Definition zmalloc (size : Z) : M world Z :=
  fun w => Done (brk w, set_brk (brk w + size) w).

(** [ptrFromObj]: the address, and [szFromObj]: the string found there. *)
Definition ptrFromObj (o : Z) (obj : redisObject) : Z :=
  if encoding obj =? OBJ_ENCODING_EMBSTR
  then o + (sizeof_robj - sizeof_m_ptr) + sizeof_sdshdr8
  else m_ptr obj.

Definition szFromObj (o : Z) : M world sds :=
  do obj <- deref o;
  match sdsdata obj with
  | Some s => ret s
  | None => undefined "szFromObj of an object that holds no string"
  end.

(** Modelled from the spec: [evict.cpp] is not part of these sources.
    [LRU_CLOCK] yields the server's cached LRU clock (section 4.7: "LRU
    uses a wrapping clock") and [LFUGetTimeInMinutes] the minutes of the
    cached time, 16 bits wide. *)
Definition LRU_CLOCK : M world Z :=
  do w <- get; ret (lruclock (g_pserver w)).
Definition LFUGetTimeInMinutes : M world Z :=
  do w <- get; ret (Z.land (unixtime (g_pserver w) / 60) 65535).

(** *** [object.cpp]: the out-of-line members *)

Definition SetFExpires (this : Z) (fExpire : bool) : M world unit :=
  do obj <- deref this;
  exec serverAssert (negb (refcount obj =? OBJ_SHARED_REFCOUNT)
                     || Bool.eqb fExpire (FExpires obj))
       "this->refcount != OBJ_SHARED_REFCOUNT || fExpire == FExpires()";
  if fExpire
  then store this (set_refcount (Z.lor (refcount obj) EXPIRE_BIT) obj)
  else store this (set_refcount (Z.land (refcount obj) REFCOUNT_MASK) obj).

Definition setrefcount (this : Z) (ref : Z) : M world unit :=
  do obj <- deref this;
  exec serverAssert (negb (FExpires obj)) "!FExpires()";
  store this (set_refcount ref obj).

Definition mvccFromObj (o : Z) : M world Z :=
  do w <- get;
  if fActiveReplica (g_pserver w)
  then (do obj <- deref o; ret (mvcc_tstamp obj))
  else ret OBJ_MVCC_INVALID.

Definition setMvccTstamp (o : Z) (mvcc : Z) : M world unit :=
  do w <- get;
  if negb (fActiveReplica (g_pserver w)) then ret tt
  else update o (set_mvcc mvcc).

(** *** Creation *)

Section Externals.

(** The raw bytes of a default-constructed [expireEntry]; the class is in
    [expire.h], which is not part of these sources. *)
Variable expire_init : Z.

(** The object right after [new (o) redisObject] in a block whose other
    bytes all read [fill]: the count has its member initialiser [{0}] and
    the expire entry its default constructor. *)
Definition constructed (fill : Z) : redisObject :=
  {| mvcc_tstamp := le_word (repeat fill 8);
     type := fill mod 16; encoding := (fill / 16) mod 16;
     lru := le_word (repeat fill 3);
     refcount := 0; expire := expire_init;
     m_ptr := le_word (repeat fill 8); sdsdata := None |}.

Definition mvccExtraBytes : M world Z :=
  do w <- get;
  ret (if fActiveReplica (g_pserver w) then sizeof_redisObjectExtended else 0).

(** The LRU word both constructors store. *)
Definition init_lru (o : Z) : M world unit :=
  do w <- get;
  if negb (Z.land (maxmemory_policy (g_pserver w)) MAXMEMORY_FLAG_LFU =? 0)
  then (do m <- LFUGetTimeInMinutes;
        update o (set_lru (Z.lor (Z.shiftl m 8) LFU_INIT_VAL)))
  else (do c <- LRU_CLOCK; update o (set_lru c)).

(** [createObject(type, ptr)]; [pointee] is the string [ptr] points to,
    if it points to one. *)
Definition createObject (type : Z) (ptr : Z) (pointee : option sds) : M world Z :=
  do extra <- mvccExtraBytes;
  do oB <- zmalloc (sizeof_robj + extra);          (* zcalloc *)
  let o := oB + extra in
  exec store o (constructed 0);
  exec update o (set_type type);
  exec update o (set_encoding OBJ_ENCODING_RAW);
  exec update o (set_m_ptr ptr pointee);
  exec setrefcount o 1;
  exec setMvccTstamp o OBJ_MVCC_INVALID;
  exec init_lru o;
  ret o.

Definition makeObjectShared (o : Z) : M world Z :=
  do obj <- deref o;
  exec serverAssert (getrefcount obj =? 1)
       "o->getrefcount(std::memory_order_relaxed) == 1";
  exec serverAssert (negb (FExpires obj)) "!o->FExpires()";
  exec setrefcount o OBJ_SHARED_REFCOUNT;
  ret o.

(** Modelled from the spec: [sds.c] is not part of these sources.  The
    source of the bytes of a new string: [SDS_NOINIT], a null pointer
    (zero fill), or a buffer to copy from. *)
Inductive sdsinit : Type :=
| SDS_NOINIT
| NullInit
| Buffer (bytes : list Z).

(** The [len] bytes a new string starts with; copying more than the
    buffer holds reads past its end. *)
Definition initial_bytes (init : sdsinit) (len : Z) : M world (list Z) :=
  match init with
  | SDS_NOINIT => do w <- get; ret (repeat (junk w) (Z.to_nat len))
  | NullInit => ret (repeat 0 (Z.to_nat len))
  | Buffer bytes =>
      if len <=? Z.of_nat (length bytes)
      then ret (firstn (Z.to_nat len) bytes)
      else undefined "memcpy reads past the end of the source buffer"
  end.

(** Modelled from the spec: [sdsnewlen] of [sds.c] allocates header,
    [len] bytes and a terminator, with no spare room; the result is the
    address of the bytes and the string there. *)
Definition sdsnewlen (init : sdsinit) (len : Z) : M world (Z * sds) :=
  do bytes <- initial_bytes init len;
  do block <- zmalloc (sizeof_sdshdr8 + len + 1);
  ret (block + sizeof_sdshdr8, {| buf := bytes; avail := 0 |}).

Definition sdsfree (ptr : Z) : M world unit := emit (EvSdsFree ptr).

(** Modelled from the spec: [sdsRemoveFreeSpace] gives the spare room
    back and keeps the bytes; the block is shrunk in place. *)
Definition sdsRemoveFreeSpace (ptr : Z) (s : sds) : Z * sds :=
  (ptr, {| buf := buf s; avail := 0 |}).

(** The first eight bytes of an embedded string's header and buffer: they
    lie where other encodings keep the pointer. *)
Definition embedded_slot (fill len : Z) (bytes : list Z) : Z :=
  le_word (firstn 8 ([len mod 256; len mod 256; SDS_TYPE_8]
                       ++ bytes ++ [0] ++ repeat fill 8)).

Definition createEmbeddedStringObject (ptr : sdsinit) (len : Z) : M world Z :=
  exec serverAssert (len <=? UINT8_MAX) "len <= UINT8_MAX";
  let allocsize := sizeof_sdshdr8 + len + 1 in
  let allocsize :=
    if allocsize <? sizeof_void_ptr then sizeof_void_ptr else allocsize in
  do extra <- mvccExtraBytes;
  do oB <- zmalloc (sizeof_robj + allocsize - sizeof_m_ptr + extra);
  let o := oB + extra in
  do w <- get;
  exec store o (constructed (junk w));
  exec update o (set_type OBJ_STRING);
  exec update o (set_encoding OBJ_ENCODING_EMBSTR);
  exec setrefcount o 1;
  exec setMvccTstamp o OBJ_MVCC_INVALID;
  exec init_lru o;
  do bytes <- initial_bytes ptr len;     (* sh->len, alloc, flags, buf *)
  exec update o (set_m_ptr (embedded_slot (junk w) len bytes)
                           (Some {| buf := bytes; avail := 0 |}));
  ret o.

Definition createRawStringObject (ptr : sdsinit) (len : Z) : M world Z :=
  do ps <- sdsnewlen ptr len;
  createObject OBJ_STRING (fst ps) (Some (snd ps)).

Definition createStringObject (ptr : sdsinit) (len : Z) : M world Z :=
  if len <=? OBJ_ENCODING_EMBSTR_SIZE_LIMIT
  then createEmbeddedStringObject ptr len
  else createRawStringObject ptr len.

(** *** Reference counting *)

Definition incrRefCount (o : Z) : M world unit :=
  do obj <- deref o;
  let refcount := getrefcount obj in
  if refcount <? OBJ_FIRST_SPECIAL_REFCOUNT then update o addref
  else if refcount =? OBJ_SHARED_REFCOUNT then ret tt
  else if refcount =? OBJ_STATIC_REFCOUNT
       then serverPanic "You tried to retain an object allocated in the stack"
       else ret tt.

Definition freeStringObject (o : Z) : M world unit :=
  do obj <- deref o;
  if encoding obj =? OBJ_ENCODING_RAW then sdsfree (ptrFromObj o obj) else ret tt.

Definition freeListObject (o : Z) : M world unit :=
  do obj <- deref o;
  if encoding obj =? OBJ_ENCODING_QUICKLIST
  then emit (EvQuicklistRelease (ptrFromObj o obj))
  else if encoding obj =? OBJ_ENCODING_ZIPLIST
       then emit (EvZfree (ptrFromObj o obj))
       else serverPanic "Unknown list encoding type".

Definition freeSetObject (o : Z) : M world unit :=
  do obj <- deref o;
  if encoding obj =? OBJ_ENCODING_HT
  then emit (EvDictRelease (ptrFromObj o obj))
  else if encoding obj =? OBJ_ENCODING_INTSET
       then emit (EvZfree (ptrFromObj o obj))
       else serverPanic "Unknown set encoding type".

Definition freeZsetObject (o : Z) : M world unit :=
  do obj <- deref o;
  if encoding obj =? OBJ_ENCODING_SKIPLIST
  then emit (EvZsetRelease (ptrFromObj o obj))
  else if encoding obj =? OBJ_ENCODING_ZIPLIST
       then emit (EvZfree (ptrFromObj o obj))
       else serverPanic "Unknown sorted set encoding".

Definition freeHashObject (o : Z) : M world unit :=
  do obj <- deref o;
  if encoding obj =? OBJ_ENCODING_HT
  then emit (EvDictRelease (ptrFromObj o obj))
  else if encoding obj =? OBJ_ENCODING_ZIPLIST
       then emit (EvZfree (ptrFromObj o obj))
       else serverPanic "Unknown hash encoding type".

Definition freeModuleObject (o : Z) : M world unit :=
  do obj <- deref o; emit (EvModuleFree (ptrFromObj o obj)).

Definition freeStreamObject (o : Z) : M world unit :=
  do obj <- deref o; emit (EvFreeStream (ptrFromObj o obj)).

(** [cron.cpp] and [t_nhash.cpp] are not part of these sources. *)
Definition freeCronObject (o : Z) : M world unit := emit (EvFreeCronObject o).
Definition freeNestedHashObject (o : Z) : M world unit :=
  emit (EvFreeNestedHashObject o).

(** The [switch] of [decrRefCount]. *)
Definition free_by_type (type : Z) (o : Z) : M world unit :=
  if type =? OBJ_STRING then freeStringObject o
  else if type =? OBJ_LIST then freeListObject o
  else if type =? OBJ_SET then freeSetObject o
  else if type =? OBJ_ZSET then freeZsetObject o
  else if type =? OBJ_HASH then freeHashObject o
  else if type =? OBJ_MODULE then freeModuleObject o
  else if type =? OBJ_STREAM then freeStreamObject o
  else if type =? OBJ_CRON then freeCronObject o
  else if type =? OBJ_NESTEDHASH then freeNestedHashObject o
  else serverPanic "Unknown object type".

(** [decrRefCount].  [o->release()] acts on the count before anything
    else is looked at; the final [zfree] gives back the block the object
    starts in, after which the object is gone. *)
Definition decrRefCount (o : Z) : M world unit :=
  do obj <- deref o;
  if getrefcount obj =? OBJ_SHARED_REFCOUNT then ret tt
  else
    let prev := fst (release obj) in
    exec store o (snd (release obj));
    if prev =? 1 then
      exec free_by_type (type obj) o;
      exec emit (EvDestructor o);
      do w <- get;
      exec (if fActiveReplica (g_pserver w)
            then emit (EvZfree (o - sizeof_redisObjectExtended))
            else emit (EvZfree o));
      modify (set_heap (delete o))
    else
      if prev <=? 0 then serverPanic "decrRefCount against refcount <= 0"
      else ret tt.

(** *** Shared integers ([createSharedObjects] of [server.cpp]) *)

Definition shared_integer (j : Z) : M world Z :=
  fun w => match shared_integers w !! j with
           | Some a => Done (a, w)
           | None => Undefined "shared.integers[] read before it is filled"
           end.

Fixpoint createSharedIntegers (n : nat) (j : Z) : M world unit :=
  match n with
  | O => ret tt
  | S k =>
      do o <- createObject OBJ_STRING (u64 j) None;
      do o <- makeObjectShared o;
      exec modify (set_shared_integer j o);
      exec update o (set_encoding OBJ_ENCODING_INT);
      createSharedIntegers k (j + 1)
  end.

Definition createSharedObjects : M world unit :=
  createSharedIntegers (Z.to_nat OBJ_SHARED_INTEGERS) 0.

(** *** Integers in strings *)

(** Modelled from the spec: [string2ll] and [string2l] are in [util.c],
    which is not part of these sources.  Section 4.1 asks that "the
    byte-string parses as an integer in [-2^63, 2^63)"; the parser accepts
    exactly the canonical decimal texts: an optional minus sign, a first
    digit 1-9 and further digits, or the single digit 0, with every step
    checked against the 64-bit range. *)
Definition is_digit (c : Z) : bool := (48 <=? c) && (c <=? 57).

Fixpoint string2ll_digits (p : list Z) (v : Z) : option Z :=
  match p with
  | [] => Some v
  | c :: rest =>
      if is_digit c then
        if ULLONG_MAX / 10 <? v then None
        else
          let v := v * 10 in
          if ULLONG_MAX - (c - 48) <? v then None
          else string2ll_digits rest (v + (c - 48))
      else None
  end.

Definition string2ll (s : list Z) : option Z :=
  match s with
  | [] => None
  | c0 :: rest0 =>
      if (c0 =? 48) && (length rest0 =? 0)%nat then Some 0
      else
        let negative := c0 =? 45 in
        let p := if negative then rest0 else s in
        match p with
        | [] => None
        | c :: rest =>
            if (49 <=? c) && (c <=? 57) then
              match string2ll_digits rest (c - 48) with
              | None => None
              | Some v =>
                  if negative
                  then (if 2 ^ 63 <? v then None else Some (- v))
                  else (if LONG_MAX <? v then None else Some v)
              end
            else None
        end
  end.

Definition string2l (s : list Z) : option Z :=
  match string2ll s with
  | None => None
  | Some llval =>
      if (llval <? LONG_MIN) || (LONG_MAX <? llval) then None else Some llval
  end.

(** Modelled from the spec: [sdsfromlonglong] of [sds.c], the decimal
    text of a number. *)
Definition sdsfromlonglong (value : Z) : list Z :=
  bytes_of_string (NilZero.string_of_int (Z.to_int value)).

Definition createStringObjectFromLongLongWithOptions (value : Z) (valueobj : Z)
  : M world Z :=
  do w <- get;
  let valueobj :=
    if (maxmemory (g_pserver w) =? 0)
       || (Z.land (maxmemory_policy (g_pserver w))
                  MAXMEMORY_FLAG_NO_SHARED_INTEGERS =? 0)
    then 0 else valueobj in
  if (0 <=? value) && (value <? OBJ_SHARED_INTEGERS) && (valueobj =? 0) then
    do sh <- shared_integer value;
    exec incrRefCount sh;
    ret sh
  else if (LONG_MIN <=? value) && (value <=? LONG_MAX) then
    do o <- createObject OBJ_STRING 0 None;
    exec update o (set_encoding OBJ_ENCODING_INT);
    exec update o (set_m_ptr (u64 value) None);
    ret o
  else
    do ps <- sdsnewlen (Buffer (sdsfromlonglong value))
                       (Z.of_nat (length (sdsfromlonglong value)));
    createObject OBJ_STRING (fst ps) (Some (snd ps)).

Definition createStringObjectFromLongLong (value : Z) : M world Z :=
  createStringObjectFromLongLongWithOptions value 0.

Definition createStringObjectFromLongLongForValue (value : Z) : M world Z :=
  createStringObjectFromLongLongWithOptions value 1.

Definition trimStringObjectIfNeeded (o : Z) : M world unit :=
  do obj <- deref o;
  if encoding obj =? OBJ_ENCODING_RAW then
    do s <- szFromObj o;
    if sdslen s / 10 <? sdsavail s
    then update o (set_m_ptr (fst (sdsRemoveFreeSpace (m_ptr obj) s))
                             (Some (snd (sdsRemoveFreeSpace (m_ptr obj) s))))
    else ret tt
  else ret tt.

(** The last two steps of [tryObjectEncoding], reached when the string is
    not replaced by an integer. *)
Definition tryObjectEncoding_emb_or_trim (o : Z) (obj : redisObject) (s : sds)
  : M world Z :=
  let len := sdslen s in
  if len <=? OBJ_ENCODING_EMBSTR_SIZE_LIMIT then
    if encoding obj =? OBJ_ENCODING_EMBSTR then ret o
    else
      do emb <- createEmbeddedStringObject (Buffer (buf s)) (sdslen s);
      exec decrRefCount o;
      ret emb
  else
    exec trimStringObjectIfNeeded o;
    ret o.

(** [tryObjectEncoding].  The string behind [szFromObj(o)] is looked at
    only after the two early returns, as in the source, where the pointer
    is computed first but not followed. *)
Definition tryObjectEncoding (o : Z) : M world Z :=
  do obj <- deref o;
  exec serverAssert (type obj =? OBJ_STRING) "o->type == OBJ_STRING";
  if negb (sdsEncodedObject obj) then ret o
  else if 1 <? getrefcount obj then ret o
  else
    do s <- szFromObj o;
    let len := sdslen s in
    do w <- get;
    match (if len <=? 20 then string2l (buf s) else None) with
    | Some value =>
        if ((maxmemory (g_pserver w) =? 0)
            || (Z.land (maxmemory_policy (g_pserver w))
                       MAXMEMORY_FLAG_NO_SHARED_INTEGERS =? 0))
           && (0 <=? value) && (value <? OBJ_SHARED_INTEGERS)
        then
          exec decrRefCount o;
          do sh <- shared_integer value;
          exec incrRefCount sh;
          ret sh
        else if encoding obj =? OBJ_ENCODING_RAW then
          exec sdsfree (ptrFromObj o obj);
          exec update o (set_encoding OBJ_ENCODING_INT);
          exec update o (set_m_ptr (u64 value) None);
          ret o
        else if encoding obj =? OBJ_ENCODING_EMBSTR then
          exec decrRefCount o;
          createStringObjectFromLongLongForValue value
        else tryObjectEncoding_emb_or_trim o obj s
    | None => tryObjectEncoding_emb_or_trim o obj s
    end.

(** *** Stored objects ([serializeStoredObject] and its inverse) *)

(** The other value types are written and read with the RDB dump code
    ([createDumpPayload] of [cluster.cpp], the loaders of [rdb.cpp]) which
    is not part of these sources: the dump of an object, and the whole
    non-string branch of the reader, are parameters. *)
Variable createDumpPayload : redisObject -> list Z.
Variable rdbLoadStoredObject : list Z -> Z -> M world Z.

(** The [sizeof(robj)] bytes at the object's address: the bit-fields
    share the first word, [type] in the low four bits, [encoding] above
    it and [lru] in the upper three bytes; then the count, the expire
    entry and the pointer slot. *)
Definition robj_bytes (obj : redisObject) : list Z :=
  [type obj mod 16 + 16 * (encoding obj mod 16)]
    ++ le_bytes 3 (lru obj)
    ++ le_bytes 4 (refcount obj)
    ++ le_bytes 8 (expire obj)
    ++ le_bytes 8 (m_ptr obj).

(** The members the reader takes from such bytes. *)
Definition header_encoding (oT : list Z) : Z := (nth 0 oT 0 / 16) mod 16.
Definition header_lru (oT : list Z) : Z := le_word (firstn 3 (skipn 1 oT)).
Definition header_m_ptr (oT : list Z) : Z := le_word (firstn 8 (skipn 16 oT)).

Definition sizeof_uint64 : Z := 8.

Definition serializeStoredStringObject (str : list Z) (o : Z) : M world (list Z) :=
  do mvcc <- mvccFromObj o;
  let str := str ++ le_bytes 8 mvcc in
  do obj <- deref o;
  let str := str ++ robj_bytes obj in
  if (encoding obj =? OBJ_ENCODING_EMBSTR) || (encoding obj =? OBJ_ENCODING_RAW)
  then (do s <- szFromObj o; ret (str ++ buf s))
  else if encoding obj =? OBJ_ENCODING_INT then ret str
  else ret str.

Definition serializeStoredObject (o : Z) (sdsPrefix : option (list Z))
  : M world (list Z) :=
  do obj <- deref o;
  if type obj =? OBJ_STRING then
    let sdsT := match sdsPrefix with
                | Some prefix => prefix ++ [0]      (* sdsgrowzero *)
                | None => [0]                       (* sdsnewlen(nullptr, 1) *)
                end in
    let sdsT := <[(length sdsT - 1)%nat := RDB_TYPE_STRING]> sdsT in
    serializeStoredStringObject sdsT o
  else
    ret (match sdsPrefix with
         | Some prefix => prefix ++ createDumpPayload obj
         | None => createDumpPayload obj
         end).

(** [cb] is a [size_t]: the subtraction wraps. *)
Definition deserializeStoredStringObject (data : list Z) (cb : Z) : M world Z :=
  if Z.of_nat (length data) <? sizeof_uint64 + sizeof_robj
  then undefined "read past the end of the stored bytes"
  else
    let mvcc := le_word (firstn 8 data) in
    let oT := skipn 8 data in
    let payload := skipn (Z.to_nat (sizeof_robj + sizeof_uint64)) data in
    let cch := u64 (cb - sizeof_robj - sizeof_uint64) in
    do newObject <-
      (if header_encoding oT =? OBJ_ENCODING_INT then
         do o <- createObject OBJ_STRING 0 None;
         exec update o (set_encoding (header_encoding oT));
         exec update o (set_m_ptr (header_m_ptr oT) None);
         ret o
       else if header_encoding oT =? OBJ_ENCODING_EMBSTR then
         createEmbeddedStringObject (Buffer payload) cch
       else if header_encoding oT =? OBJ_ENCODING_RAW then
         do ps <- sdsnewlen SDS_NOINIT cch;
         do o <- createObject OBJ_STRING (fst ps) (Some (snd ps));
         exec update o (set_lru (header_lru oT));
         do bytes <- initial_bytes (Buffer payload) cch;     (* memcpy *)
         exec update o (set_m_ptr (fst ps) (Some {| buf := bytes; avail := 0 |}));
         ret o
       else serverPanic "Unknown string object encoding from storage");
    exec setMvccTstamp newObject mvcc;
    ret newObject.

Definition deserializeStoredObject (data : list Z) (cb : Z) : M world Z :=
  match data with
  | [] => undefined "read past the end of the stored bytes"
  | b :: rest =>
      if b =? RDB_TYPE_STRING
      then deserializeStoredStringObject rest (u64 (cb - 1))
      else rdbLoadStoredObject data cb
  end.

(** *** The refcount word: arithmetic *)

(** The count is a 32-bit word. *)
Definition wf_obj (o : redisObject) : Prop := 0 <= refcount o < 2 ^ 32.

Lemma REFCOUNT_MASK_ones : REFCOUNT_MASK = Z.ones 31.
Proof. reflexivity. Qed.

Lemma getrefcount_mod o : getrefcount o = refcount o mod 2 ^ 31.
Proof. unfold getrefcount. rewrite REFCOUNT_MASK_ones. apply Z.land_ones. lia. Qed.

Lemma FExpires_ge o : wf_obj o -> FExpires o = (2 ^ 31 <=? refcount o).
Proof.
  unfold wf_obj, FExpires. intros H. rewrite Z.shiftr_div_pow2 by lia.
  destruct (Z.leb_spec (2 ^ 31) (refcount o)) as [Hge|Hlt].
  - assert (1 <= refcount o / 2 ^ 31) by (apply Z.div_le_lower_bound; lia).
    destruct (Z.eqb_spec (refcount o / 2 ^ 31) 0); [lia | reflexivity].
  - rewrite Z.div_small by lia. reflexivity.
Qed.

Lemma refcount_split o :
  wf_obj o ->
  refcount o = getrefcount o + (if FExpires o then 2 ^ 31 else 0) /\
  0 <= getrefcount o < 2 ^ 31.
Proof.
  intros H. rewrite FExpires_ge, getrefcount_mod by assumption.
  pose proof (Z.mod_pos_bound (refcount o) (2 ^ 31) ltac:(lia)) as Hm.
  pose proof (Z.div_mod (refcount o) (2 ^ 31) ltac:(lia)) as Hdm.
  unfold wf_obj in H. split; [|lia].
  destruct (Z.leb_spec (2 ^ 31) (refcount o)) as [Hge|Hlt].
  - assert (refcount o / 2 ^ 31 = 1) by
      (apply Z.le_antisymm;
       [apply Z.lt_succ_r, Z.div_lt_upper_bound; lia
       |apply Z.div_le_lower_bound; lia]).
    lia.
  - rewrite Z.mod_small; lia.
Qed.

Lemma FExpires_set_refcount v o :
  0 <= v < 2 ^ 32 -> FExpires (set_refcount v o) = (2 ^ 31 <=? v).
Proof. intros H. now rewrite FExpires_ge. Qed.

Lemma getrefcount_set_refcount v o :
  getrefcount (set_refcount v o) = v mod 2 ^ 31.
Proof. now rewrite getrefcount_mod. Qed.

Lemma release_spec o :
  wf_obj o -> 1 <= getrefcount o ->
  fst (release o) = getrefcount o /\
  refcount (snd (release o)) = refcount o - 1 /\
  getrefcount (snd (release o)) = getrefcount o - 1 /\
  FExpires (snd (release o)) = FExpires o.
Proof.
  intros Hwf Hge. destruct (refcount_split o Hwf) as [Hs Hr].
  assert (Hu : u32 (refcount o - 1) = refcount o - 1)
    by (apply u32_small; unfold wf_obj in Hwf; destruct (FExpires o); lia).
  unfold release. cbn [fst snd]. rewrite Hu.
  split; [reflexivity|]. split; [reflexivity|].
  rewrite getrefcount_set_refcount, FExpires_set_refcount
    by (unfold wf_obj in Hwf; destruct (FExpires o); lia).
  destruct (FExpires o) eqn:HF.
  - split.
    + replace (refcount o - 1) with (getrefcount o - 1 + 1 * 2 ^ 31) by lia.
      rewrite Z.mod_add by lia. apply Z.mod_small. lia.
    + apply Z.leb_le. lia.
  - split.
    + rewrite Z.mod_small; lia.
    + apply Z.leb_gt. lia.
Qed.

Lemma addref_spec o :
  wf_obj o -> getrefcount o < OBJ_SHARED_REFCOUNT ->
  refcount (addref o) = refcount o + 1 /\
  getrefcount (addref o) = getrefcount o + 1 /\
  FExpires (addref o) = FExpires o.
Proof.
  unfold OBJ_SHARED_REFCOUNT. intros Hwf Hlt.
  destruct (refcount_split o Hwf) as [Hs Hr].
  assert (Hu : u32 (refcount o + 1) = refcount o + 1)
    by (apply u32_small; unfold wf_obj in Hwf; destruct (FExpires o); lia).
  unfold addref. rewrite Hu. split; [reflexivity|].
  rewrite getrefcount_set_refcount, FExpires_set_refcount
    by (unfold wf_obj in Hwf; destruct (FExpires o); lia).
  destruct (FExpires o) eqn:HF.
  - split.
    + replace (refcount o + 1) with (getrefcount o + 1 + 1 * 2 ^ 31) by lia.
      rewrite Z.mod_add by lia. apply Z.mod_small. lia.
    + apply Z.leb_le. lia.
  - split.
    + rewrite Z.mod_small; lia.
    + apply Z.leb_gt. lia.
Qed.

(** *** Running the object code *)

Lemma deref_Some w o obj : heap w !! o = Some obj -> deref o w = Done (obj, w).
Proof. intros H. unfold deref. now rewrite H. Qed.

Lemma heap_store o obj w : heap (set_heap (insert o obj) w) !! o = Some obj.
Proof. cbn. apply lookup_insert_eq. Qed.

Lemma set_heap_id o obj w :
  heap w !! o = Some obj -> set_heap (insert o obj) w = w.
Proof.
  intros H. destruct w as [h b j l g sh]. unfold set_heap. cbn in *.
  f_equal. now apply insert_id.
Qed.

Ltac has_var t := match t with context [?x] => is_var x end.

(** Unfold the monad and the accessors, following lookups just stored and
    deciding the tests that mention no variable. *)
Ltac run :=
  repeat first
    [ progress unfold bind, ret, get, put, modify, serverAssert, serverPanic,
        undefined, deref, store, update, emit, sdsfree
    | progress cbn [heap brk junk log g_pserver shared_integers
                    set_heap set_brk add_log set_shared_integer fst snd negb]
    | rewrite lookup_insert_eq
    | match goal with
      | H : heap ?w !! ?o = Some _ |- context [heap ?w !! ?o] => rewrite H
      | |- context [if ?b then _ else _] =>
          lazymatch b with true => fail | false => fail | _ => idtac end;
          tryif has_var b then fail
          else (let v := eval vm_compute in b in change b with v)
      end
    | progress cbv beta iota ].

(** The events the type-specific release of [decrRefCount] asks for;
    [None] where it panics on the type or the encoding. *)
Definition destructor_events (o : Z) (obj : redisObject) : option (list event) :=
  let p := ptrFromObj o obj in
  let e := encoding obj in
  if type obj =? OBJ_STRING then
    Some (if e =? OBJ_ENCODING_RAW then [EvSdsFree p] else [])
  else if type obj =? OBJ_LIST then
    if e =? OBJ_ENCODING_QUICKLIST then Some [EvQuicklistRelease p]
    else if e =? OBJ_ENCODING_ZIPLIST then Some [EvZfree p] else None
  else if type obj =? OBJ_SET then
    if e =? OBJ_ENCODING_HT then Some [EvDictRelease p]
    else if e =? OBJ_ENCODING_INTSET then Some [EvZfree p] else None
  else if type obj =? OBJ_ZSET then
    if e =? OBJ_ENCODING_SKIPLIST then Some [EvZsetRelease p]
    else if e =? OBJ_ENCODING_ZIPLIST then Some [EvZfree p] else None
  else if type obj =? OBJ_HASH then
    if e =? OBJ_ENCODING_HT then Some [EvDictRelease p]
    else if e =? OBJ_ENCODING_ZIPLIST then Some [EvZfree p] else None
  else if type obj =? OBJ_MODULE then Some [EvModuleFree p]
  else if type obj =? OBJ_STREAM then Some [EvFreeStream p]
  else if type obj =? OBJ_CRON then Some [EvFreeCronObject o]
  else if type obj =? OBJ_NESTEDHASH then Some [EvFreeNestedHashObject o]
  else None.

(** The address [zfree] receives for an object: [allocPtrFromObj]. *)
Definition allocPtrFromObj (w : world) (o : Z) : Z :=
  if fActiveReplica (g_pserver w) then o - sizeof_redisObjectExtended else o.

Definition add_logs (evs : list event) (w : world) : world :=
  {| heap := heap w; brk := brk w; junk := junk w; log := log w ++ evs;
     g_pserver := g_pserver w; shared_integers := shared_integers w |}.

Lemma add_logs_nil w : add_logs [] w = w.
Proof. destruct w. unfold add_logs. cbn. now rewrite app_nil_r. Qed.

Lemma add_log_add_logs e evs w :
  add_log e (add_logs evs w) = add_logs (evs ++ [e]) w.
Proof. unfold add_log, add_logs. cbn. now rewrite app_assoc. Qed.

Lemma add_log_one e w : add_log e w = add_logs [e] w.
Proof. reflexivity. Qed.

Lemma free_by_type_spec w o obj t e :
  heap w !! o = Some obj -> t = type obj -> e = encoding obj ->
  match destructor_events o obj with
  | Some evs => free_by_type t o w = Done (tt, add_logs evs w)
  | None => exists msg, free_by_type t o w = Panic msg
  end.
Proof.
  intros H -> He. unfold destructor_events, free_by_type.
  unfold freeStringObject, freeListObject, freeSetObject, freeZsetObject,
    freeHashObject, freeModuleObject, freeStreamObject, freeCronObject,
    freeNestedHashObject.
  rewrite <- He.
  repeat match goal with
         | |- context [if ?b then _ else _] => destruct b eqn:?
         end;
    run; rewrite <- ?He;
    repeat match goal with
           | H : ?b = _ |- context [if ?b then _ else _] => rewrite H
           end;
    try rewrite add_logs_nil; try reflexivity; eauto.
Qed.

Lemma destructor_events_set_refcount o v obj :
  destructor_events o (set_refcount v obj) = destructor_events o obj.
Proof. reflexivity. Qed.

Lemma decrRefCount_shared w o obj :
  heap w !! o = Some obj -> getrefcount obj = OBJ_SHARED_REFCOUNT ->
  decrRefCount o w = Done (tt, w).
Proof.
  intros H Hs. unfold decrRefCount. run. rewrite Hs. reflexivity.
Qed.

(** A count that is neither 0, 1 nor the shared marker is decremented and
    nothing else happens. *)
Lemma decrRefCount_keep w o obj :
  heap w !! o = Some obj -> wf_obj obj ->
  1 < getrefcount obj -> getrefcount obj <> OBJ_SHARED_REFCOUNT ->
  decrRefCount o w =
    Done (tt, set_heap (insert o (set_refcount (refcount obj - 1) obj)) w).
Proof.
  intros H Hwf Hgt Hns. unfold decrRefCount.
  destruct (release_spec obj Hwf ltac:(lia)) as (Hp & Hr & _).
  run. destruct (Z.eqb_spec (getrefcount obj) OBJ_SHARED_REFCOUNT); [contradiction|].
  run. rewrite Hp.
  destruct (Z.eqb_spec (getrefcount obj) 1); [lia|].
  destruct (Z.leb_spec (getrefcount obj) 0); [lia|].
  do 3 f_equal. unfold release, set_refcount in *. cbn in *. now rewrite Hr.
Qed.

Lemma decrRefCount_last w o obj evs :
  heap w !! o = Some obj -> wf_obj obj -> getrefcount obj = 1 ->
  destructor_events o obj = Some evs ->
  decrRefCount o w =
    Done (tt, set_heap (fun _ => delete o (heap w))
                (add_logs (evs ++ [EvDestructor o; EvZfree (allocPtrFromObj w o)]) w)).
Proof.
  intros H Hwf H1 Hev. unfold decrRefCount.
  destruct (release_spec obj Hwf ltac:(lia)) as (Hp & _).
  run. rewrite H1. cbn [Z.eqb OBJ_SHARED_REFCOUNT Pos.eqb].
  run. rewrite Hp, H1. cbn [Z.eqb Pos.eqb].
  pose proof (free_by_type_spec
                (set_heap (insert o (snd (release obj))) w) o
                (snd (release obj)) (type obj) (encoding obj)
                (heap_store _ _ _) eq_refl eq_refl) as Hf.
  change (destructor_events o (snd (release obj)))
    with (destructor_events o obj) in Hf.
  rewrite Hev in Hf.
  rewrite Hf. run.
  unfold allocPtrFromObj, set_heap, add_logs, add_log.
  cbn [heap brk junk log g_pserver shared_integers].
  destruct (fActiveReplica (g_pserver w)); cbn;
    rewrite delete_insert_eq, <- !app_assoc; reflexivity.
Qed.

Lemma decrRefCount_zero w o obj :
  heap w !! o = Some obj -> getrefcount obj = 0 ->
  exists msg, decrRefCount o w = Panic msg.
Proof.
  intros H H0. unfold decrRefCount. run. rewrite H0.
  cbn [Z.eqb OBJ_SHARED_REFCOUNT]. run.
  unfold release. cbn [fst]. fold (getrefcount obj). rewrite H0.
  cbn. eauto.
Qed.

Lemma incrRefCount_ordinary w o obj :
  heap w !! o = Some obj -> getrefcount obj < OBJ_FIRST_SPECIAL_REFCOUNT ->
  incrRefCount o w = Done (tt, set_heap (insert o (addref obj)) w).
Proof.
  intros H Hlt. unfold incrRefCount. run.
  destruct (Z.ltb_spec (getrefcount obj) OBJ_FIRST_SPECIAL_REFCOUNT); [|lia].
  run. reflexivity.
Qed.

Lemma incrRefCount_shared w o obj :
  heap w !! o = Some obj -> getrefcount obj = OBJ_SHARED_REFCOUNT ->
  incrRefCount o w = Done (tt, w).
Proof. intros H Hs. unfold incrRefCount. run. now rewrite Hs. Qed.

Lemma incrRefCount_static w o obj :
  heap w !! o = Some obj -> getrefcount obj = OBJ_STATIC_REFCOUNT ->
  incrRefCount o w =
    Panic "You tried to retain an object allocated in the stack".
Proof. intros H Hs. unfold incrRefCount. run. now rewrite Hs. Qed.

(** *** C3, C4: releasing a reference *)

(** C3: [decrRefCount] on a value with the shared marker changes nothing
    (the value stays live, its count is the same); on an ordinarily
    counted value it decrements the count, and exactly when the count was
    1 it runs the release of the value's type once, then the destructor,
    then frees the block the object lives in, after which the object is
    gone; for a larger count nothing is released. *)
Theorem C3_decrRefCount_release w o obj :
  heap w !! o = Some obj -> wf_obj obj ->
  (getrefcount obj = OBJ_SHARED_REFCOUNT ->
     decrRefCount o w = Done (tt, w)) /\
  (1 < getrefcount obj < OBJ_STATIC_REFCOUNT ->
     exists w', decrRefCount o w = Done (tt, w') /\
       heap w' = <[o := set_refcount (refcount obj - 1) obj]> (heap w) /\
       getrefcount (set_refcount (refcount obj - 1) obj) = getrefcount obj - 1 /\
       log w' = log w) /\
  (getrefcount obj = 1 ->
     forall evs, destructor_events o obj = Some evs ->
     exists w', decrRefCount o w = Done (tt, w') /\
       heap w' = delete o (heap w) /\ heap w' !! o = None /\
       log w' = log w ++ evs ++ [EvDestructor o; EvZfree (allocPtrFromObj w o)]).
Proof.
  intros H Hwf. split; [|split].
  - intros Hs. now apply decrRefCount_shared with obj.
  - intros [Hgt Hlt]. eexists. split.
    + apply (decrRefCount_keep w o obj); try assumption.
      unfold OBJ_STATIC_REFCOUNT, OBJ_SHARED_REFCOUNT in *. lia.
    + destruct (release_spec obj Hwf ltac:(lia)) as (_ & Hr & Hg & _).
      unfold release in Hr, Hg. cbn [snd refcount set_refcount] in Hr.
      repeat split; cbn; try reflexivity.
      rewrite <- Hg. unfold release. cbn [snd]. now rewrite Hr.
  - intros H1 evs Hev. eexists. split.
    + now apply (decrRefCount_last w o obj evs).
    + cbn. repeat split. apply lookup_delete_eq.
Qed.

(** C4, as the spec words it. *)
Definition stack_release_is_fatal : Prop :=
  forall w o obj,
    heap w !! o = Some obj -> getrefcount obj = OBJ_STATIC_REFCOUNT ->
    exists msg, decrRefCount o w = Panic msg.

(** C4 (amended): [decrRefCount] does not look for the stack marker: on
    an object whose count is [OBJ_STATIC_REFCOUNT] it returns normally,
    leaves the count one lower and releases nothing.  It is
    [incrRefCount] that panics on such an object. *)
Theorem C4_stack_marker_not_checked w o obj :
  heap w !! o = Some obj -> wf_obj obj ->
  getrefcount obj = OBJ_STATIC_REFCOUNT ->
  (exists w', decrRefCount o w = Done (tt, w') /\
     heap w' = <[o := set_refcount (refcount obj - 1) obj]> (heap w) /\
     getrefcount (set_refcount (refcount obj - 1) obj) = OBJ_STATIC_REFCOUNT - 1 /\
     log w' = log w) /\
  incrRefCount o w = Panic "You tried to retain an object allocated in the stack".
Proof.
  intros H Hwf Hs. split.
  - eexists. split.
    + apply (decrRefCount_keep w o obj); try assumption; rewrite Hs;
        [reflexivity | discriminate].
    + destruct (release_spec obj Hwf ltac:(rewrite Hs; discriminate)) as (_ & Hr & Hg & _).
      unfold release in Hr, Hg. cbn [snd refcount set_refcount] in Hr.
      repeat split; cbn; try reflexivity.
      rewrite <- Hs, <- Hg. unfold release. cbn [snd]. now rewrite Hr.
  - now apply incrRefCount_static with obj.
Qed.

(** *** C9, C10: the expire flag in the count *)

Lemma makeObjectShared_spec w o obj :
  heap w !! o = Some obj -> getrefcount obj = 1 -> FExpires obj = false ->
  makeObjectShared o w =
    Done (o, set_heap (insert o (set_refcount OBJ_SHARED_REFCOUNT obj)) w).
Proof.
  intros H H1 HF. unfold makeObjectShared, setrefcount. run.
  rewrite H1, HF. run. rewrite HF. run. reflexivity.
Qed.

(** C9: on a value whose count word is the shared marker (what
    [makeObjectShared] stores, after asserting that the flag is clear),
    [SetFExpires(true)] fails its assertion, and [SetFExpires(false)]
    passes it and leaves everything as it was. *)
Theorem C9_shared_value_never_expires w this obj :
  heap w !! this = Some obj ->
  refcount obj = OBJ_SHARED_REFCOUNT ->
  FExpires obj = false /\
  SetFExpires this true w =
    Panic "this->refcount != OBJ_SHARED_REFCOUNT || fExpire == FExpires()" /\
  SetFExpires this false w = Done (tt, w) /\
  forall w0 o, makeObjectShared o w0 = Done (o, w) -> o = this ->
    exists obj0, heap w0 !! o = Some obj0 /\ FExpires obj0 = false.
Proof.
  intros H Hr.
  assert (HF : FExpires obj = false) by (unfold FExpires; now rewrite Hr).
  split; [exact HF|]. split; [|split].
  - unfold SetFExpires. run. rewrite Hr, HF. reflexivity.
  - unfold SetFExpires. run. rewrite Hr, HF. cbn [Z.eqb negb orb Bool.eqb].
    run. f_equal. f_equal. apply set_heap_id. rewrite H. f_equal.
    destruct obj. cbn in *. subst. reflexivity.
  - intros w0 o Hm ->. unfold makeObjectShared in Hm. revert Hm. run.
    destruct (heap w0 !! this) as [obj0|] eqn:H0; [|discriminate].
    destruct (getrefcount obj0 =? 1); [|discriminate]. run.
    destruct (FExpires obj0) eqn:HF0; [discriminate|]. eauto.
Qed.

Lemma decrRefCount_last_panic w o obj :
  heap w !! o = Some obj -> wf_obj obj -> getrefcount obj = 1 ->
  destructor_events o obj = None ->
  exists msg, decrRefCount o w = Panic msg.
Proof.
  intros H Hwf H1 Hev. unfold decrRefCount.
  destruct (release_spec obj Hwf ltac:(lia)) as (Hp & _).
  run. rewrite H1. run. rewrite Hp, H1. run.
  pose proof (free_by_type_spec
                (set_heap (insert o (snd (release obj))) w) o
                (snd (release obj)) (type obj) (encoding obj)
                (heap_store _ _ _) eq_refl eq_refl) as Hf.
  change (destructor_events o (snd (release obj)))
    with (destructor_events o obj) in Hf.
  rewrite Hev in Hf. destruct Hf as [msg Hf]. rewrite Hf. eauto.
Qed.

Lemma FExpires_testbit o : wf_obj o -> FExpires o = Z.testbit (refcount o) 31.
Proof.
  intros Hwf. destruct (refcount_split o Hwf) as [Hs Hr].
  replace 31 with (0 + 31) at 1 by reflexivity.
  rewrite <- Z.shiftr_spec by lia.
  unfold FExpires in *. rewrite Z.shiftr_div_pow2 in * by lia.
  rewrite Hs at 1 2.
  destruct (negb (refcount o / 2 ^ 31 =? 0)).
  - replace (getrefcount o + 2 ^ 31) with (getrefcount o + 1 * 2 ^ 31) by lia.
    rewrite Z.div_add, Z.div_small by lia. reflexivity.
  - rewrite Z.add_0_r, Z.div_small by lia. reflexivity.
Qed.

Lemma getrefcount_bit31 o : Z.testbit (getrefcount o) 31 = false.
Proof.
  unfold getrefcount. rewrite REFCOUNT_MASK_ones, Z.land_spec.
  rewrite Z.ones_spec_high by lia. apply andb_false_r.
Qed.

(** C10, as the spec words it: any masked count of at least 1. *)
Definition addref_release_keep_flag : Prop :=
  forall o, wf_obj o -> 1 <= getrefcount o ->
    FExpires (addref o) = FExpires o /\
    FExpires (snd (release o)) = FExpires o.

(** C10 (amended): the expire flag is bit 31 of the count word and
    [getrefcount] returns the word without it.  [release] leaves the flag
    alone for every masked count of at least 1; [addref] does so for
    every masked count from 1 up to, but not including, the shared marker
    0x7FFFFFFF; [incrRefCount], which calls [addref] only below the
    special counts, and [decrRefCount] leave the flag of a live object
    with masked count at least 1 unchanged. *)
Theorem C10_expire_flag_independent o :
  wf_obj o ->
  FExpires o = Z.testbit (refcount o) 31 /\
  getrefcount o = refcount o mod 2 ^ 31 /\
  Z.testbit (getrefcount o) 31 = false /\
  (1 <= getrefcount o ->
     FExpires (snd (release o)) = FExpires o /\
     getrefcount (snd (release o)) = getrefcount o - 1) /\
  (1 <= getrefcount o < OBJ_SHARED_REFCOUNT ->
     FExpires (addref o) = FExpires o /\
     getrefcount (addref o) = getrefcount o + 1) /\
  (1 <= getrefcount o ->
     forall w a w', heap w !! a = Some o ->
       (incrRefCount a w = Done (tt, w') ->
          exists o', heap w' !! a = Some o' /\ FExpires o' = FExpires o) /\
       (decrRefCount a w = Done (tt, w') ->
          forall o', heap w' !! a = Some o' -> FExpires o' = FExpires o)).
Proof.
  intros Hwf. destruct (refcount_split o Hwf) as [Hs Hr].
  split; [now apply FExpires_testbit|].
  split; [apply getrefcount_mod|].
  split; [apply getrefcount_bit31|].
  split; [|split].
  - intros H1. destruct (release_spec o Hwf H1) as (_ & _ & Hg & HF). now split.
  - intros [H1 Hlt]. destruct (addref_spec o Hwf Hlt) as (_ & Hg & HF). now split.
  - intros H1 w a w' H. split.
    + intros Hi.
      destruct (Z.lt_ge_cases (getrefcount o) OBJ_FIRST_SPECIAL_REFCOUNT) as [Hlt|Hge].
      * rewrite (incrRefCount_ordinary w a o H Hlt) in Hi.
        injection Hi as <-. eexists. split; [apply heap_store|].
        apply addref_spec; [assumption|].
        unfold OBJ_FIRST_SPECIAL_REFCOUNT, OBJ_STATIC_REFCOUNT in Hlt. lia.
      * assert (Hc : getrefcount o = OBJ_STATIC_REFCOUNT \/
                     getrefcount o = OBJ_SHARED_REFCOUNT)
          by (unfold OBJ_FIRST_SPECIAL_REFCOUNT, OBJ_STATIC_REFCOUNT,
                OBJ_SHARED_REFCOUNT in *; lia).
        destruct Hc as [Hst|Hsh].
        -- rewrite (incrRefCount_static w a o H Hst) in Hi. discriminate.
        -- rewrite (incrRefCount_shared w a o H Hsh) in Hi.
           injection Hi as <-. eauto.
    + intros Hd o' Ho'.
      destruct (Z.eq_dec (getrefcount o) OBJ_SHARED_REFCOUNT) as [Hsh|Hns].
      { rewrite (decrRefCount_shared w a o H Hsh) in Hd.
        injection Hd as <-. congruence. }
      destruct (Z.eq_dec (getrefcount o) 1) as [H1'|Hn1].
      * destruct (destructor_events a o) as [evs|] eqn:Hev.
        -- rewrite (decrRefCount_last w a o evs H Hwf H1' Hev) in Hd.
           injection Hd as <-. cbn in Ho'. rewrite lookup_delete_eq in Ho'.
           discriminate.
        -- destruct (decrRefCount_last_panic w a o H Hwf H1' Hev) as [msg Hp].
           rewrite Hp in Hd. discriminate.
      * rewrite (decrRefCount_keep w a o H Hwf ltac:(lia) Hns) in Hd.
        injection Hd as <-. rewrite heap_store in Ho'. injection Ho' as <-.
        destruct (release_spec o Hwf H1) as (_ & Hrc & _ & HF).
        unfold release in Hrc, HF. cbn [snd refcount set_refcount] in Hrc.
        rewrite <- HF. unfold release. cbn [snd]. now rewrite Hrc.
Qed.

(** *** What the constructors build *)

Definition extra_bytes (w : world) : Z :=
  if fActiveReplica (g_pserver w) then sizeof_redisObjectExtended else 0.

Definition initial_lru (w : world) : Z :=
  if negb (Z.land (maxmemory_policy (g_pserver w)) MAXMEMORY_FLAG_LFU =? 0)
  then Z.lor (Z.shiftl (Z.land (unixtime (g_pserver w) / 60) 65535) 8)
             LFU_INIT_VAL mod 2 ^ LRU_BITS
  else lruclock (g_pserver w) mod 2 ^ LRU_BITS.

(** The stamp in front of a new object: written only on an active
    replica, otherwise whatever the block held. *)
Definition initial_mvcc (w : world) (fill : Z) : Z :=
  if fActiveReplica (g_pserver w) then OBJ_MVCC_INVALID
  else le_word (repeat fill 8).

Definition created (w : world) (type ptr : Z) (pointee : option sds) : redisObject :=
  {| mvcc_tstamp := initial_mvcc w 0; type := type mod 16;
     encoding := OBJ_ENCODING_RAW; lru := initial_lru w; refcount := 1;
     expire := expire_init; m_ptr := ptr; sdsdata := pointee |}.

Definition allocated (size : Z) (o : Z) (obj : redisObject) (w : world) : world :=
  set_heap (insert o obj) (set_brk (brk w + size) w).

Lemma set_heap_set_heap f g w :
  set_heap f (set_heap g w) = set_heap (fun h => f (g h)) w.
Proof. reflexivity. Qed.

Lemma set_heap_ext f g w : f (heap w) = g (heap w) -> set_heap f w = set_heap g w.
Proof. intros H. unfold set_heap. now rewrite H. Qed.

Lemma createObject_spec w type ptr pointee :
  createObject type ptr pointee w =
    Done (brk w + extra_bytes w,
          allocated (sizeof_robj + extra_bytes w) (brk w + extra_bytes w)
                    (created w type ptr pointee) w).
Proof.
  unfold createObject, mvccExtraBytes, zmalloc, setrefcount, setMvccTstamp,
    init_lru, LRU_CLOCK, LFUGetTimeInMinutes, extra_bytes, allocated, created,
    initial_mvcc, initial_lru.
  run. unfold FExpires. cbn [refcount set_refcount set_m_ptr set_encoding set_type constructed].
  run.
  destruct (fActiveReplica (g_pserver w)); run;
    destruct (negb (Z.land (maxmemory_policy (g_pserver w)) MAXMEMORY_FLAG_LFU =? 0));
    run; rewrite !set_heap_set_heap; do 2 f_equal;
    apply set_heap_ext; cbn [heap set_brk]; rewrite !insert_insert_eq; reflexivity.
Qed.

Definition embedded (w : world) (len : Z) (bytes : list Z) : redisObject :=
  {| mvcc_tstamp := initial_mvcc w (junk w); type := OBJ_STRING;
     encoding := OBJ_ENCODING_EMBSTR; lru := initial_lru w; refcount := 1;
     expire := expire_init;
     m_ptr := embedded_slot (junk w) len bytes;
     sdsdata := Some {| buf := bytes; avail := 0 |} |}.

Definition embedded_size (w : world) (len : Z) : Z :=
  sizeof_robj
  + (if sizeof_sdshdr8 + len + 1 <? sizeof_void_ptr
     then sizeof_void_ptr else sizeof_sdshdr8 + len + 1)
  - sizeof_m_ptr + extra_bytes w.

Lemma createEmbeddedStringObject_spec w bytes len :
  len <= UINT8_MAX -> len <= Z.of_nat (length bytes) ->
  createEmbeddedStringObject (Buffer bytes) len w =
    Done (brk w + extra_bytes w,
          allocated (embedded_size w len) (brk w + extra_bytes w)
                    (embedded w len (firstn (Z.to_nat len) bytes)) w).
Proof.
  intros Hlen Hbuf.
  unfold createEmbeddedStringObject, mvccExtraBytes, zmalloc, setrefcount,
    setMvccTstamp, init_lru, LRU_CLOCK, LFUGetTimeInMinutes, initial_bytes,
    allocated, embedded, embedded_size, initial_mvcc, initial_lru, extra_bytes.
  destruct (Z.leb_spec len UINT8_MAX) as [_|]; [|lia].
  destruct (Z.leb_spec len (Z.of_nat (length bytes))) as [_|]; [|lia].
  run. unfold FExpires.
  cbn [refcount set_refcount set_m_ptr set_encoding set_type constructed].
  run.
  destruct (fActiveReplica (g_pserver w)); run;
    destruct (negb (Z.land (maxmemory_policy (g_pserver w)) MAXMEMORY_FLAG_LFU =? 0));
    run; rewrite !set_heap_set_heap; do 2 f_equal;
    apply set_heap_ext; cbn [heap set_brk]; rewrite !insert_insert_eq; reflexivity.
Qed.

(** *** C8: the bytes of a stored string *)

(** The stamp [mvccFromObj] reads. *)
Definition stored_mvcc (w : world) (obj : redisObject) : Z :=
  if fActiveReplica (g_pserver w) then mvcc_tstamp obj else OBJ_MVCC_INVALID.

(** The bytes after the header: the string for RAW and EMBSTR, nothing
    otherwise. *)
Definition string_payload (obj : redisObject) : list Z :=
  if sdsEncodedObject obj
  then match sdsdata obj with Some s => buf s | None => [] end
  else [].

Definition with_prefix (sdsPrefix : option (list Z)) (bytes : list Z) : list Z :=
  match sdsPrefix with Some prefix => prefix ++ bytes | None => bytes end.

Lemma set_last_byte (l : list Z) x y :
  <[(length (l ++ [x]) - 1)%nat := y]> (l ++ [x]) = l ++ [y].
Proof.
  rewrite length_app, Nat.add_sub. cbn [length].
  induction l as [|a l IH]; cbn; [reflexivity|]. f_equal. exact IH.
Qed.

Lemma mvccFromObj_spec w o obj :
  heap w !! o = Some obj -> mvccFromObj o w = Done (stored_mvcc w obj, w).
Proof.
  intros H. unfold mvccFromObj, stored_mvcc. run.
  destruct (fActiveReplica (g_pserver w)); run; reflexivity.
Qed.

Lemma serializeStoredStringObject_spec w o obj str :
  heap w !! o = Some obj ->
  (sdsEncodedObject obj = true -> sdsdata obj <> None) ->
  serializeStoredStringObject str o w =
    Done (str ++ le_bytes 8 (stored_mvcc w obj)
            ++ robj_bytes obj ++ string_payload obj, w).
Proof.
  intros H Hs. unfold serializeStoredStringObject. run.
  rewrite (mvccFromObj_spec w o obj H). run.
  unfold szFromObj, string_payload, sdsEncodedObject in *. run.
  destruct (encoding obj =? OBJ_ENCODING_EMBSTR) eqn:He;
    destruct (encoding obj =? OBJ_ENCODING_RAW) eqn:Hr;
    cbn [orb] in *; run;
    try (destruct (sdsdata obj) as [s|]; [|exfalso; now apply Hs]);
    run; try destruct (encoding obj =? OBJ_ENCODING_INT); run;
    rewrite <- ?app_assoc, ?app_nil_r; reflexivity.
Qed.

Lemma serializeStoredObject_string w o obj sdsPrefix :
  heap w !! o = Some obj -> type obj = OBJ_STRING ->
  (sdsEncodedObject obj = true -> sdsdata obj <> None) ->
  serializeStoredObject o sdsPrefix w =
    Done (with_prefix sdsPrefix
            ([RDB_TYPE_STRING] ++ le_bytes 8 (stored_mvcc w obj)
               ++ robj_bytes obj ++ string_payload obj), w).
Proof.
  intros H Ht Hs. unfold serializeStoredObject.
  run. rewrite Ht. run.
  destruct sdsPrefix as [prefix|]; cbn [with_prefix].
  - rewrite set_last_byte, (serializeStoredStringObject_spec w o obj _ H Hs).
    now rewrite <- app_assoc.
  - now rewrite (serializeStoredStringObject_spec w o obj _ H Hs).
Qed.

Lemma length_robj_bytes obj : Z.of_nat (length (robj_bytes obj)) = sizeof_robj.
Proof. reflexivity. Qed.

Lemma header_encoding_robj obj rest :
  header_encoding (robj_bytes obj ++ rest) = encoding obj mod 16.
Proof.
  unfold header_encoding, robj_bytes. cbn [app nth].
  pose proof (Z.mod_pos_bound (type obj) 16 ltac:(lia)).
  pose proof (Z.mod_pos_bound (encoding obj) 16 ltac:(lia)).
  rewrite (Z.mul_comm 16), Z.div_add, Z.div_small, Z.add_0_l by lia.
  apply Z.mod_mod. lia.
Qed.

Lemma header_lru_robj obj rest :
  header_lru (robj_bytes obj ++ rest) = lru obj mod 2 ^ LRU_BITS.
Proof.
  unfold header_lru, robj_bytes. cbn [app skipn le_bytes firstn].
  change (le_word (le_bytes 3 (lru obj)) = lru obj mod 2 ^ LRU_BITS).
  now rewrite le_word_bytes.
Qed.

Lemma header_m_ptr_robj obj rest :
  header_m_ptr (robj_bytes obj ++ rest) = u64 (m_ptr obj).
Proof.
  unfold header_m_ptr, robj_bytes. cbn [app skipn le_bytes firstn].
  change (le_word (le_bytes 8 (m_ptr obj)) = u64 (m_ptr obj)).
  apply le_word_bytes8.
Qed.

(** C8: a stored string is the given prefix (none when the caller passes
    no prefix), one byte holding the STRING tag, the eight bytes of the
    stamp [mvccFromObj] reads, the [sizeof(robj)] bytes of the object
    itself, from which the encoding and the LRU word read back, and then
    the bytes of the string for the RAW and EMBSTR encodings and nothing
    for an integer-encoded string. *)
Theorem C8_stored_string_layout w o obj sdsPrefix :
  heap w !! o = Some obj -> type obj = OBJ_STRING ->
  (sdsEncodedObject obj = true -> sdsdata obj <> None) ->
  exists stamp header payload,
    serializeStoredObject o sdsPrefix w =
      Done (with_prefix sdsPrefix
              ([RDB_TYPE_STRING] ++ stamp ++ header ++ payload), w) /\
    stamp = le_bytes 8 (stored_mvcc w obj) /\ length stamp = 8%nat /\
    header = robj_bytes obj /\
    Z.of_nat (length header) = sizeof_robj /\
    header_encoding (header ++ payload) = encoding obj mod 16 /\
    header_lru (header ++ payload) = lru obj mod 2 ^ LRU_BITS /\
    (encoding obj = OBJ_ENCODING_RAW \/ encoding obj = OBJ_ENCODING_EMBSTR ->
       exists s, sdsdata obj = Some s /\ payload = buf s) /\
    (encoding obj = OBJ_ENCODING_INT -> payload = []).
Proof.
  intros H Ht Hs.
  exists (le_bytes 8 (stored_mvcc w obj)), (robj_bytes obj), (string_payload obj).
  split; [now apply serializeStoredObject_string|].
  split; [reflexivity|]. split; [apply length_le_bytes|].
  split; [reflexivity|]. split; [apply length_robj_bytes|].
  split; [apply header_encoding_robj|]. split; [apply header_lru_robj|].
  unfold string_payload, sdsEncodedObject in *. split.
  - intros He.
    assert (Hb : (encoding obj =? OBJ_ENCODING_RAW)
                 || (encoding obj =? OBJ_ENCODING_EMBSTR) = true)
      by (destruct He as [-> | ->]; reflexivity).
    rewrite Hb. specialize (Hs Hb). destruct (sdsdata obj) as [s|]; [eauto|contradiction].
  - intros ->. reflexivity.
Qed.

(** *** C2: reading back what was stored *)

(** The stamp a new object ends with once [setMvccTstamp] has run. *)
Definition restamp (w : world) (mvcc : Z) (obj : redisObject) : redisObject :=
  if fActiveReplica (g_pserver w) then set_mvcc mvcc obj else obj.

Lemma setMvccTstamp_spec w o obj mvcc :
  heap w !! o = Some obj ->
  setMvccTstamp o mvcc w = Done (tt, set_heap (insert o (restamp w mvcc obj)) w).
Proof.
  intros H. unfold setMvccTstamp, restamp. run.
  destruct (fActiveReplica (g_pserver w)); run; [reflexivity|].
  now rewrite (set_heap_id o obj w H).
Qed.

Lemma stored_string_decode mvcc obj payload :
  length (le_bytes 8 mvcc ++ robj_bytes obj ++ payload) = (32 + length payload)%nat /\
  firstn 8 (le_bytes 8 mvcc ++ robj_bytes obj ++ payload) = le_bytes 8 mvcc /\
  skipn 8 (le_bytes 8 mvcc ++ robj_bytes obj ++ payload) = robj_bytes obj ++ payload /\
  skipn 32 (le_bytes 8 mvcc ++ robj_bytes obj ++ payload) = payload.
Proof. repeat split; reflexivity. Qed.

(** The reader on the bytes of a stored string, with the header fields
    already taken out. *)
Definition read_string (w : world) (mvcc : Z) (obj : redisObject) (payload : list Z)
  : outcome (Z * world) :=
  let cch := Z.of_nat (length payload) in
  let enc := encoding obj mod 16 in
  (do newObject <-
     (if enc =? OBJ_ENCODING_INT then
        do o <- createObject OBJ_STRING 0 None;
        exec update o (set_encoding enc);
        exec update o (set_m_ptr (u64 (m_ptr obj)) None);
        ret o
      else if enc =? OBJ_ENCODING_EMBSTR then
        createEmbeddedStringObject (Buffer payload) cch
      else if enc =? OBJ_ENCODING_RAW then
        do ps <- sdsnewlen SDS_NOINIT cch;
        do o <- createObject OBJ_STRING (fst ps) (Some (snd ps));
        exec update o (set_lru (lru obj mod 2 ^ LRU_BITS));
        do bytes <- initial_bytes (Buffer payload) cch;
        exec update o (set_m_ptr (fst ps) (Some {| buf := bytes; avail := 0 |}));
        ret o
      else serverPanic "Unknown string object encoding from storage");
   exec setMvccTstamp newObject (u64 mvcc);
   ret newObject) w.

Lemma deserializeStoredObject_stored w mvcc obj payload :
  Z.of_nat (length payload) < 2 ^ 64 - 33 ->
  deserializeStoredObject
    ([RDB_TYPE_STRING] ++ le_bytes 8 mvcc ++ robj_bytes obj ++ payload)
    (Z.of_nat (length ([RDB_TYPE_STRING] ++ le_bytes 8 mvcc
                         ++ robj_bytes obj ++ payload))) w
  = read_string w mvcc obj payload.
Proof.
  intros Hlen.
  destruct (stored_string_decode mvcc obj payload) as (Hl & Hf & Hs8 & Hs32).
  unfold deserializeStoredObject. cbn [app].
  change (RDB_TYPE_STRING =? RDB_TYPE_STRING) with true. cbv iota.
  unfold deserializeStoredStringObject, read_string.
  change (Z.to_nat (sizeof_robj + sizeof_uint64)) with 32%nat.
  rewrite Hf, Hs8, Hs32, Hl, le_word_bytes8.
  rewrite header_encoding_robj, header_lru_robj, header_m_ptr_robj.
  cbn [length]. rewrite Hl.
  replace (u64 (u64 (Z.of_nat (S (32 + length payload)) - 1)
                - sizeof_robj - sizeof_uint64))
    with (Z.of_nat (length payload)).
  2:{ unfold sizeof_robj, sizeof_uint64.
      rewrite (u64_small (Z.of_nat (S (32 + length payload)) - 1)) by lia.
      rewrite u64_small; lia. }
  destruct (Z.ltb_spec (Z.of_nat (32 + length payload))
                       (sizeof_uint64 + sizeof_robj)) as [Hlt|_];
    [unfold sizeof_robj, sizeof_uint64 in Hlt; lia|].
  reflexivity.
Qed.

(** A string value as the storage layer can meet it: one of the three
    string encodings, with the string in place where the encoding has
    one, and the words within their widths. *)
Definition wf_string (obj : redisObject) : Prop :=
  type obj = OBJ_STRING /\ 0 <= m_ptr obj < 2 ^ 64 /\
  0 <= mvcc_tstamp obj < 2 ^ 64 /\
  ((encoding obj = OBJ_ENCODING_RAW /\
    exists s, sdsdata obj = Some s /\ sdslen s < 2 ^ 64 - 33) \/
   (encoding obj = OBJ_ENCODING_EMBSTR /\
    exists s, sdsdata obj = Some s /\ sdslen s <= UINT8_MAX) \/
   encoding obj = OBJ_ENCODING_INT).

(** The bytes of a string once the encoding is resolved: the decimal
    text of an integer-encoded string, the stored bytes otherwise. *)
Definition resolved_bytes (obj : redisObject) : list Z :=
  if encoding obj =? OBJ_ENCODING_INT
  then sdsfromlonglong (s64 (m_ptr obj))
  else match sdsdata obj with Some s => buf s | None => [] end.

Ltac run_alloc := repeat first [progress run | progress unfold allocated].

Lemma stored_mvcc_range w obj :
  0 <= mvcc_tstamp obj < 2 ^ 64 -> u64 (stored_mvcc w obj) = stored_mvcc w obj.
Proof.
  intros H. apply u64_small. unfold stored_mvcc, OBJ_MVCC_INVALID.
  destruct (fActiveReplica (g_pserver w)); lia.
Qed.

Lemma read_string_int w obj :
  wf_string obj -> encoding obj = OBJ_ENCODING_INT ->
  exists r w' robj,
    read_string w (stored_mvcc w obj) obj [] = Done (r, w') /\
    heap w' !! r = Some robj /\
    type robj = OBJ_STRING /\ encoding robj = OBJ_ENCODING_INT /\
    m_ptr robj = m_ptr obj /\ sdsdata robj = None /\
    stored_mvcc w' robj = stored_mvcc w obj /\
    refcount robj = 1 /\ expire robj = expire_init.
Proof.
  intros (Ht & Hp & Hm & _) He. unfold read_string. rewrite He.
  rewrite stored_mvcc_range by assumption.
  run. rewrite createObject_spec. run_alloc.
  rewrite (setMvccTstamp_spec _ _ _ _ (heap_store _ _ _)). run.
  do 3 eexists. split; [reflexivity|]. split; [apply heap_store|].
  unfold restamp, stored_mvcc, created. cbn [g_pserver set_heap set_brk].
  destruct (fActiveReplica (g_pserver w)); cbn; rewrite ?u64_small by lia;
    repeat split; reflexivity.
Qed.

Lemma firstn_whole (l : list Z) : firstn (Z.to_nat (Z.of_nat (length l))) l = l.
Proof. rewrite Nat2Z.id. apply firstn_all. Qed.

Lemma read_string_embstr w obj s :
  wf_string obj -> encoding obj = OBJ_ENCODING_EMBSTR ->
  sdsdata obj = Some s -> sdslen s <= UINT8_MAX ->
  exists r w' robj,
    read_string w (stored_mvcc w obj) obj (buf s) = Done (r, w') /\
    heap w' !! r = Some robj /\
    type robj = OBJ_STRING /\ encoding robj = OBJ_ENCODING_EMBSTR /\
    sdsdata robj = Some {| buf := buf s; avail := 0 |} /\
    stored_mvcc w' robj = stored_mvcc w obj /\
    refcount robj = 1 /\ expire robj = expire_init.
Proof.
  intros (Ht & Hp & Hm & _) He Hs Hlen. unfold read_string. rewrite He.
  rewrite stored_mvcc_range by assumption.
  run. rewrite createEmbeddedStringObject_spec by (unfold sdslen in Hlen; lia).
  run_alloc.
  rewrite (setMvccTstamp_spec _ _ _ _ (heap_store _ _ _)). run.
  do 3 eexists. split; [reflexivity|]. split; [apply heap_store|].
  unfold restamp, stored_mvcc, embedded. cbn [g_pserver set_heap set_brk].
  rewrite firstn_whole.
  destruct (fActiveReplica (g_pserver w)); cbn; repeat split; reflexivity.
Qed.

Lemma read_string_raw w obj s :
  wf_string obj -> encoding obj = OBJ_ENCODING_RAW ->
  sdsdata obj = Some s ->
  exists r w' robj,
    read_string w (stored_mvcc w obj) obj (buf s) = Done (r, w') /\
    heap w' !! r = Some robj /\
    type robj = OBJ_STRING /\ encoding robj = OBJ_ENCODING_RAW /\
    sdsdata robj = Some {| buf := buf s; avail := 0 |} /\
    lru robj = lru obj mod 2 ^ LRU_BITS /\
    stored_mvcc w' robj = stored_mvcc w obj /\
    refcount robj = 1 /\ expire robj = expire_init.
Proof.
  intros (Ht & Hp & Hm & _) He Hs. unfold read_string. rewrite He.
  rewrite stored_mvcc_range by assumption.
  unfold sdsnewlen, initial_bytes, zmalloc. run.
  rewrite createObject_spec. run_alloc.
  rewrite Z.leb_refl. run.
  rewrite (setMvccTstamp_spec _ _ _ _ (heap_store _ _ _)). run.
  do 3 eexists. split; [reflexivity|]. split; [apply heap_store|].
  unfold restamp, stored_mvcc, created. cbn [g_pserver set_heap set_brk].
  rewrite firstn_whole.
  destruct (fActiveReplica (g_pserver w)); cbn; unfold LRU_BITS;
    rewrite ?Z.mod_mod by lia; repeat split; reflexivity.
Qed.

Lemma refcount_one obj :
  refcount obj = 1 -> FExpires obj = false /\ getrefcount obj = 1.
Proof. intros H. unfold FExpires, getrefcount. rewrite H. split; reflexivity. Qed.

Lemma wf_string_payload obj :
  wf_string obj ->
  (sdsEncodedObject obj = true -> sdsdata obj <> None) /\
  Z.of_nat (length (string_payload obj)) < 2 ^ 64 - 33.
Proof.
  intros (_ & _ & _ & [(He & s & Hs & Hl) | [(He & s & Hs & Hl) | He]]);
    unfold string_payload, sdsEncodedObject, sdslen, UINT8_MAX in *;
    rewrite He, ?Hs; cbn; split; try congruence; lia.
Qed.

(** Storing a string and reading the bytes back. *)
Lemma stored_string_roundtrip w o obj :
  heap w !! o = Some obj -> wf_string obj ->
  exists data r w' robj,
    serializeStoredObject o None w = Done (data, w) /\
    deserializeStoredObject data (Z.of_nat (length data)) w = Done (r, w') /\
    heap w' !! r = Some robj /\
    type robj = type obj /\ encoding robj = encoding obj /\
    resolved_bytes robj = resolved_bytes obj /\
    stored_mvcc w' robj = stored_mvcc w obj /\
    refcount robj = 1 /\ expire robj = expire_init.
Proof.
  intros H Hwf. destruct (wf_string_payload obj Hwf) as [Hsd Hlen].
  pose proof Hwf as (Ht & Hp & Hm & Henc).
  exists ([RDB_TYPE_STRING] ++ le_bytes 8 (stored_mvcc w obj)
            ++ robj_bytes obj ++ string_payload obj).
  rewrite (serializeStoredObject_string w o obj None H Ht Hsd).
  rewrite deserializeStoredObject_stored by assumption.
  unfold string_payload, sdsEncodedObject, resolved_bytes.
  destruct Henc as [(He & s & Hs & Hl) | [(He & s & Hs & Hl) | He]].
  - destruct (read_string_raw w obj s Hwf He Hs)
      as (r & w' & robj & Hr & Hh & Ht' & He' & Hs' & _ & Hm' & Hrc & Hex).
    exists r, w', robj. rewrite He, Hs. cbn [Z.eqb orb OBJ_ENCODING_RAW].
    rewrite Hr, He', Hs', Ht, Ht'. cbn. repeat split; assumption.
  - destruct (read_string_embstr w obj s Hwf He Hs Hl)
      as (r & w' & robj & Hr & Hh & Ht' & He' & Hs' & Hm' & Hrc & Hex).
    exists r, w', robj. rewrite He, Hs. cbn [Z.eqb orb OBJ_ENCODING_RAW].
    change (OBJ_ENCODING_EMBSTR =? OBJ_ENCODING_RAW) with false.
    change (OBJ_ENCODING_EMBSTR =? OBJ_ENCODING_EMBSTR) with true.
    cbn [orb].
    rewrite Hr, He', Hs', Ht, Ht'. cbn. repeat split; assumption.
  - destruct (read_string_int w obj Hwf He)
      as (r & w' & robj & Hr & Hh & Ht' & He' & Hp' & Hs' & Hm' & Hrc & Hex).
    exists r, w', robj. rewrite He.
    change (OBJ_ENCODING_INT =? OBJ_ENCODING_RAW) with false.
    change (OBJ_ENCODING_INT =? OBJ_ENCODING_EMBSTR) with false.
    cbn [orb].
    rewrite Hr, He', Hp', Ht, Ht'. cbn. repeat split; assumption.
Qed.

(** C2, as the spec words it, for the expiration: what is read back has
    the expire flag of what was stored. *)
Definition roundtrip_keeps_expire_flag : Prop :=
  forall w o obj data r w' robj,
    heap w !! o = Some obj -> wf_string obj ->
    serializeStoredObject o None w = Done (data, w) ->
    deserializeStoredObject data (Z.of_nat (length data)) w = Done (r, w') ->
    heap w' !! r = Some robj ->
    FExpires robj = FExpires obj.

(** C2 (amended): for every string value of RAW, EMBSTR or INT encoding,
    reading back the bytes [serializeStoredObject] wrote gives a new
    object of the same type and encoding with the same bytes once the
    encoding is resolved, for which [mvccFromObj] returns the stamp it
    returned for the stored one.  The new object has count 1 with the
    expire flag clear and a default expire entry, whatever the stored
    object's were: the pair does not carry the expiration. *)
Theorem C2_stored_string_roundtrip w o obj :
  heap w !! o = Some obj -> wf_string obj ->
  exists data r w' robj m,
    serializeStoredObject o None w = Done (data, w) /\
    deserializeStoredObject data (Z.of_nat (length data)) w = Done (r, w') /\
    heap w' !! r = Some robj /\
    type robj = type obj /\ encoding robj = encoding obj /\
    resolved_bytes robj = resolved_bytes obj /\
    mvccFromObj o w = Done (m, w) /\ mvccFromObj r w' = Done (m, w') /\
    FExpires robj = false /\ getrefcount robj = 1 /\
    expire robj = expire_init.
Proof.
  intros H Hwf.
  destruct (stored_string_roundtrip w o obj H Hwf)
    as (data & r & w' & robj & Hs & Hd & Hh & Ht & He & Hb & Hm & Hrc & Hex).
  exists data, r, w', robj, (stored_mvcc w obj).
  destruct (refcount_one robj Hrc) as [HF Hg].
  repeat split; try assumption.
  - now apply mvccFromObj_spec.
  - rewrite <- Hm. now apply mvccFromObj_spec.
Qed.

(** *** C5: integers in strings become integer-encoded *)

(** The test both [tryObjectEncoding] and
    [createStringObjectFromLongLongWithOptions] make of the eviction
    policy. *)
Definition shared_integers_permitted (w : world) : bool :=
  (maxmemory (g_pserver w) =? 0)
  || (Z.land (maxmemory_policy (g_pserver w))
             MAXMEMORY_FLAG_NO_SHARED_INTEGERS =? 0).

(** What [createSharedObjects] leaves behind: every slot of
    [shared.integers] points to a live integer-encoded string with the
    shared marker. *)
Definition shared_ok (w : world) : Prop :=
  forall j, 0 <= j < OBJ_SHARED_INTEGERS ->
    exists a obj,
      shared_integers w !! j = Some a /\ heap w !! a = Some obj /\
      type obj = OBJ_STRING /\ encoding obj = OBJ_ENCODING_INT /\
      m_ptr obj = j /\ refcount obj = OBJ_SHARED_REFCOUNT.

(** The allocator hands out addresses above every live object. *)
Definition heap_ok (w : world) : Prop :=
  forall a obj, heap w !! a = Some obj -> a < brk w.

Definition is_shared_integer (w : world) (r : Z) : Prop :=
  exists j, 0 <= j < OBJ_SHARED_INTEGERS /\ shared_integers w !! j = Some r.

Lemma string2l_range s v : string2l s = Some v -> LONG_MIN <= v <= LONG_MAX.
Proof.
  unfold string2l. destruct (string2ll s) as [ll|]; [|discriminate].
  destruct (Z.ltb_spec ll LONG_MIN); cbn; [discriminate|].
  destruct (Z.ltb_spec LONG_MAX ll); cbn; [discriminate|].
  intros [= <-]. lia.
Qed.

Lemma szFromObj_spec w o obj s :
  heap w !! o = Some obj -> sdsdata obj = Some s -> szFromObj o w = Done (s, w).
Proof. intros H Hs. unfold szFromObj. run. rewrite Hs. reflexivity. Qed.

Lemma shared_integer_spec w j a :
  shared_integers w !! j = Some a -> shared_integer j w = Done (a, w).
Proof. intros H. unfold shared_integer. now rewrite H. Qed.

Lemma extra_bytes_nonneg w : 0 <= extra_bytes w.
Proof.
  unfold extra_bytes, sizeof_redisObjectExtended.
  destruct (fActiveReplica (g_pserver w)); lia.
Qed.

(** A string object never makes its release panic. *)
Lemma destructor_events_string o obj :
  type obj = OBJ_STRING ->
  destructor_events o obj =
    Some (if encoding obj =? OBJ_ENCODING_RAW
          then [EvSdsFree (ptrFromObj o obj)] else []).
Proof. intros Ht. unfold destructor_events. now rewrite Ht. Qed.

(** The world once the last reference to [o] is gone. *)
Definition released (o : Z) (obj : redisObject) (w : world) : world :=
  set_heap (fun _ => delete o (heap w))
    (add_logs ((if encoding obj =? OBJ_ENCODING_RAW
                then [EvSdsFree (ptrFromObj o obj)] else [])
               ++ [EvDestructor o; EvZfree (allocPtrFromObj w o)]) w).

Lemma decrRefCount_string w o obj :
  heap w !! o = Some obj -> wf_obj obj -> getrefcount obj = 1 ->
  type obj = OBJ_STRING ->
  decrRefCount o w = Done (tt, released o obj w).
Proof.
  intros H Hwf H1 Ht.
  now apply (decrRefCount_last w o obj _ H Hwf H1 (destructor_events_string o obj Ht)).
Qed.

(** The integer object the long-long constructor builds when it does not
    hand out a shared one. *)
Definition int_object (w : world) (value : Z) : redisObject :=
  set_m_ptr (u64 value) None
    (set_encoding OBJ_ENCODING_INT (created w OBJ_STRING 0 None)).

Lemma createStringObjectFromLongLongForValue_fresh w value :
  LONG_MIN <= value <= LONG_MAX ->
  shared_integers_permitted w && (0 <=? value) && (value <? OBJ_SHARED_INTEGERS)
    = false ->
  createStringObjectFromLongLongForValue value w =
    Done (brk w + extra_bytes w,
          allocated (sizeof_robj + extra_bytes w) (brk w + extra_bytes w)
                    (int_object w value) w).
Proof.
  intros Hr Hc.
  unfold createStringObjectFromLongLongForValue,
    createStringObjectFromLongLongWithOptions, shared_integers_permitted in *.
  run.
  destruct ((maxmemory (g_pserver w) =? 0)
            || (Z.land (maxmemory_policy (g_pserver w))
                       MAXMEMORY_FLAG_NO_SHARED_INTEGERS =? 0)) eqn:Hp;
    cbn [andb] in Hc.
  - change (0 =? 0) with true. rewrite andb_true_r, Hc.
    destruct (Z.leb_spec LONG_MIN value); [|lia].
    destruct (Z.leb_spec value LONG_MAX); [|lia].
    cbn [andb]. run. rewrite createObject_spec. run_alloc.
    unfold int_object, allocated. rewrite !set_heap_set_heap.
    do 2 f_equal. apply set_heap_ext. cbn [heap set_brk].
    now rewrite !insert_insert_eq.
  - change (1 =? 0) with false. rewrite andb_false_r.
    destruct (Z.leb_spec LONG_MIN value); [|lia].
    destruct (Z.leb_spec value LONG_MAX); [|lia].
    cbn [andb]. run. rewrite createObject_spec. run_alloc.
    unfold int_object, allocated. rewrite !set_heap_set_heap.
    do 2 f_equal. apply set_heap_ext. cbn [heap set_brk].
    now rewrite !insert_insert_eq.
Qed.

Lemma getrefcount_shared obj :
  refcount obj = OBJ_SHARED_REFCOUNT -> getrefcount obj = OBJ_SHARED_REFCOUNT.
Proof. intros H. unfold getrefcount. now rewrite H. Qed.

(** The common start of [tryObjectEncoding] on a string held once. *)
Lemma tryObjectEncoding_start w o obj s :
  heap w !! o = Some obj -> type obj = OBJ_STRING ->
  sdsEncodedObject obj = true -> getrefcount obj = 1 ->
  sdsdata obj = Some s ->
  tryObjectEncoding o w =
    match (if sdslen s <=? 20 then string2l (buf s) else None) with
    | Some value =>
        if shared_integers_permitted w && (0 <=? value)
           && (value <? OBJ_SHARED_INTEGERS)
        then
          (exec decrRefCount o;
           do sh <- shared_integer value;
           exec incrRefCount sh;
           ret sh) w
        else if encoding obj =? OBJ_ENCODING_RAW then
          (exec sdsfree (ptrFromObj o obj);
           exec update o (set_encoding OBJ_ENCODING_INT);
           exec update o (set_m_ptr (u64 value) None);
           ret o) w
        else if encoding obj =? OBJ_ENCODING_EMBSTR then
          (exec decrRefCount o;
           createStringObjectFromLongLongForValue value) w
        else tryObjectEncoding_emb_or_trim o obj s w
    | None => tryObjectEncoding_emb_or_trim o obj s w
    end.
Proof.
  intros H Ht He H1 Hs. unfold tryObjectEncoding.
  rewrite (bind_Done _ _ _ _ _ (deref_Some w o obj H)).
  rewrite Ht, He, H1. change (OBJ_STRING =? OBJ_STRING) with true.
  change (1 <? 1) with false. cbn [negb serverAssert].
  unfold bind at 1. unfold ret at 1. cbv beta iota.
  rewrite (bind_Done _ _ _ _ _ (szFromObj_spec w o obj s H Hs)).
  unfold bind at 1. unfold get at 1. cbv beta iota.
  unfold shared_integers_permitted.
  destruct (if sdslen s <=? 20 then string2l (buf s) else None) as [value|];
    [|reflexivity].
  destruct (((maxmemory (g_pserver w) =? 0)
             || (Z.land (maxmemory_policy (g_pserver w))
                        MAXMEMORY_FLAG_NO_SHARED_INTEGERS =? 0))
            && (0 <=? value) && (value <? OBJ_SHARED_INTEGERS)); [reflexivity|].
  destruct (encoding obj =? OBJ_ENCODING_RAW); [reflexivity|].
  destruct (encoding obj =? OBJ_ENCODING_EMBSTR); reflexivity.
Qed.

Lemma tryObjectEncoding_to_shared w o obj s value a shobj :
  heap w !! o = Some obj -> wf_obj obj -> type obj = OBJ_STRING ->
  sdsEncodedObject obj = true -> getrefcount obj = 1 ->
  sdsdata obj = Some s ->
  sdslen s <= 20 -> string2l (buf s) = Some value ->
  shared_integers_permitted w && (0 <=? value)
    && (value <? OBJ_SHARED_INTEGERS) = true ->
  shared_integers w !! value = Some a -> heap w !! a = Some shobj ->
  refcount shobj = OBJ_SHARED_REFCOUNT ->
  tryObjectEncoding o w = Done (a, released o obj w) /\
  heap (released o obj w) !! a = Some shobj.
Proof.
  intros H Hwf Ht He H1 Hs Hlen Hv Hc Ha Hsh Hrc.
  assert (Hne : o <> a).
  { intros ->. rewrite H in Hsh. injection Hsh as ->.
    rewrite (getrefcount_shared shobj Hrc) in H1. discriminate. }
  assert (Hlk : heap (released o obj w) !! a = Some shobj)
    by (cbn; now rewrite lookup_delete_ne).
  split; [|exact Hlk].
  rewrite (tryObjectEncoding_start w o obj s H Ht He H1 Hs).
  destruct (Z.leb_spec (sdslen s) 20); [|lia]. rewrite Hv, Hc.
  rewrite (bind_Done _ _ _ _ _ (decrRefCount_string w o obj H Hwf H1 Ht)).
  rewrite (bind_Done _ _ _ _ _ (shared_integer_spec (released o obj w) value a Ha)).
  rewrite (bind_Done _ _ _ _ _
             (incrRefCount_shared _ a shobj Hlk (getrefcount_shared _ Hrc))).
  reflexivity.
Qed.

Lemma tryObjectEncoding_raw_to_int w o obj s value :
  heap w !! o = Some obj -> type obj = OBJ_STRING ->
  encoding obj = OBJ_ENCODING_RAW -> getrefcount obj = 1 ->
  sdsdata obj = Some s ->
  sdslen s <= 20 -> string2l (buf s) = Some value ->
  shared_integers_permitted w && (0 <=? value)
    && (value <? OBJ_SHARED_INTEGERS) = false ->
  tryObjectEncoding o w =
    Done (o, set_heap (insert o (set_m_ptr (u64 value) None
                                   (set_encoding OBJ_ENCODING_INT obj)))
               (add_log (EvSdsFree (m_ptr obj)) w)).
Proof.
  intros H Ht He H1 Hs Hlen Hv Hc.
  rewrite (tryObjectEncoding_start w o obj s H Ht
             ltac:(unfold sdsEncodedObject; now rewrite He) H1 Hs).
  destruct (Z.leb_spec (sdslen s) 20); [|lia]. rewrite Hv, Hc.
  unfold ptrFromObj. rewrite He.
  change (OBJ_ENCODING_RAW =? OBJ_ENCODING_RAW) with true.
  change (OBJ_ENCODING_RAW =? OBJ_ENCODING_EMBSTR) with false.
  cbv iota. run. rewrite !set_heap_set_heap. do 2 f_equal.
  apply set_heap_ext. cbn [heap add_log]. now rewrite insert_insert_eq.
Qed.

Lemma tryObjectEncoding_embstr_to_int w o obj s value :
  heap w !! o = Some obj -> wf_obj obj -> type obj = OBJ_STRING ->
  encoding obj = OBJ_ENCODING_EMBSTR -> getrefcount obj = 1 ->
  sdsdata obj = Some s ->
  sdslen s <= 20 -> string2l (buf s) = Some value ->
  shared_integers_permitted w && (0 <=? value)
    && (value <? OBJ_SHARED_INTEGERS) = false ->
  tryObjectEncoding o w =
    Done (brk w + extra_bytes w,
          allocated (sizeof_robj + extra_bytes w) (brk w + extra_bytes w)
                    (int_object w value) (released o obj w)).
Proof.
  intros H Hwf Ht He H1 Hs Hlen Hv Hc.
  rewrite (tryObjectEncoding_start w o obj s H Ht
             ltac:(unfold sdsEncodedObject; rewrite He; reflexivity) H1 Hs).
  destruct (Z.leb_spec (sdslen s) 20); [|lia]. rewrite Hv, Hc, He.
  change (OBJ_ENCODING_EMBSTR =? OBJ_ENCODING_RAW) with false.
  change (OBJ_ENCODING_EMBSTR =? OBJ_ENCODING_EMBSTR) with true.
  cbv iota.
  rewrite (bind_Done _ _ _ _ _ (decrRefCount_string w o obj H Hwf H1 Ht)).
  rewrite createStringObjectFromLongLongForValue_fresh;
    [reflexivity | now apply (string2l_range (buf s)) | exact Hc].
Qed.

Lemma trimStringObjectIfNeeded_spec w o obj s :
  heap w !! o = Some obj -> sdsdata obj = Some s ->
  trimStringObjectIfNeeded o w =
    Done (tt, if (encoding obj =? OBJ_ENCODING_RAW)
                 && (sdslen s / 10 <? sdsavail s)
              then set_heap (insert o (set_m_ptr (m_ptr obj)
                              (Some {| buf := buf s; avail := 0 |}) obj)) w
              else w).
Proof.
  intros H Hs. unfold trimStringObjectIfNeeded.
  rewrite (bind_Done _ _ _ _ _ (deref_Some w o obj H)).
  destruct (encoding obj =? OBJ_ENCODING_RAW); cbn [andb]; [|reflexivity].
  rewrite (bind_Done _ _ _ _ _ (szFromObj_spec w o obj s H Hs)).
  destruct (sdslen s / 10 <? sdsavail s); [|reflexivity].
  unfold sdsRemoveFreeSpace. cbn [fst snd]. run. reflexivity.
Qed.

Lemma tryObjectEncoding_not_int w o obj s :
  heap_ok w -> heap w !! o = Some obj -> wf_obj obj -> type obj = OBJ_STRING ->
  sdsEncodedObject obj = true -> getrefcount obj = 1 ->
  sdsdata obj = Some s ->
  (if sdslen s <=? 20 then string2l (buf s) else None) = None ->
  exists r w' robj s',
    tryObjectEncoding o w = Done (r, w') /\ heap w' !! r = Some robj /\
    type robj = OBJ_STRING /\ sdsEncodedObject robj = true /\
    sdsdata robj = Some s' /\ buf s' = buf s.
Proof.
  intros Hok H Hwf Ht He H1 Hs Hnone.
  rewrite (tryObjectEncoding_start w o obj s H Ht He H1 Hs), Hnone.
  unfold tryObjectEncoding_emb_or_trim.
  destruct (Z.leb_spec (sdslen s) OBJ_ENCODING_EMBSTR_SIZE_LIMIT) as [Hle|Hgt].
  - destruct (encoding obj =? OBJ_ENCODING_EMBSTR) eqn:Hemb.
    + exists o, w, obj, s. repeat split; assumption.
    + assert (Hlen : sdslen s <= UINT8_MAX)
        by (unfold OBJ_ENCODING_EMBSTR_SIZE_LIMIT, UINT8_MAX in *; lia).
      rewrite (bind_Done _ _ _ _ _
                 (createEmbeddedStringObject_spec w (buf s) (sdslen s) Hlen
                    ltac:(unfold sdslen; lia))).
      set (new := brk w + extra_bytes w).
      set (w1 := allocated _ new _ w).
      assert (Hne : new <> o)
        by (pose proof (Hok o obj H); pose proof (extra_bytes_nonneg w);
            unfold new; lia).
      assert (H1o : heap w1 !! o = Some obj)
        by (unfold w1, allocated; cbn; now rewrite lookup_insert_ne).
      rewrite (bind_Done _ _ _ _ _ (decrRefCount_string w1 o obj H1o Hwf H1 Ht)).
      do 4 eexists. split; [reflexivity|].
      split.
      { cbn [released heap set_heap]. rewrite lookup_delete_ne by congruence.
        unfold w1, allocated. cbn. apply lookup_insert_eq. }
      unfold sdslen. rewrite firstn_whole. repeat split; reflexivity.
  - rewrite (bind_Done _ _ _ _ _ (trimStringObjectIfNeeded_spec w o obj s H Hs)).
    destruct ((encoding obj =? OBJ_ENCODING_RAW) && (sdslen s / 10 <? sdsavail s)).
    + do 4 eexists. split; [reflexivity|]. split; [apply heap_store|].
      repeat split; try assumption; reflexivity.
    + exists o, w, obj, s. repeat split; assumption.
Qed.

Lemma s64_small v : 0 <= v < 2 ^ 63 -> s64 v = v.
Proof.
  intros H. unfold s64. rewrite u64_small by lia.
  destruct (Z.ltb_spec v (2 ^ 63)); lia.
Qed.

Lemma not_shared_if_held_once w o obj :
  shared_ok w -> heap w !! o = Some obj -> getrefcount obj = 1 ->
  ~ is_shared_integer w o.
Proof.
  intros Hsh H H1 (j & Hj & Hjo).
  destruct (Hsh j Hj) as (a & shobj & Ha & Hh & _ & _ & _ & Hrc).
  rewrite Hjo in Ha. injection Ha as <-. rewrite H in Hh. injection Hh as <-.
  rewrite (getrefcount_shared obj Hrc) in H1. discriminate.
Qed.

Lemma not_shared_if_fresh w r :
  shared_ok w -> heap_ok w -> brk w <= r -> ~ is_shared_integer w r.
Proof.
  intros Hsh Hok Hr (j & Hj & Hjo).
  destruct (Hsh j Hj) as (a & shobj & Ha & Hh & _).
  rewrite Hjo in Ha. injection Ha as <-.
  pose proof (Hok r shobj Hh). lia.
Qed.

(** C5: on a string object held once, RAW or EMBSTR, whose bytes are at
    most 20 and parse as a [long], [tryObjectEncoding] returns a live
    integer-encoded string object whose pointer word is that number; the
    object returned is one of [shared.integers] exactly when the number
    is in [0, 10000) and the eviction policy permits shared integers, and
    then it is the entry for that number.  When the bytes do not parse as
    a [long] (the parser never yields a number outside the [long] range)
    the object returned still holds the same bytes as a string and is not
    integer-encoded; the decimal text of LONG_MAX+1 does not parse, those
    of LONG_MAX and LONG_MIN do. *)
Theorem C5_integer_strings_encoded w o obj s :
  shared_ok w -> heap_ok w -> heap w !! o = Some obj -> wf_obj obj ->
  type obj = OBJ_STRING -> sdsEncodedObject obj = true ->
  getrefcount obj = 1 -> sdsdata obj = Some s ->
  (forall value, sdslen s <= 20 -> string2l (buf s) = Some value ->
     LONG_MIN <= value <= LONG_MAX /\
     exists r w' robj,
       tryObjectEncoding o w = Done (r, w') /\ heap w' !! r = Some robj /\
       type robj = OBJ_STRING /\ encoding robj = OBJ_ENCODING_INT /\
       s64 (m_ptr robj) = value /\
       (is_shared_integer w r <->
          0 <= value < OBJ_SHARED_INTEGERS /\ shared_integers_permitted w = true) /\
       (is_shared_integer w r -> shared_integers w !! value = Some r)) /\
  (string2l (buf s) = None ->
     exists r w' robj s',
       tryObjectEncoding o w = Done (r, w') /\ heap w' !! r = Some robj /\
       type robj = OBJ_STRING /\ encoding robj <> OBJ_ENCODING_INT /\
       sdsdata robj = Some s' /\ buf s' = buf s) /\
  string2l (bytes_of_string "9223372036854775808") = None /\
  string2l (bytes_of_string "9223372036854775807") = Some LONG_MAX /\
  string2l (bytes_of_string "-9223372036854775808") = Some LONG_MIN.
Proof.
  intros Hsh Hok H Hwf Ht He H1 Hs.
  split; [|split; [|repeat split; vm_compute; reflexivity]].
  - intros value Hlen Hv.
    pose proof (string2l_range _ _ Hv) as Hr. split; [exact Hr|].
    destruct (shared_integers_permitted w && (0 <=? value)
              && (value <? OBJ_SHARED_INTEGERS)) eqn:Hc.
    + apply andb_prop in Hc as [Hc Hlt]. apply andb_prop in Hc as [Hp Hge].
      apply Z.leb_le in Hge. apply Z.ltb_lt in Hlt.
      destruct (Hsh value ltac:(lia))
        as (a & shobj & Ha & Hh & Hty & Hen & Hm & Hrc).
      destruct (tryObjectEncoding_to_shared w o obj s value a shobj
                  H Hwf Ht He H1 Hs Hlen Hv) as [Hrun Hlk];
        try assumption.
      { rewrite Hp. cbn [andb]. apply andb_true_intro.
        split; [now apply Z.leb_le | now apply Z.ltb_lt]. }
      exists a, (released o obj w), shobj.
      do 4 (split; [assumption|]).
      split; [rewrite Hm; apply s64_small; unfold OBJ_SHARED_INTEGERS in Hlt; lia|].
      split; [|intros _; exact Ha].
      split; [intros _; split; [lia | assumption]|].
      intros _. exists value. split; [lia | assumption].
    + assert (Hcond : ~ (0 <= value < OBJ_SHARED_INTEGERS /\
                         shared_integers_permitted w = true)).
      { intros [[Hge Hlt] Hp]. rewrite Hp in Hc. cbn [andb] in Hc.
        apply andb_false_iff in Hc as [Hc|Hc];
          [apply Z.leb_gt in Hc | apply Z.ltb_ge in Hc]; lia. }
      unfold sdsEncodedObject in He. apply orb_prop in He as [Hraw|Hemb].
      * apply Z.eqb_eq in Hraw.
        rewrite (tryObjectEncoding_raw_to_int w o obj s value
                   H Ht Hraw H1 Hs Hlen Hv Hc).
        do 3 eexists. split; [reflexivity|]. split; [apply heap_store|].
        pose proof (not_shared_if_held_once w o obj Hsh H H1) as Hns.
        split; [exact Ht|]. split; [reflexivity|].
        split; [cbn [m_ptr set_m_ptr]; now apply s64_u64|].
        split; [split; intros Hx; contradiction | intros Hx; contradiction].
      * apply Z.eqb_eq in Hemb.
        rewrite (tryObjectEncoding_embstr_to_int w o obj s value
                   H Hwf Ht Hemb H1 Hs Hlen Hv Hc).
        do 3 eexists. split; [reflexivity|].
        split; [unfold allocated; apply heap_store|].
        assert (Hns : ~ is_shared_integer w (brk w + extra_bytes w))
          by (apply not_shared_if_fresh; try assumption;
              pose proof (extra_bytes_nonneg w); lia).
        split; [reflexivity|]. split; [reflexivity|].
        split; [cbn [m_ptr set_m_ptr int_object]; now apply s64_u64|].
        split; [split; intros Hx; contradiction | intros Hx; contradiction].
  - intros Hnone.
    destruct (tryObjectEncoding_not_int w o obj s Hok H Hwf Ht He H1 Hs)
      as (r & w' & robj & s' & Hrun & Hh & Hty & Henc & Hsd & Hb).
    { rewrite Hnone. now destruct (sdslen s <=? 20). }
    exists r, w', robj, s'. repeat split; try assumption.
    intros Hint. unfold sdsEncodedObject in Henc. rewrite Hint in Henc.
    discriminate.
Qed.

(** *** [createSharedObjects] establishes [shared_ok] *)

Definition shared_slot_ok (w : world) (j : Z) : Prop :=
  exists a obj,
    shared_integers w !! j = Some a /\ heap w !! a = Some obj /\
    type obj = OBJ_STRING /\ encoding obj = OBJ_ENCODING_INT /\
    m_ptr obj = j /\ refcount obj = OBJ_SHARED_REFCOUNT.

Lemma createSharedIntegers_spec n : forall j w,
  heap_ok w -> 0 <= j -> j + Z.of_nat n <= 2 ^ 64 ->
  exists w',
    createSharedIntegers n j w = Done (tt, w') /\
    heap_ok w' /\ g_pserver w' = g_pserver w /\ log w' = log w /\
    brk w <= brk w' /\
    (forall a obj, heap w !! a = Some obj -> heap w' !! a = Some obj) /\
    (forall i, j <= i < j + Z.of_nat n -> shared_slot_ok w' i) /\
    (forall i, ~ (j <= i < j + Z.of_nat n) ->
       shared_integers w' !! i = shared_integers w !! i).
Proof.
  induction n as [|n IH]; intros j w Hok Hj Hn.
  - exists w. cbn. repeat split; try assumption; try reflexivity; try lia;
      auto; intros i Hi; lia.
  - cbn [createSharedIntegers].
    rewrite (bind_Done _ _ _ _ _ (createObject_spec w OBJ_STRING (u64 j) None)).
    set (o := brk w + extra_bytes w).
    set (w1 := allocated _ o _ w).
    assert (Hfresh : heap w !! o = None).
    { destruct (heap w !! o) as [x|] eqn:Hx; [|reflexivity].
      pose proof (Hok o x Hx). pose proof (extra_bytes_nonneg w).
      unfold o in *. lia. }
    rewrite (bind_Done _ _ _ _ _
               (makeObjectShared_spec w1 o _ (heap_store _ _ _) eq_refl eq_refl)).
    run.
    set (shobj := set_encoding OBJ_ENCODING_INT
                    (set_refcount OBJ_SHARED_REFCOUNT
                       (created w OBJ_STRING (u64 j) None))).
    match goal with
    | |- context [createSharedIntegers n (j + 1) ?x] => set (w2 := x)
    end.
    assert (Hh2 : heap w2 = <[o := shobj]> (heap w))
      by (unfold w2, w1, allocated; cbn; now rewrite !insert_insert_eq).
    assert (Hok2 : heap_ok w2).
    { intros a x Hx. rewrite Hh2 in Hx.
      pose proof (extra_bytes_nonneg w).
      change (brk w2) with (brk w + (sizeof_robj + extra_bytes w)).
      unfold sizeof_robj.
      destruct (Z.eq_dec o a) as [<-|Hne].
      - unfold o. lia.
      - rewrite lookup_insert_ne in Hx by assumption.
        pose proof (Hok a x Hx). lia. }
    destruct (IH (j + 1) w2 Hok2 ltac:(lia) ltac:(lia))
      as (w' & Hrun & Hok' & Hg & Hl & Hb & Hmono & Hslots & Hother).
    exists w'. split; [exact Hrun|]. split; [exact Hok'|].
    split; [rewrite Hg; reflexivity|]. split; [rewrite Hl; reflexivity|].
    split.
    { pose proof (extra_bytes_nonneg w).
      change (brk w2) with (brk w + (sizeof_robj + extra_bytes w)) in Hb.
      unfold sizeof_robj in Hb. lia. }
    split.
    { intros a x Hx. apply Hmono. rewrite Hh2.
      rewrite lookup_insert_ne; [assumption|]. intros <-. congruence. }
    split.
    + intros i Hi. destruct (Z.eq_dec i j) as [->|Hne].
      * exists o, shobj. split.
        { rewrite Hother by lia. unfold w2. cbn. apply lookup_insert_eq. }
        split; [apply Hmono; rewrite Hh2; apply lookup_insert_eq|].
        repeat split. cbn. apply u64_small. lia.
      * apply Hslots. lia.
    + intros i Hi. rewrite Hother by lia. unfold w2. cbn.
      apply lookup_insert_ne. lia.
Qed.

Lemma createSharedObjects_shared_ok w :
  heap_ok w ->
  exists w', createSharedObjects w = Done (tt, w') /\
             shared_ok w' /\ heap_ok w' /\ g_pserver w' = g_pserver w.
Proof.
  intros Hok.
  destruct (createSharedIntegers_spec (Z.to_nat OBJ_SHARED_INTEGERS) 0 w Hok
              ltac:(lia) ltac:(unfold OBJ_SHARED_INTEGERS; lia))
    as (w' & Hrun & Hok' & Hg & _ & _ & _ & Hslots & _).
  exists w'. split; [exact Hrun|]. split; [|split; assumption].
  intros j Hj. apply Hslots. unfold OBJ_SHARED_INTEGERS in *. lia.
Qed.

End Externals.

(** *** Concrete runs *)

Definition quiet_server : redisServer :=
  {| maxmemory := 0; maxmemory_policy := MAXMEMORY_NO_EVICTION;
     fActiveReplica := true; lruclock := 1000; unixtime := 86400 |}.

Definition lru_server : redisServer :=
  {| maxmemory := 1048576; maxmemory_policy := MAXMEMORY_VOLATILE_LRU;
     fActiveReplica := false; lruclock := 1000; unixtime := 86400 |}.

(** A process holding the single object [obj] at address 4096. *)
Definition holding (g : redisServer) (obj : redisObject) : world :=
  {| heap := {[ 4096 := obj ]}; brk := 8192; junk := 170; log := [];
     g_pserver := g; shared_integers := ∅ |}.

Definition string_object (enc count : Z) (ptr : Z) (text : string) : redisObject :=
  {| mvcc_tstamp := 77; type := OBJ_STRING; encoding := enc; lru := 3;
     refcount := count; expire := 0; m_ptr := ptr;
     sdsdata := Some {| buf := bytes_of_string text; avail := 0 |} |}.

Definition raw_once : redisObject := string_object OBJ_ENCODING_RAW 1 12288 "value".
Definition raw_twice : redisObject := string_object OBJ_ENCODING_RAW 2 12288 "value".
Definition raw_expiring : redisObject :=
  string_object OBJ_ENCODING_RAW (EXPIRE_BIT + 1) 12288 "value".
Definition stack_key : redisObject :=
  string_object OBJ_ENCODING_RAW OBJ_STATIC_REFCOUNT 12288 "key".
Definition shared_ok_reply : redisObject :=
  string_object OBJ_ENCODING_RAW OBJ_SHARED_REFCOUNT 12288 "+OK".

(** Closed comparisons of numbers. *)
Ltac decide_range :=
  vm_compute; repeat split; first [discriminate | reflexivity].

Lemma holding_lookup g obj : heap (holding g obj) !! 4096 = Some obj.
Proof. apply lookup_singleton_eq. Qed.

Lemma C3_decrRefCount_release_witness :
  decrRefCount 4096 (holding quiet_server shared_ok_reply)
    = Done (tt, holding quiet_server shared_ok_reply) /\
  (exists w', decrRefCount 4096 (holding quiet_server raw_twice) = Done (tt, w') /\
     heap w' !! 4096 = Some raw_once /\ log w' = []) /\
  (exists w', decrRefCount 4096 (holding quiet_server raw_once) = Done (tt, w') /\
     heap w' !! 4096 = None /\
     log w' = [EvSdsFree 12288; EvDestructor 4096; EvZfree 4088]).
Proof.
  split; [|split].
  - apply (C3_decrRefCount_release (holding quiet_server shared_ok_reply) 4096
             shared_ok_reply (holding_lookup _ _)); [|reflexivity].
    decide_range.
  - destruct (C3_decrRefCount_release (holding quiet_server raw_twice) 4096
                raw_twice (holding_lookup _ _) ltac:(decide_range))
      as (_ & Hkeep & _).
    destruct (Hkeep ltac:(vm_compute; split; reflexivity))
      as (w' & Hrun & Hheap & _ & Hlog).
    exists w'. split; [exact Hrun|]. split; [|exact Hlog].
    rewrite Hheap. apply lookup_insert_eq.
  - destruct (C3_decrRefCount_release (holding quiet_server raw_once) 4096
                raw_once (holding_lookup _ _) ltac:(decide_range))
      as (_ & _ & Hlast).
    destruct (Hlast eq_refl _ eq_refl) as (w' & Hrun & _ & Hnone & Hlog).
    exists w'. split; [exact Hrun|]. split; [exact Hnone|exact Hlog].
Defined.

(** C4 (counterexample): a string set up as [initStaticStringObject]
    does, with count [OBJ_STATIC_REFCOUNT]; [decrRefCount] returns
    normally. *)
Lemma C4_stack_release_returns :
  getrefcount stack_key = OBJ_STATIC_REFCOUNT /\
  decrRefCount 4096 (holding quiet_server stack_key) =
    Done (tt, set_heap (insert 4096 (set_refcount (OBJ_STATIC_REFCOUNT - 1) stack_key))
                (holding quiet_server stack_key)) /\
  ~ stack_release_is_fatal.
Proof.
  assert (Hrun : decrRefCount 4096 (holding quiet_server stack_key) =
    Done (tt, set_heap (insert 4096 (set_refcount (OBJ_STATIC_REFCOUNT - 1) stack_key))
                (holding quiet_server stack_key))).
  { apply (decrRefCount_keep (holding quiet_server stack_key) 4096 stack_key
             (holding_lookup _ _)).
    - decide_range.
    - vm_compute. reflexivity.
    - vm_compute. discriminate. }
  split; [reflexivity|]. split; [exact Hrun|].
  intros Hfatal.
  destruct (Hfatal (holding quiet_server stack_key) 4096 stack_key
              (holding_lookup _ _) eq_refl) as [msg Hp].
  rewrite Hrun in Hp. discriminate.
Qed.

Lemma C4_stack_marker_not_checked_witness :
  (exists w', decrRefCount 4096 (holding quiet_server stack_key) = Done (tt, w') /\
     log w' = []) /\
  incrRefCount 4096 (holding quiet_server stack_key) =
    Panic "You tried to retain an object allocated in the stack".
Proof.
  destruct (C4_stack_marker_not_checked (holding quiet_server stack_key) 4096
              stack_key (holding_lookup _ _)
              ltac:(decide_range) eq_refl)
    as ((w' & Hrun & _ & _ & Hlog) & Hincr).
  split; [exists w'; split; assumption | exact Hincr].
Defined.

Lemma C9_shared_value_never_expires_witness :
  SetFExpires 4096 true (holding quiet_server shared_ok_reply) =
    Panic "this->refcount != OBJ_SHARED_REFCOUNT || fExpire == FExpires()" /\
  SetFExpires 4096 false (holding quiet_server shared_ok_reply) =
    Done (tt, holding quiet_server shared_ok_reply).
Proof.
  destruct (C9_shared_value_never_expires (holding quiet_server shared_ok_reply)
              4096 shared_ok_reply (holding_lookup _ _) eq_refl)
    as (_ & Hset & Hclear & _).
  split; assumption.
Defined.

(** C10 (counterexample): at the shared marker the masked count is at
    least 1, the flag is clear, and [addref] carries into bit 31. *)
Lemma C10_addref_sets_flag_at_marker :
  wf_obj shared_ok_reply /\ 1 <= getrefcount shared_ok_reply /\
  FExpires shared_ok_reply = false /\
  FExpires (addref shared_ok_reply) = true /\
  getrefcount (addref shared_ok_reply) = 0 /\
  ~ addref_release_keep_flag.
Proof.
  assert (Hwf : wf_obj shared_ok_reply) by decide_range.
  split; [exact Hwf|]. split; [vm_compute; discriminate|].
  split; [reflexivity|]. split; [reflexivity|]. split; [reflexivity|].
  intros Hkeep.
  destruct (Hkeep shared_ok_reply Hwf ltac:(vm_compute; discriminate)) as [Ha _].
  discriminate.
Qed.

Lemma C10_expire_flag_independent_witness :
  FExpires raw_expiring = true /\ getrefcount raw_expiring = 1 /\
  FExpires (addref raw_expiring) = true /\
  getrefcount (addref raw_expiring) = 2 /\
  FExpires (snd (release raw_expiring)) = true.
Proof.
  destruct (C10_expire_flag_independent raw_expiring
              ltac:(decide_range))
    as (_ & _ & _ & Hrel & Hadd & _).
  destruct (Hrel ltac:(vm_compute; discriminate)) as [Hr _].
  destruct (Hadd ltac:(vm_compute; split; [discriminate | reflexivity]))
    as [Ha Hg].
  split; [reflexivity|]. split; [reflexivity|].
  split; [exact Ha|]. split; [exact Hg | exact Hr].
Defined.

(** Stand-ins for the parts outside these sources, for the runs below. *)
Definition sample_expire_init : Z := 0.
Definition sample_dump (obj : redisObject) : list Z := [type obj].
Definition sample_rdb_reader (data : list Z) (cb : Z) : M world Z :=
  undefined "the RDB reader is outside these sources".

Lemma raw_expiring_wf : wf_string raw_expiring.
Proof.
  split; [reflexivity|]. split; [decide_range|]. split; [decide_range|].
  left. split; [reflexivity|]. eexists. split; [reflexivity|]. decide_range.
Qed.

(** C2 (counterexample): a RAW string with the expire flag set; what is
    read back has the flag clear. *)
Lemma C2_expire_flag_not_restored :
  wf_string raw_expiring /\ FExpires raw_expiring = true /\
  ~ roundtrip_keeps_expire_flag sample_expire_init sample_dump sample_rdb_reader.
Proof.
  split; [exact raw_expiring_wf|]. split; [reflexivity|].
  intros Hkeep.
  destruct (stored_string_roundtrip sample_expire_init sample_dump
              sample_rdb_reader (holding quiet_server raw_expiring) 4096
              raw_expiring (holding_lookup _ _) raw_expiring_wf)
    as (data & r & w' & robj & Hs & Hd & Hh & _ & _ & _ & _ & Hrc & _).
  pose proof (Hkeep _ _ _ _ _ _ _ (holding_lookup _ _) raw_expiring_wf Hs Hd Hh)
    as HF.
  destruct (refcount_one robj Hrc) as [HF' _].
  rewrite HF' in HF. discriminate.
Qed.

Lemma C2_stored_string_roundtrip_witness :
  exists data r w' robj,
    serializeStoredObject sample_dump 4096 None (holding quiet_server raw_expiring)
      = Done (data, holding quiet_server raw_expiring) /\
    deserializeStoredObject sample_expire_init sample_rdb_reader data
      (Z.of_nat (length data)) (holding quiet_server raw_expiring) = Done (r, w') /\
    heap w' !! r = Some robj /\
    resolved_bytes robj = bytes_of_string "value" /\
    mvccFromObj r w' = Done (77, w') /\ FExpires robj = false.
Proof.
  destruct (C2_stored_string_roundtrip sample_expire_init sample_dump
              sample_rdb_reader (holding quiet_server raw_expiring) 4096
              raw_expiring (holding_lookup _ _) raw_expiring_wf)
    as (data & r & w' & robj & m & Hs & Hd & Hh & _ & _ & Hb & Hm & Hm' & HF & _).
  exists data, r, w', robj.
  rewrite (mvccFromObj_spec _ _ _ (holding_lookup _ _)) in Hm.
  injection Hm as <-.
  repeat split; assumption.
Defined.

Lemma C8_stored_string_layout_witness :
  serializeStoredObject sample_dump 4096 None (holding quiet_server raw_once) =
    Done ([0;  77; 0; 0; 0; 0; 0; 0; 0;
           0; 3; 0; 0;  1; 0; 0; 0;  0; 0; 0; 0; 0; 0; 0; 0;
           0; 48; 0; 0; 0; 0; 0; 0;
           118; 97; 108; 117; 101],
          holding quiet_server raw_once).
Proof.
  destruct (C8_stored_string_layout sample_dump (holding quiet_server raw_once)
              4096 raw_once None (holding_lookup _ _) eq_refl
              ltac:(discriminate))
    as (stamp & header & payload & Hrun & -> & _ & -> & _ & _ & _ & Hpay & _).
  destruct (Hpay ltac:(left; reflexivity)) as (s & Hs & ->).
  injection Hs as <-. exact Hrun.
Defined.

(** The process after [createSharedObjects], and with one more string
    built by [createEmbeddedStringObject]. *)
Definition boot : world :=
  {| heap := ∅; brk := 4096; junk := 170; log := [];
     g_pserver := quiet_server; shared_integers := ∅ |}.

Definition booted : world :=
  match createSharedObjects sample_expire_init boot with
  | Done (_, w) => w
  | _ => boot
  end.

Lemma booted_ok :
  shared_ok booted /\ heap_ok booted /\ g_pserver booted = quiet_server.
Proof.
  destruct (createSharedObjects_shared_ok sample_expire_init boot)
    as (w' & Hrun & Hsh & Hok & Hg).
  { intros a obj Hl. cbn in Hl. rewrite lookup_empty in Hl. discriminate. }
  unfold booted. rewrite Hrun. auto.
Qed.

Definition next_object (w : world) : Z := brk w + extra_bytes w.

Definition with_embedded (text : string) (w : world) : world :=
  allocated (embedded_size w (Z.of_nat (length (bytes_of_string text))))
            (next_object w)
            (embedded sample_expire_init w
                      (Z.of_nat (length (bytes_of_string text)))
                      (bytes_of_string text)) w.

Lemma with_embedded_is_created text w :
  Z.of_nat (length (bytes_of_string text)) <= UINT8_MAX ->
  createEmbeddedStringObject sample_expire_init (Buffer (bytes_of_string text))
    (Z.of_nat (length (bytes_of_string text))) w
  = Done (next_object w, with_embedded text w).
Proof.
  intros Hlen. rewrite createEmbeddedStringObject_spec by lia.
  unfold with_embedded, next_object. now rewrite firstn_whole.
Qed.

Lemma allocated_ok w size obj :
  shared_ok w -> heap_ok w -> extra_bytes w < size ->
  shared_ok (allocated size (next_object w) obj w) /\
  heap_ok (allocated size (next_object w) obj w).
Proof.
  intros Hsh Hok Hsize. pose proof (extra_bytes_nonneg w) as Hx.
  unfold allocated, next_object. split.
  - intros j Hj. destruct (Hsh j Hj) as (a & o & Ha & Hh & Hrest).
    exists a, o. split; [exact Ha|]. split; [|exact Hrest].
    cbn. rewrite lookup_insert_ne; [exact Hh|].
    pose proof (Hok a o Hh). lia.
  - intros a o Hl. cbn in *.
    destruct (Z.eq_dec (brk w + extra_bytes w) a) as [<-|Hne]; [lia|].
    rewrite lookup_insert_ne in Hl by assumption.
    pose proof (Hok a o Hl). lia.
Qed.

Lemma C5_integer_strings_encoded_witness :
  exists r w' robj,
    tryObjectEncoding sample_expire_init (next_object booted)
      (with_embedded "42" booted) = Done (r, w') /\
    heap w' !! r = Some robj /\
    encoding robj = OBJ_ENCODING_INT /\ s64 (m_ptr robj) = 42 /\
    shared_integers (with_embedded "42" booted) !! 42 = Some r.
Proof.
  generalize booted_ok. generalize booted. intros w (Hsh & Hok & Hg).
  assert (Hg' : g_pserver (with_embedded "42" w) = quiet_server) by exact Hg.
  destruct (allocated_ok w (embedded_size w 2)
              (embedded sample_expire_init w 2 (bytes_of_string "42"))
              Hsh Hok) as [Hsh' Hok'].
  { unfold embedded_size, extra_bytes. rewrite Hg. decide_range. }
  destruct (C5_integer_strings_encoded sample_expire_init
              (with_embedded "42" w) (next_object w)
              (embedded sample_expire_init w 2 (bytes_of_string "42"))
              {| buf := bytes_of_string "42"; avail := 0 |}
              Hsh' Hok' (heap_store _ _ _)
              ltac:(unfold wf_obj; cbn [refcount embedded]; lia)
              eq_refl eq_refl eq_refl eq_refl) as (Hint & _).
  destruct (Hint 42 ltac:(decide_range) ltac:(vm_compute; reflexivity))
    as (_ & r & w' & robj & Hrun & Hh & _ & He & Hm & Hiff & Hsh42).
  exists r, w', robj.
  split; [exact Hrun|]. split; [exact Hh|]. split; [exact He|].
  split; [exact Hm|].
  apply Hsh42, Hiff. split; [decide_range|].
  unfold shared_integers_permitted. rewrite Hg'. reflexivity.
Defined.

(** Under an LRU policy the same text is encoded in place and no shared
    object is involved. *)
Example tryObjectEncoding_lru_in_place :
  tryObjectEncoding sample_expire_init 4096
    (holding lru_server (string_object OBJ_ENCODING_RAW 1 12288 "42"))
  = Done (4096,
          {| heap := {[ 4096 :=
               {| mvcc_tstamp := 77; type := OBJ_STRING;
                  encoding := OBJ_ENCODING_INT; lru := 3; refcount := 1;
                  expire := 0; m_ptr := 42; sdsdata := None |} ]};
             brk := 8192; junk := 170; log := [EvSdsFree 12288];
             g_pserver := lru_server; shared_integers := ∅ |}).
Proof.
  rewrite (tryObjectEncoding_raw_to_int sample_expire_init
             (holding lru_server (string_object OBJ_ENCODING_RAW 1 12288 "42"))
             4096 _ _ 42 (holding_lookup _ _) eq_refl eq_refl eq_refl eq_refl
             ltac:(decide_range) ltac:(vm_compute; reflexivity)
             ltac:(vm_compute; reflexivity)).
  unfold holding, set_heap, add_log. cbn [heap brk junk log g_pserver shared_integers].
  rewrite insert_singleton_eq. reflexivity.
Qed.

End Obj.

(** ** The periodic database driver ([databasesCron] of [server.cpp])

    The driver mostly calls into the dictionary, the expire cycle and the
    event loop, none of which is part of these sources: it is an
    interaction tree whose events are those calls, answered by the
    environment.  The wait for finished asynchronous rehashes is a loop
    whose length the environment decides. *)

Module Cron.

Definition CRON_DBS_PER_CALL : Z := 16.
Definition ACTIVE_EXPIRE_CYCLE_SLOW : Z := 0.

(** The callback handed to [setAeLockSetThreadSpinWorker]. *)
Inductive spin_worker : Type :=
| hash_spin_worker
| no_spin_worker.         (* nullptr *)

(** Calls that leave [server.cpp]; pointers are addresses. *)
Variant cronE : Type -> Type :=
| GlobalLocksAcquired : cronE bool
| activeExpireCycle (type : Z) : cronE unit
| expireSlaveKeys : cronE unit
| activeDefragCycle : cronE unit
| tryResize (dbid : Z) : cronE unit              (* db[dbid]->tryResize() *)
| dictUnsafeKeyOnly (db : Z) : cronE Z           (* the keys dict of db *)
| db_is_rehashing (db : Z) : cronE bool          (* dictIsRehashing(m_pdict) *)
| db_tombstone_is_rehashing (db : Z) : cronE bool
| db_rehash_milliseconds (db : Z) (ms : Z) : cronE Z
| db_tombstone_rehash_milliseconds (db : Z) (ms : Z) : cronE Z
| ctl_done (ctl : Z) : cronE bool                (* ctl->done.load() *)
| aeReleaseLock : cronE unit
| aeAcquireLock : cronE unit
| dictRehashSomeAsync (ctl : Z) (hashes : Z) : cronE Z
| dictCompleteRehashAsync (ctl : Z) (fFree : bool) : cronE unit
| dictSize (d : Z) : cronE Z
| dictIsRehashing (d : Z) : cronE bool
| aeLockContention : cronE Z
| dictRehashAsyncStart (d : Z) (buckets : Z) : cronE (option Z)
| dict_asyncdata (d : Z) : cronE (option Z)      (* dict->asyncdata *)
| serverLog (what : string) (n : Z) : cronE unit
| setAeLockSetThreadSpinWorker (worker : spin_worker) : cronE unit
| serverPanic (msg : string) : cronE Empty_set.

(** What the driver reads of [g_pserver] and [cserver], its function
    statics, and the thread's [serverTL->rehashCtl]. *)
Record cronState : Type := {
  active_expire_enabled : bool;
  activerehashing : bool;
  enable_async_rehash : bool;
  loading : bool;
  hz : Z;
  child_pid : Z;
  cluster_enabled : bool;
  myself_is_master : bool;        (* nodeIsMaster(g_pserver->cluster->myself) *)
  fActiveReplica : bool;
  masters : list bool;            (* isActive of each entry of g_pserver->masters *)
  active_defrag_enabled : bool;
  cthreads : Z;
  dbnum : Z;
  resize_db : Z;                  (* static unsigned int *)
  rehash_db : Z;                  (* static unsigned int *)
  rehashes_per_ms : Z;            (* static int *)
  async_rehashes : Z;             (* static int *)
  rehashCtl : option Z
}.

Definition set_resize_db (v : Z) (s : cronState) : cronState :=
  {| active_expire_enabled := active_expire_enabled s;
     activerehashing := activerehashing s;
     enable_async_rehash := enable_async_rehash s; loading := loading s;
     hz := hz s; child_pid := child_pid s;
     cluster_enabled := cluster_enabled s;
     myself_is_master := myself_is_master s;
     fActiveReplica := fActiveReplica s; masters := masters s;
     active_defrag_enabled := active_defrag_enabled s; cthreads := cthreads s;
     dbnum := dbnum s; resize_db := v; rehash_db := rehash_db s;
     rehashes_per_ms := rehashes_per_ms s; async_rehashes := async_rehashes s;
     rehashCtl := rehashCtl s |}.

Definition set_rehash (db per_ms async : Z) (ctl : option Z) (s : cronState)
  : cronState :=
  {| active_expire_enabled := active_expire_enabled s;
     activerehashing := activerehashing s;
     enable_async_rehash := enable_async_rehash s; loading := loading s;
     hz := hz s; child_pid := child_pid s;
     cluster_enabled := cluster_enabled s;
     myself_is_master := myself_is_master s;
     fActiveReplica := fActiveReplica s; masters := masters s;
     active_defrag_enabled := active_defrag_enabled s; cthreads := cthreads s;
     dbnum := dbnum s; resize_db := resize_db s; rehash_db := db;
     rehashes_per_ms := per_ms; async_rehashes := async;
     rehashCtl := ctl |}.

Definition set_rehash_db (v : Z) (s : cronState) : cronState :=
  set_rehash v (rehashes_per_ms s) (async_rehashes s) (rehashCtl s) s.
Definition set_rehashes_per_ms (v : Z) (s : cronState) : cronState :=
  set_rehash (rehash_db s) v (async_rehashes s) (rehashCtl s) s.
Definition set_async_rehashes (v : Z) (s : cronState) : cronState :=
  set_rehash (rehash_db s) (rehashes_per_ms s) v (rehashCtl s) s.
Definition set_rehashCtl (v : option Z) (s : cronState) : cronState :=
  set_rehash (rehash_db s) (rehashes_per_ms s) (async_rehashes s) v s.

Declare Scope cron_scope.
Delimit Scope cron_scope with cron.
Notation "'do' x <- m ; k" := (ITree.bind m (fun x => k))
  (at level 10, x name, m at level 100, k at level 200) : cron_scope.
Notation "'exec' m ; k" := (ITree.bind m (fun _ => k))
  (at level 10, m at level 100, k at level 200) : cron_scope.
Local Open Scope cron_scope.

Definition perform {X} (e : cronE X) : itree cronE X := ITree.trigger e.

Definition panic {A} (msg : string) : itree cronE A :=
  do v <- perform (serverPanic msg); match v : Empty_set with end.

Definition serverAssert (b : bool) (what : string) : itree cronE unit :=
  if b then Ret tt else panic what.

Definition hasActiveChildProcess (s : cronState) : bool :=
  negb (child_pid s =? -1).

Definition iAmMaster (s : cronState) : bool :=
  (negb (cluster_enabled s)
   && ((length (masters s) =? 0)%nat || fActiveReplica s))
  || (cluster_enabled s && myself_is_master s).

Definition expireOwnKeys (s : cronState) : bool :=
  if iAmMaster s then true
  else if negb (fActiveReplica s) && (length (masters s) =? 1)%nat then
    match masters s with
    | isActive :: _ => if isActive then true else false
    | [] => false
    end
  else false.

Definition tryResizeHashTables (dbid : Z) : itree cronE unit :=
  perform (tryResize dbid).

(** [redisDbPersistentData::incrementallyRehash] on database [db]. *)
Definition incrementallyRehash (db : Z) : itree cronE Z :=
  do r <- perform (db_is_rehashing db);
  do result <- (if r : bool then perform (db_rehash_milliseconds db 1) else Ret 0);
  do t <- perform (db_tombstone_is_rehashing db);
  exec (if t : bool
        then (exec perform (db_tombstone_rehash_milliseconds db 1); Ret tt)
        else Ret tt);
  Ret result.

(** The [for] loop over [resize_db]. *)
Fixpoint resize_loop (n : nat) (s : cronState) : itree cronE cronState :=
  match n with
  | O => Ret s
  | S k =>
      exec tryResizeHashTables (resize_db s mod dbnum s);
      resize_loop k (set_resize_db (u32 (resize_db s + 1)) s)
  end.

Definition same_pointer (a : option Z) (p : Z) : bool :=
  match a with Some q => q =? p | None => false end.

(** [while (dict->asyncdata != nullptr)]: finished asynchronous rehashes
    are completed one by one; the first unfinished one ends the wait. *)
Definition finish_async (d : Z) : itree cronE unit :=
  ITree.iter
    (fun _ : unit =>
       do a <- perform (dict_asyncdata d);
       match a with
       | None => Ret (inr tt)
       | Some asyncdata =>
           do done <- perform (ctl_done asyncdata);
           if done : bool then
             exec perform (dictCompleteRehashAsync asyncdata false);
             do a' <- perform (dict_asyncdata d);
             exec serverAssert (negb (same_pointer a' asyncdata))
                  "dict->asyncdata != asyncdata";
             Ret (inl tt)
           else Ret (inr tt)
       end) tt.

(** The head of the rehash loop body: an asynchronous rehash this thread
    already owns is advanced with the lock released.  [inr] is [break]. *)
Definition advance_owned (s : cronState) : itree cronE (cronState + cronState) :=
  match rehashCtl s with
  | Some ctl =>
      do done <- perform (ctl_done ctl);
      do stop <-
        (if negb done then
           exec perform aeReleaseLock;
           do some <- perform (dictRehashSomeAsync ctl (rehashes_per_ms s));
           if negb (some =? 0)
           then (exec perform aeAcquireLock; Ret true)
           else (exec perform aeAcquireLock; Ret false)
         else Ret false);
      if stop : bool then Ret (inr s)
      else
        do done' <- perform (ctl_done ctl);
        if done' : bool then
          exec perform (dictCompleteRehashAsync ctl true);
          Ret (inl (set_rehashCtl None s))
        else Ret (inl s)
  | None => Ret (inl s)
  end.

(** The test that starts an asynchronous rehash, left to right with the
    short circuit of [&&]. *)
Definition maybe_start_async (dict : Z) (s : cronState) : itree cronE cronState :=
  if enable_async_rehash s && (0 <? rehashes_per_ms s)
     && (async_rehashes s <? 131) && negb (active_defrag_enabled s)
     && (1 <? cthreads s)
  then
    do size <- perform (dictSize dict);
    if 2048 <? size then
      do rehashing <- perform (dictIsRehashing dict);
      if (rehashing : bool) && negb (loading s) then
        do contention <- perform aeLockContention;
        if 1 <? contention then
          do ctl <- perform (dictRehashAsyncStart dict
                            (rehashes_per_ms s * Z.quot (Z.quot 1000 (hz s)) 10));
          let s := set_rehashCtl ctl s in
          match ctl with
          | Some _ => Ret (set_async_rehashes (async_rehashes s + 1) s)
          | None => Ret s
          end
        else Ret s
      else Ret s
    else Ret s
  else Ret s.

(** The [for] loop over [rehash_db]. *)
Fixpoint rehash_loop (n : nat) (s : cronState) : itree cronE cronState :=
  match n with
  | O => Ret s
  | S k =>
      do r <- advance_owned s;
      match r with
      | inr s => Ret s
      | inl s =>
          exec serverAssert (match rehashCtl s with None => true | Some _ => false end)
               "serverTL->rehashCtl == nullptr";
          do dict <- perform (dictUnsafeKeyOnly (rehash_db s));
          do s <- maybe_start_async dict s;
          match rehashCtl s with
          | Some _ => Ret s
          | None =>
              exec finish_async dict;
              do a <- perform (dict_asyncdata dict);
              match a with
              | Some _ => Ret s
              | None =>
                  do per_ms <- incrementallyRehash (rehash_db s);
                  let s := set_async_rehashes 0 (set_rehashes_per_ms per_ms s) in
                  if 0 <? per_ms then
                    exec (if negb (active_defrag_enabled s)
                          then perform (serverLog "Calibrated rehashes per ms: %d" per_ms)
                          else Ret tt);
                    Ret s
                  else
                    do a' <- perform (dict_asyncdata dict);
                    match a' with
                    | None =>
                        rehash_loop k
                          (set_rehash_db (u32 (rehash_db s + 1) mod dbnum s) s)
                    | Some _ => rehash_loop k s
                    end
              end
          end
      end
  end.

Definition databasesCron (fMainThread : bool) (s : cronState)
  : itree cronE cronState :=
  do locked <- perform GlobalLocksAcquired;
  exec serverAssert locked "GlobalLocksAcquired()";
  exec (if fMainThread then
          exec (if active_expire_enabled s then
                  if expireOwnKeys s
                  then perform (activeExpireCycle ACTIVE_EXPIRE_CYCLE_SLOW)
                  else perform expireSlaveKeys
                else Ret tt);
          perform activeDefragCycle
        else Ret tt);
  do s <- (if negb (hasActiveChildProcess s) then
             let dbs_per_call :=
               if dbnum s <? CRON_DBS_PER_CALL then dbnum s
               else CRON_DBS_PER_CALL in
             do s <- (if fMainThread
                      then resize_loop (Z.to_nat dbs_per_call) s
                      else Ret s);
             if activerehashing s
             then rehash_loop (Z.to_nat dbs_per_call) s
             else Ret s
           else Ret s);
  exec (match rehashCtl s with
        | Some _ => perform (setAeLockSetThreadSpinWorker hash_spin_worker)
        | None => perform (setAeLockSetThreadSpinWorker no_spin_worker)
        end);
  Ret s.

(** *** What a run can do *)

(** Every path of the tree is finite, every call on it is [allowed] and
    every result satisfies [post]. *)
Inductive quiet {R} (allowed : forall X, cronE X -> Prop) (post : R -> Prop)
  : itree cronE R -> Prop :=
| quiet_ret t r : observe t = RetF r -> post r -> quiet allowed post t
| quiet_tau t u : observe t = TauF u -> quiet allowed post u ->
                  quiet allowed post t
| quiet_vis t X (e : cronE X) k :
    observe t = VisF e k -> allowed X e ->
    (forall x, quiet allowed post (k x)) -> quiet allowed post t.

(** A call together with the answer it got. *)
Inductive step : Type :=
| Step (X : Type) (e : cronE X) (x : X).
Arguments Step {X} e x.

(** The finite beginnings of runs: the calls made, in order. *)
Inductive is_trace {R} : itree cronE R -> list step -> Prop :=
| trace_stop t : is_trace t []
| trace_tau t u tr : observe t = TauF u -> is_trace u tr -> is_trace t tr
| trace_vis t X (e : cronE X) k x tr :
    observe t = VisF e k -> is_trace (k x) tr ->
    is_trace t (Step e x :: tr).

(** The calls that resize a table or migrate buckets: what
    [tryResizeHashTables] and [incrementallyRehash] do, and every other
    call of the block guarded by [hasActiveChildProcess]. *)
Definition resizes_or_rehashes {X} (e : cronE X) : Prop :=
  match e with
  | GlobalLocksAcquired | activeExpireCycle _ | expireSlaveKeys
  | activeDefragCycle | setAeLockSetThreadSpinWorker _ | serverPanic _ => False
  | _ => True
  end.

Definition step_ok (allowed : forall X, cronE X -> Prop) (st : step) : Prop :=
  match st with Step e _ => allowed _ e end.

Lemma quiet_trace {R} allowed post (t : itree cronE R) :
  quiet allowed post t ->
  forall tr, is_trace t tr -> Forall (step_ok allowed) tr.
Proof.
  induction 1 as [t r Hr Hp | t u Hu Hq IH | t X e k Hv Ha Hk IH];
    intros tr Ht.
  - destruct Ht as [t | t u' tr Hu' _ | t X e k x tr Hv' _];
      [constructor | congruence | congruence].
  - destruct Ht as [t | t u' tr Hu' Hrest | t X e k x tr Hv' _];
      [constructor | | congruence].
    apply IH. rewrite Hu in Hu'. now injection Hu' as <-.
  - destruct Ht as [t | t u' tr Hu' _ | t X' e' k' x tr Hv' Hrest];
      [constructor | congruence |].
    pose (Q := fun o : itree' cronE R =>
                 match o with
                 | VisF e0 k0 =>
                     allowed _ e0 /\
                     forall x tr, is_trace (k0 x) tr -> Forall (step_ok allowed) tr
                 | _ => True
                 end).
    assert (HQ : Q (observe t)) by (rewrite Hv; split; assumption).
    rewrite Hv' in HQ. destruct HQ as [Ha' Hk'].
    constructor; [exact Ha' | now apply (Hk' x)].
Qed.

(** Bring the root of a tree into view without touching what follows. *)
Ltac see_node :=
  match goal with
  | |- ?l = _ => let v := eval hnf in l in change l with v
  end;
  reflexivity.

Ltac quiet_step :=
  first
    [ eapply quiet_ret; [see_node | reflexivity]
    | eapply quiet_vis; [see_node | cbn; tauto | intros ?]
    | eapply quiet_tau; [see_node |] ].

Lemma databasesCron_with_child fMainThread s :
  child_pid s <> -1 ->
  quiet (fun X e => ~ resizes_or_rehashes e) (fun s' => s' = s)
        (databasesCron fMainThread s).
Proof.
  intros Hchild. unfold databasesCron, hasActiveChildProcess, perform, serverAssert, panic.
  destruct (Z.eqb_spec (child_pid s) (-1)) as [|_]; [contradiction|].
  cbn [negb].
  eapply quiet_vis; [cbn; reflexivity | cbn; tauto | intros locked].
  destruct locked.
  2:{ eapply quiet_vis; [cbn; reflexivity | cbn; tauto | intros []]. }
  destruct (expireOwnKeys s).
  all: destruct s as [aee ar ear ld hz0 pid ce mim far ms ade ct dn rd rhd rpm asr ctl].
  all: cbn [active_expire_enabled rehashCtl].
  all: destruct ctl, fMainThread, aee; repeat quiet_step.
Qed.

(** C7: when a fork child exists ([child_pid != -1]) a call of
    [databasesCron] returns after finitely many calls, leaves its
    counters as they were, and makes none of the calls that resize a
    table or migrate buckets: no [tryResizeHashTables] and nothing of
    what [incrementallyRehash] does, on any database; so a run in which
    such a call appears is a run without a fork child. *)
Theorem C7_no_resize_or_rehash_with_child fMainThread s :
  child_pid s <> -1 ->
  quiet (fun X e => ~ resizes_or_rehashes e) (fun s' => s' = s)
        (databasesCron fMainThread s) /\
  forall tr, is_trace (databasesCron fMainThread s) tr ->
    Forall (step_ok (fun X e => ~ resizes_or_rehashes e)) tr /\
    (forall dbid x, ~ In (Step (tryResize dbid) x) tr) /\
    (forall db ms x, ~ In (Step (db_rehash_milliseconds db ms) x) tr) /\
    (forall db x, ~ In (Step (db_is_rehashing db) x) tr).
Proof.
  intros Hchild.
  pose proof (databasesCron_with_child fMainThread s Hchild) as Hq.
  split; [exact Hq|]. intros tr Ht.
  pose proof (quiet_trace _ _ _ Hq tr Ht) as Hall.
  split; [exact Hall|].
  pose proof (proj1 (List.Forall_forall _ _) Hall) as Hevery.
  repeat split; intros; intros Hin; apply (Hevery _ Hin); exact I.
Qed.

(** *** Concrete runs *)

Definition a_server (pid : Z) : cronState :=
  {| active_expire_enabled := true; activerehashing := true;
     enable_async_rehash := true; loading := false; hz := 10;
     child_pid := pid; cluster_enabled := false; myself_is_master := false;
     fActiveReplica := false; masters := [];
     active_defrag_enabled := false; cthreads := 2; dbnum := 2;
     resize_db := 0; rehash_db := 0; rehashes_per_ms := 0;
     async_rehashes := 0; rehashCtl := None |}.

Lemma C7_no_resize_or_rehash_with_child_witness :
  is_trace (databasesCron true (a_server 4242))
    [Step GlobalLocksAcquired true; Step (activeExpireCycle 0) tt;
     Step activeDefragCycle tt;
     Step (setAeLockSetThreadSpinWorker no_spin_worker) tt] /\
  forall tr, is_trace (databasesCron true (a_server 4242)) tr ->
    forall dbid x, ~ In (Step (tryResize dbid) x) tr.
Proof.
  split.
  - repeat (eapply trace_vis; [see_node|]). apply trace_stop.
  - intros tr Ht.
    destruct (C7_no_resize_or_rehash_with_child true (a_server 4242)
                ltac:(cbn; discriminate)) as [_ Hall].
    apply (Hall tr Ht).
Defined.

(** Without a child the main thread does resize: each of the two
    databases is tried right after the expire and defragmentation cycles,
    and the rehash loop asks the first database to migrate buckets. *)
Example databasesCron_resizes_without_child :
  is_trace (databasesCron true (a_server (-1)))
    [Step GlobalLocksAcquired true; Step (activeExpireCycle 0) tt;
     Step activeDefragCycle tt;
     Step (tryResize 0) tt; Step (tryResize 1) tt;
     Step (dictUnsafeKeyOnly 0) 4096;
     Step (dict_asyncdata 4096) None;
     Step (dict_asyncdata 4096) None;
     Step (db_is_rehashing 0) true;
     Step (db_rehash_milliseconds 0 1) 7].
Proof.
  repeat first [ eapply trace_vis; [see_node|]
               | eapply trace_tau; [see_node|] ].
  apply trace_stop.
Qed.

End Cron.

(** ** The storage version guard ([parseVersion], [compareVersion] of
       [server.cpp]; the constructor of [storage/rocksdbfactory.cpp]) *)

Module Flash.

(** Modelled from the spec: the declarations of [SymVer] and
    [VersionCompareResult] are in a header outside these sources; the
    code uses three [long] members and four results. *)
Record SymVer : Type := { major : Z; minor : Z; build : Z }.

Inductive VersionCompareResult : Type :=
| EqualVersion
| OlderVersion
| NewerVersion
| IncompatibleVersion.

(** A C string ends at its first NUL. *)
Fixpoint c_str (s : string) : string :=
  match s with
  | EmptyString => EmptyString
  | String c rest =>
      if Ascii.eqb c zero then EmptyString else String c (c_str rest)
  end.

(** The bytes from [start] up to the next ['.'] or the end, and what
    follows the ['.'] when there is one. *)
Fixpoint component (start : list Z) : list Z * option (list Z) :=
  match start with
  | [] => ([], None)
  | c :: rest =>
      if c =? 46 then ([], Some rest)
      else (c :: fst (component rest), snd (component rest))
  end.

(** The [for] loop of [parseVersion]; [None] is the early [return ver]
    with [ver] still at its initial value. *)
Fixpoint parseVersion_loop (n : nat) (start : list Z) (versions : list Z)
  : option (list Z) :=
  match n with
  | O => Some versions
  | S k =>
      let text := fst (component start) in
      if (length text =? 0)%nat then None
      else
        match Obj.string2l text with
        | None => None
        | Some v =>
            match snd (component start) with
            | Some start' => parseVersion_loop k start' (versions ++ [v])
            | None => Some (versions ++ [v])
            end
        end
  end.

Definition parseVersion (version : string) : SymVer :=
  match parseVersion_loop 3 (bytes_of_string (c_str version)) [] with
  | None => {| major := -1; minor := -1; build := -1 |}
  | Some versions =>
      {| major := nth 0 versions (-1); minor := nth 1 versions (-1);
         build := nth 2 versions (-1) |}
  end.

Definition is_zero (v : SymVer) : bool :=
  (major v =? 0) && (minor v =? 0) && (build v =? 0).

(** The [for] loop of [compareVersion] over the three members. *)
Fixpoint compare_members (pairs : list (Z * Z)) : VersionCompareResult :=
  match pairs with
  | [] => EqualVersion
  | (verThis, verOther) :: rest =>
      if verThis <? verOther then NewerVersion
      else if verOther <? verThis then OlderVersion
      else compare_members rest
  end.

Section Version.

(** [KEYDB_REAL_VERSION] is in [version.h] and [version_key] in
    [rocksdbfactor_internal.h]; neither file is part of these sources. *)
Variable KEYDB_REAL_VERSION : string.
Variable version_key : string.

Definition compareVersion (pver : SymVer) : VersionCompareResult :=
  let symVerThis := parseVersion KEYDB_REAL_VERSION in
  if is_zero symVerThis || is_zero pver then EqualVersion
  else if (major pver <=? 6) && (minor pver <=? 3) && (build pver <=? 3)
       then IncompatibleVersion
       else compare_members
              [(major symVerThis, major pver); (minor symVerThis, minor pver);
               (build symVerThis, build pver)].

(** The database behind the factory: its column families by name, each
    a map from keys to values, and the status the next write or the open
    meets ([None] is OK). *)
Record rocksdb : Type := {
  families : gmap string (gmap string string);
  write_status : option string;
  open_status : option string
}.

Definition set_families (f : gmap string (gmap string string)) (db : rocksdb)
  : rocksdb :=
  {| families := f; write_status := write_status db;
     open_status := open_status db |}.

Definition family (db : rocksdb) (handle : string) : gmap string string :=
  default ∅ (families db !! handle).

(** [m_spdb->Get]: the value, or a status that is not OK. *)
Definition Get (handle key : string) : M rocksdb (option string) :=
  do db <- get; ret (family db handle !! key).

(** [m_spdb->Put]: the status. *)
Definition Put (handle key value : string) : M rocksdb (option string) :=
  do db <- get;
  match write_status db with
  | Some err => ret (Some err)
  | None =>
      exec put (set_families
                  (<[handle := <[key := value]> (family db handle)]> (families db))
                  db);
      ret None
  end.

(** The value written: the version text with its terminator. *)
Definition version_value : string :=
  KEYDB_REAL_VERSION ++ String zero EmptyString.

Definition setVersion (handle : string) : M rocksdb unit :=
  do status <- Put handle version_key version_value;
  match status with
  | Some err => throw err
  | None => ret tt
  end.

(** The constructor's step for a column family that holds data. *)
Definition check_version (handle : string) : M rocksdb unit :=
  do strVersion <- Get handle version_key;
  match strVersion with
  | None => setVersion handle
  | Some strVersion =>
      let ver := parseVersion strVersion in
      match compareVersion ver with
      | NewerVersion =>
          throw "Cannot load FLASH database created by newer version of KeyDB"
      | IncompatibleVersion =>
          throw "Cannot load FLASH database from before 6.3.4"
      | OlderVersion => setVersion handle
      | EqualVersion => ret tt
      end
  end.

Record factory : Type := {
  m_vecspcols : list string;
  m_vecspexpirecols : list string
}.

Definition is_expires (name : string) : bool :=
  (7 <? String.length name)%nat
  && String.eqb (substring (String.length name - 7) 7 name) "expires".

(** The loop over the handles [DB::Open] returns. *)
Fixpoint for_each_handle (handles : list string) (f : factory)
  : M rocksdb factory :=
  match handles with
  | [] => ret f
  | handle :: rest =>
      if is_expires handle then
        for_each_handle rest
          {| m_vecspcols := m_vecspcols f;
             m_vecspexpirecols := m_vecspexpirecols f ++ [handle] |}
      else
        exec check_version handle;
        for_each_handle rest
          {| m_vecspcols := m_vecspcols f ++ [handle];
             m_vecspexpirecols := m_vecspexpirecols f |}
  end.

Definition to_string (n : nat) : string :=
  NilZero.string_of_uint (Nat.to_uint n).

(** The descriptors handed to [DB::Open]. *)
Definition descriptors (dbnum : nat) : list string :=
  "default"%string
    :: flat_map (fun idb => [to_string idb; (to_string idb ++ "_expires")%string])
                (seq 0 dbnum).

(** [DB::Open] with [create_missing_column_families]. *)
Definition Open (names : list string) : M rocksdb unit :=
  do db <- get;
  match open_status db with
  | Some err => throw err
  | None =>
      put (set_families
             (fold_right (fun name f =>
                            match f !! name with
                            | Some _ => f
                            | None => <[name := ∅]> f
                            end) (families db) names) db)
  end.

(** The constructor, for a null option string.  [ListColumnFamilies]
    succeeds on a database that exists. *)
Definition RocksDBStorageFactory (dbnum : Z) : M rocksdb factory :=
  let dbnum := dbnum + 1 in
  do db <- get;
  let listed := Z.of_nat (size (families db)) in
  let dbnum :=
    if negb (listed =? 0) && (dbnum <? Z.quot listed 2)
    then Z.quot listed 2 else dbnum in
  exec Open (descriptors (Z.to_nat dbnum));
  for_each_handle (descriptors (Z.to_nat dbnum))
    {| m_vecspcols := []; m_vecspexpirecols := [] |}.

(** *** The guard, case by case *)

Definition stored_version (db : rocksdb) (handle : string) : option string :=
  family db handle !! version_key.

(** Versions in their usual order, member by member. *)
Definition ver_lt (a b : SymVer) : Prop :=
  major a < major b \/
  (major a = major b /\
   (minor a < minor b \/ (minor a = minor b /\ build a < build b))).

Definition minimum : SymVer := {| major := 6; minor := 3; build := 4 |}.

Lemma compare_members_newer this ver :
  ver_lt this ver ->
  compare_members [(major this, major ver); (minor this, minor ver);
                   (build this, build ver)] = NewerVersion.
Proof.
  intros H. cbn [compare_members].
  destruct (Z.ltb_spec (major this) (major ver)); [reflexivity|].
  destruct (Z.ltb_spec (major ver) (major this)); [unfold ver_lt in H; lia|].
  destruct (Z.ltb_spec (minor this) (minor ver)); [reflexivity|].
  destruct (Z.ltb_spec (minor ver) (minor this)); [unfold ver_lt in H; lia|].
  destruct (Z.ltb_spec (build this) (build ver)); [reflexivity|].
  unfold ver_lt in H. lia.
Qed.

Lemma compare_members_older this ver :
  ver_lt ver this ->
  compare_members [(major this, major ver); (minor this, minor ver);
                   (build this, build ver)] = OlderVersion.
Proof.
  intros H. cbn [compare_members].
  destruct (Z.ltb_spec (major this) (major ver)); [unfold ver_lt in H; lia|].
  destruct (Z.ltb_spec (major ver) (major this)); [reflexivity|].
  destruct (Z.ltb_spec (minor this) (minor ver)); [unfold ver_lt in H; lia|].
  destruct (Z.ltb_spec (minor ver) (minor this)); [reflexivity|].
  destruct (Z.ltb_spec (build this) (build ver)); [unfold ver_lt in H; lia|].
  destruct (Z.ltb_spec (build ver) (build this)); [reflexivity|].
  unfold ver_lt in H. lia.
Qed.

Lemma compareVersion_incompatible ver :
  is_zero (parseVersion KEYDB_REAL_VERSION) || is_zero ver = false ->
  major ver <= 6 -> minor ver <= 3 -> build ver <= 3 ->
  compareVersion ver = IncompatibleVersion.
Proof.
  intros Hz H1 H2 H3. unfold compareVersion. rewrite Hz.
  destruct (Z.leb_spec (major ver) 6); [|lia].
  destruct (Z.leb_spec (minor ver) 3); [|lia].
  destruct (Z.leb_spec (build ver) 3); [|lia].
  reflexivity.
Qed.

Lemma compareVersion_not_incompatible ver :
  is_zero (parseVersion KEYDB_REAL_VERSION) || is_zero ver = false ->
  ~ (major ver <= 6 /\ minor ver <= 3 /\ build ver <= 3) ->
  compareVersion ver =
    compare_members [(major (parseVersion KEYDB_REAL_VERSION), major ver);
                     (minor (parseVersion KEYDB_REAL_VERSION), minor ver);
                     (build (parseVersion KEYDB_REAL_VERSION), build ver)].
Proof.
  intros Hz Hn. unfold compareVersion. rewrite Hz.
  destruct (Z.leb_spec (major ver) 6); [|reflexivity].
  destruct (Z.leb_spec (minor ver) 3); [|reflexivity].
  destruct (Z.leb_spec (build ver) 3); [|reflexivity].
  exfalso. apply Hn. lia.
Qed.

Lemma setVersion_ok db handle :
  write_status db = None ->
  exists db', setVersion handle db = Done (tt, db') /\
              stored_version db' handle = Some version_value /\
              write_status db' = None.
Proof.
  intros Hw. unfold setVersion, Put, bind, get, put, ret. rewrite Hw.
  eexists. split; [reflexivity|]. split; [|exact Hw].
  unfold stored_version, family. cbn.
  rewrite lookup_insert_eq. cbn. apply lookup_insert_eq.
Qed.

Lemma check_version_present db handle stored :
  stored_version db handle = Some stored ->
  check_version handle db =
    match compareVersion (parseVersion stored) with
    | NewerVersion =>
        Throw "Cannot load FLASH database created by newer version of KeyDB"
    | IncompatibleVersion =>
        Throw "Cannot load FLASH database from before 6.3.4"
    | OlderVersion => setVersion handle db
    | EqualVersion => Done (tt, db)
    end.
Proof.
  intros H. unfold check_version, Get, bind, get, ret.
  unfold stored_version in H. rewrite H.
  destruct (compareVersion (parseVersion stored)); reflexivity.
Qed.

Lemma check_version_absent db handle :
  stored_version db handle = None ->
  check_version handle db = setVersion handle db.
Proof.
  intros H. unfold check_version, Get, bind, get, ret.
  unfold stored_version in H. now rewrite H.
Qed.

(** C6, as the spec words it for old stores: a stored version below
    6.3.4 makes the construction fail. *)
Definition below_minimum_is_rejected : Prop :=
  forall db handle stored,
    stored_version db handle = Some stored ->
    ver_lt (parseVersion stored) minimum ->
    exists msg, check_version handle db = Throw msg.

(** C6 (amended): the constructor's step on a column family that holds
    data.  With no version stored (the read is not OK) it writes the
    current version.  With a version stored: when the running or the
    stored version is 0.0.0 the column is accepted as it is; otherwise,
    when each member of the stored version is at most that of 6.3.3 the
    construction fails as "before 6.3.4"; when the stored version is newer
    than the running one it fails; and when it is older than the running
    one and at least 6.3.4 the step rewrites it with the current version
    and goes on. *)
Theorem C6_version_guard db handle :
  (stored_version db handle = None -> write_status db = None ->
     exists db', check_version handle db = Done (tt, db') /\
                 stored_version db' handle = Some version_value) /\
  (forall stored, stored_version db handle = Some stored ->
     (is_zero (parseVersion KEYDB_REAL_VERSION)
      || is_zero (parseVersion stored) = true ->
        check_version handle db = Done (tt, db)) /\
     (is_zero (parseVersion KEYDB_REAL_VERSION)
      || is_zero (parseVersion stored) = false ->
        (major (parseVersion stored) <= 6 /\ minor (parseVersion stored) <= 3
         /\ build (parseVersion stored) <= 3 ->
           check_version handle db =
             Throw "Cannot load FLASH database from before 6.3.4") /\
        (ver_lt (parseVersion KEYDB_REAL_VERSION) (parseVersion stored) ->
           exists msg, check_version handle db = Throw msg) /\
        (ver_lt (parseVersion stored) (parseVersion KEYDB_REAL_VERSION) ->
         ~ ver_lt (parseVersion stored) minimum ->
         write_status db = None ->
           exists db', check_version handle db = Done (tt, db') /\
                       stored_version db' handle = Some version_value))).
Proof.
  split.
  - intros Hnone Hw. rewrite (check_version_absent db handle Hnone).
    destruct (setVersion_ok db handle Hw) as (db' & Hrun & Hst & _). eauto.
  - intros stored Hst. rewrite (check_version_present db handle stored Hst).
    split.
    + intros Hz. unfold compareVersion. now rewrite Hz.
    + intros Hz. split; [|split].
      * intros (H1 & H2 & H3).
        now rewrite (compareVersion_incompatible _ Hz H1 H2 H3).
      * intros Hnew.
        destruct (Z.le_gt_cases (major (parseVersion stored)) 6) as [H1|H1];
          [destruct (Z.le_gt_cases (minor (parseVersion stored)) 3) as [H2|H2];
           [destruct (Z.le_gt_cases (build (parseVersion stored)) 3) as [H3|H3]|]|].
        -- rewrite (compareVersion_incompatible _ Hz H1 H2 H3). eauto.
        -- rewrite compareVersion_not_incompatible by (assumption || lia).
           rewrite (compare_members_newer _ _ Hnew). eauto.
        -- rewrite compareVersion_not_incompatible by (assumption || lia).
           rewrite (compare_members_newer _ _ Hnew). eauto.
        -- rewrite compareVersion_not_incompatible by (assumption || lia).
           rewrite (compare_members_newer _ _ Hnew). eauto.
      * intros Hold Hmin Hw.
        rewrite compareVersion_not_incompatible;
          [| assumption | unfold ver_lt, minimum in Hmin; cbn in Hmin; lia].
        rewrite (compare_members_older _ _ Hold).
        destruct (setVersion_ok db handle Hw) as (db' & Hrun & Hst' & _). eauto.
Qed.

(** The constructor fails at the first data column whose step throws. *)
Lemma for_each_handle_throws before handle after f db msg :
  Forall (fun h => is_expires h = true) before ->
  is_expires handle = false ->
  check_version handle db = Throw msg ->
  for_each_handle (before ++ handle :: after) f db = Throw msg.
Proof.
  intros Hb Hh Ht. revert f.
  induction Hb as [|h before Hhe _ IH]; intros f; cbn [app for_each_handle].
  - rewrite Hh. unfold bind. now rewrite Ht.
  - rewrite Hhe. apply IH.
Qed.

End Version.

(** *** Concrete runs *)

Definition release_6_3_4 : string := "6.3.4".
Definition sample_version_key : string := "__version__".

Definition terminated (s : string) : string := s ++ String zero EmptyString.

(** A database with the default column family and the data and expire
    column families of one database, the data family holding [kv]. *)
Definition one_database (kv : gmap string string) : rocksdb :=
  {| families := {[ "default"%string := ∅; "0"%string := kv;
                    "0_expires"%string := ∅ ]};
     write_status := None; open_status := None |}.

Definition stamped (version : string) : gmap string string :=
  {[ sample_version_key := terminated version ]}.

Example parseVersion_examples :
  parseVersion "6.3.4" = {| major := 6; minor := 3; build := 4 |} /\
  parseVersion (terminated "255.255.255")
    = {| major := 255; minor := 255; build := 255 |} /\
  parseVersion "6.3" = {| major := 6; minor := 3; build := -1 |} /\
  parseVersion "6..4" = {| major := -1; minor := -1; build := -1 |} /\
  parseVersion "six" = {| major := -1; minor := -1; build := -1 |} /\
  parseVersion "6.3.4.1" = {| major := 6; minor := 3; build := 4 |}.
Proof. repeat split; vm_compute; reflexivity. Qed.

Lemma one_database_stored kv :
  stored_version sample_version_key (one_database kv) "0" = kv !! sample_version_key.
Proof.
  unfold stored_version, family, one_database. cbn [families].
  rewrite lookup_insert_ne by discriminate.
  rewrite lookup_insert_eq. reflexivity.
Qed.

(** C6 (counterexample): the running version is 6.3.4 and the data
    column family holds version 0.0.0, which is below 6.3.4; the step
    accepts the column as it is and the construction succeeds. *)
Lemma C6_version_zero_is_accepted :
  ver_lt (parseVersion (terminated "0.0.0")) minimum /\
  check_version release_6_3_4 sample_version_key "0"
    (one_database (stamped "0.0.0"))
    = Done (tt, one_database (stamped "0.0.0")) /\
  (exists f db', RocksDBStorageFactory release_6_3_4 sample_version_key 0
                   (one_database (stamped "0.0.0")) = Done (f, db') /\
                 stored_version sample_version_key db' "0"
                   = Some (terminated "0.0.0")) /\
  ~ below_minimum_is_rejected release_6_3_4 sample_version_key.
Proof.
  assert (Hst : stored_version sample_version_key
                  (one_database (stamped "0.0.0")) "0"
                = Some (terminated "0.0.0"))
    by (rewrite one_database_stored; apply lookup_singleton_eq).
  assert (Hlt : ver_lt (parseVersion (terminated "0.0.0")) minimum)
    by (left; vm_compute; reflexivity).
  assert (Hrun : check_version release_6_3_4 sample_version_key "0"
                   (one_database (stamped "0.0.0"))
                 = Done (tt, one_database (stamped "0.0.0")))
    by (rewrite (check_version_present _ _ _ _ _ Hst); reflexivity).
  split; [exact Hlt|]. split; [exact Hrun|]. split.
  - do 2 eexists. split; [vm_compute; reflexivity|].
    vm_compute. reflexivity.
  - intros Hrej. destruct (Hrej _ _ _ Hst Hlt) as [msg Hthrow].
    rewrite Hrun in Hthrow. discriminate.
Qed.

(** The members are compared one by one with those of 6.3.3, so a stored
    6.2.5, although before 6.3.4, is taken for an older compatible
    version and stamped with the current one. *)
Lemma stored_6_2_5_is_stamped :
  ver_lt (parseVersion (terminated "6.2.5")) minimum /\
  exists db',
    check_version release_6_3_4 sample_version_key "0"
      (one_database (stamped "6.2.5")) = Done (tt, db') /\
    stored_version sample_version_key db' "0" = Some (terminated "6.3.4").
Proof.
  split; [right; split; [reflexivity|]; left; vm_compute; reflexivity|].
  assert (Hst : stored_version sample_version_key
                  (one_database (stamped "6.2.5")) "0"
                = Some (terminated "6.2.5"))
    by (rewrite one_database_stored; apply lookup_singleton_eq).
  rewrite (check_version_present _ _ _ _ _ Hst).
  change (compareVersion release_6_3_4 (parseVersion (terminated "6.2.5")))
    with OlderVersion.
  destruct (setVersion_ok release_6_3_4 sample_version_key
              (one_database (stamped "6.2.5")) "0" eq_refl)
    as (db' & Hrun & Hst' & _).
  exists db'. split; assumption.
Qed.

Lemma C6_version_guard_witness :
  (exists db', check_version release_6_3_4 sample_version_key "0"
                 (one_database ∅) = Done (tt, db') /\
               stored_version sample_version_key db' "0"
                 = Some (terminated "6.3.4")) /\
  check_version release_6_3_4 sample_version_key "0"
    (one_database (stamped "6.3.3"))
    = Throw "Cannot load FLASH database from before 6.3.4" /\
  (exists msg, check_version release_6_3_4 sample_version_key "0"
                 (one_database (stamped "7.0.0")) = Throw msg) /\
  (exists db', check_version "7.0.0" sample_version_key "0"
                 (one_database (stamped "6.3.4")) = Done (tt, db') /\
               stored_version sample_version_key db' "0"
                 = Some (terminated "7.0.0")).
Proof.
  assert (Hst : forall v, stored_version sample_version_key
                  (one_database (stamped v)) "0" = Some (terminated v))
    by (intros v; rewrite one_database_stored; apply lookup_singleton_eq).
  split; [|split; [|split]].
  - apply (C6_version_guard release_6_3_4 sample_version_key
             (one_database ∅) "0"); [|reflexivity].
    rewrite one_database_stored. apply lookup_empty.
  - destruct (C6_version_guard release_6_3_4 sample_version_key
                (one_database (stamped "6.3.3")) "0") as [_ Hpresent].
    destruct (Hpresent _ (Hst "6.3.3")) as (_ & Hnz).
    destruct (Hnz ltac:(vm_compute; reflexivity)) as (Hinc & _).
    apply Hinc. vm_compute. repeat split; discriminate.
  - destruct (C6_version_guard release_6_3_4 sample_version_key
                (one_database (stamped "7.0.0")) "0") as [_ Hpresent].
    destruct (Hpresent _ (Hst "7.0.0")) as (_ & Hnz).
    destruct (Hnz ltac:(vm_compute; reflexivity)) as (_ & Hnew & _).
    apply Hnew. left. vm_compute. reflexivity.
  - destruct (C6_version_guard "7.0.0" sample_version_key
                (one_database (stamped "6.3.4")) "0") as [_ Hpresent].
    destruct (Hpresent _ (Hst "6.3.4")) as (_ & Hnz).
    destruct (Hnz ltac:(vm_compute; reflexivity)) as (_ & _ & Hold).
    apply Hold; [left; vm_compute; reflexivity | | reflexivity].
    intros Hlt. vm_compute in Hlt.
    destruct Hlt as [Hlt | [_ [Hlt | [_ Hlt]]]]; discriminate.
Defined.

End Flash.

(** ** The doubly linked list ([adlist.c]) *)

Module Adlist.

Definition NULL : Z := 0.

(** [adlist.h] is not part of these sources: the three structures are
    given by the members [adlist.c] reads and writes, and the two
    directions are the header's [AL_START_HEAD] and [AL_START_TAIL]. *)
Definition AL_START_HEAD : Z := 0.
Definition AL_START_TAIL : Z := 1.

Record listNode : Type := { prev : Z; next : Z; value : Z }.

Record listIter : Type := { iter_next : Z; direction : Z }.

(** [struct list].  A method is [None] when its pointer is null.  [dup]
    and [match] are used for the value they return; of [free] only the
    calls are recorded, under the address of the function. *)
Record adlist : Type := {
  head : Z;
  tail : Z;
  dup : option (Z -> Z);
  free : option Z;
  match_ : option (Z -> Z -> Z);
  len : Z                          (* unsigned long *)
}.

Definition set_prev (v : Z) (n : listNode) : listNode :=
  {| prev := v; next := next n; value := value n |}.
Definition set_next (v : Z) (n : listNode) : listNode :=
  {| prev := prev n; next := v; value := value n |}.
Definition set_head (v : Z) (l : adlist) : adlist :=
  {| head := v; tail := tail l; dup := dup l; free := free l;
     match_ := match_ l; len := len l |}.
Definition set_tail (v : Z) (l : adlist) : adlist :=
  {| head := head l; tail := v; dup := dup l; free := free l;
     match_ := match_ l; len := len l |}.
Definition set_len (v : Z) (l : adlist) : adlist :=
  {| head := head l; tail := tail l; dup := dup l; free := free l;
     match_ := match_ l; len := v |}.
Definition set_methods (from : adlist) (l : adlist) : adlist :=
  {| head := head l; tail := tail l; dup := dup from; free := free from;
     match_ := match_ from; len := len l |}.

(** The memory the list code works in: live nodes, lists and heap
    iterators by address, the allocator, and the calls made to [free]
    methods (function, argument), oldest first. *)
Record mem : Type := {
  nodes : gmap Z listNode;
  lists : gmap Z adlist;
  iters : gmap Z listIter;
  brk : Z;                 (* next address [zmalloc] hands out *)
  allocs : option nat;     (* allocations that still succeed; [None]: all *)
  calls : list (Z * Z)
}.

Definition set_nodes (f : gmap Z listNode -> gmap Z listNode) (m : mem) : mem :=
  {| nodes := f (nodes m); lists := lists m; iters := iters m; brk := brk m;
     allocs := allocs m; calls := calls m |}.
Definition set_lists (f : gmap Z adlist -> gmap Z adlist) (m : mem) : mem :=
  {| nodes := nodes m; lists := f (lists m); iters := iters m; brk := brk m;
     allocs := allocs m; calls := calls m |}.
Definition set_iters (f : gmap Z listIter -> gmap Z listIter) (m : mem) : mem :=
  {| nodes := nodes m; lists := lists m; iters := f (iters m); brk := brk m;
     allocs := allocs m; calls := calls m |}.
Definition add_call (fn arg : Z) (m : mem) : mem :=
  {| nodes := nodes m; lists := lists m; iters := iters m; brk := brk m;
     allocs := allocs m; calls := calls m ++ [(fn, arg)] |}.

Definition sizeof_list : Z := 48.
Definition sizeof_listNode : Z := 24.
Definition sizeof_listIter : Z := 16.

(** [zmalloc] ([zmalloc.c] is not part of these sources): a block nothing
    else occupies, or [NULL], the result [adlist.c] tests for, when
    memory is exhausted. *)
Definition zmalloc (size : Z) : M mem Z :=
  fun m =>
    match allocs m with
    | Some O => Done (NULL, m)
    | Some (S k) =>
        Done (brk m, {| nodes := nodes m; lists := lists m; iters := iters m;
                        brk := brk m + size; allocs := Some k;
                        calls := calls m |})
    | None =>
        Done (brk m, {| nodes := nodes m; lists := lists m; iters := iters m;
                        brk := brk m + size; allocs := None;
                        calls := calls m |})
    end.

Definition node_at (n : Z) : M mem listNode :=
  fun m => match nodes m !! n with
           | Some x => Done (x, m)
           | None => Undefined "access to a node that is not live"
           end.

Definition list_at (l : Z) : M mem adlist :=
  fun m => match lists m !! l with
           | Some x => Done (x, m)
           | None => Undefined "access to a list that is not live"
           end.

Definition iter_at (i : Z) : M mem listIter :=
  fun m => match iters m !! i with
           | Some x => Done (x, m)
           | None => Undefined "access to an iterator that is not live"
           end.

Definition node_set (n : Z) (f : listNode -> listNode) : M mem unit :=
  do x <- node_at n; modify (set_nodes (insert n (f x))).

Definition list_set (l : Z) (f : adlist -> adlist) : M mem unit :=
  do x <- list_at l; modify (set_lists (insert l (f x))).

Definition node_new (n : Z) (x : listNode) : M mem unit :=
  modify (set_nodes (insert n x)).

Definition zfree_node (n : Z) : M mem unit :=
  exec node_at n; modify (set_nodes (delete n)).

Definition zfree_list (l : Z) : M mem unit :=
  exec list_at l; modify (set_lists (delete l)).

(** [if (list->free) list->free(value)] *)
Definition call_free (l : Z) (v : Z) : M mem unit :=
  do L <- list_at l;
  match free L with
  | Some fn => modify (add_call fn v)
  | None => ret tt
  end.

(** *** The functions of [adlist.c] *)

Definition listCreate : M mem Z :=
  do l <- zmalloc sizeof_list;
  if l =? NULL then ret NULL
  else
    exec modify (set_lists (insert l {| head := NULL; tail := NULL; dup := None;
                                        free := None; match_ := None;
                                        len := 0 |}));
    ret l.

(** The [while(len--)] of [listEmpty]. *)
Fixpoint listEmpty_loop (n : nat) (l : Z) (current : Z) : M mem unit :=
  match n with
  | O => ret tt
  | S k =>
      do node <- node_at current;
      exec call_free l (value node);
      exec zfree_node current;
      listEmpty_loop k l (next node)
  end.

Definition listEmpty (l : Z) : M mem unit :=
  do L <- list_at l;
  exec listEmpty_loop (Z.to_nat (len L)) l (head L);
  exec list_set l (set_tail NULL);
  exec list_set l (set_head NULL);
  list_set l (set_len 0).

Definition listRelease (l : Z) : M mem unit :=
  exec listEmpty l;
  zfree_list l.

Definition listAddNodeHead (l : Z) (v : Z) : M mem Z :=
  do node <- zmalloc sizeof_listNode;
  if node =? NULL then ret NULL
  else
    do L <- list_at l;
    exec (if len L =? 0 then
            exec list_set l (set_tail node);
            exec list_set l (set_head node);
            node_new node {| prev := NULL; next := NULL; value := v |}
          else
            exec node_new node {| prev := NULL; next := head L; value := v |};
            exec node_set (head L) (set_prev node);
            list_set l (set_head node));
    exec list_set l (fun L => set_len (u64 (len L + 1)) L);
    ret l.

Definition listAddNodeTail (l : Z) (v : Z) : M mem Z :=
  do node <- zmalloc sizeof_listNode;
  if node =? NULL then ret NULL
  else
    do L <- list_at l;
    exec (if len L =? 0 then
            exec list_set l (set_tail node);
            exec list_set l (set_head node);
            node_new node {| prev := NULL; next := NULL; value := v |}
          else
            exec node_new node {| prev := tail L; next := NULL; value := v |};
            exec node_set (tail L) (set_next node);
            list_set l (set_tail node));
    exec list_set l (fun L => set_len (u64 (len L + 1)) L);
    ret l.

Definition listInsertNode (l : Z) (old_node : Z) (v : Z) (after : Z) : M mem Z :=
  do node <- zmalloc sizeof_listNode;
  if node =? NULL then ret NULL
  else
    do L <- list_at l;
    do old <- node_at old_node;
    exec (if negb (after =? 0) then
            exec node_new node {| prev := old_node; next := next old; value := v |};
            if tail L =? old_node then list_set l (set_tail node) else ret tt
          else
            exec node_new node {| prev := prev old; next := old_node; value := v |};
            if head L =? old_node then list_set l (set_head node) else ret tt);
    do n <- node_at node;
    exec (if negb (prev n =? NULL) then node_set (prev n) (set_next node)
          else ret tt);
    do n <- node_at node;
    exec (if negb (next n =? NULL) then node_set (next n) (set_prev node)
          else ret tt);
    exec list_set l (fun L => set_len (u64 (len L + 1)) L);
    ret l.

Definition listDelNode (l : Z) (node : Z) : M mem unit :=
  do n <- node_at node;
  exec (if negb (prev n =? NULL) then node_set (prev n) (set_next (next n))
        else list_set l (set_head (next n)));
  do n <- node_at node;
  exec (if negb (next n =? NULL) then node_set (next n) (set_prev (prev n))
        else list_set l (set_tail (prev n)));
  do n <- node_at node;
  exec call_free l (value n);
  exec zfree_node node;
  list_set l (fun L => set_len (u64 (len L - 1)) L).

Definition listGetIterator (l : Z) (dir : Z) : M mem Z :=
  do iter <- zmalloc sizeof_listIter;
  if iter =? NULL then ret NULL
  else
    do L <- list_at l;
    exec modify (set_iters (insert iter
           {| iter_next := if dir =? AL_START_HEAD then head L else tail L;
              direction := dir |}));
    ret iter.

Definition listReleaseIterator (iter : Z) : M mem unit :=
  exec iter_at iter; modify (set_iters (delete iter)).

(** [listRewind], [listRewindTail] and [listNext] on an iterator held in
    a local variable: the new value of the variable is returned. *)
Definition rewind (l : Z) : M mem listIter :=
  do L <- list_at l; ret {| iter_next := head L; direction := AL_START_HEAD |}.

Definition rewindTail (l : Z) : M mem listIter :=
  do L <- list_at l; ret {| iter_next := tail L; direction := AL_START_TAIL |}.

Definition next_of (it : listIter) : M mem (Z * listIter) :=
  let current := iter_next it in
  if negb (current =? NULL) then
    do n <- node_at current;
    ret (current,
         {| iter_next := if direction it =? AL_START_HEAD then next n else prev n;
            direction := direction it |})
  else ret (current, it).

(** The same through a pointer to the iterator. *)
Definition listRewind (l : Z) (li : Z) : M mem unit :=
  exec iter_at li;
  do it <- rewind l; modify (set_iters (insert li it)).

Definition listRewindTail (l : Z) (li : Z) : M mem unit :=
  exec iter_at li;
  do it <- rewindTail l; modify (set_iters (insert li it)).

Definition listNext (iter : Z) : M mem Z :=
  do it <- iter_at iter;
  do r <- next_of it;
  exec modify (set_iters (insert iter (snd r)));
  ret (fst r).

(** The loops that follow the pointers of a list are given as many
    steps as there are live nodes, and one more for the final [NULL]: a
    walk that needs more has met a node twice, or runs after the nodes
    it creates, and goes on for ever. *)
Definition no_end {A} : M mem A :=
  undefined "the nodes form a cycle: the loop does not end".

(** The [while] of [listDup]; [iter] is the local iterator. *)
Fixpoint listDup_loop (n : nat) (copy : Z) (iter : listIter) : M mem Z :=
  match n with
  | O => no_end
  | S k =>
      do r <- next_of iter;
      let node := fst r in
      if node =? NULL then ret copy
      else
        do C <- list_at copy;
        do nd <- node_at node;
        match dup C with
        | Some f =>
            let v := f (value nd) in
            if v =? NULL then (exec listRelease copy; ret NULL)
            else
              do added <- listAddNodeTail copy v;
              if added =? NULL then (exec listRelease copy; ret NULL)
              else listDup_loop k copy (snd r)
        | None =>
            do added <- listAddNodeTail copy (value nd);
            if added =? NULL then (exec listRelease copy; ret NULL)
            else listDup_loop k copy (snd r)
        end
  end.

Definition listDup (orig : Z) : M mem Z :=
  do copy <- listCreate;
  if copy =? NULL then ret NULL
  else
    do O <- list_at orig;
    exec list_set copy (set_methods O);
    do iter <- rewind orig;
    do m <- get;
    listDup_loop (S (size (nodes m))) copy iter.

(** The [while] of [listSearchKey]. *)
Fixpoint listSearchKey_loop (n : nat) (l : Z) (key : Z) (iter : listIter)
  : M mem Z :=
  match n with
  | O => no_end
  | S k =>
      do r <- next_of iter;
      let node := fst r in
      if node =? NULL then ret NULL
      else
        do L <- list_at l;
        do nd <- node_at node;
        match match_ L with
        | Some f =>
            if negb (f (value nd) key =? 0) then ret node
            else listSearchKey_loop k l key (snd r)
        | None =>
            if key =? value nd then ret node
            else listSearchKey_loop k l key (snd r)
        end
  end.

Definition listSearchKey (l : Z) (key : Z) : M mem Z :=
  do iter <- rewind l;
  do m <- get;
  listSearchKey_loop (S (size (nodes m))) l key iter.

(** [while(index-- && n) n = n->next] and its mirror image. *)
Fixpoint listIndex_loop (index : nat) (forward : bool) (n : Z) : M mem Z :=
  match index with
  | O => ret n
  | S k =>
      if n =? NULL then ret n
      else
        do nd <- node_at n;
        listIndex_loop k forward (if forward then next nd else prev nd)
  end.

Definition listIndex (l : Z) (index : Z) : M mem Z :=
  do L <- list_at l;
  if index <? 0 then
    if index =? LONG_MIN
    then undefined "signed overflow in -index"
    else listIndex_loop (Z.to_nat (- index - 1)) false (tail L)
  else listIndex_loop (Z.to_nat index) true (head L).

Definition listRotateTailToHead (l : Z) : M mem unit :=
  do L <- list_at l;
  if len L <=? 1 then ret tt
  else
    let tl := tail L in
    do t <- node_at tl;
    exec list_set l (set_tail (prev t));
    do L <- list_at l;
    exec node_set (tail L) (set_next NULL);
    exec node_set (head L) (set_prev tl);
    exec node_set tl (set_prev NULL);
    exec node_set tl (set_next (head L));
    list_set l (set_head tl).

Definition listRotateHeadToTail (l : Z) : M mem unit :=
  do L <- list_at l;
  if len L <=? 1 then ret tt
  else
    let hd := head L in
    do h <- node_at hd;
    exec list_set l (set_head (next h));
    do L <- list_at l;
    exec node_set (head L) (set_prev NULL);
    exec node_set (tail L) (set_next hd);
    exec node_set hd (set_next NULL);
    exec node_set hd (set_prev (tail L));
    list_set l (set_tail hd).

Definition listJoin (l : Z) (o : Z) : M mem unit :=
  do O <- list_at o;
  if len O =? 0 then ret tt
  else
    do L <- list_at l;
    exec node_set (head O) (set_prev (tail L));
    exec (if negb (tail L =? NULL) then node_set (tail L) (set_next (head O))
          else list_set l (set_head (head O)));
    exec list_set l (set_tail (tail O));
    do O' <- list_at o;
    exec list_set l (fun L => set_len (u64 (len L + len O')) L);
    exec list_set o (set_tail NULL);
    exec list_set o (set_head NULL);
    list_set o (set_len 0).

(** *** Well-formed lists *)

(** A list is described by its cells, head first: the address of each
    node and the value it holds. *)
Definition first_addr (cells : list (Z * Z)) (after : Z) : Z :=
  match cells with
  | [] => after
  | c :: _ => fst c
  end.

Fixpoint last_addr (before : Z) (cells : list (Z * Z)) : Z :=
  match cells with
  | [] => before
  | c :: rest => last_addr (fst c) rest
  end.

(** The nodes of [cells] are live and linked to each other in both
    directions, the first one back to [before] and the last one on to
    [after]. *)
Fixpoint chain (h : gmap Z listNode) (before : Z) (cells : list (Z * Z))
    (after : Z) : Prop :=
  match cells with
  | [] => True
  | c :: rest =>
      fst c <> NULL /\
      h !! fst c = Some {| prev := before; next := first_addr rest after;
                           value := snd c |} /\
      chain h (fst c) rest after
  end.

Definition is_list (m : mem) (l : Z) (cells : list (Z * Z)) : Prop :=
  exists L, lists m !! l = Some L /\
    head L = first_addr cells NULL /\
    tail L = last_addr NULL cells /\
    len L = Z.of_nat (length cells) /\ len L < 2 ^ 64 /\
    chain (nodes m) NULL cells NULL.

(** The three methods of a list. *)
Definition methods (L : adlist)
  : option (Z -> Z) * option Z * option (Z -> Z -> Z) :=
  (dup L, free L, match_ L).

(** Nothing is live at or above the allocator's next address. *)
Definition fresh (m : mem) : Prop :=
  0 < brk m /\
  forall a, brk m <= a ->
    nodes m !! a = None /\ lists m !! a = None /\ iters m !! a = None.

Definition addrs (cells : list (Z * Z)) : list Z := map fst cells.
Definition values (cells : list (Z * Z)) : list Z := map snd cells.

Lemma last_addr_app b l1 l2 :
  last_addr b (l1 ++ l2) = last_addr (last_addr b l1) l2.
Proof. revert b. induction l1 as [|c l1 IH]; intros b; cbn; [reflexivity | apply IH]. Qed.

Lemma first_addr_app l1 l2 a :
  first_addr (l1 ++ l2) a = first_addr l1 (first_addr l2 a).
Proof. now destruct l1. Qed.

Lemma chain_app h b l1 l2 a :
  chain h b (l1 ++ l2) a <->
  chain h b l1 (first_addr l2 a) /\ chain h (last_addr b l1) l2 a.
Proof.
  revert b. induction l1 as [|c l1 IH]; intros b; cbn [app chain last_addr].
  - tauto.
  - rewrite IH, first_addr_app. tauto.
Qed.

Lemma chain_frame h h' b cells a :
  (forall x, In x (addrs cells) -> h' !! x = h !! x) ->
  chain h b cells a -> chain h' b cells a.
Proof.
  revert b. induction cells as [|c rest IH]; intros b Hsame; cbn; [tauto|].
  intros (Hn & Hc & Hrest). split; [exact Hn|]. split.
  - rewrite Hsame; [exact Hc | now left].
  - apply IH; [|exact Hrest]. intros x Hx. apply Hsame. now right.
Qed.

Lemma chain_live h b cells a c :
  chain h b cells a -> In c cells ->
  fst c <> NULL /\
  exists n, h !! fst c = Some n /\ value n = snd c /\
            (prev n = b \/ In (prev n) (addrs cells)) /\
            (next n = a \/ In (next n) (addrs cells)).
Proof.
  revert b. induction cells as [|c0 rest IH]; intros b; cbn; [tauto|].
  intros (Hn & Hc & Hrest) [->|Hin].
  - split; [exact Hn|]. eexists. split; [exact Hc|]. cbn.
    split; [reflexivity|]. split; [now left|].
    destruct rest as [|c1 rest]; cbn; [now left | right; right; now left].
  - destruct (IH _ Hrest Hin) as (Hn' & n & Hl & Hv & Hp & Hx).
    split; [exact Hn'|]. exists n. split; [exact Hl|]. split; [exact Hv|].
    split; [|destruct Hx; [now left | right; now right]].
    destruct Hp as [->|Hp]; right; [now left | now right].
Qed.

Lemma chain_NoDup h b cells a :
  chain h b cells a -> ~ In b (addrs cells) -> List.NoDup (addrs cells).
Proof.
  revert b. induction cells as [|c rest IH]; intros b; cbn.
  - intros _ _. constructor.
  - intros (Hn & Hc & Hrest) Hb.
    assert (Hfresh : ~ In (fst c) (addrs rest)).
    { intros Hin. apply in_map_iff in Hin. destruct Hin as (c' & Heq & Hin).
      destruct (chain_live _ _ _ _ _ Hrest Hin) as (_ & n & Hl & _ & Hp & _).
      rewrite Heq, Hc in Hl. injection Hl as <-. cbn in Hp.
      apply Hb. destruct Hp as [->|Hp]; [now left | now right]. }
    constructor; [exact Hfresh|]. now apply (IH (fst c)).
Qed.

Lemma chain_not_null h b cells a : chain h b cells a -> ~ In NULL (addrs cells).
Proof.
  intros Hc Hin. apply in_map_iff in Hin. destruct Hin as (c & Heq & Hin).
  destruct (chain_live _ _ _ _ _ Hc Hin) as (Hn & _). congruence.
Qed.

Lemma is_list_NoDup m l cells : is_list m l cells -> List.NoDup (addrs cells).
Proof.
  intros (L & _ & _ & _ & _ & _ & Hc).
  apply (chain_NoDup _ _ _ _ Hc), (chain_not_null _ _ _ _ Hc).
Qed.

(** *** Stepping through the code *)

Lemma node_at_live m a n : nodes m !! a = Some n -> node_at a m = Done (n, m).
Proof. intros H. unfold node_at. now rewrite H. Qed.

Lemma list_at_live m l L : lists m !! l = Some L -> list_at l m = Done (L, m).
Proof. intros H. unfold list_at. now rewrite H. Qed.

Ltac closed t := tryif (match t with context [?x] => is_var x end) then fail else idtac.

Ltac go :=
  repeat first
    [ progress unfold bind, ret, get, put, modify, undefined, no_end,
        node_at, list_at, iter_at, node_set, list_set, node_new, zfree_node,
        zfree_list
    | progress cbn [nodes lists iters brk allocs calls set_nodes set_lists
                    set_iters add_call fst snd negb
                    head tail len dup free match_ set_head set_tail set_len
                    set_methods prev next value set_prev set_next
                    iter_next direction]
    | rewrite lookup_insert_eq
    | match goal with
      | H : ?x !! ?k = Some _ |- context [?x !! ?k] => rewrite H
      | H : ?x !! ?k = None |- context [?x !! ?k] => rewrite H
      | H : ?a <> ?b |- context [<[?a := _]> _ !! ?b] =>
          rewrite (lookup_insert_ne _ a b) by exact H
      | H : ?b <> ?a |- context [<[?a := _]> _ !! ?b] =>
          rewrite (lookup_insert_ne _ a b) by (intros ?; apply H; congruence)
      | H : ?x <> ?y |- context [?x =? ?y] =>
          rewrite (proj2 (Z.eqb_neq x y) H)
      | |- context [?x =? ?x] => rewrite (Z.eqb_refl x)
      | |- context [if ?b then _ else _] =>
          lazymatch b with true => fail | false => fail | _ => idtac end;
          closed b; let v := eval vm_compute in b in change b with v
      end
    | progress cbv beta iota ].

(** What a step on the list [l] leaves alone: the other lists, the nodes
    outside [own], the iterators, and the methods of [l] itself. *)
Definition elsewhere_same (m m' : mem) (l : Z) (own : list Z) : Prop :=
  (forall l2, l2 <> l -> lists m' !! l2 = lists m !! l2) /\
  (forall a, ~ In a own -> nodes m' !! a = nodes m !! a) /\
  iters m' = iters m /\
  option_map methods (lists m' !! l) = option_map methods (lists m !! l).

Lemma is_list_frame m m' l cells :
  is_list m l cells ->
  lists m' !! l = lists m !! l ->
  (forall a, In a (addrs cells) -> nodes m' !! a = nodes m !! a) ->
  is_list m' l cells.
Proof.
  intros (L & HL & Hh & Ht & Hn & Hb & Hc) Hl Hs.
  exists L. rewrite Hl. repeat split; try assumption.
  now apply (chain_frame (nodes m)).
Qed.

Lemma chain_insert_other h b cells a x n :
  ~ In x (addrs cells) -> chain h b cells a -> chain (<[x := n]> h) b cells a.
Proof.
  intros Hx. apply chain_frame. intros y Hy.
  apply lookup_insert_ne. intros ->. contradiction.
Qed.

Lemma chain_delete_other h b cells a x :
  ~ In x (addrs cells) -> chain h b cells a -> chain (delete x h) b cells a.
Proof.
  intros Hx. apply chain_frame. intros y Hy.
  apply lookup_delete_ne. intros ->. contradiction.
Qed.

Lemma addrs_app l1 l2 : addrs (l1 ++ l2) = addrs l1 ++ addrs l2.
Proof. apply map_app. Qed.

Lemma NoDup_app_parts {A} (l1 l2 : list A) :
  List.NoDup (l1 ++ l2) <->
  List.NoDup l1 /\ List.NoDup l2 /\ (forall x, In x l1 -> ~ In x l2).
Proof.
  rewrite <- !NoDup_ListNoDup, NoDup_app.
  setoid_rewrite list_elem_of_In. tauto.
Qed.

(** The last node of a chain, and the chain with that node's [next]
    redirected. *)
Lemma chain_last h b init c a :
  chain h b (init ++ [c]) a ->
  h !! fst c = Some {| prev := last_addr b init; next := a; value := snd c |}.
Proof. intros H. apply chain_app in H. now destruct H as (_ & _ & H & _). Qed.

Lemma chain_set_after h b cells a a' :
  List.NoDup (addrs cells) -> cells <> [] ->
  chain h b cells a ->
  exists n, h !! last_addr b cells = Some n /\ next n = a /\
    chain (<[last_addr b cells := set_next a' n]> h) b cells a'.
Proof.
  intros Hnd Hne Hc.
  destruct (exists_last Hne) as (init & c & ->).
  rewrite last_addr_app. cbn [last_addr].
  pose proof (chain_last _ _ _ _ _ Hc) as Hl.
  eexists. split; [exact Hl|]. split; [reflexivity|].
  apply chain_app in Hc. destruct Hc as (Hi & Hn & _ & _).
  rewrite addrs_app in Hnd. apply NoDup_app_remove_r in Hnd as Hndi.
  apply chain_app. split.
  - apply chain_insert_other; [|exact Hi].
    intros Hin. apply NoDup_app_parts in Hnd.
    destruct Hnd as (_ & _ & Hd). apply (Hd _ Hin). now left.
  - cbn. split; [exact Hn|]. split; [|exact I].
    rewrite lookup_insert_eq. reflexivity.
Qed.

Lemma chain_set_before h b cells a b' :
  List.NoDup (addrs cells) -> cells <> [] ->
  chain h b cells a ->
  exists n, h !! first_addr cells a = Some n /\ prev n = b /\
    chain (<[first_addr cells a := set_prev b' n]> h) b' cells a.
Proof.
  intros Hnd Hne Hc. destruct cells as [|c rest]; [congruence|].
  cbn in *. destruct Hc as (Hn & Hl & Hr).
  eexists. split; [exact Hl|]. split; [reflexivity|].
  split; [exact Hn|]. split; [rewrite lookup_insert_eq; reflexivity|].
  apply chain_insert_other; [|exact Hr]. now inversion Hnd.
Qed.

Lemma snoc_not_nil {A} (l : list A) x : l ++ [x] <> [].
Proof. now destruct l. Qed.

Lemma chain_insert_under h b cells a k n x y :
  ~ In x (addrs cells) ->
  chain (<[k := n]> h) b cells a ->
  chain (<[k := n]> (<[x := y]> h)) b cells a.
Proof.
  intros Hx. apply chain_frame. intros z Hz.
  destruct (Z.eq_dec k z) as [->|Hk].
  - now rewrite !lookup_insert_eq.
  - rewrite !(lookup_insert_ne _ k z) by exact Hk.
    apply lookup_insert_ne. intros ->. contradiction.
Qed.

(** *** Adding nodes *)

Lemma zmalloc_ok m size :
  allocs m <> Some 0%nat ->
  exists m', zmalloc size m = Done (brk m, m') /\
    nodes m' = nodes m /\ lists m' = lists m /\ iters m' = iters m /\
    calls m' = calls m /\ brk m' = brk m + size /\
    allocs m' = option_map Nat.pred (allocs m).
Proof.
  intros Ha. unfold zmalloc. destruct (allocs m) as [[|k]|] eqn:E.
  - congruence.
  - eexists. split; [reflexivity|]. cbn. tauto.
  - eexists. split; [reflexivity|]. cbn. tauto.
Qed.

Lemma zmalloc_fails m size :
  allocs m = Some 0%nat -> zmalloc size m = Done (NULL, m).
Proof. intros Ha. unfold zmalloc. now rewrite Ha. Qed.

Lemma fresh_not_in m l cells :
  fresh m -> is_list m l cells -> ~ In (brk m) (addrs cells).
Proof.
  intros (Hb & Hf) (L & _ & _ & _ & _ & _ & Hc) Hin.
  apply in_map_iff in Hin. destruct Hin as (c & Heq & Hin).
  destruct (chain_live _ _ _ _ _ Hc Hin) as (_ & n & Hl & _).
  rewrite Heq in Hl. destruct (Hf (brk m) ltac:(lia)) as (Hn & _). congruence.
Qed.

Ltac mem_fields :=
  cbn [nodes lists iters brk allocs calls set_nodes set_lists set_iters
       add_call head tail len dup free match_ set_head set_tail set_len
       set_methods prev next value set_prev set_next].

(** The parts of [elsewhere_same] and of the allocator's account, once
    the final memory is known. *)
Ltac same_elsewhere :=
  unfold elsewhere_same; mem_fields;
  repeat match goal with |- _ /\ _ => split end;
  try match goal with
      | |- forall l2, l2 <> _ -> _ =>
          let l2 := fresh "l2" in let H := fresh "H" in
          intros l2 H; rewrite ?lookup_insert_ne by congruence
      | |- forall a, ~ In a _ -> _ =>
          let a := fresh "a" in let H := fresh "H" in
          intros a H; cbn [In addrs map] in H;
          rewrite ?addrs_app, ?in_app_iff in H; cbn [In addrs map] in H;
          repeat first
            [ rewrite lookup_insert_ne
                by first [tauto | intros E; symmetry in E; tauto]
            | rewrite lookup_delete_ne
                by first [tauto | intros E; symmetry in E; tauto] ]
      end;
  try congruence;
  try (rewrite ?lookup_insert_eq;
       repeat match goal with H : lists ?x = lists _ |- _ => rewrite <- H end;
       match goal with H : lists _ !! _ = Some _ |- _ => rewrite H end;
       reflexivity).

Lemma listAddNodeTail_ok m l cells v :
  is_list m l cells -> fresh m -> allocs m <> Some 0%nat ->
  Z.of_nat (length cells) < 2 ^ 64 - 1 ->
  exists m', listAddNodeTail l v m = Done (l, m') /\
    is_list m' l (cells ++ [(brk m, v)]) /\
    elsewhere_same m m' l (brk m :: addrs cells) /\
    brk m' = brk m + sizeof_listNode /\ calls m' = calls m /\
    allocs m' = option_map Nat.pred (allocs m).
Proof.
  intros Hl Hf Ha Hlen.
  pose proof (fresh_not_in _ _ _ Hf Hl) as Hnew.
  pose proof (is_list_NoDup _ _ _ Hl) as Hnd.
  destruct Hl as (L & HL & Hh & Ht & Hn & Hlt & Hc).
  destruct (zmalloc_ok m sizeof_listNode Ha) as (m1 & Hz & Hn1 & Hl1 & Hi1 & Hc1 & Hb1 & Ha1).
  unfold listAddNodeTail. rewrite (bind_Done _ _ _ _ _ Hz).
  destruct Hf as (Hb & Hf).
  destruct (Z.eqb_spec (brk m) NULL) as [E|Hnn]; [unfold NULL in E; lia|].
  rewrite <- Hl1 in HL. rewrite <- Hn1 in Hc.
  rewrite (bind_Done _ _ _ _ _ (list_at_live _ _ _ HL)).
  rewrite Hn.
  destruct cells as [|c init _] using rev_ind.
  - cbn [length]. go. cbn in Hh, Ht.
    eexists. split; [reflexivity|].
    split; [|same_elsewhere].
    eexists. mem_fields. split; [apply lookup_insert_eq|]. mem_fields.
    rewrite Hn. cbn. repeat split; try assumption; try lia.
    apply lookup_insert_eq.
  - rewrite length_app in *. cbn [length] in *.
    destruct (Z.eqb_spec (Z.of_nat (length init + 1)) 0) as [E|_]; [lia|].
    rewrite last_addr_app in Ht. cbn [last_addr] in Ht.
    destruct (chain_set_after _ _ _ _ (brk m) Hnd (snoc_not_nil _ _) Hc)
      as (n & Hln & Hnx & Hc').
    rewrite last_addr_app in Hln, Hc'. cbn [last_addr] in Hln, Hc'.
    assert (Hne : brk m <> fst c).
    { intros E. apply Hnew. rewrite addrs_app, in_app_iff. right. left. congruence. }
    go. rewrite Ht. go.
    eexists. split; [reflexivity|].
    split; [|same_elsewhere].
    eexists. mem_fields. split; [apply lookup_insert_eq|]. mem_fields.
    rewrite Hn, u64_small by lia.
    rewrite Hh, last_addr_app, !first_addr_app, !length_app. cbn [length last_addr].
    split; [reflexivity|]. split; [reflexivity|]. split; [lia|]. split; [lia|].
    apply chain_app. split.
    + cbn [first_addr fst]. now apply chain_insert_under.
    + rewrite last_addr_app. cbn [last_addr chain fst snd first_addr].
      split; [exact Hnn|]. split; [|exact I].
      rewrite lookup_insert_ne by congruence. apply lookup_insert_eq.
Qed.


Lemma listAddNodeHead_ok m l cells v :
  is_list m l cells -> fresh m -> allocs m <> Some 0%nat ->
  Z.of_nat (length cells) < 2 ^ 64 - 1 ->
  exists m', listAddNodeHead l v m = Done (l, m') /\
    is_list m' l ((brk m, v) :: cells) /\
    elsewhere_same m m' l (brk m :: addrs cells) /\
    brk m' = brk m + sizeof_listNode /\ calls m' = calls m /\
    allocs m' = option_map Nat.pred (allocs m).
Proof.
  intros Hl Hf Ha Hlen.
  pose proof (fresh_not_in _ _ _ Hf Hl) as Hnew.
  pose proof (is_list_NoDup _ _ _ Hl) as Hnd.
  destruct Hl as (L & HL & Hh & Ht & Hn & Hlt & Hc).
  destruct (zmalloc_ok m sizeof_listNode Ha) as (m1 & Hz & Hn1 & Hl1 & Hi1 & Hc1 & Hb1 & Ha1).
  unfold listAddNodeHead. rewrite (bind_Done _ _ _ _ _ Hz).
  destruct Hf as (Hb & Hf).
  destruct (Z.eqb_spec (brk m) NULL) as [E|Hnn]; [unfold NULL in E; lia|].
  rewrite <- Hl1 in HL. rewrite <- Hn1 in Hc.
  rewrite (bind_Done _ _ _ _ _ (list_at_live _ _ _ HL)).
  rewrite Hn.
  destruct cells as [|c rest].
  - cbn [length]. go. cbn in Hh, Ht.
    eexists. split; [reflexivity|].
    split; [|same_elsewhere].
    eexists. mem_fields. split; [apply lookup_insert_eq|]. mem_fields.
    rewrite Hn. cbn. repeat split; try assumption; try lia.
    apply lookup_insert_eq.
  - cbn [length] in *.
    destruct (Z.eqb_spec (Z.of_nat (S (length rest))) 0) as [E|_]; [lia|].
    cbn [first_addr] in Hh.
    destruct (chain_set_before _ _ _ _ (brk m) Hnd ltac:(discriminate) Hc)
      as (n & Hln & Hpv & Hc').
    cbn [first_addr] in Hln, Hc'.
    assert (Hne : brk m <> fst c).
    { intros E. apply Hnew. left. congruence. }
    go. rewrite Hh. go.
    eexists. split; [reflexivity|].
    split; [|same_elsewhere].
    eexists. mem_fields. split; [apply lookup_insert_eq|]. mem_fields.
    rewrite Hn, u64_small by lia.
    cbn [first_addr last_addr length fst].
    split; [reflexivity|]. split; [exact Ht|]. split; [lia|]. split; [lia|].
    cbn [chain fst snd]. split; [exact Hnn|]. split.
    + rewrite lookup_insert_ne by congruence. apply lookup_insert_eq.
    + apply (chain_insert_under _ _ (c :: rest)); [exact Hnew|exact Hc'].
Qed.

(** *** Cutting a chain at a node *)

Lemma chain_mid h b l1 c l2 a :
  chain h b (l1 ++ c :: l2) a <->
  chain h b l1 (fst c) /\ fst c <> NULL /\
  h !! fst c = Some {| prev := last_addr b l1; next := first_addr l2 a;
                       value := snd c |} /\
  chain h (fst c) l2 a.
Proof. rewrite chain_app. cbn. tauto. Qed.

Lemma split_facts l1 (c : Z * Z) l2 :
  List.NoDup (addrs (l1 ++ c :: l2)) ->
  ~ In (fst c) (addrs l1) /\ ~ In (fst c) (addrs l2) /\
  (forall x, In x (addrs l1) -> ~ In x (addrs l2)) /\
  List.NoDup (addrs l1) /\ List.NoDup (addrs l2).
Proof.
  rewrite addrs_app. cbn [addrs map]. intros H.
  apply NoDup_app_parts in H. destruct H as (H1 & H2 & H3).
  inversion H2 as [|x xs Hx Hxs]; subst.
  repeat split; try assumption.
  - intros Hin. apply (H3 _ Hin). now left.
  - intros x Hx1 Hx2. apply (H3 _ Hx1). now right.
Qed.

Lemma first_in l a : l <> [] -> In (first_addr l a) (addrs l).
Proof. destruct l; [congruence|]. intros _. now left. Qed.

Lemma last_in b l : l <> [] -> In (last_addr b l) (addrs l).
Proof.
  destruct l as [|c init _] using rev_ind; [congruence|]. intros _.
  rewrite last_addr_app, addrs_app, in_app_iff. right. now left.
Qed.

Lemma first_addr_null h b l a :
  chain h b l a -> first_addr l NULL = NULL -> l = [].
Proof. destruct l; [reflexivity|]. cbn. intros (Hn & _) E. contradiction. Qed.

Lemma last_addr_null h b l a :
  chain h b l a -> last_addr NULL l = NULL -> l = [].
Proof.
  intros Hc E. destruct l as [|c l]; [reflexivity|]. exfalso.
  apply (chain_not_null _ _ _ _ Hc). rewrite <- E.
  change (last_addr NULL (c :: l)) with (last_addr (fst c) l).
  destruct l as [|c' l']; [now left|].
  right. change (last_addr (fst c) (c' :: l')) with (last_addr NULL (c' :: l')).
  now apply last_in.
Qed.

Lemma last_addr_cons b c l : l <> [] -> last_addr b (c :: l) = last_addr NULL l.
Proof. destruct l; [congruence|]. reflexivity. Qed.

Lemma first_addr_indep a a' l : l <> [] -> first_addr l a = first_addr l a'.
Proof. destruct l; [congruence|]. reflexivity. Qed.

Lemma last_addr_indep b b' l : l <> [] -> last_addr b l = last_addr b' l.
Proof. destruct l; [congruence|]. reflexivity. Qed.

(** The calls of the [free] method of [l] on [vs]. *)
Definition free_calls (m : mem) (l : Z) (vs : list Z) : list (Z * Z) :=
  match lists m !! l with
  | Some L => match free L with
              | Some fn => map (pair fn) vs
              | None => []
              end
  | None => []
  end.

Lemma call_free_ok m l L v :
  lists m !! l = Some L ->
  call_free l v m =
    Done (tt, {| nodes := nodes m; lists := lists m; iters := iters m;
                 brk := brk m; allocs := allocs m;
                 calls := calls m ++ free_calls m l [v] |}).
Proof.
  intros H. unfold call_free, free_calls. go. destruct (free L); go; cbn.
  - reflexivity.
  - rewrite app_nil_r. now destruct m.
Qed.

Lemma free_calls_same m m' l vs :
  option_map free (lists m' !! l) = option_map free (lists m !! l) ->
  free_calls m' l vs = free_calls m l vs.
Proof.
  unfold free_calls. destruct (lists m' !! l), (lists m !! l); cbn;
    intros H; try discriminate; try (injection H as H; rewrite H); reflexivity.
Qed.

(** A lookup in a memory built by the steps before. *)
Ltac lookup_now :=
  mem_fields;
  repeat first
    [ apply lookup_insert_eq
    | eassumption
    | rewrite lookup_insert_ne by first [assumption | congruence] ].

Ltac go_free :=
  repeat first
    [ progress go
    | match goal with
      | |- context [call_free ?l ?v ?s] =>
          let H := fresh in
          eassert (H : lists s !! l = Some _) by lookup_now;
          rewrite (call_free_ok s l _ v H); clear H
      end ].

Ltac list_now :=
  eexists; mem_fields; split; [lookup_now|]; mem_fields.

Ltac calls_now :=
  mem_fields;
  repeat first
    [ reflexivity
    | rewrite <- app_assoc
    | apply free_calls_same; mem_fields;
      rewrite ?lookup_insert_eq, ?lookup_insert_ne by congruence;
      try match goal with H : lists _ !! _ = Some _ |- _ => rewrite H end;
      reflexivity
    | apply (f_equal (app _)) ].

(** *** Removing a node *)

Lemma listDelNode_ok m l l1 c l2 :
  is_list m l (l1 ++ c :: l2) ->
  exists m', listDelNode l (fst c) m = Done (tt, m') /\
    is_list m' l (l1 ++ l2) /\
    nodes m' !! fst c = None /\
    elsewhere_same m m' l (addrs (l1 ++ c :: l2)) /\
    calls m' = calls m ++ free_calls m l [snd c] /\
    brk m' = brk m /\ allocs m' = allocs m.
Proof.
  intros Hl. pose proof (is_list_NoDup _ _ _ Hl) as Hnd.
  destruct (split_facts _ _ _ Hnd) as (Hc1 & Hc2 & Hd & Hnd1 & Hnd2).
  destruct Hl as (L & HL & Hh & Ht & Hn & Hlt & Hc).
  apply chain_mid in Hc. destruct Hc as (Hch1 & Hcn & Hcl & Hch2).
  rewrite length_app in Hn. cbn [length] in Hn.
  rewrite first_addr_app in Hh. rewrite last_addr_app in Ht.
  cbn [first_addr last_addr] in Hh, Ht.
  unfold listDelNode.
  destruct l1 as [|c1 l1'] using rev_ind; [|clear IHl1'];
    destruct l2 as [|c2 l2'].
  - (* the only node *)
    cbn [app first_addr last_addr] in *. go_free.
    eexists. split; [reflexivity|].
    split; [|split; [apply lookup_delete_eq|same_elsewhere; calls_now]].
    list_now. rewrite Hn, u64_small by (cbn; lia). cbn. repeat split; lia.
  - (* the first node, others follow *)
    cbn [app first_addr last_addr] in *.
    assert (Hc2n : fst c2 <> NULL) by (cbn in Hch2; tauto).
    assert (Hne : fst c <> fst c2) by (intros E; apply Hc2; left; congruence).
    destruct (chain_set_before _ _ _ _ NULL Hnd2 ltac:(discriminate) Hch2)
      as (n2 & Hln2 & Hpv2 & Hch2').
    cbn [first_addr] in Hln2, Hch2'.
    go_free.
    eexists. split; [reflexivity|].
    split; [|split; [apply lookup_delete_eq|same_elsewhere; calls_now]].
    list_now. rewrite Hn, u64_small by (cbn [length] in *; lia).
    split; [reflexivity|]. split; [exact Ht|].
    cbn [length] in *. split; [lia|]. split; [lia|].
    apply chain_delete_other; [exact Hc2|exact Hch2'].
  - (* the last node, others precede *)
    rewrite app_nil_r.
    assert (Hlast : last_addr NULL (l1' ++ [c1]) = fst c1)
      by (now rewrite last_addr_app).
    rewrite Hlast in *. cbn [first_addr last_addr] in *.
    assert (Hc1n : fst c1 <> NULL).
    { apply chain_app in Hch1. cbn in Hch1. tauto. }
    assert (Hne : fst c <> fst c1).
    { intros E. apply Hc1. rewrite addrs_app, in_app_iff. right. left. congruence. }
    destruct (chain_set_after _ _ _ _ NULL Hnd1 (snoc_not_nil _ _) Hch1)
      as (n1 & Hln1 & Hnx1 & Hch1').
    rewrite Hlast in Hln1, Hch1'.
    go_free.
    eexists. split; [reflexivity|].
    split; [|split; [apply lookup_delete_eq|same_elsewhere; calls_now]].
    list_now. rewrite Hn, u64_small by (rewrite length_app in *; cbn [length] in *; lia).
    split; [rewrite Hh; apply first_addr_indep, snoc_not_nil|].
    split; [now rewrite Hlast|].
    rewrite !length_app in *. cbn [length] in *. split; [lia|]. split; [lia|].
    apply chain_delete_other; [exact Hc1|exact Hch1'].
  - (* a node between two others *)
    assert (Hlast : last_addr NULL (l1' ++ [c1]) = fst c1)
      by (now rewrite last_addr_app).
    rewrite Hlast in *. cbn [first_addr last_addr] in *.
    assert (Hc1n : fst c1 <> NULL).
    { apply chain_app in Hch1. cbn in Hch1. tauto. }
    assert (Hne : fst c <> fst c1).
    { intros E. apply Hc1. rewrite addrs_app, in_app_iff. right. left. congruence. }
    assert (Hc2n : fst c2 <> NULL) by (cbn in Hch2; tauto).
    assert (Hne2 : fst c <> fst c2) by (intros E; apply Hc2; left; congruence).
    assert (Hne12 : fst c1 <> fst c2).
    { intros E. apply (Hd (fst c1)).
      - rewrite addrs_app, in_app_iff. right. now left.
      - left. congruence. }
    destruct (chain_set_after _ _ _ _ (fst c2) Hnd1 (snoc_not_nil _ _) Hch1)
      as (n1 & Hln1 & Hnx1 & Hch1').
    rewrite Hlast in Hln1, Hch1'.
    destruct (chain_set_before _ _ _ _ (fst c1) Hnd2 ltac:(discriminate) Hch2)
      as (n2 & Hln2 & Hpv2 & Hch2').
    cbn [first_addr] in Hln2, Hch2'.
    go_free.
    eexists. split; [reflexivity|].
    split; [|split; [apply lookup_delete_eq|same_elsewhere; calls_now]].
    list_now. rewrite Hn, u64_small by (rewrite length_app in *; cbn [length] in *; lia).
    split; [rewrite Hh, (first_addr_app (l1' ++ [c1])); apply first_addr_indep, snoc_not_nil|].
    split; [rewrite Ht, (last_addr_app _ (l1' ++ [c1])), Hlast; reflexivity|].
    rewrite !length_app in *. cbn [length] in *. split; [lia|]. split; [lia|].
    apply chain_delete_other.
    { rewrite addrs_app, in_app_iff. tauto. }
    apply chain_app. rewrite Hlast. cbn [first_addr]. split.
    + apply chain_insert_other; [|exact Hch1'].
      intros Hin. apply (Hd _ Hin). now left.
    + apply (chain_insert_under _ _ (c2 :: l2')); [|exact Hch2'].
      intros Hin. apply (Hd (fst c1)); [|exact Hin].
      rewrite addrs_app, in_app_iff. right. now left.
Qed.

(** *** Inserting next to a node *)

Lemma chain_insert_under2 h b cells a k n x y x' y' :
  ~ In x (addrs cells) -> ~ In x' (addrs cells) ->
  chain (<[k := n]> h) b cells a ->
  chain (<[k := n]> (<[x := y]> (<[x' := y']> h))) b cells a.
Proof.
  intros Hx Hx' Hc. apply chain_insert_under; [exact Hx|].
  apply chain_insert_under; [exact Hx'|exact Hc].
Qed.

Lemma listInsertNode_after_ok m l l1 c l2 v after :
  is_list m l (l1 ++ c :: l2) -> fresh m -> allocs m <> Some 0%nat ->
  Z.of_nat (length (l1 ++ c :: l2)) < 2 ^ 64 - 1 ->
  after <> 0 ->
  exists m', listInsertNode l (fst c) v after m = Done (l, m') /\
    is_list m' l (l1 ++ c :: (brk m, v) :: l2) /\
    elsewhere_same m m' l (brk m :: addrs (l1 ++ c :: l2)) /\
    brk m' = brk m + sizeof_listNode /\ calls m' = calls m /\
    allocs m' = option_map Nat.pred (allocs m).
Proof.
  intros Hl Hf Ha Hlen Haf.
  pose proof (fresh_not_in _ _ _ Hf Hl) as Hnew.
  pose proof (is_list_NoDup _ _ _ Hl) as Hnd.
  destruct (split_facts _ _ _ Hnd) as (Hc1 & Hc2 & Hd & Hnd1 & Hnd2).
  destruct Hl as (L & HL & Hh & Ht & Hn & Hlt & Hc).
  apply chain_mid in Hc. destruct Hc as (Hch1 & Hcn & Hcl & Hch2).
  destruct (zmalloc_ok m sizeof_listNode Ha) as (m1 & Hz & Hn1 & Hl1 & Hi1 & Hca1 & Hb1 & Ha1).
  unfold listInsertNode. rewrite (bind_Done _ _ _ _ _ Hz).
  destruct Hf as (Hb & Hf).
  assert (Hnn : brk m <> NULL) by (unfold NULL; lia).
  rewrite <- Hl1 in HL. rewrite <- Hn1 in Hch1, Hcl, Hch2.
  rewrite addrs_app, in_app_iff in Hnew. cbn [addrs map In] in Hnew.
  assert (Hcn' : fst c <> brk m) by tauto.
  assert (Hnc : brk m <> fst c) by congruence.
  rewrite length_app in Hn, Hlen. cbn [length] in Hn, Hlen.
  rewrite first_addr_app in Hh. rewrite last_addr_app in Ht.
  cbn [first_addr last_addr] in Hh, Ht.
  destruct l2 as [|c2 l2'].
  - (* after the last node *)
    cbn [first_addr last_addr] in *.
    go. rewrite Ht. go.
    eexists. split; [reflexivity|].
    split; [|same_elsewhere].
    list_now. rewrite Hn, u64_small by lia.
    split; [rewrite Hh, first_addr_app; reflexivity|].
    split; [rewrite last_addr_app; reflexivity|].
    rewrite length_app. cbn [length]. split; [lia|]. split; [lia|].
    apply chain_mid. split; [|split; [exact Hcn|split]].
    + apply chain_insert_other; [exact Hc1|].
      apply chain_insert_other; [tauto|exact Hch1].
    + apply lookup_insert_eq.
    + cbn [chain fst snd first_addr]. split; [exact Hnn|]. split; [|exact I].
      rewrite lookup_insert_ne by congruence. apply lookup_insert_eq.
  - (* between two nodes *)
    cbn [first_addr last_addr] in *.
    assert (Hc2n : fst c2 <> NULL) by (cbn in Hch2; tauto).
    assert (Hne2 : fst c <> fst c2) by (intros E; apply Hc2; left; congruence).
    assert (Hn2 : fst c2 <> brk m) by (cbn [addrs map In] in Hnew; tauto).
    assert (Htl : last_addr (fst c2) l2' <> fst c).
    { intros E. apply Hc2. rewrite <- E.
      apply (last_in NULL (c2 :: l2')). discriminate. }
    destruct (chain_set_before _ _ _ _ (brk m) Hnd2 ltac:(discriminate) Hch2)
      as (n2 & Hln2 & Hpv2 & Hch2').
    cbn [first_addr] in Hln2, Hch2'.
    rewrite <- Ht in Htl.
    go.
    eexists. split; [reflexivity|].
    split; [|same_elsewhere].
    list_now. rewrite Hn, u64_small by lia.
    split; [rewrite Hh, first_addr_app; reflexivity|].
    split; [rewrite Ht, last_addr_app; reflexivity|].
    rewrite length_app. cbn [length]. split; [lia|]. split; [cbn [length] in Hlen; lia|].
    apply chain_mid. split; [|split; [exact Hcn|split]].
    + apply chain_insert_other; [intros Hin; apply (Hd _ Hin); now left|].
      apply chain_insert_other; [exact Hc1|].
      apply chain_insert_other; [tauto|exact Hch1].
    + rewrite lookup_insert_ne by congruence. apply lookup_insert_eq.
    + change (chain ?h (fst c) ((brk m, v) :: c2 :: l2') NULL)
        with (brk m <> NULL /\
              h !! brk m = Some {| prev := fst c; next := fst c2; value := v |} /\
              chain h (brk m) (c2 :: l2') NULL).
      split; [exact Hnn|]. split.
      * rewrite !lookup_insert_ne by congruence. apply lookup_insert_eq.
      * apply (chain_insert_under2 _ _ (c2 :: l2')); [exact Hc2| |exact Hch2'].
        cbn [addrs map In] in *. tauto.
Qed.

Lemma listInsertNode_before_ok m l l1 c l2 v :
  is_list m l (l1 ++ c :: l2) -> fresh m -> allocs m <> Some 0%nat ->
  Z.of_nat (length (l1 ++ c :: l2)) < 2 ^ 64 - 1 ->
  exists m', listInsertNode l (fst c) v 0 m = Done (l, m') /\
    is_list m' l (l1 ++ (brk m, v) :: c :: l2) /\
    elsewhere_same m m' l (brk m :: addrs (l1 ++ c :: l2)) /\
    brk m' = brk m + sizeof_listNode /\ calls m' = calls m /\
    allocs m' = option_map Nat.pred (allocs m).
Proof.
  intros Hl Hf Ha Hlen.
  pose proof (fresh_not_in _ _ _ Hf Hl) as Hnew.
  pose proof (is_list_NoDup _ _ _ Hl) as Hnd.
  destruct (split_facts _ _ _ Hnd) as (Hc1 & Hc2 & Hd & Hnd1 & Hnd2).
  destruct Hl as (L & HL & Hh & Ht & Hn & Hlt & Hc).
  apply chain_mid in Hc. destruct Hc as (Hch1 & Hcn & Hcl & Hch2).
  destruct (zmalloc_ok m sizeof_listNode Ha) as (m1 & Hz & Hn1 & Hl1 & Hi1 & Hca1 & Hb1 & Ha1).
  unfold listInsertNode. rewrite (bind_Done _ _ _ _ _ Hz).
  destruct Hf as (Hb & Hf).
  assert (Hnn : brk m <> NULL) by (unfold NULL; lia).
  rewrite <- Hl1 in HL. rewrite <- Hn1 in Hch1, Hcl, Hch2.
  rewrite addrs_app, in_app_iff in Hnew. cbn [addrs map In] in Hnew.
  assert (Hcn' : fst c <> brk m) by tauto.
  assert (Hnc : brk m <> fst c) by congruence.
  rewrite length_app in Hn, Hlen. cbn [length] in Hn, Hlen.
  rewrite first_addr_app in Hh. rewrite last_addr_app in Ht.
  cbn [first_addr last_addr] in Hh, Ht.
  assert (Hchc : chain (nodes m1) (last_addr NULL l1) (c :: l2) NULL)
    by (cbn [chain]; tauto).
  assert (Hndc : List.NoDup (addrs (c :: l2)))
    by (cbn [addrs map]; constructor; assumption).
  destruct (chain_set_before _ _ _ _ (brk m) Hndc ltac:(discriminate) Hchc)
    as (nc & Hlnc & Hpvc & Hchc').
  cbn [first_addr] in Hlnc, Hchc'.
  rewrite Hcl in Hlnc. injection Hlnc as <-. clear Hpvc.
  assert (Hnew2 : ~ In (brk m) (addrs (c :: l2)))
    by (cbn [addrs map In]; tauto).
  destruct l1 as [|c1 l1' _] using rev_ind.
  - (* before the first node *)
    cbn [first_addr last_addr app length] in *.
    go. rewrite Hh. go.
    eexists. split; [reflexivity|].
    split; [|same_elsewhere].
    list_now. rewrite Hn, u64_small by lia.
    split; [reflexivity|]. split; [exact Ht|].
    cbn [length]. split; [lia|]. split; [lia|].
    change (chain ?h NULL ((brk m, v) :: c :: l2) NULL)
      with (brk m <> NULL /\
            h !! brk m = Some {| prev := NULL; next := fst c; value := v |} /\
            chain h (brk m) (c :: l2) NULL).
    split; [exact Hnn|]. split.
    + rewrite lookup_insert_ne by congruence. apply lookup_insert_eq.
    + apply (chain_insert_under _ _ (c :: l2)); [exact Hnew2|].
      exact Hchc'.
  - (* between two nodes *)
    assert (Hlast : last_addr NULL (l1' ++ [c1]) = fst c1)
      by (now rewrite last_addr_app).
    rewrite Hlast in *.
    assert (Hc1n : fst c1 <> NULL).
    { apply chain_app in Hch1. cbn in Hch1. tauto. }
    assert (Hne : fst c1 <> fst c).
    { intros E. apply Hc1. rewrite addrs_app, in_app_iff. right. left. congruence. }
    assert (Hn1' : fst c1 <> brk m).
    { intros E. apply Hnew. left. rewrite addrs_app, in_app_iff. right. now left. }
    assert (Hhd : head L <> fst c).
    { rewrite Hh. intros E. apply Hc1. rewrite <- E.
      apply first_in, snoc_not_nil. }
    destruct (chain_set_after _ _ _ _ (brk m) Hnd1 (snoc_not_nil _ _) Hch1)
      as (n1 & Hln1 & Hnx1 & Hch1').
    rewrite Hlast in Hln1, Hch1'.
    go.
    eexists. split; [reflexivity|].
    split; [|same_elsewhere].
    list_now. rewrite Hn, u64_small by lia.
    split; [rewrite Hh, (first_addr_app (l1' ++ [c1]));
            apply first_addr_indep, snoc_not_nil|].
    split; [rewrite Ht, (last_addr_app _ (l1' ++ [c1])); reflexivity|].
    rewrite !length_app in *. cbn [length] in *. split; [lia|]. split; [lia|].
    apply chain_app. split.
    + cbn [first_addr fst].
      apply chain_insert_other; [exact Hc1|].
      apply chain_insert_under; [|exact Hch1'].
      intros Hin. apply Hnew. now left.
    + rewrite Hlast.
      change (chain ?h (fst c1) ((brk m, v) :: c :: l2) NULL)
        with (brk m <> NULL /\
              h !! brk m = Some {| prev := fst c1; next := fst c; value := v |} /\
              chain h (brk m) (c :: l2) NULL).
      split; [exact Hnn|]. split.
      * rewrite !lookup_insert_ne by congruence. apply lookup_insert_eq.
      * apply (chain_insert_under2 _ _ (c :: l2)); [| exact Hnew2 |].
        -- cbn [addrs map In]. intros [E|Hin]; [congruence|].
           apply (Hd (fst c1)); [|exact Hin].
           rewrite addrs_app, in_app_iff. right. now left.
        -- exact Hchc'.
Qed.

(** *** Rotation *)

Lemma listRotate_short m l cells :
  is_list m l cells -> (length cells <= 1)%nat ->
  listRotateTailToHead l m = Done (tt, m) /\
  listRotateHeadToTail l m = Done (tt, m).
Proof.
  intros (L & HL & _ & _ & Hn & _) Hle.
  unfold listRotateTailToHead, listRotateHeadToTail. go.
  destruct (Z.leb_spec (len L) 1); [split; reflexivity | lia].
Qed.

Lemma listRotateTailToHead_ok m l init c :
  is_list m l (init ++ [c]) -> init <> [] ->
  exists m', listRotateTailToHead l m = Done (tt, m') /\
    is_list m' l (c :: init) /\
    elsewhere_same m m' l (addrs (init ++ [c])) /\
    brk m' = brk m /\ calls m' = calls m /\ allocs m' = allocs m.
Proof.
  intros Hl Hne. pose proof (is_list_NoDup _ _ _ Hl) as Hnd.
  rewrite <- (app_nil_r (init ++ [c])), <- app_assoc in Hnd.
  destruct (split_facts _ _ _ Hnd) as (Hc1 & _ & _ & Hnd1 & _).
  destruct Hl as (L & HL & Hh & Ht & Hn & Hlt & Hc).
  rewrite <- (app_nil_r (init ++ [c])), <- app_assoc in Hc. cbn [app] in Hc.
  apply chain_mid in Hc. destruct Hc as (Hch1 & Hcn & Hcl & _).
  cbn [first_addr] in Hcl.
  rewrite length_app in Hn. cbn [length] in Hn.
  rewrite first_addr_app, (first_addr_indep _ NULL) in Hh by exact Hne.
  rewrite last_addr_app in Ht. cbn [last_addr] in Ht.
  assert (Hlen : 1 < len L) by (destruct init; [congruence | cbn [length] in Hn; lia]).
  destruct (chain_set_after _ _ _ _ NULL Hnd1 Hne Hch1) as (nl & Hlnl & Hnxl & Hch1').
  destruct (chain_set_before _ _ _ _ (fst c) Hnd1 Hne Hch1') as (nf & Hlnf & Hpvf & Hch1'').
  assert (Hlc : last_addr NULL init <> fst c).
  { intros E. apply Hc1. rewrite <- E. now apply last_in. }
  assert (Hfc : first_addr init NULL <> fst c).
  { intros E. apply Hc1. rewrite <- E. now apply first_in. }
  unfold listRotateTailToHead. go.
  destruct (Z.leb_spec (len L) 1) as [Hle|_]; [lia|].
  go. rewrite Ht. go. rewrite Hh. go.
  eexists. split; [reflexivity|].
  split.
  2:{ same_elsewhere.
      rewrite !lookup_insert_ne; [reflexivity| |];
        intros E; apply H; left; rewrite <- E; auto using first_in, last_in. }
  list_now.
  split; [reflexivity|].
  split; [symmetry; now apply last_addr_cons|].
  cbn [length]. split; [lia|]. split; [lia|].
  cbn [chain fst snd]. split; [exact Hcn|]. split.
  - rewrite lookup_insert_eq. reflexivity.
  - apply chain_insert_other; [exact Hc1|].
    apply chain_insert_other; [exact Hc1|]. exact Hch1''.
Qed.

Lemma listRotateHeadToTail_ok m l c rest :
  is_list m l (c :: rest) -> rest <> [] ->
  exists m', listRotateHeadToTail l m = Done (tt, m') /\
    is_list m' l (rest ++ [c]) /\
    elsewhere_same m m' l (addrs (c :: rest)) /\
    brk m' = brk m /\ calls m' = calls m /\ allocs m' = allocs m.
Proof.
  intros Hl Hne. pose proof (is_list_NoDup _ _ _ Hl) as Hnd.
  destruct (split_facts [] _ _ Hnd) as (_ & Hc2 & _ & _ & Hnd2).
  destruct Hl as (L & HL & Hh & Ht & Hn & Hlt & Hc).
  cbn [chain] in Hc. destruct Hc as (Hcn & Hcl & Hch2).
  cbn [length first_addr] in Hn, Hh.
  rewrite (last_addr_cons _ _ _ Hne) in Ht.
  assert (Hlen : 1 < len L) by (destruct rest; [congruence | cbn [length] in Hn; lia]).
  destruct (chain_set_before _ _ _ _ NULL Hnd2 Hne Hch2) as (nf & Hlnf & Hpvf & Hch2').
  destruct (chain_set_after _ _ _ _ (fst c) Hnd2 Hne Hch2') as (nl & Hlnl & Hnxl & Hch2'').
  assert (Hlc : last_addr NULL rest <> fst c).
  { intros E. apply Hc2. rewrite <- E. now apply last_in. }
  assert (Hfc : first_addr rest NULL <> fst c).
  { intros E. apply Hc2. rewrite <- E. now apply first_in. }
  unfold listRotateHeadToTail. go.
  destruct (Z.leb_spec (len L) 1) as [Hle|_]; [lia|].
  go. rewrite Hh. go. rewrite Ht. go.
  eexists. split; [reflexivity|].
  split.
  2:{ same_elsewhere.
      rewrite !lookup_insert_ne; [reflexivity| |];
        intros E; apply H; right; rewrite <- E; auto using first_in, last_in. }
  list_now.
  split; [rewrite first_addr_app; now apply first_addr_indep|].
  split; [now rewrite last_addr_app|].
  rewrite length_app. cbn [length]. split; [lia|]. split; [lia|].
  apply chain_app. split.
  - cbn [first_addr]. apply chain_insert_other; [exact Hc2|].
    apply chain_insert_other; [exact Hc2|]. exact Hch2''.
  - cbn [chain fst snd first_addr]. split; [exact Hcn|]. split; [|exact I].
    rewrite lookup_insert_eq. reflexivity.
Qed.

(** *** Reading a list: [listIndex], the iterators, [listSearchKey] *)

Lemma first_addr_skipn cells i :
  first_addr (skipn i cells) NULL = nth i (addrs cells) NULL.
Proof.
  revert cells. induction i as [|i IH]; intros [|c rest]; cbn; try reflexivity.
  apply IH.
Qed.

Lemma listIndex_loop_forward m b cells i :
  chain (nodes m) b cells NULL ->
  listIndex_loop i true (first_addr cells NULL) m =
    Done (nth i (addrs cells) NULL, m).
Proof.
  revert b cells. induction i as [|i IH]; intros b cells Hc.
  - destruct cells; reflexivity.
  - destruct cells as [|c rest]; [reflexivity|].
    cbn [chain] in Hc. destruct Hc as (Hn & Hl & Hr).
    cbn [listIndex_loop first_addr]. go.
    rewrite (IH _ _ Hr). reflexivity.
Qed.

Lemma listIndex_loop_backward m cells a i :
  chain (nodes m) NULL cells a ->
  listIndex_loop i false (last_addr NULL cells) m =
    Done (nth i (rev (addrs cells)) NULL, m).
Proof.
  revert cells a. induction i as [|i IH]; intros cells a Hc.
  - destruct cells as [|c init _] using rev_ind; [reflexivity|].
    rewrite last_addr_app, addrs_app, rev_app_distr. reflexivity.
  - destruct cells as [|c init _] using rev_ind; [reflexivity|].
    apply chain_app in Hc. destruct Hc as (Hi & Hn & Hl & _).
    rewrite last_addr_app, addrs_app, rev_app_distr.
    cbn [last_addr listIndex_loop first_addr addrs map rev app nth].
    go. apply (IH _ _ Hi).
Qed.

Lemma listIndex_ok m l cells index :
  is_list m l cells -> index <> LONG_MIN ->
  listIndex l index m =
    Done (if index <? 0
          then nth (Z.to_nat (- index - 1)) (rev (addrs cells)) NULL
          else nth (Z.to_nat index) (addrs cells) NULL, m).
Proof.
  intros (L & HL & Hh & Ht & Hn & Hlt & Hc) Hmin. unfold listIndex. go.
  destruct (Z.ltb_spec index 0).
  - go. rewrite Ht. now apply listIndex_loop_backward with NULL.
  - rewrite Hh. now apply listIndex_loop_forward with NULL.
Qed.

(** [n] calls of [listNext] on the iterator at [iter]: the nodes they
    return, in the order of the calls. *)
Fixpoint listNext_calls (n : nat) (iter : Z) : M mem (list Z) :=
  match n with
  | O => ret []
  | S k =>
      do node <- listNext iter;
      do rest <- listNext_calls k iter;
      ret (node :: rest)
  end.

(** A whole traversal as the header's comment gives it: get an iterator,
    call [listNext] [n] times, release the iterator. *)
Definition traverse (l : Z) (dir : Z) (n : nat) : M mem (list Z) :=
  do iter <- listGetIterator l dir;
  if iter =? NULL then ret []
  else
    do seen <- listNext_calls n iter;
    exec listReleaseIterator iter;
    ret seen.

Definition set_iter (i : Z) (it : listIter) (m : mem) : mem :=
  set_iters (insert i it) m.

Lemma next_of_forward m b c rest :
  chain (nodes m) b (c :: rest) NULL ->
  next_of {| iter_next := fst c; direction := AL_START_HEAD |} m =
    Done ((fst c, {| iter_next := first_addr rest NULL;
                     direction := AL_START_HEAD |}), m).
Proof.
  cbn [chain]. intros (Hn & Hl & _). unfold next_of. go. reflexivity.
Qed.

Lemma next_of_backward m init c a :
  chain (nodes m) NULL (init ++ [c]) a ->
  next_of {| iter_next := fst c; direction := AL_START_TAIL |} m =
    Done ((fst c, {| iter_next := last_addr NULL init;
                     direction := AL_START_TAIL |}), m).
Proof.
  intros Hc. apply chain_app in Hc. destruct Hc as (_ & Hn & Hl & _).
  unfold next_of. go. reflexivity.
Qed.

Lemma next_of_end m dir :
  next_of {| iter_next := NULL; direction := dir |} m =
    Done ((NULL, {| iter_next := NULL; direction := dir |}), m).
Proof. reflexivity. Qed.

Lemma set_iter_twice i a b m : set_iter i a (set_iter i b m) = set_iter i a m.
Proof. unfold set_iter, set_iters. cbn. f_equal. apply insert_insert_eq. Qed.

Lemma listNext_step m iter it r it' :
  next_of it m = Done ((r, it'), m) ->
  listNext iter (set_iter iter it m) = Done (r, set_iter iter it' m).
Proof.
  intros H. unfold listNext, set_iter. go.
  assert (H' : next_of it (set_iters <[iter:=it]> m) =
               Done ((r, it'), set_iters <[iter:=it]> m)).
  { revert H. unfold next_of. destruct (negb (iter_next it =? NULL)); go.
    - destruct (nodes m !! iter_next it); [|discriminate].
      intros H. injection H as <- <-. reflexivity.
    - intros H. injection H as <- <-. reflexivity. }
  rewrite H'. go. f_equal. f_equal. apply (set_iter_twice iter it' it m).
Qed.

Lemma listNext_calls_end m iter dir k :
  listNext_calls k iter (set_iter iter {| iter_next := NULL; direction := dir |} m) =
    Done (repeat NULL k, set_iter iter {| iter_next := NULL; direction := dir |} m).
Proof.
  induction k as [|k IHk]; [reflexivity|].
  cbn [listNext_calls repeat]. unfold bind at 1.
  rewrite (listNext_step _ _ _ _ _ (next_of_end m dir)).
  unfold bind. rewrite IHk. reflexivity.
Qed.

Lemma listNext_calls_forward m b cells iter k :
  chain (nodes m) b cells NULL ->
  listNext_calls (length cells + k) iter
    (set_iter iter {| iter_next := first_addr cells NULL;
                      direction := AL_START_HEAD |} m) =
    Done (addrs cells ++ repeat NULL k,
          set_iter iter {| iter_next := NULL; direction := AL_START_HEAD |} m).
Proof.
  revert b. induction cells as [|c rest IH]; intros b Hc.
  - apply listNext_calls_end.
  - cbn [length Nat.add listNext_calls first_addr addrs map app].
    unfold bind at 1.
    rewrite (listNext_step _ _ _ _ _ (next_of_forward _ _ _ _ Hc)).
    cbn [chain] in Hc. destruct Hc as (_ & _ & Hr).
    unfold bind. rewrite (IH _ Hr). reflexivity.
Qed.

Lemma listNext_calls_backward m cells a iter k :
  chain (nodes m) NULL cells a ->
  listNext_calls (length cells + k) iter
    (set_iter iter {| iter_next := last_addr NULL cells;
                      direction := AL_START_TAIL |} m) =
    Done (rev (addrs cells) ++ repeat NULL k,
          set_iter iter {| iter_next := NULL; direction := AL_START_TAIL |} m).
Proof.
  revert a. induction cells as [|c init IH] using rev_ind; intros a Hc.
  - apply listNext_calls_end.
  - rewrite length_app, last_addr_app, addrs_app, rev_app_distr.
    cbn [length Nat.add last_addr addrs map rev app].
    replace (length init + 1 + k)%nat with (S (length init + k)) by lia.
    cbn [listNext_calls]. unfold bind at 1.
    rewrite (listNext_step _ _ _ _ _ (next_of_backward _ _ _ _ Hc)).
    apply chain_app in Hc. destruct Hc as (Hi & _).
    unfold bind. rewrite (IH _ Hi). reflexivity.
Qed.

Lemma listGetIterator_ok m l L dir :
  lists m !! l = Some L -> 0 < brk m -> allocs m <> Some 0%nat ->
  listGetIterator l dir m =
    Done (brk m,
          set_iter (brk m)
            {| iter_next := if dir =? AL_START_HEAD then head L else tail L;
               direction := dir |}
            {| nodes := nodes m; lists := lists m; iters := iters m;
               brk := brk m + sizeof_listIter;
               allocs := option_map Nat.pred (allocs m); calls := calls m |}).
Proof.
  intros HL Hb Ha.
  destruct (zmalloc_ok m sizeof_listIter Ha) as (m1 & Hz & Hn1 & Hl1 & Hi1 & Hca1 & Hb1 & Ha1).
  assert (Hnn : brk m <> NULL) by (unfold NULL; lia).
  unfold listGetIterator. rewrite (bind_Done _ _ _ _ _ Hz).
  rewrite <- Hl1 in HL. go. f_equal. f_equal.
  destruct m1. cbn in *. subst. reflexivity.
Qed.

Lemma listReleaseIterator_ok m i it :
  listReleaseIterator i (set_iter i it m) =
    Done (tt, set_iters (delete i) (set_iter i it m)).
Proof. unfold listReleaseIterator, set_iter. go. reflexivity. Qed.

Lemma traverse_ok m l cells k :
  is_list m l cells -> fresh m -> allocs m <> Some 0%nat ->
  let m' := {| nodes := nodes m; lists := lists m; iters := iters m;
               brk := brk m + sizeof_listIter;
               allocs := option_map Nat.pred (allocs m); calls := calls m |} in
  traverse l AL_START_HEAD (length cells + k) m =
    Done (addrs cells ++ repeat NULL k, m') /\
  traverse l AL_START_TAIL (length cells + k) m =
    Done (rev (addrs cells) ++ repeat NULL k, m').
Proof.
  intros (L & HL & Hh & Ht & Hn & Hlt & Hc) (Hb & Hf) Ha m'.
  assert (Hnn : brk m <> NULL) by (unfold NULL; lia).
  destruct (Hf (brk m) ltac:(lia)) as (_ & _ & Hfi).
  assert (Hc' : chain (nodes m') NULL cells NULL) by exact Hc.
  assert (Hdel : forall it, set_iters (delete (brk m)) (set_iter (brk m) it m') = m').
  { intros it. unfold set_iters, set_iter, m'. cbn. f_equal.
    rewrite delete_insert_eq. now apply delete_id. }
  unfold traverse.
  rewrite !(bind_Done _ _ _ _ _ (listGetIterator_ok _ _ _ _ HL Hb Ha)).
  fold m'. change (AL_START_HEAD =? AL_START_HEAD) with true.
  change (AL_START_TAIL =? AL_START_HEAD) with false. cbv iota.
  rewrite (proj2 (Z.eqb_neq _ _) Hnn), Hh, Ht.
  rewrite (bind_Done _ _ _ _ _ (listNext_calls_forward _ _ _ _ _ Hc')).
  rewrite (bind_Done _ _ _ _ _ (listNext_calls_backward _ _ _ _ _ Hc')).
  rewrite !(bind_Done _ _ _ _ _ (listReleaseIterator_ok _ _ _)).
  rewrite !Hdel. split; reflexivity.
Qed.

(** *** [listSearchKey] *)

(** The test [listSearchKey] applies to a value. *)
Definition key_matches (L : adlist) (key v : Z) : bool :=
  match match_ L with
  | Some f => negb (f v key =? 0)
  | None => key =? v
  end.

(** The first cell that passes the test, or [NULL]. *)
Fixpoint first_match (p : Z -> bool) (cells : list (Z * Z)) : Z :=
  match cells with
  | [] => NULL
  | c :: rest => if p (snd c) then fst c else first_match p rest
  end.

Lemma listSearchKey_loop_ok m l L key b cells n :
  lists m !! l = Some L ->
  chain (nodes m) b cells NULL -> (length cells < n)%nat ->
  listSearchKey_loop n l key
    {| iter_next := first_addr cells NULL; direction := AL_START_HEAD |} m =
    Done (first_match (key_matches L key) cells, m).
Proof.
  intros HL. revert b cells. induction n as [|n IH]; intros b cells Hc Hlen; [lia|].
  destruct cells as [|c rest].
  - reflexivity.
  - cbn [listSearchKey_loop first_addr]. unfold bind at 1.
    rewrite (next_of_forward _ _ _ _ Hc).
    cbn [chain] in Hc. destruct Hc as (Hn & Hl & Hr). cbn [length] in Hlen.
    go. cbn [first_match]. unfold key_matches at 1.
    destruct (match_ L) as [f|]; cbn [snd fst].
    + destruct (negb (f (snd c) key =? 0)); [reflexivity|].
      apply (IH _ _ Hr). lia.
    + destruct (key =? snd c); [reflexivity|].
      apply (IH _ _ Hr). lia.
Qed.

Lemma live_count (h : gmap Z listNode) (keys : list Z) :
  List.NoDup keys -> (forall k, In k keys -> is_Some (h !! k)) ->
  (length keys <= size h)%nat.
Proof.
  revert h. induction keys as [|k keys IH]; intros h Hnd Hlive; cbn; [lia|].
  inversion Hnd as [|x xs Hx Hxs]; subst.
  assert (Hk : is_Some (h !! k)) by (apply Hlive; now left).
  specialize (IH (delete k h) Hxs).
  rewrite (map_size_delete_Some k h Hk) in IH.
  assert (0 < size h)%nat.
  { destruct (size h) eqn:E; [|lia].
    apply map_size_empty_iff in E. subst. destruct Hk as [x Hk].
    rewrite lookup_empty in Hk. discriminate. }
  enough (length keys <= Nat.pred (size h))%nat by lia.
  apply IH. intros k' Hk'. rewrite lookup_delete_ne by (intros ->; contradiction).
  apply Hlive. now right.
Qed.

Lemma chain_count h b cells a :
  chain h b cells a -> ~ In b (addrs cells) -> (length cells <= size h)%nat.
Proof.
  intros Hc Hb. rewrite <- (length_map fst cells).
  apply live_count; [now apply (chain_NoDup h b cells a)|].
  intros k Hk. apply in_map_iff in Hk. destruct Hk as (c & <- & Hin).
  destruct (chain_live _ _ _ _ _ Hc Hin) as (_ & n & Hl & _). now exists n.
Qed.

Lemma listSearchKey_ok m l cells key :
  is_list m l cells ->
  exists L, lists m !! l = Some L /\
    listSearchKey l key m = Done (first_match (key_matches L key) cells, m).
Proof.
  intros (L & HL & Hh & Ht & Hn & Hlt & Hc). exists L. split; [exact HL|].
  unfold listSearchKey, rewind. go. rewrite Hh.
  apply (listSearchKey_loop_ok _ _ _ _ NULL); try assumption.
  pose proof (chain_count _ _ _ _ Hc (chain_not_null _ _ _ _ Hc)). lia.
Qed.

(** *** Creating and emptying *)

Lemma listCreate_ok m :
  fresh m -> allocs m <> Some 0%nat ->
  exists m', listCreate m = Done (brk m, m') /\
    is_list m' (brk m) [] /\
    lists m' = <[brk m := {| head := NULL; tail := NULL; dup := None;
                             free := None; match_ := None; len := 0 |}]> (lists m) /\
    nodes m' = nodes m /\ iters m' = iters m /\ calls m' = calls m /\
    brk m' = brk m + sizeof_list /\
    allocs m' = option_map Nat.pred (allocs m).
Proof.
  intros (Hb & Hf) Ha.
  destruct (zmalloc_ok m sizeof_list Ha) as (m1 & Hz & Hn1 & Hl1 & Hi1 & Hca1 & Hb1 & Ha1).
  assert (Hnn : brk m <> NULL) by (unfold NULL; lia).
  unfold listCreate. rewrite (bind_Done _ _ _ _ _ Hz). go.
  eexists. split; [reflexivity|]. mem_fields. rewrite Hl1.
  split; [|tauto].
  eexists. mem_fields. split; [apply lookup_insert_eq|]. cbn.
  repeat split; lia.
Qed.

(** The node heap once the nodes of [cells] are freed, in order. *)
Definition without (cells : list (Z * Z)) (h : gmap Z listNode) : gmap Z listNode :=
  fold_left (fun h c => delete (fst c) h) cells h.

Lemma without_other cells h a :
  ~ In a (addrs cells) -> without cells h !! a = h !! a.
Proof.
  revert h. induction cells as [|c rest IH]; intros h Ha; [reflexivity|].
  cbn [without fold_left]. cbn [addrs map In] in Ha.
  rewrite (IH (delete (fst c) h)) by tauto. apply lookup_delete_ne. tauto.
Qed.

Lemma without_gone cells h a :
  In a (addrs cells) -> without cells h !! a = None.
Proof.
  revert h. induction cells as [|c rest IH]; intros h Ha; [contradiction|].
  cbn [without fold_left].
  destruct (in_dec Z.eq_dec a (addrs rest)) as [Hin|Hout].
  - now apply IH.
  - rewrite (without_other rest _ a Hout).
    destruct Ha as [<-|Ha]; [apply lookup_delete_eq | contradiction].
Qed.

Lemma listEmpty_loop_ok m l L b cells a :
  lists m !! l = Some L ->
  chain (nodes m) b cells a -> List.NoDup (addrs cells) ->
  listEmpty_loop (length cells) l (first_addr cells a) m =
    Done (tt, {| nodes := without cells (nodes m); lists := lists m;
                 iters := iters m; brk := brk m; allocs := allocs m;
                 calls := calls m ++ free_calls m l (values cells) |}).
Proof.
  intros HL. revert m b HL. induction cells as [|c rest IH]; intros m b HL Hc Hnd.
  - unfold free_calls. rewrite HL. cbn [length listEmpty_loop values map without fold_left].
    destruct (free L); rewrite app_nil_r; now destruct m.
  - cbn [chain] in Hc. destruct Hc as (Hn & Hl & Hr).
    inversion Hnd as [|x xs Hx Hxs]; subst.
    cbn [length listEmpty_loop first_addr]. go_free.
    match goal with |- listEmpty_loop _ _ _ ?s = _ => set (m1 := s) end.
    assert (HL1 : lists m1 !! l = Some L) by exact HL.
    assert (Hr1 : chain (nodes m1) (fst c) rest a)
      by (apply chain_delete_other; assumption).
    rewrite (IH m1 _ HL1 Hr1 Hxs). subst m1. cbn.
    do 3 f_equal. rewrite <- app_assoc. f_equal.
    unfold free_calls. mem_fields. rewrite HL. now destruct (free L).
Qed.

Lemma listEmpty_ok m l cells :
  is_list m l cells ->
  exists m', listEmpty l m = Done (tt, m') /\
    is_list m' l [] /\
    nodes m' = without cells (nodes m) /\
    elsewhere_same m m' l (addrs cells) /\
    calls m' = calls m ++ free_calls m l (values cells) /\
    brk m' = brk m /\ allocs m' = allocs m.
Proof.
  intros Hl. pose proof (is_list_NoDup _ _ _ Hl) as Hnd.
  destruct Hl as (L & HL & Hh & Ht & Hn & Hlt & Hc).
  unfold listEmpty. go. rewrite Hn, Nat2Z.id, Hh.
  rewrite (listEmpty_loop_ok _ _ _ _ _ _ HL Hc Hnd). go.
  eexists. split; [reflexivity|].
  split; [list_now; cbn; repeat split; lia|].
  split; [reflexivity|].
  split.
  { same_elsewhere. now apply without_other. }
  mem_fields. tauto.
Qed.

Lemma listRelease_ok m l cells :
  is_list m l cells ->
  exists m', listRelease l m = Done (tt, m') /\
    lists m' = delete l (lists m) /\
    nodes m' = without cells (nodes m) /\
    iters m' = iters m /\
    calls m' = calls m ++ free_calls m l (values cells) /\
    brk m' = brk m /\ allocs m' = allocs m.
Proof.
  intros Hl.
  destruct (listEmpty_ok _ _ _ Hl) as (m1 & Hrun & Hl1 & Hn1 & (Hls & _ & Hi & _) & Hca & Hb & Ha).
  unfold listRelease. rewrite (bind_Done _ _ _ _ _ Hrun).
  destruct Hl1 as (L1 & HL1 & _). go.
  eexists. split; [reflexivity|]. mem_fields.
  split; [|tauto].
  apply map_eq. intros k. destruct (Z.eq_dec k l) as [->|Hk].
  - now rewrite !lookup_delete_eq.
  - rewrite !lookup_delete_ne by congruence. now apply Hls.
Qed.

(** *** Joining two lists *)

Lemma listJoin_ok m l o cells1 cells2 :
  is_list m l cells1 -> is_list m o cells2 -> l <> o ->
  (forall x, In x (addrs cells1) -> ~ In x (addrs cells2)) ->
  Z.of_nat (length cells1 + length cells2) < 2 ^ 64 ->
  exists m', listJoin l o m = Done (tt, m') /\
    is_list m' l (cells1 ++ cells2) /\ is_list m' o [] /\
    (forall l2, l2 <> l -> l2 <> o -> lists m' !! l2 = lists m !! l2) /\
    (forall a, ~ In a (addrs (cells1 ++ cells2)) -> nodes m' !! a = nodes m !! a) /\
    option_map methods (lists m' !! l) = option_map methods (lists m !! l) /\
    option_map methods (lists m' !! o) = option_map methods (lists m !! o) /\
    iters m' = iters m /\ brk m' = brk m /\ calls m' = calls m /\
    allocs m' = allocs m.
Proof.
  intros Hl Ho Hlo Hd Hlen.
  pose proof (is_list_NoDup _ _ _ Hl) as Hnd1.
  pose proof (is_list_NoDup _ _ _ Ho) as Hnd2.
  destruct Hl as (L & HL & Hh & Ht & Hn & Hlt & Hc1).
  destruct Ho as (O & HO & Hho & Hto & Hno & Hlto & Hc2).
  assert (Hol : o <> l) by congruence.
  unfold listJoin. go.
  destruct cells2 as [|c2 r2].
  - (* nothing to add *)
    rewrite Hno. go.
    eexists. split; [reflexivity|]. rewrite app_nil_r.
    split; [exists L; tauto|]. split; [exists O; tauto|].
    rewrite ?HL, ?HO. repeat split; reflexivity.
  - cbn [length] in Hno, Hlen. cbn [first_addr] in Hho.
    destruct (Z.eqb_spec (len O) 0) as [E|_]; [lia|].
    assert (Hne2 : c2 :: r2 <> []) by discriminate.
    destruct (chain_set_before _ _ _ _ (last_addr NULL cells1) Hnd2 Hne2 Hc2)
      as (n2 & Hln2 & Hpv2 & Hc2').
    cbn [first_addr] in Hln2, Hc2'.
    destruct cells1 as [|c1 init _] using rev_ind.
    + (* onto an empty list *)
      cbn [last_addr first_addr length] in *.
      go. rewrite Hho, Ht. go.
      eexists. split; [reflexivity|].
      split.
      { list_now. rewrite Hn, Hno, u64_small by lia. cbn [app length].
        split; [reflexivity|]. split; [exact Hto|]. split; [lia|]. split; [lia|].
        exact Hc2'. }
      split.
      { list_now. cbn. repeat split; lia. }
      split.
      { intros l2 H1 H2. mem_fields. now rewrite !lookup_insert_ne by congruence. }
      split.
      { intros a Ha. mem_fields. cbn [app addrs map In] in Ha.
        apply lookup_insert_ne. tauto. }
      mem_fields. rewrite !lookup_insert_eq.
      rewrite !(lookup_insert_ne _ o l) by congruence.
      rewrite !lookup_insert_eq, ?HL, ?HO. cbn. repeat split; reflexivity.
    + (* onto a list with nodes *)
      rewrite last_addr_app in *. cbn [last_addr] in *.
      rewrite length_app in *. cbn [length] in *.
      assert (Hc1n : fst c1 <> NULL).
      { apply chain_app in Hc1. cbn in Hc1. tauto. }
      assert (Hin1 : In (fst c1) (addrs (init ++ [c1]))).
      { rewrite addrs_app, in_app_iff. right. now left. }
      assert (Hne : fst c2 <> fst c1).
      { intros E. apply (Hd _ Hin1). left. exact E. }
      assert (Hc1f : chain (<[fst c2 := set_prev (fst c1) n2]> (nodes m)) NULL
                       (init ++ [c1]) NULL).
      { apply chain_insert_other; [|exact Hc1].
        intros Hin. apply (Hd _ Hin). now left. }
      destruct (chain_set_after _ _ _ _ (fst c2) Hnd1 (snoc_not_nil _ _) Hc1f)
        as (n1 & Hln1 & Hnx1 & Hc1').
      rewrite last_addr_app in Hln1, Hc1'. cbn [last_addr] in Hln1, Hc1'.
      go. rewrite Hho, Ht. go.
      eexists. split; [reflexivity|].
      split.
      { list_now. rewrite Hn, Hno, u64_small by lia.
        split; [rewrite Hh, (first_addr_app (init ++ [c1]));
                apply first_addr_indep, snoc_not_nil|].
        split; [rewrite Hto, (last_addr_app _ (init ++ [c1])), last_addr_app; reflexivity|].
        rewrite !length_app. cbn [length]. split; [lia|]. split; [lia|].
        apply chain_app. rewrite last_addr_app. cbn [first_addr last_addr].
        split; [exact Hc1'|].
        apply (chain_insert_other _ _ (c2 :: r2)); [|exact Hc2'].
        intros Hin. now apply (Hd _ Hin1). }
      split.
      { list_now. cbn. repeat split; lia. }
      split.
      { intros l2 H1 H2. mem_fields. now rewrite !lookup_insert_ne by congruence. }
      split.
      { intros a Ha. mem_fields.
        rewrite addrs_app, in_app_iff in Ha. cbn [addrs map In] in Ha.
        rewrite !lookup_insert_ne; [reflexivity| |].
        * tauto.
        * intros E. apply Ha. left. now rewrite <- E. }
      mem_fields. rewrite !lookup_insert_eq.
      rewrite !(lookup_insert_ne _ o l) by congruence.
      rewrite !lookup_insert_eq, ?HL, ?HO. cbn. repeat split; reflexivity.
Qed.

(** *** Copying a list *)

Lemma chain_below m b cells a :
  fresh m -> chain (nodes m) b cells a ->
  forall x, In x (addrs cells) -> x < brk m.
Proof.
  intros (Hb & Hf) Hc x Hx. apply in_map_iff in Hx. destruct Hx as (c & <- & Hin).
  destruct (chain_live _ _ _ _ _ Hc Hin) as (_ & n & Hl & _).
  destruct (Z.lt_ge_cases (fst c) (brk m)) as [|Hge]; [assumption|].
  destruct (Hf _ Hge) as (Hnone & _). congruence.
Qed.

Lemma fresh_after m m' l own :
  fresh m -> elsewhere_same m m' l own -> is_Some (lists m !! l) ->
  (forall a, In a own -> a < brk m') -> brk m <= brk m' -> fresh m'.
Proof.
  intros (Hb & Hf) (Hls & Hns & Hi & _) [L HL] Hown Hle. split; [lia|].
  intros a Ha. destruct (Hf a ltac:(lia)) as (H1 & H2 & H3).
  split; [|split].
  - rewrite Hns; [exact H1|]. intros Hin. specialize (Hown _ Hin). lia.
  - rewrite Hls; [exact H2|]. intros ->. congruence.
  - now rewrite Hi.
Qed.

(** The values of the copy: those of the original, each through the
    [dup] method when there is one. *)
Definition dup_values (L : adlist) (vs : list Z) : list Z :=
  match dup L with
  | Some f => map f vs
  | None => vs
  end.

Lemma dup_values_cons L v vs :
  dup_values L (v :: vs) = dup_values L [v] ++ dup_values L vs.
Proof. unfold dup_values. now destruct (dup L). Qed.

(** The loop of [listDup] over a first part [done] of the original whose
    values are all copied: it arrives at the node after [done] with the
    copy that much longer. *)
Lemma listDup_loop_prefix done :
  forall n m copy C cc b after brk0,
  is_list m copy cc -> copy <> NULL ->
  option_map methods (lists m !! copy) = Some (methods C) ->
  chain (nodes m) b done after ->
  (forall x, In x (addrs done) -> x < brk0) ->
  (forall x, In x (addrs cc) -> brk0 <= x) ->
  (forall a, brk0 <= a -> ~ In a (addrs cc) -> nodes m !! a = None) ->
  brk0 <= brk m -> fresh m -> allocs m = None ->
  (forall v, In v (dup_values C (values done)) -> v <> NULL) ->
  Z.of_nat (length cc + length done) < 2 ^ 64 - 1 ->
  exists m' new,
    listDup_loop (length done + n) copy
      {| iter_next := first_addr done after; direction := AL_START_HEAD |} m =
    listDup_loop n copy
      {| iter_next := after; direction := AL_START_HEAD |} m' /\
    is_list m' copy (cc ++ new) /\
    values new = dup_values C (values done) /\
    (forall x, In x (addrs new) -> brk m <= x) /\
    (forall l2, l2 <> copy -> lists m' !! l2 = lists m !! l2) /\
    (forall a, a < brk0 -> nodes m' !! a = nodes m !! a) /\
    (forall a, brk0 <= a -> ~ In a (addrs (cc ++ new)) -> nodes m' !! a = None) /\
    option_map methods (lists m' !! copy) = Some (methods C) /\
    iters m' = iters m /\ calls m' = calls m /\ fresh m' /\ allocs m' = None /\
    brk m <= brk m'.
Proof.
  induction done as [|c rest IH];
    intros n m copy C cc b after brk0 Hcopy Hcnn HC Hc Hlow Hhigh Hnone Hb0 Hf Ha
           Hnn Hlen.
  - exists m, []. rewrite app_nil_r. cbn [length Nat.add first_addr].
    split; [reflexivity|]. split; [exact Hcopy|]. unfold dup_values.
    split; [now destruct (dup C)|]. split; [intros x []|].
    split; [auto|]. split; [auto|]. split; [exact Hnone|]. split; [exact HC|].
    split; [reflexivity|]. split; [reflexivity|]. split; [exact Hf|].
    split; [exact Ha|]. lia.
  - cbn [length] in Hlen.
    cbn [length Nat.add listDup_loop first_addr]. unfold bind at 1.
    assert (Hnx : next_of {| iter_next := fst c; direction := AL_START_HEAD |} m =
             Done ((fst c, {| iter_next := first_addr rest after;
                              direction := AL_START_HEAD |}), m)).
    { cbn [chain] in Hc. destruct Hc as (Hcn & Hcl & _). unfold next_of. go.
      reflexivity. }
    rewrite Hnx.
    cbn [chain] in Hc. destruct Hc as (Hcn & Hcl & Hr).
    destruct Hcopy as (L & HL & Hrest).
    assert (Hcopy : is_list m copy cc) by (exists L; tauto).
    rewrite HL in HC. cbn in HC. injection HC as Hd Hfr Hm.
    go. rewrite Hd.
    set (v := match dup C with Some f => f (snd c) | None => snd c end).
    assert (Hv : dup_values C [snd c] = [v]).
    { unfold dup_values, v. now destruct (dup C). }
    assert (Hvn : v <> NULL).
    { apply Hnn. cbn [values map]. rewrite dup_values_cons, Hv. now left. }
    assert (Ha' : allocs m <> Some 0%nat) by (rewrite Ha; discriminate).
    destruct (listAddNodeTail_ok m copy cc v Hcopy Hf Ha' ltac:(lia))
      as (m1 & Hrun & Hcopy1 & Hsame & Hbrk & Hcalls & Hallocs).
    unfold sizeof_listNode in Hbrk.
    assert (Hccb : forall a, In a (addrs cc) -> a < brk m).
    { destruct Hcopy as (L' & _ & _ & _ & _ & _ & Hcc).
      apply (chain_below _ _ _ _ Hf Hcc). }
    assert (Hf1 : fresh m1).
    { apply (fresh_after m m1 copy (brk m :: addrs cc)); try assumption.
      - now exists L.
      - intros a [<-|Hin]; [lia|]. specialize (Hccb a Hin). lia.
      - lia. }
    destruct Hsame as (Hls & Hns & Hi & Hme).
    assert (Hr1 : chain (nodes m1) (fst c) rest after).
    { apply (chain_frame (nodes m)); [|exact Hr].
      intros x Hx. apply Hns. specialize (Hlow x (or_intror Hx)).
      intros [E|Hin]; [lia|]. specialize (Hhigh x Hin). lia. }
    assert (HC1 : option_map methods (lists m1 !! copy) = Some (methods C)).
    { rewrite Hme, HL. cbn. unfold methods. congruence. }
    assert (Hhigh1 : forall x, In x (addrs (cc ++ [(brk m, v)])) -> brk0 <= x).
    { intros x. rewrite addrs_app, in_app_iff.
      intros [Hin|[<-|[]]]; [now apply Hhigh | exact Hb0]. }
    assert (Hnone1 : forall a, brk0 <= a -> ~ In a (addrs (cc ++ [(brk m, v)])) ->
                               nodes m1 !! a = None).
    { intros a Hge Hout. rewrite addrs_app, in_app_iff in Hout.
      cbn [addrs map In fst] in Hout.
      rewrite Hns by (cbn [In]; tauto). apply Hnone; tauto. }
    assert (Hal1 : allocs m1 = None) by (rewrite Hallocs, Ha; reflexivity).
    assert (Hnn1 : forall w, In w (dup_values C (values rest)) -> w <> NULL).
    { intros w Hin. apply Hnn. cbn [values map]. rewrite dup_values_cons.
      apply in_app_iff. now right. }
    destruct (IH n m1 copy C _ (fst c) after brk0 Hcopy1 Hcnn HC1 Hr1
                ltac:(intros x Hx; apply Hlow; now right) Hhigh1 Hnone1
                ltac:(lia) Hf1 Hal1 Hnn1
                ltac:(rewrite length_app; cbn [length]; lia))
      as (m' & new & Hrun' & Hcopy' & Hvals & Hnew & Hls' & Hns' & Hnone' & HC'
          & Hi' & Hcalls' & Hf' & Hal' & Hbrk').
    exists m', ((brk m, v) :: new).
    rewrite <- app_assoc in Hcopy', Hnone'. cbn [app] in Hcopy', Hnone'.
    split.
    { subst v. destruct (dup C) as [f|];
        [destruct (Z.eqb_spec (f (snd c)) NULL) as [E|_]; [contradiction|]|];
        rewrite Hrun; rewrite (proj2 (Z.eqb_neq _ _) Hcnn); exact Hrun'. }
    split; [exact Hcopy'|].
    split.
    { cbn [values map]. rewrite dup_values_cons, Hv. cbn [app]. f_equal. exact Hvals. }
    split.
    { intros x Hx. cbn [addrs map In fst] in Hx. destruct Hx as [<-|Hin]; [lia|].
      specialize (Hnew x Hin). lia. }
    split; [intros l2 Hl2; rewrite Hls', Hls by assumption; reflexivity|].
    split.
    { intros a Hlt. rewrite Hns' by assumption. apply Hns.
      intros [E|Hin]; [lia|]. specialize (Hhigh a Hin). lia. }
    split; [exact Hnone'|].
    split; [exact HC'|].
    split; [congruence|]. split; [congruence|].
    split; [exact Hf'|]. split; [exact Hal'|]. lia.
Qed.

(** The memory at the start of the loop of [listDup]: the empty copy at
    the old [brk] with the methods of the original. *)
Lemma listDup_start m orig cells O :
  is_list m orig cells -> lists m !! orig = Some O ->
  fresh m -> allocs m = None ->
  exists m2,
    listDup orig m =
      listDup_loop (S (size (nodes m))) (brk m)
        {| iter_next := first_addr cells NULL; direction := AL_START_HEAD |} m2 /\
    is_list m2 (brk m) [] /\
    option_map methods (lists m2 !! brk m) = Some (methods O) /\
    nodes m2 = nodes m /\
    (forall l2, l2 <> brk m -> lists m2 !! l2 = lists m !! l2) /\
    iters m2 = iters m /\ calls m2 = calls m /\ fresh m2 /\ allocs m2 = None /\
    brk m2 = brk m + sizeof_list.
Proof.
  intros Hl HO Hf Ha.
  assert (Ha' : allocs m <> Some 0%nat) by (rewrite Ha; discriminate).
  destruct (listCreate_ok m Hf Ha') as (m1 & Hrun & Hl1 & Hls1 & Hn1 & Hi1 & Hc1 & Hb1 & Ha1).
  pose proof Hf as (Hb & Hfr).
  assert (Hnn : brk m <> NULL) by (unfold NULL; lia).
  assert (Hob : orig <> brk m).
  { intros ->. destruct (Hfr (brk m) ltac:(lia)) as (_ & E & _). congruence. }
  destruct Hl as (L & HL & Hh & _).
  assert (L = O) by congruence. subst L.
  unfold listDup. rewrite (bind_Done _ _ _ _ _ Hrun).
  rewrite (proj2 (Z.eqb_neq _ _) Hnn).
  assert (HO1 : lists m1 !! orig = Some O)
    by (rewrite Hls1, lookup_insert_ne by congruence; exact HO).
  assert (Hc1' : lists m1 !! brk m =
                 Some {| head := NULL; tail := NULL; dup := None; free := None;
                         match_ := None; len := 0 |})
    by (rewrite Hls1; apply lookup_insert_eq).
  unfold rewind. go. rewrite Hh, Hn1.
  eexists. split; [reflexivity|]. mem_fields.
  split; [list_now; cbn; repeat split; lia|].
  rewrite lookup_insert_eq. split; [reflexivity|].
  split; [exact Hn1|].
  split.
  { intros l2 Hl2. rewrite lookup_insert_ne by congruence.
    rewrite Hls1. apply lookup_insert_ne. congruence. }
  split; [exact Hi1|]. split; [exact Hc1|].
  split.
  { split; mem_fields; [unfold sizeof_list in Hb1; lia|].
    intros a Hge. unfold sizeof_list in Hb1.
    destruct (Hfr a ltac:(lia)) as (H1 & H2 & H3).
    rewrite Hn1, Hi1, lookup_insert_ne, Hls1, lookup_insert_ne by lia. tauto. }
  split; [rewrite Ha1, Ha; reflexivity|exact Hb1].
Qed.

Lemma listDup_ok m orig cells O :
  is_list m orig cells -> lists m !! orig = Some O ->
  fresh m -> allocs m = None ->
  (forall v, In v (dup_values O (values cells)) -> v <> NULL) ->
  Z.of_nat (length cells) < 2 ^ 64 - 1 ->
  exists m' copied,
    listDup orig m = Done (brk m, m') /\
    is_list m' (brk m) copied /\
    values copied = dup_values O (values cells) /\
    (forall x, In x (addrs copied) -> brk m < x) /\
    option_map methods (lists m' !! brk m) = Some (methods O) /\
    is_list m' orig cells /\
    (forall l2, l2 <> brk m -> lists m' !! l2 = lists m !! l2) /\
    (forall a, a < brk m -> nodes m' !! a = nodes m !! a) /\
    iters m' = iters m /\ calls m' = calls m /\ fresh m'.
Proof.
  intros Hl HO Hf Ha Hnn Hlen.
  destruct (listDup_start m orig cells O Hl HO Hf Ha)
    as (m2 & Hrun & Hc2 & Hme2 & Hn2 & Hls2 & Hi2 & Hca2 & Hf2 & Ha2 & Hb2).
  pose proof Hf as (Hb & Hfr).
  assert (Hcnn : brk m <> NULL) by (unfold NULL; lia).
  pose proof Hl as (L & HL & Hh & Ht & Hn & Hlt & Hc).
  pose proof (chain_count _ _ _ _ Hc (chain_not_null _ _ _ _ Hc)) as Hcount.
  rewrite <- Hn2 in Hc.
  unfold sizeof_list in Hb2.
  destruct (listDup_loop_prefix cells (S (size (nodes m)) - length cells)
              m2 (brk m) O [] NULL NULL (brk m) Hc2 Hcnn Hme2 Hc)
    as (m' & new & Hrun' & Hcopy' & Hvals & Hnew & Hls' & Hns' & Hnone' & HC'
        & Hi' & Hcalls' & Hf' & Hal' & Hbrk'); try assumption.
  - intros x Hx. pose proof (chain_below m NULL cells NULL Hf) as Hbel.
    rewrite <- Hn2 in Hbel. now apply Hbel.
  - intros x [].
  - intros a Hge _. rewrite Hn2. now apply (Hfr a).
  - lia.
  - replace (length cells + (S (size (nodes m)) - length cells))%nat
      with (S (size (nodes m))) in Hrun' by lia.
    rewrite Hrun' in Hrun.
    replace (S (size (nodes m)) - length cells)%nat
      with (S (size (nodes m) - length cells)) in Hrun by lia.
    cbn [listDup_loop] in Hrun. unfold bind at 1 in Hrun.
    rewrite next_of_end in Hrun. cbn [fst] in Hrun.
    change (NULL =? NULL) with true in Hrun. cbv iota in Hrun.
    exists m', new. cbn [app] in Hcopy'.
    split; [exact Hrun|]. split; [exact Hcopy'|]. split; [exact Hvals|].
    split; [intros x Hx; specialize (Hnew x Hx); lia|].
    split; [exact HC'|].
    assert (Hob : orig <> brk m).
    { intros E. rewrite E in HL. destruct (Hfr (brk m) ltac:(lia)) as (_ & E' & _).
      congruence. }
    split.
    { apply (is_list_frame m); [exact Hl| |].
      - rewrite Hls', Hls2 by congruence. reflexivity.
      - intros a Hin. rewrite Hns', Hn2; [reflexivity|].
        apply (chain_below m NULL cells NULL Hf); [|exact Hin].
        now rewrite <- Hn2. }
    split; [intros l2 Hl2; rewrite Hls', Hls2 by assumption; reflexivity|].
    split; [intros a Hlt'; rewrite Hns', Hn2 by assumption; reflexivity|].
    split; [congruence|]. split; [congruence|]. exact Hf'.
Qed.

(** *** The list operations, as a client sees them *)

(** X1: [listAddNodeHead] and [listAddNodeTail] on a well-formed list put
    one new node, holding the value, at the front and at the back, and
    return the list; the other lists and their nodes are untouched.  When
    the allocation fails they return [NULL] and memory is as it was. *)
Theorem X1_listAddNode_both_ends m l cells v :
  is_list m l cells -> fresh m ->
  Z.of_nat (length cells) < 2 ^ 64 - 1 ->
  (allocs m <> Some 0%nat ->
     (exists m', listAddNodeHead l v m = Done (l, m') /\
        is_list m' l ((brk m, v) :: cells) /\ fresh m' /\
        elsewhere_same m m' l (brk m :: addrs cells) /\ calls m' = calls m) /\
     (exists m', listAddNodeTail l v m = Done (l, m') /\
        is_list m' l (cells ++ [(brk m, v)]) /\ fresh m' /\
        elsewhere_same m m' l (brk m :: addrs cells) /\ calls m' = calls m)) /\
  (allocs m = Some 0%nat ->
     listAddNodeHead l v m = Done (NULL, m) /\
     listAddNodeTail l v m = Done (NULL, m)).
Proof.
  intros Hl Hf Hlen.
  assert (Hbelow : forall a, In a (brk m :: addrs cells) -> a < brk m + sizeof_listNode).
  { destruct Hl as (L & _ & _ & _ & _ & _ & Hc).
    intros a [<-|Hin]; [unfold sizeof_listNode; lia|].
    pose proof (chain_below _ _ _ _ Hf Hc a Hin). unfold sizeof_listNode. lia. }
  assert (Hlive : is_Some (lists m !! l)) by (destruct Hl as (L & HL & _); now exists L).
  split.
  - intros Ha. split.
    + destruct (listAddNodeHead_ok m l cells v Hl Hf Ha Hlen)
        as (m' & Hrun & Hl' & Hsame & Hb & Hc & _).
      exists m'. repeat split; try assumption; try apply Hsame.
      all: try (apply (fresh_after m m' l (brk m :: addrs cells)); try assumption;
                rewrite Hb; [exact Hbelow | unfold sizeof_listNode; lia]).
    + destruct (listAddNodeTail_ok m l cells v Hl Hf Ha Hlen)
        as (m' & Hrun & Hl' & Hsame & Hb & Hc & _).
      exists m'. repeat split; try assumption; try apply Hsame.
      all: try (apply (fresh_after m m' l (brk m :: addrs cells)); try assumption;
                rewrite Hb; [exact Hbelow | unfold sizeof_listNode; lia]).
  - intros Ha. unfold listAddNodeHead, listAddNodeTail.
    rewrite !(bind_Done _ _ _ _ _ (zmalloc_fails m _ Ha)). split; reflexivity.
Qed.

(** X2: [listInsertNode] next to the node of a well-formed list puts one
    new node right after it ([after] not 0) or right before it ([after]
    0); the order of the other nodes is kept and other lists are
    untouched. *)
Theorem X2_listInsertNode_next_to m l l1 c l2 v :
  is_list m l (l1 ++ c :: l2) -> fresh m -> allocs m <> Some 0%nat ->
  Z.of_nat (length (l1 ++ c :: l2)) < 2 ^ 64 - 1 ->
  (forall after, after <> 0 ->
     exists m', listInsertNode l (fst c) v after m = Done (l, m') /\
       is_list m' l (l1 ++ c :: (brk m, v) :: l2) /\
       elsewhere_same m m' l (brk m :: addrs (l1 ++ c :: l2))) /\
  (exists m', listInsertNode l (fst c) v 0 m = Done (l, m') /\
     is_list m' l (l1 ++ (brk m, v) :: c :: l2) /\
     elsewhere_same m m' l (brk m :: addrs (l1 ++ c :: l2))).
Proof.
  intros Hl Hf Ha Hlen. split.
  - intros after Haf.
    destruct (listInsertNode_after_ok m l l1 c l2 v after Hl Hf Ha Hlen Haf)
      as (m' & H1 & H2 & H3 & _).
    exists m'. tauto.
  - destruct (listInsertNode_before_ok m l l1 c l2 v Hl Hf Ha Hlen)
      as (m' & H1 & H2 & H3 & _).
    exists m'. tauto.
Qed.

(** X3: [listDelNode] on a node of a well-formed list takes exactly that
    node out: the others keep their order, the node is no longer live,
    the [free] method, when set, is called once with the node's value,
    and nothing is allocated. *)
Theorem X3_listDelNode_removes m l l1 c l2 :
  is_list m l (l1 ++ c :: l2) ->
  exists m', listDelNode l (fst c) m = Done (tt, m') /\
    is_list m' l (l1 ++ l2) /\
    nodes m' !! fst c = None /\
    elsewhere_same m m' l (addrs (l1 ++ c :: l2)) /\
    calls m' = calls m ++ free_calls m l [snd c] /\
    brk m' = brk m.
Proof.
  intros Hl.
  destruct (listDelNode_ok m l l1 c l2 Hl) as (m' & H1 & H2 & H3 & H4 & H5 & H6 & _).
  exists m'. tauto.
Qed.

(** X4: [listIndex] on a well-formed list returns the node at the
    zero-based position counted from the head, for a negative index the
    node counted from the tail (-1 is the last), and [NULL] when the
    index is out of range; memory is not changed. *)
Theorem X4_listIndex_position m l cells index :
  is_list m l cells -> index <> LONG_MIN ->
  listIndex l index m =
    Done (if index <? 0
          then nth (Z.to_nat (- index - 1)) (rev (addrs cells)) NULL
          else nth (Z.to_nat index) (addrs cells) NULL, m) /\
  (Z.of_nat (length cells) <= index \/ index < - Z.of_nat (length cells) ->
   listIndex l index m = Done (NULL, m)).
Proof.
  intros Hl Hmin. pose proof (listIndex_ok m l cells index Hl Hmin) as H.
  split; [exact H|]. intros Hout. rewrite H. f_equal. f_equal.
  destruct (Z.ltb_spec index 0).
  - apply nth_overflow. rewrite length_rev. unfold addrs. rewrite length_map. lia.
  - apply nth_overflow. unfold addrs. rewrite length_map. lia.
Qed.

(** X5: on a list of at least two nodes [listRotateTailToHead] moves the
    last node to the front and [listRotateHeadToTail] the first node to
    the back, so that each undoes the other; a list of at most one node
    is left alone.  Neither allocates nor frees. *)
Theorem X5_listRotate_moves_one m l cells :
  is_list m l cells ->
  ((length cells <= 1)%nat ->
     listRotateTailToHead l m = Done (tt, m) /\
     listRotateHeadToTail l m = Done (tt, m)) /\
  (forall init c, cells = init ++ [c] -> init <> [] ->
     exists m' m'',
       listRotateTailToHead l m = Done (tt, m') /\
       is_list m' l (c :: init) /\ brk m' = brk m /\
       listRotateHeadToTail l m' = Done (tt, m'') /\
       is_list m'' l cells) /\
  (forall c rest, cells = c :: rest -> rest <> [] ->
     exists m' m'',
       listRotateHeadToTail l m = Done (tt, m') /\
       is_list m' l (rest ++ [c]) /\ brk m' = brk m /\
       listRotateTailToHead l m' = Done (tt, m'') /\
       is_list m'' l cells).
Proof.
  intros Hl. split; [|split].
  - now apply listRotate_short.
  - intros init c -> Hne.
    destruct (listRotateTailToHead_ok m l init c Hl Hne) as (m' & H1 & H2 & _ & H3 & _).
    destruct (listRotateHeadToTail_ok m' l c init H2 Hne) as (m'' & H4 & H5 & _).
    exists m', m''. tauto.
  - intros c rest -> Hne.
    destruct (listRotateHeadToTail_ok m l c rest Hl Hne) as (m' & H1 & H2 & _ & H3 & _).
    destruct (listRotateTailToHead_ok m' l rest c H2 Hne) as (m'' & H4 & H5 & _).
    exists m', m''. tauto.
Qed.

(** X6: [listJoin(l, o)] on two well-formed lists that share no node
    appends the nodes of [o], in order, to [l] and leaves [o] empty but
    valid; no node is allocated, freed or copied. *)
Theorem X6_listJoin_appends m l o cells1 cells2 :
  is_list m l cells1 -> is_list m o cells2 -> l <> o ->
  (forall x, In x (addrs cells1) -> ~ In x (addrs cells2)) ->
  Z.of_nat (length cells1 + length cells2) < 2 ^ 64 ->
  exists m', listJoin l o m = Done (tt, m') /\
    is_list m' l (cells1 ++ cells2) /\ is_list m' o [] /\
    (forall l2, l2 <> l -> l2 <> o -> lists m' !! l2 = lists m !! l2) /\
    (forall a, ~ In a (addrs (cells1 ++ cells2)) -> nodes m' !! a = nodes m !! a) /\
    brk m' = brk m /\ calls m' = calls m.
Proof.
  intros Hl Ho Hlo Hd Hlen.
  destruct (listJoin_ok m l o cells1 cells2 Hl Ho Hlo Hd Hlen)
    as (m' & H1 & H2 & H3 & H4 & H5 & _ & _ & _ & H6 & H7 & _).
  exists m'. tauto.
Qed.

(** X7: [listSearchKey] on a well-formed list returns the first node,
    from the head, whose value the [match] method accepts for the key
    (whose value is the key itself when there is no method), [NULL]
    when there is none; memory is not changed, and the search ends. *)
Theorem X7_listSearchKey_first_match m l cells key :
  is_list m l cells ->
  exists L, lists m !! l = Some L /\
    listSearchKey l key m = Done (first_match (key_matches L key) cells, m) /\
    (first_match (key_matches L key) cells = NULL <->
     forall c, In c cells -> key_matches L key (snd c) = false).
Proof.
  intros Hl. destruct (listSearchKey_ok m l cells key Hl) as (L & HL & Hrun).
  exists L. split; [exact HL|]. split; [exact Hrun|].
  destruct Hl as (_ & _ & _ & _ & _ & _ & Hc).
  pose proof (chain_not_null _ _ _ _ Hc) as Hnn. clear Hc Hrun.
  induction cells as [|c rest IH]; cbn [first_match].
  - split; [intros _ c []|reflexivity].
  - cbn [addrs map In] in Hnn.
    destruct (key_matches L key (snd c)) eqn:E.
    + split; [intros E'; exfalso; apply Hnn; left; exact E'|].
      intros H. specialize (H c (or_introl eq_refl)). congruence.
    + rewrite IH by tauto. split.
      * intros H c' [<-|Hin]; [exact E|now apply H].
      * intros H c' Hin. apply H. now right.
Qed.

(** X8: [listDup] of a well-formed list, when every allocation succeeds
    and the [dup] method never returns [NULL], returns a new list with
    the methods of the original whose nodes are all new and hold, in
    order, the values of the original (each passed through [dup] when
    there is one); the original is as it was. *)
Theorem X8_listDup_copies m orig cells O :
  is_list m orig cells -> lists m !! orig = Some O ->
  fresh m -> allocs m = None ->
  (forall v, In v (dup_values O (values cells)) -> v <> NULL) ->
  Z.of_nat (length cells) < 2 ^ 64 - 1 ->
  exists m' copied,
    listDup orig m = Done (brk m, m') /\
    is_list m' (brk m) copied /\
    values copied = dup_values O (values cells) /\
    (forall x, In x (addrs copied) -> brk m < x) /\
    option_map methods (lists m' !! brk m) = Some (methods O) /\
    is_list m' orig cells /\
    (forall l2, l2 <> brk m -> lists m' !! l2 = lists m !! l2) /\
    (forall a, a < brk m -> nodes m' !! a = nodes m !! a) /\
    calls m' = calls m.
Proof.
  intros Hl HO Hf Ha Hnn Hlen.
  destruct (listDup_ok m orig cells O Hl HO Hf Ha Hnn Hlen)
    as (m' & copied & H1 & H2 & H3 & H4 & H5 & H6 & H7 & H8 & _ & H9 & _).
  exists m', copied. tauto.
Qed.

(** X9: when the [dup] method returns [NULL] for a value of the list,
    [listDup] returns [NULL] and leaves no trace in memory: the partial
    copy and its nodes are without, and the [free] method has been
    called, in order, on the duplicates made before the failure. *)
Theorem X9_listDup_gives_up m orig done c rest O f :
  is_list m orig (done ++ c :: rest) -> lists m !! orig = Some O ->
  dup O = Some f ->
  fresh m -> allocs m = None ->
  (forall v, In v (values done) -> f v <> NULL) -> f (snd c) = NULL ->
  exists m',
    listDup orig m = Done (NULL, m') /\
    nodes m' = nodes m /\ lists m' = lists m /\ iters m' = iters m /\
    calls m' = calls m ++ match free O with
                          | Some fn => map (pair fn) (map f (values done))
                          | None => []
                          end.
Proof.
  intros Hl HO Hdup Hf Ha Hnn Hfail.
  destruct (listDup_start m orig _ O Hl HO Hf Ha)
    as (m2 & Hrun & Hc2 & Hme2 & Hn2 & Hls2 & Hi2 & Hca2 & Hf2 & Ha2 & Hb2).
  pose proof Hf as (Hb & Hfr).
  assert (Hcnn : brk m <> NULL) by (unfold NULL; lia).
  pose proof Hl as (L & HL & Hh & Ht & Hn & Hlt & Hc).
  pose proof (chain_count _ _ _ _ Hc (chain_not_null _ _ _ _ Hc)) as Hcount.
  rewrite length_app in Hcount, Hn. cbn [length] in Hcount, Hn.
  pose proof (chain_below m NULL _ NULL Hf Hc) as Hbel.
  apply chain_mid in Hc. destruct Hc as (Hcd & Hcn & Hcl & _).
  rewrite <- Hn2 in Hcd.
  unfold sizeof_list in Hb2.
  rewrite first_addr_app in Hrun. cbn [first_addr] in Hrun.
  destruct (listDup_loop_prefix done (S (size (nodes m)) - length done)
              m2 (brk m) O [] NULL (fst c) (brk m) Hc2 Hcnn Hme2 Hcd)
    as (m' & new & Hrun' & Hcopy' & Hvals & Hnew & Hls' & Hns' & Hnone' & HC'
        & Hi' & Hcalls' & Hf' & Hal' & Hbrk'); try assumption.
  - intros x Hx. apply Hbel. rewrite addrs_app, in_app_iff. now left.
  - intros x [].
  - intros a Hge _. rewrite Hn2. now apply (Hfr a).
  - lia.
  - unfold dup_values. rewrite Hdup. intros v Hv. apply in_map_iff in Hv.
    destruct Hv as (v0 & <- & Hv0). now apply Hnn.
  - cbn [length]. lia.
  - replace (length done + (S (size (nodes m)) - length done))%nat
      with (S (size (nodes m))) in Hrun' by lia.
    rewrite Hrun' in Hrun.
    replace (S (size (nodes m)) - length done)%nat
      with (S (size (nodes m) - length done)) in Hrun by lia.
    cbn [app] in Hcopy', Hnone'.
    assert (Hcl' : nodes m' !! fst c = nodes m !! fst c).
    { rewrite Hns', Hn2; [reflexivity|]. apply Hbel.
      rewrite addrs_app, in_app_iff. right. now left. }
    rewrite Hcl in Hcl'.
    destruct (listRelease_ok _ _ _ Hcopy')
      as (m3 & Hrel & Hls3 & Hn3 & Hi3 & Hca3 & Hb3 & Ha3).
    destruct Hcopy' as (Lc & HLc & Hrest).
    rewrite HLc in HC'. cbn in HC'. injection HC' as Hd Hfr' Hm.
    cbn [listDup_loop] in Hrun. unfold bind at 1 in Hrun.
    assert (Hnx : next_of {| iter_next := fst c; direction := AL_START_HEAD |} m' =
             Done ((fst c, {| iter_next := first_addr rest NULL;
                              direction := AL_START_HEAD |}), m')).
    { unfold next_of. go. reflexivity. }
    rewrite Hnx in Hrun. cbn [fst snd] in Hrun.
    rewrite (proj2 (Z.eqb_neq _ _) Hcn) in Hrun.
    rewrite (bind_Done _ _ _ _ _ (list_at_live _ _ _ HLc)) in Hrun.
    rewrite (bind_Done _ _ _ _ _ (node_at_live _ _ _ Hcl')) in Hrun.
    rewrite Hd, Hdup in Hrun. cbn [value] in Hrun. rewrite Hfail in Hrun.
    change (NULL =? NULL) with true in Hrun. cbv iota in Hrun.
    rewrite (bind_Done _ _ _ _ _ Hrel) in Hrun.
    exists m3. split; [exact Hrun|].
    split.
    { rewrite Hn3. apply map_eq. intros a.
      destruct (in_dec Z.eq_dec a (addrs new)) as [Hin|Hout].
      - rewrite (without_gone _ _ _ Hin). symmetry.
        specialize (Hnew a Hin). now apply (Hfr a ltac:(lia)).
      - rewrite (without_other _ _ _ Hout).
        destruct (Z.lt_ge_cases a (brk m)) as [Hlt'|Hge].
        + rewrite Hns', Hn2 by assumption. reflexivity.
        + rewrite (Hnone' a Hge Hout). symmetry. now apply (Hfr a). }
    split.
    { rewrite Hls3. apply map_eq. intros k.
      destruct (Z.eq_dec k (brk m)) as [->|Hk].
      - rewrite lookup_delete_eq. symmetry. now apply (Hfr (brk m) ltac:(lia)).
      - rewrite lookup_delete_ne, Hls', Hls2 by congruence. reflexivity. }
    split; [congruence|].
    rewrite Hca3, Hcalls', Hca2. f_equal.
    unfold free_calls. rewrite HLc, Hfr', Hvals. unfold dup_values.
    now rewrite Hdup.
Qed.

(** X10: [listRelease] of a well-formed list frees every node of the
    list and the list itself, calls the [free] method, when set, once on
    each value from head to tail, and touches nothing else. *)
Theorem X10_listRelease_frees_all m l cells :
  is_list m l cells ->
  exists m', listRelease l m = Done (tt, m') /\
    lists m' = delete l (lists m) /\
    (forall a, In a (addrs cells) -> nodes m' !! a = None) /\
    (forall a, ~ In a (addrs cells) -> nodes m' !! a = nodes m !! a) /\
    iters m' = iters m /\
    calls m' = calls m ++ free_calls m l (values cells) /\
    brk m' = brk m.
Proof.
  intros Hl.
  destruct (listRelease_ok m l cells Hl) as (m' & H1 & H2 & H3 & H4 & H5 & H6 & _).
  exists m'. rewrite H3. repeat split; try assumption.
  - intros a Ha. now apply without_gone.
  - intros a Ha. now apply without_other.
Qed.

(** X11: an iterator obtained with [listGetIterator] yields, through
    successive calls of [listNext], the nodes of a well-formed list from
    head to tail ([AL_START_HEAD]) or from tail to head
    ([AL_START_TAIL]), each once, and then [NULL] on every further call;
    after [listReleaseIterator] only the allocator has moved. *)
Theorem X11_iterator_visits_each_once m l cells k :
  is_list m l cells -> fresh m -> allocs m <> Some 0%nat ->
  exists m',
    traverse l AL_START_HEAD (length cells + k) m =
      Done (addrs cells ++ repeat NULL k, m') /\
    traverse l AL_START_TAIL (length cells + k) m =
      Done (rev (addrs cells) ++ repeat NULL k, m') /\
    nodes m' = nodes m /\ lists m' = lists m /\ iters m' = iters m /\
    calls m' = calls m.
Proof.
  intros Hl Hf Ha. destruct (traverse_ok m l cells k Hl Hf Ha) as (H1 & H2).
  eexists. split; [exact H1|]. split; [exact H2|]. cbn. tauto.
Qed.

(** *** Concrete runs *)

Definition no_memory : mem :=
  {| nodes := ∅; lists := ∅; iters := ∅; brk := 4096; allocs := None;
     calls := [] |}.

(** The fields of a list that hold its methods. *)
Definition with_methods (d : option (Z -> Z)) (fr : option Z)
    (ma : option (Z -> Z -> Z)) (L : adlist) : adlist :=
  {| head := head L; tail := tail L; dup := d; free := fr; match_ := ma;
     len := len L |}.

(** A list of three values at 4096 with a [free] method, and behind it a
    second list of two values with none. *)
Definition three_cells : list (Z * Z) := [(4144, 10); (4168, 20); (4192, 30)].
Definition two_cells : list (Z * Z) := [(4264, 40); (4288, 50)].

Definition three (d : option (Z -> Z)) : mem :=
  {| nodes :=
       <[4144 := {| prev := 0; next := 4168; value := 10 |}]>
         (<[4168 := {| prev := 4144; next := 4192; value := 20 |}]>
            (<[4192 := {| prev := 4168; next := 0; value := 30 |}]>
               (<[4264 := {| prev := 0; next := 4288; value := 40 |}]>
                  (<[4288 := {| prev := 4264; next := 0; value := 50 |}]> ∅))));
     lists :=
       <[4096 := {| head := 4144; tail := 4192; dup := d; free := Some 700;
                    match_ := None; len := 3 |}]>
         (<[4216 := {| head := 4264; tail := 4288; dup := None; free := None;
                       match_ := None; len := 2 |}]> ∅);
     iters := ∅; brk := 4312; allocs := None; calls := [] |}.

(** The sample is what the code builds. *)
Example three_is_built :
  (do l <- listCreate;
   exec list_set l (with_methods None (Some 700) None);
   exec listAddNodeTail l 10;
   exec listAddNodeTail l 20;
   exec listAddNodeTail l 30;
   do o <- listCreate;
   exec listAddNodeTail o 40;
   exec listAddNodeTail o 50;
   ret (l, o)) no_memory = Done ((4096, 4216), three None).
Proof. vm_compute. reflexivity. Qed.

Lemma three_is_list d :
  is_list (three d) 4096 three_cells /\ is_list (three d) 4216 two_cells.
Proof.
  split; eexists; (split; [vm_compute; reflexivity|]);
    cbn; repeat split; try discriminate; try reflexivity.
Qed.

Lemma three_fresh d : fresh (three d).
Proof.
  split; [reflexivity|]. intros a Ha. cbn in Ha |- *.
  rewrite !lookup_insert_ne by lia. rewrite !lookup_empty. tauto.
Qed.

Lemma X1_listAddNode_both_ends_witness :
  (exists m', listAddNodeHead 4096 5 (three None) = Done (4096, m') /\
     is_list m' 4096 ((4312, 5) :: three_cells)) /\
  (exists m', listAddNodeTail 4096 5 (three None) = Done (4096, m') /\
     is_list m' 4096 (three_cells ++ [(4312, 5)])).
Proof.
  destruct (X1_listAddNode_both_ends (three None) 4096 three_cells 5
              (proj1 (three_is_list None)) (three_fresh None) ltac:(cbn; lia))
    as [Hok _].
  destruct (Hok ltac:(discriminate)) as [(m1 & H1 & H2 & _) (m2 & H3 & H4 & _)].
  split; [exists m1|exists m2]; split; assumption.
Defined.

Lemma X2_listInsertNode_next_to_witness :
  (exists m', listInsertNode 4096 4168 25 1 (three None) = Done (4096, m') /\
     is_list m' 4096 [(4144, 10); (4168, 20); (4312, 25); (4192, 30)]) /\
  (exists m', listInsertNode 4096 4168 25 0 (three None) = Done (4096, m') /\
     is_list m' 4096 [(4144, 10); (4312, 25); (4168, 20); (4192, 30)]).
Proof.
  destruct (X2_listInsertNode_next_to (three None) 4096 [(4144, 10)] (4168, 20)
              [(4192, 30)] 25 (proj1 (three_is_list None)) (three_fresh None)
              ltac:(discriminate) ltac:(cbn; lia))
    as [Hafter (m2 & H3 & H4 & _)].
  destruct (Hafter 1 ltac:(discriminate)) as (m1 & H1 & H2 & _).
  split; [exists m1|exists m2]; split; assumption.
Defined.

Lemma X3_listDelNode_removes_witness :
  exists m', listDelNode 4096 4168 (three None) = Done (tt, m') /\
    is_list m' 4096 [(4144, 10); (4192, 30)] /\
    nodes m' !! 4168 = None /\ calls m' = [(700, 20)].
Proof.
  destruct (X3_listDelNode_removes (three None) 4096 [(4144, 10)] (4168, 20)
              [(4192, 30)] (proj1 (three_is_list None)))
    as (m' & H1 & H2 & H3 & _ & H4 & _).
  exists m'. repeat split; assumption.
Defined.

Lemma X4_listIndex_position_witness :
  listIndex 4096 1 (three None) = Done (4168, three None) /\
  listIndex 4096 (-1) (three None) = Done (4192, three None) /\
  listIndex 4096 3 (three None) = Done (NULL, three None) /\
  listIndex 4096 (-4) (three None) = Done (NULL, three None).
Proof.
  pose proof (X4_listIndex_position (three None) 4096 three_cells) as H.
  pose proof (proj1 (three_is_list None)) as Hl.
  split; [exact (proj1 (H 1 Hl ltac:(discriminate)))|].
  split; [exact (proj1 (H (-1) Hl ltac:(discriminate)))|].
  split; [apply (proj2 (H 3 Hl ltac:(discriminate))); cbn; lia|].
  apply (proj2 (H (-4) Hl ltac:(discriminate))); cbn; lia.
Defined.

Lemma X5_listRotate_moves_one_witness :
  exists m' m'',
    listRotateTailToHead 4096 (three None) = Done (tt, m') /\
    is_list m' 4096 [(4192, 30); (4144, 10); (4168, 20)] /\
    brk m' = 4312 /\
    listRotateHeadToTail 4096 m' = Done (tt, m'') /\
    is_list m'' 4096 three_cells.
Proof.
  destruct (X5_listRotate_moves_one (three None) 4096 three_cells
              (proj1 (three_is_list None))) as (_ & Hrot & _).
  exact (Hrot [(4144, 10); (4168, 20)] (4192, 30) eq_refl ltac:(discriminate)).
Defined.

Lemma X6_listJoin_appends_witness :
  exists m', listJoin 4096 4216 (three None) = Done (tt, m') /\
    is_list m' 4096 (three_cells ++ two_cells) /\ is_list m' 4216 [].
Proof.
  destruct (X6_listJoin_appends (three None) 4096 4216 three_cells two_cells
              (proj1 (three_is_list None)) (proj2 (three_is_list None))
              ltac:(discriminate)
              ltac:(cbn; intros x H1 H2; lia)
              ltac:(cbn; lia))
    as (m' & H1 & H2 & H3 & _).
  exists m'. repeat split; assumption.
Defined.

Lemma X7_listSearchKey_first_match_witness :
  listSearchKey 4096 20 (three None) = Done (4168, three None) /\
  listSearchKey 4096 21 (three None) = Done (NULL, three None).
Proof.
  split.
  - destruct (X7_listSearchKey_first_match (three None) 4096 three_cells 20
                (proj1 (three_is_list None))) as (L & HL & Hrun & _).
    vm_compute in HL. injection HL as <-. exact Hrun.
  - destruct (X7_listSearchKey_first_match (three None) 4096 three_cells 21
                (proj1 (three_is_list None))) as (L & HL & Hrun & _).
    vm_compute in HL. injection HL as <-. exact Hrun.
Defined.

Definition plus_one (v : Z) : Z := v + 1.

Lemma X8_listDup_copies_witness :
  exists m' copied,
    listDup 4096 (three (Some plus_one)) = Done (4312, m') /\
    is_list m' 4312 copied /\ values copied = [11; 21; 31] /\
    is_list m' 4096 three_cells.
Proof.
  destruct (X8_listDup_copies (three (Some plus_one)) 4096 three_cells
              {| head := 4144; tail := 4192; dup := Some plus_one;
                 free := Some 700; match_ := None; len := 3 |}
              (proj1 (three_is_list _)) ltac:(vm_compute; reflexivity)
              (three_fresh _) eq_refl
              ltac:(cbn; unfold plus_one, NULL; intros v H; lia)
              ltac:(cbn; lia))
    as (m' & copied & H1 & H2 & H3 & _ & _ & H4 & _).
  exists m', copied. repeat split; assumption.
Defined.

(** A [dup] method that fails on the value 20. *)
Definition not_twenty (v : Z) : Z := if v =? 20 then NULL else v + 1.

Lemma X9_listDup_gives_up_witness :
  exists m',
    listDup 4096 (three (Some not_twenty)) = Done (NULL, m') /\
    nodes m' = nodes (three (Some not_twenty)) /\
    lists m' = lists (three (Some not_twenty)) /\
    calls m' = [(700, 11)].
Proof.
  destruct (X9_listDup_gives_up (three (Some not_twenty)) 4096 [(4144, 10)]
              (4168, 20) [(4192, 30)]
              {| head := 4144; tail := 4192; dup := Some not_twenty;
                 free := Some 700; match_ := None; len := 3 |}
              not_twenty
              (proj1 (three_is_list _)) ltac:(vm_compute; reflexivity) eq_refl
              (three_fresh _) eq_refl
              ltac:(cbn; intros v [<-|[]]; discriminate) eq_refl)
    as (m' & H1 & H2 & H3 & _ & H4).
  exists m'. repeat split; assumption.
Defined.

Lemma X10_listRelease_frees_all_witness :
  exists m', listRelease 4096 (three None) = Done (tt, m') /\
    lists m' !! 4096 = None /\
    nodes m' !! 4144 = None /\ nodes m' !! 4168 = None /\
    nodes m' !! 4192 = None /\
    nodes m' !! 4264 = nodes (three None) !! 4264 /\
    calls m' = [(700, 10); (700, 20); (700, 30)].
Proof.
  destruct (X10_listRelease_frees_all (three None) 4096 three_cells
              (proj1 (three_is_list None)))
    as (m' & H1 & H2 & H3 & H4 & _ & H5 & _).
  exists m'. split; [exact H1|].
  split; [rewrite H2; apply lookup_delete_eq|].
  split; [apply H3; cbn; tauto|]. split; [apply H3; cbn; tauto|].
  split; [apply H3; cbn; tauto|].
  split; [apply H4; cbn; intros H; repeat destruct H as [H|H]; try discriminate; exact H|].
  exact H5.
Defined.

Lemma X11_iterator_visits_each_once_witness :
  exists m',
    traverse 4096 AL_START_HEAD 4 (three None) = Done ([4144; 4168; 4192; NULL], m') /\
    traverse 4096 AL_START_TAIL 4 (three None) = Done ([4192; 4168; 4144; NULL], m') /\
    nodes m' = nodes (three None) /\ lists m' = lists (three None).
Proof.
  destruct (X11_iterator_visits_each_once (three None) 4096 three_cells 1
              (proj1 (three_is_list None)) (three_fresh None) ltac:(discriminate))
    as (m' & H1 & H2 & H3 & H4 & _).
  exists m'. repeat split; assumption.
Defined.

End Adlist.

(** ** The MVCC clock under overlapping calls ([server.cpp]) *)

Module MvccClock.

Import Mvcc.

(** A command procedure that leaves the clock and the cached time as they
    are. *)
Definition steady (proc : redisServer * client -> redisServer * client) : Prop :=
  forall x, mvcc_tstamp (fst (proc x)) = mvcc_tstamp (fst x) /\
            mstime (fst (proc x)) = mstime (fst x).

(** A caller that has performed the update of [incrementMvccTstamp]. *)
Definition past_increment (p : call_pc) : bool :=
  match p with
  | run_proc _ | read_dirty _ | checkpoint _ | returned => true
  | _ => false
  end.

Definition is_thread_step (e : event) : bool :=
  match e with thread_step _ => true | cached_time _ => false end.

Section Overlap.

(** The clock and the cached time when the calls start, and a bound on
    the number of steps. *)
Variables c0 m top : Z.
Variable N : nat.
Hypothesis m_range : 0 <= m < 2 ^ 44.
Hypothesis c0_range : 0 <= c0.
Hypothesis top_m : m * 2 ^ 20 <= top.
Hypothesis no_wrap : top + Z.of_nat N < 2 ^ 64.

(** What a caller knows, against the clock as it is now: a caller that
    loaded a clock that had caught up finds it caught up still; a caller
    past its update left it caught up. *)
Definition caller_inv (clock : Z) (k : caller) : Prop :=
  steady (proc k) /\
  match pc k with
  | increment _ (load_time p) =>
      Z.shiftr c0 20 <= p /\ (m <= p -> m * 2 ^ 20 <= clock)
  | increment _ (update p mst) =>
      mst = m /\ Z.shiftr c0 20 <= p /\ (m <= p -> m * 2 ^ 20 <= clock)
  | increment _ increment_done => False
  | run_proc _ | read_dirty _ | checkpoint _ | returned => m * 2 ^ 20 <= clock
  | _ => True
  end.

Definition inv (n : nat) (w : process) : Prop :=
  mstime (server w) = m /\
  c0 <= mvcc_tstamp (server w) <= top + Z.of_nat n /\
  Forall (caller_inv (mvcc_tstamp (server w))) (callers w).

Lemma caller_inv_mono clock clock' k :
  (m * 2 ^ 20 <= clock -> m * 2 ^ 20 <= clock') ->
  caller_inv clock k -> caller_inv clock' k.
Proof.
  intros Hmono [Hs Hk]. split; [exact Hs|].
  destruct (pc k) as [| | | |d p| | | | |]; try exact Hk; try (now apply Hmono).
  destruct p as [|p|p mst|]; try exact Hk.
  - destruct Hk as [H1 H2]. split; [exact H1|]. intros H. apply Hmono. now apply H2.
  - destruct Hk as (H0 & H1 & H2). split; [exact H0|]. split; [exact H1|].
    intros H. apply Hmono. now apply H2.
Qed.

Lemma shiftr_caught_up clock :
  0 <= clock -> m <= Z.shiftr clock 20 -> m * 2 ^ 20 <= clock.
Proof.
  intros Hc H. rewrite Z.shiftr_div_pow2 in H by lia.
  pose proof (Z.div_mod clock (2 ^ 20) ltac:(lia)).
  pose proof (Z.mod_pos_bound clock (2 ^ 20) ltac:(lia)). nia.
Qed.

Lemma shiftr_behind p :
  Z.shiftr c0 20 <= p -> p < m -> c0 < m * 2 ^ 20.
Proof.
  intros H1 H2. rewrite Z.shiftr_div_pow2 in H1 by lia.
  pose proof (Z.div_mod c0 (2 ^ 20) ltac:(lia)).
  pose proof (Z.mod_pos_bound c0 (2 ^ 20) ltac:(lia)). nia.
Qed.

(** One step of a caller keeps what the callers know. *)
Lemma call_step_inv n k s :
  (n < N)%nat ->
  mstime s = m ->
  c0 <= mvcc_tstamp s <= top + Z.of_nat n ->
  caller_inv (mvcc_tstamp s) k ->
  let k' := fst (call_step k s) in
  let s' := snd (call_step k s) in
  mstime s' = m /\
  c0 <= mvcc_tstamp s' <= top + Z.of_nat (S n) /\
  (m * 2 ^ 20 <= mvcc_tstamp s -> m * 2 ^ 20 <= mvcc_tstamp s') /\
  caller_inv (mvcc_tstamp s') k'.
Proof.
  intros Hn Hm Hc [Hs Hk]. intros k' s'. subst k' s'.
  destruct k as [fl cf gl pr cl p]. cbn [pc proc] in *.
  unfold call_step. cbn [pc].
  destruct p as [| |d|d cnt|d p|d|d|d| |].
  - destruct (asserted _); cbn [fst snd];
      (split; [exact Hm|]; split; [lia|]; split; [tauto|];
       split; [exact Hs|exact I]).
  - cbn [fst snd]. split; [exact Hm|]. split; [lia|]. split; [tauto|].
    split; [exact Hs|exact I].
  - cbn [fst snd]. split; [exact Hm|]. split; [lia|]. split; [tauto|].
    split; [exact Hs|exact I].
  - cbn [fst snd mvcc_tstamp mstime set_fixed_time_expire].
    split; [exact Hm|]. split; [lia|]. split; [tauto|].
    split; [exact Hs|exact I].
  - destruct p as [|p|p mst|]; cbn [increment_step fst snd at_pc pc proc].
    + split; [exact Hm|]. split; [lia|]. split; [tauto|].
      split; [exact Hs|]. cbn [pc at_pc]. unfold MVCC_MS_SHIFT. split.
      * rewrite !Z.shiftr_div_pow2 by lia. apply Z.div_le_mono; lia.
      * apply shiftr_caught_up. lia.
    + split; [exact Hm|]. split; [lia|]. split; [tauto|].
      split; [exact Hs|]. cbn [pc at_pc]. rewrite Hm. destruct Hk as [H1 H2].
      split; [reflexivity|]. split; assumption.
    + destruct Hk as (-> & H1 & H2).
      rewrite (u64_small m) by lia. unfold MVCC_MS_SHIFT.
      rewrite Z.shiftl_mul_pow2 by lia.
      destruct (Z.leb_spec m p) as [Hle|Hgt];
        cbn [mvcc_tstamp mstime set_mvcc_tstamp].
      * specialize (H2 Hle). rewrite u64_small by lia.
        split; [exact Hm|]. split; [lia|]. split; [lia|].
        split; [exact Hs|]. cbn [pc at_pc]. lia.
      * pose proof (shiftr_behind p H1 Hgt). rewrite u64_small by lia.
        split; [exact Hm|]. split; [lia|]. split; [lia|].
        split; [exact Hs|]. cbn [pc at_pc]. lia.
    + contradiction.
  - cbn [c proc]. pose proof (Hs (s, cl)) as [Hp1 Hp2]. cbn [fst] in Hp1, Hp2.
    destruct (pr (s, cl)) as [s1 cl1]. cbn [fst snd] in *.
    split; [congruence|]. split; [rewrite Hp1; lia|].
    split; [rewrite Hp1; tauto|]. split; [exact Hs|].
    cbn [pc at_pc with_client]. rewrite Hp1. exact Hk.
  - cbn [fst snd flags]. split; [exact Hm|]. split; [lia|]. split; [tauto|].
    split; [exact Hs|]. cbn [pc at_pc].
    destruct (negb (_ =? 0)); exact Hk.
  - cbn [fst snd]. split; [exact Hm|]. split; [lia|]. split; [tauto|].
    split; [exact Hs|]. exact Hk.
  - cbn [fst snd]. split; [exact Hm|]. split; [lia|]. split; [tauto|].
    split; [exact Hs|]. exact Hk.
  - cbn [fst snd]. split; [exact Hm|]. split; [lia|]. split; [tauto|].
    split; [exact Hs|]. exact Hk.
Qed.

Lemma perform_inv n t w :
  (n < N)%nat -> inv n w -> inv (S n) (perform (thread_step t) w).
Proof.
  intros Hn (Hm & Hc & Hall). unfold perform.
  assert (Hkeep : inv (S n) w).
  { split; [exact Hm|]. split; [lia|exact Hall]. }
  destruct (aborted w); [exact Hkeep|].
  destruct (callers w !! t) as [k|] eqn:Hk; [|exact Hkeep].
  pose proof (call_step_inv n k (server w) Hn Hm Hc
                (Forall_lookup_1 _ _ _ _ Hall Hk)) as H.
  cbn zeta in H. destruct (call_step k (server w)) as [k' s'].
  cbn [fst snd] in H. destruct H as (Hm' & Hc' & Hmono & Hk').
  split; [exact Hm'|]. split; [exact Hc'|]. cbn [server callers].
  apply Forall_insert; [|exact Hk'].
  eapply Forall_impl; [exact Hall|]. intros x. now apply caller_inv_mono.
Qed.

Lemma run_inv sched : forall n w,
  (n + length sched <= N)%nat ->
  forallb is_thread_step sched = true ->
  inv n w -> inv (n + length sched) (run sched w).
Proof.
  induction sched as [|e rest IH]; intros n w Hn Hsched Hinv.
  - cbn [length run fold_left]. now rewrite Nat.add_0_r.
  - cbn [forallb] in Hsched. apply andb_prop in Hsched as [He Hrest].
    destruct e as [t|]; [|discriminate].
    cbn [length] in *. cbn [run fold_left]. change (fold_left _ ?l ?x) with (run l x).
    replace (n + S (length rest))%nat with (S n + length rest)%nat by lia.
    apply IH; [lia|exact Hrest|]. apply perform_inv; [lia|exact Hinv].
Qed.

End Overlap.

(** X12.  Calls that start together and overlap in any way, with the
    cached time fixed at m in [0, 2^44) and command procedures that leave
    the clock and the cached time alone: the clock is never below the
    value it had when the calls started, it is at most one per step above
    the larger of that value and m * 2^20, and once a caller is past its
    increment the millisecond part of the clock is at least m, whatever
    the other callers still do.  (Between two steps the counter can go
    back, as the reader's stale store shows.) *)
Theorem X12_overlapping_calls_catch_up w sched :
  Forall (fun k => pc k = enter /\ steady (proc k)) (callers w) ->
  forallb is_thread_step sched = true ->
  0 <= mstime (server w) < 2 ^ 44 ->
  0 <= mvcc_tstamp (server w) ->
  Z.max (mvcc_tstamp (server w)) (mstime (server w) * 2 ^ 20)
    + Z.of_nat (length sched) < 2 ^ 64 ->
  mstime (server (run sched w)) = mstime (server w) /\
  mvcc_tstamp (server w) <= mvcc_tstamp (server (run sched w))
    <= Z.max (mvcc_tstamp (server w)) (mstime (server w) * 2 ^ 20)
       + Z.of_nat (length sched) /\
  (forall t k,
     callers (run sched w) !! t = Some k -> past_increment (pc k) = true ->
     mstime (server w)
       <= Z.shiftr (mvcc_tstamp (server (run sched w))) MVCC_MS_SHIFT).
Proof.
  intros Hall Hsched Hm Hc Hwrap.
  set (c0 := mvcc_tstamp (server w)) in *.
  set (m := mstime (server w)) in *.
  set (top := Z.max c0 (m * 2 ^ 20)) in *.
  assert (Hstart : inv c0 m top 0 w).
  { split; [reflexivity|]. split; [fold c0; pose proof (Z.le_max_l c0 (m * 2 ^ 20)); lia|].
    eapply Forall_impl; [exact Hall|]. intros k [He Hs].
    split; [exact Hs|]. now rewrite He. }
  pose proof (run_inv c0 m top (length sched) Hm Hc (Z.le_max_r _ _) Hwrap
                sched 0%nat w (Nat.le_refl _) Hsched Hstart)
    as (Hm' & Hc' & Hk').
  cbn [Nat.add] in Hc'.
  split; [exact Hm'|]. split; [exact Hc'|].
  intros t k Hk Hpast.
  pose proof (Forall_lookup_1 _ _ _ _ Hk' Hk) as [_ Hinv].
  assert (Hup : m * 2 ^ 20 <= mvcc_tstamp (server (run sched w))).
  { destruct (pc k) as [| | | |d p| | | | |]; try discriminate; exact Hinv. }
  unfold MVCC_MS_SHIFT. rewrite Z.shiftr_div_pow2 by lia.
  apply Z.div_le_lower_bound; lia.
Qed.

Lemma X12_overlapping_calls_catch_up_witness :
  mvcc_tstamp (server overlapping)
    <= mvcc_tstamp (server (run (stale_store ++ [thread_step 0]) overlapping)) /\
  9 <= Z.shiftr (mvcc_tstamp (server (run (stale_store ++ [thread_step 0])
                                        overlapping))) MVCC_MS_SHIFT.
Proof.
  assert (Hall : Forall (fun k => pc k = enter /\ steady (proc k))
                        (callers overlapping)).
  { repeat (apply Forall_cons; split; [split; [reflexivity|]|]);
      [intros x; split; reflexivity .. | apply Forall_nil_2]. }
  destruct (X12_overlapping_calls_catch_up overlapping
              (stale_store ++ [thread_step 0]) Hall eq_refl
              ltac:(cbn; lia) ltac:(cbn; lia) ltac:(vm_compute; reflexivity))
    as (_ & Hclock & Hpast).
  split; [exact (proj1 Hclock)|].
  assert (Hk : exists k,
             callers (run (stale_store ++ [thread_step 0]) overlapping) !! 2%nat
               = Some k /\ past_increment (pc k) = true)
    by (vm_compute; eexists; split; reflexivity).
  destruct Hk as (k & Hk & Hp). exact (Hpast 2%nat k Hk Hp).
Defined.

(** X13.  A call that no other thread overlaps.  When the assertion on
    its first line fails ([CMD_CALL_ASYNC] without a read-only command,
    or no flag and no lock) it ends there with the server and the client
    unchanged.  When it holds, the command procedure runs on the server
    after the increment of the clock; the client is stamped with the clock
    read after the command exactly when the call is not [CMD_CALL_ASYNC]
    and the command raised the dirty counter, and otherwise keeps what the
    command left; for a server in range and a command that does not lower
    the clock the stamp is strictly above the clock before the call. *)
Theorem X13_call_checkpoints_writes k s :
  pc k = enter -> in_range s -> keeps_clock (proc k) ->
  let before := (incrementMvccTstamp (entering s), c k) in
  let after := call k s in
  (asserted k = false ->
     pc (fst after) = panicked /\ c (fst after) = c k /\ snd after = s) /\
  (asserted k = true ->
     pc (fst after) = returned /\ snd after = fst (proc k before) /\
     (Z.land (flags k) CMD_CALL_ASYNC = 0 /\
      dirty s < dirty (fst (proc k before)) ->
        mvccCheckpoint (c (fst after)) = mvcc_tstamp (snd after) /\
        mvcc_tstamp s < mvccCheckpoint (c (fst after))) /\
     (Z.land (flags k) CMD_CALL_ASYNC <> 0 \/
      dirty (fst (proc k before)) <= dirty s ->
        c (fst after) = snd (proc k before))).
Proof.
  intros He Hr Hproc before after. split.
  - intros Ha. subst after. rewrite (call_refused k s He Ha). now destruct k.
  - intros Ha. subst after. rewrite (call_alone k s He Ha).
    assert (Hin : mvcc_tstamp s < mvcc_tstamp (incrementMvccTstamp (entering s)))
      by (apply (incrementMvccTstamp_lt (entering s)); exact Hr).
    pose proof (Hproc before) as Hkeep. subst before. cbn [fst] in Hkeep.
    unfold finish. cbn [fst snd at_pc with_client pc c].
    destruct (proc k (incrementMvccTstamp (entering s), c k)) as [s' c'].
    cbn [fst snd] in *.
    split; [reflexivity|]. split; [reflexivity|]. split.
    + intros [Hsync Hdirty]. rewrite Hsync. cbn [Z.eqb negb].
      destruct (Z.ltb_spec (dirty s' - dirty s) 0); [lia|].
      destruct (Z.eqb_spec (dirty s' - dirty s) 0); [lia|].
      cbn [negb mvccCheckpoint]. unfold getMvccTstamp. split; [reflexivity|lia].
    + intros [Hasync|Hclean].
      * apply Z.eqb_neq in Hasync. rewrite Hasync. reflexivity.
      * destruct (Z.land (flags k) CMD_CALL_ASYNC =? 0); [|reflexivity].
        cbn [negb]. destruct (Z.ltb_spec (dirty s' - dirty s) 0); [reflexivity|].
        replace (dirty s' - dirty s) with 0 by lia. reflexivity.
Qed.

(** A write called asynchronously without the lock. *)
Definition unlocked_write : caller :=
  {| flags := CMD_CALL_ASYNC; cmd_flags := CMD_WRITE;
     GlobalLocksAcquired := false; proc := sample_write; c := sample_client;
     pc := enter |}.

Lemma X13_call_checkpoints_writes_witness :
  mvccCheckpoint (c (fst (call writer sample_server))) = 5 * 2 ^ 20 + 8 /\
  c (fst (call reader sample_server)) = sample_client /\
  pc (fst (call unlocked_write sample_server)) = panicked.
Proof.
  assert (Hr : in_range sample_server) by (unfold in_range; cbn; lia).
  assert (Hw : keeps_clock sample_write) by (intros x; cbn; lia).
  assert (Hrd : keeps_clock sample_read) by (intros x; unfold sample_read; lia).
  split; [|split].
  - destruct (X13_call_checkpoints_writes writer sample_server eq_refl Hr Hw)
      as [_ H].
    destruct (H eq_refl) as (_ & _ & Hstamp & _).
    destruct (Hstamp ltac:(split; [reflexivity | vm_compute; reflexivity]))
      as [H1 _].
    rewrite H1. vm_compute. reflexivity.
  - destruct (X13_call_checkpoints_writes reader sample_server eq_refl Hr Hrd)
      as [_ H].
    destruct (H eq_refl) as (_ & _ & _ & Hkeep).
    rewrite Hkeep; [reflexivity|]. left. vm_compute. discriminate.
  - destruct (X13_call_checkpoints_writes unlocked_write sample_server eq_refl
                Hr Hw) as [H _].
    exact (proj1 (H eq_refl)).
Defined.

End MvccClock.

(** ** Holding and giving back references ([object.cpp], [server.h]) *)

Module Refs.

Import Obj.

(** [class robj_sharedptr] of [server.h]; a shared pointer is the value of
    its one member, and a member function returns the new value. *)

(** [explicit robj_sharedptr(redisObject *ptr)] *)
Definition sharedptr_of (ptr : Z) : M world Z :=
  exec (if negb (ptr =? 0) then incrRefCount ptr else ret tt);
  ret ptr.

(** [robj_sharedptr(const robj_sharedptr& other)] *)
Definition sharedptr_copy (other : Z) : M world Z :=
  let p := other in
  exec (if negb (p =? 0) then incrRefCount p else ret tt);
  ret p.

(** [~robj_sharedptr()] *)
Definition sharedptr_destroy (p : Z) : M world unit :=
  if negb (p =? 0) then decrRefCount p else ret tt.

(** [operator=(const robj_sharedptr& other)]: the copy is swapped with
    [*this] and destroyed at the end of the body. *)
Definition sharedptr_assign (this other : Z) : M world Z :=
  do tmp <- sharedptr_copy other;
  let swapped := (tmp, this) in
  exec sharedptr_destroy (snd swapped);
  ret (fst swapped).

(** [operator=(redisObject *ptr)] *)
Definition sharedptr_assign_ptr (this ptr : Z) : M world Z :=
  do tmp <- sharedptr_of ptr;
  let swapped := (tmp, this) in
  exec sharedptr_destroy (snd swapped);
  ret (fst swapped).

(** A count a reference can be added to and taken from: between 1 and
    the stack marker, or the shared marker. *)
Definition counted (obj : redisObject) : Prop :=
  wf_obj obj /\
  (1 <= getrefcount obj < OBJ_STATIC_REFCOUNT \/
   getrefcount obj = OBJ_SHARED_REFCOUNT).

Lemma set_refcount_same obj : set_refcount (refcount obj) obj = obj.
Proof. now destruct obj. Qed.

Lemma set_refcount_twice a b obj :
  set_refcount a (set_refcount b obj) = set_refcount a obj.
Proof. reflexivity. Qed.

Lemma set_heap_twice o a b w :
  set_heap (insert o a) (set_heap (insert o b) w) = set_heap (insert o a) w.
Proof.
  rewrite set_heap_set_heap. apply set_heap_ext. apply insert_insert_eq.
Qed.

Lemma u32_back r : 0 <= r < 2 ^ 32 -> u32 (u32 (r + 1) - 1) = r.
Proof.
  intros Hr. unfold u32, wrap.
  destruct (Z.eq_dec r (2 ^ 32 - 1)) as [->|Hne]; [reflexivity|].
  rewrite (Z.mod_small (r + 1)) by lia. rewrite Z.mod_small; lia.
Qed.

Lemma u32_forth r : 0 <= r < 2 ^ 32 -> u32 (u32 (r - 1) + 1) = r.
Proof.
  intros Hr. unfold u32, wrap.
  destruct (Z.eq_dec r 0) as [->|Hne]; [reflexivity|].
  rewrite (Z.mod_small (r - 1)) by lia. rewrite Z.mod_small; lia.
Qed.

Lemma release_addref obj : wf_obj obj -> snd (release (addref obj)) = obj.
Proof.
  intros Hwf. unfold release, addref. cbn [snd refcount set_refcount].
  rewrite set_refcount_twice, u32_back by exact Hwf. apply set_refcount_same.
Qed.

Lemma addref_release obj : wf_obj obj -> addref (snd (release obj)) = obj.
Proof.
  intros Hwf. unfold release, addref. cbn [snd refcount set_refcount].
  rewrite set_refcount_twice, u32_forth by exact Hwf. apply set_refcount_same.
Qed.

Lemma addref_wf obj : wf_obj (addref obj).
Proof. unfold wf_obj, addref. cbn. apply u32_range. Qed.

(** Taking a reference and giving it back. *)
Lemma incr_then_decr w o obj :
  heap w !! o = Some obj -> counted obj ->
  (exec incrRefCount o; decrRefCount o) w = Done (tt, w).
Proof.
  intros Ho (Hwf & [Hc|Hs]).
  - rewrite (bind_Done _ _ _ _ _
               (incrRefCount_ordinary w o obj Ho ltac:(unfold OBJ_FIRST_SPECIAL_REFCOUNT; lia))).
    destruct (addref_spec obj Hwf ltac:(unfold OBJ_STATIC_REFCOUNT in Hc; lia))
      as (Hr & Hg & _).
    rewrite (decrRefCount_keep _ o (addref obj) (heap_store _ _ _) (addref_wf obj)
               ltac:(lia)
               ltac:(unfold OBJ_STATIC_REFCOUNT in Hc; lia)).
    rewrite set_heap_twice. f_equal. f_equal.
    rewrite Hr. replace (refcount obj + 1 - 1) with (refcount obj) by lia.
    unfold addref. rewrite set_refcount_twice, set_refcount_same.
    now apply set_heap_id.
  - rewrite (bind_Done _ _ _ _ _ (incrRefCount_shared w o obj Ho Hs)).
    now apply (decrRefCount_shared w o obj).
Qed.

(** X14: taking a reference with [incrRefCount] and giving it back with
    [decrRefCount] leaves the object, its expire flag and everything else
    exactly as they were, for every object whose count is at least 1 and
    below the stack marker, or is the shared marker; nothing is released.
    In the other order the same holds when another reference keeps the
    object alive. *)
Theorem X14_reference_taken_and_returned w o obj :
  heap w !! o = Some obj -> counted obj ->
  (exec incrRefCount o; decrRefCount o) w = Done (tt, w) /\
  (1 < getrefcount obj ->
   (exec decrRefCount o; incrRefCount o) w = Done (tt, w)).
Proof.
  intros Ho Hc. split; [now apply (incr_then_decr w o obj)|].
  intros Hmany. destruct Hc as (Hwf & [Hc|Hs]).
  - rewrite (bind_Done _ _ _ _ _
               (decrRefCount_keep w o obj Ho Hwf Hmany
                  ltac:(unfold OBJ_STATIC_REFCOUNT in Hc; lia))).
    destruct (release_spec obj Hwf ltac:(lia)) as (_ & Hr & Hg & _).
    assert (Hsame : set_refcount (refcount obj - 1) obj = snd (release obj)).
    { unfold release. cbn [snd]. f_equal. unfold release in Hr.
      cbn [snd refcount set_refcount] in Hr. now rewrite Hr. }
    rewrite Hsame.
    rewrite (incrRefCount_ordinary _ o (snd (release obj)) (heap_store _ _ _)
               ltac:(unfold OBJ_FIRST_SPECIAL_REFCOUNT; lia)).
    rewrite set_heap_twice, addref_release by exact Hwf.
    f_equal. f_equal. now apply set_heap_id.
  - rewrite (bind_Done _ _ _ _ _ (decrRefCount_shared w o obj Ho Hs)).
    now apply (incrRefCount_shared w o obj).
Qed.

Lemma X14_reference_taken_and_returned_witness :
  (exec incrRefCount 4096; decrRefCount 4096)
    (holding quiet_server (string_object OBJ_ENCODING_RAW 1 9000 "value"))
  = Done (tt, holding quiet_server (string_object OBJ_ENCODING_RAW 1 9000 "value")).
Proof.
  apply (X14_reference_taken_and_returned _ 4096 _ (holding_lookup _ _)).
  split; [unfold wf_obj; cbn; lia|]. left. vm_compute. split; [discriminate | reflexivity].
Defined.

(** X15: assigning a shared pointer takes one reference on the new
    object before it gives back the one on the old object.  So assigning
    a pointer to itself changes nothing; assigning over a pointer to
    another object leaves the new object with one reference more and the
    old one with one less, the old object being released when that was
    its last reference; and the pointer holds the new object. *)
Theorem X15_sharedptr_assignment w this other old new :
  heap w !! this = Some old -> heap w !! other = Some new ->
  this <> 0 -> other <> 0 ->
  counted old -> counted new ->
  getrefcount old <> OBJ_SHARED_REFCOUNT ->
  getrefcount new <> OBJ_SHARED_REFCOUNT ->
  sharedptr_assign this this w = Done (this, w) /\
  (this <> other -> 1 < getrefcount old ->
     exists w', sharedptr_assign this other w = Done (other, w') /\
       heap w' = <[this := set_refcount (refcount old - 1) old]>
                   (<[other := addref new]> (heap w)) /\
       log w' = log w) /\
  (this <> other -> getrefcount old = 1 ->
     forall evs, destructor_events this old = Some evs ->
     exists w', sharedptr_assign this other w = Done (other, w') /\
       heap w' = delete this (<[other := addref new]> (heap w)) /\
       log w' = log w ++ evs ++ [EvDestructor this; EvZfree (allocPtrFromObj w this)]).
Proof.
  intros Hold Hnew Ht0 Ho0 Hcold Hcnew Hsold Hsnew.
  assert (Heqt : (this =? 0) = false) by now apply Z.eqb_neq.
  assert (Heqo : (other =? 0) = false) by now apply Z.eqb_neq.
  split; [|split].
  - unfold sharedptr_assign, sharedptr_copy, sharedptr_destroy.
    cbn [fst snd]. rewrite Heqt. cbn [negb].
    pose proof (incr_then_decr w this old Hold Hcold) as H.
    unfold bind in *. destruct (incrRefCount this w) as [[[] w1]| | |]; try discriminate.
    unfold ret. now rewrite H.
  - intros Hne Hmany.
    destruct Hcnew as (Hwfn & [Hcn|Hsn]); [|contradiction].
    destruct Hcold as (Hwfo & _).
    unfold sharedptr_assign, sharedptr_copy, sharedptr_destroy.
    cbn [fst snd]. rewrite Heqt, Heqo. cbn [negb]. unfold bind, ret.
    rewrite (incrRefCount_ordinary w other new Hnew
               ltac:(unfold OBJ_FIRST_SPECIAL_REFCOUNT; lia)).
    assert (Hold' : heap (set_heap (insert other (addref new)) w) !! this = Some old)
      by (cbn [heap set_heap]; rewrite lookup_insert_ne by congruence; exact Hold).
    rewrite (decrRefCount_keep _ this old Hold' Hwfo Hmany Hsold).
    eexists. split; [reflexivity|]. split; reflexivity.
  - intros Hne Hlast evs Hevs.
    destruct Hcnew as (Hwfn & [Hcn|Hsn]); [|contradiction].
    destruct Hcold as (Hwfo & _).
    unfold sharedptr_assign, sharedptr_copy, sharedptr_destroy.
    cbn [fst snd]. rewrite Heqt, Heqo. cbn [negb]. unfold bind, ret.
    rewrite (incrRefCount_ordinary w other new Hnew
               ltac:(unfold OBJ_FIRST_SPECIAL_REFCOUNT; lia)).
    assert (Hold' : heap (set_heap (insert other (addref new)) w) !! this = Some old)
      by (cbn [heap set_heap]; rewrite lookup_insert_ne by congruence; exact Hold).
    rewrite (decrRefCount_last _ this old evs Hold' Hwfo Hlast Hevs).
    eexists. split; [reflexivity|]. split; reflexivity.
Qed.

(** Two strings: the first held once, the second twice. *)
Definition two_objects : world :=
  set_heap (insert 5000 (string_object OBJ_ENCODING_EMBSTR 2 0 "b"))
    (holding quiet_server (string_object OBJ_ENCODING_RAW 1 9000 "a")).

Lemma X15_sharedptr_assignment_witness :
  sharedptr_assign 5000 5000 two_objects = Done (5000, two_objects) /\
  (exists w', sharedptr_assign 5000 4096 two_objects = Done (4096, w') /\
     option_map getrefcount (heap w' !! 5000) = Some 1 /\
     option_map getrefcount (heap w' !! 4096) = Some 2 /\
     log w' = []) /\
  (exists w', sharedptr_assign 4096 5000 two_objects = Done (5000, w') /\
     heap w' !! 4096 = None /\
     option_map getrefcount (heap w' !! 5000) = Some 3 /\
     log w' = [EvSdsFree 9000; EvDestructor 4096; EvZfree 4088]).
Proof.
  assert (Ha : heap two_objects !! 4096
               = Some (string_object OBJ_ENCODING_RAW 1 9000 "a")) by reflexivity.
  assert (Hb : heap two_objects !! 5000
               = Some (string_object OBJ_ENCODING_EMBSTR 2 0 "b")) by reflexivity.
  assert (Hca : counted (string_object OBJ_ENCODING_RAW 1 9000 "a"))
    by (split; [unfold wf_obj; cbn; lia | left; vm_compute; split; [discriminate | reflexivity]]).
  assert (Hcb : counted (string_object OBJ_ENCODING_EMBSTR 2 0 "b"))
    by (split; [unfold wf_obj; cbn; lia | left; vm_compute; split; [discriminate | reflexivity]]).
  split; [|split].
  - apply (X15_sharedptr_assignment two_objects 5000 5000 _ _ Hb Hb);
      try assumption; discriminate.
  - destruct (X15_sharedptr_assignment two_objects 5000 4096 _ _ Hb Ha
                ltac:(discriminate) ltac:(discriminate) Hcb Hca
                ltac:(discriminate) ltac:(discriminate)) as (_ & H & _).
    destruct (H ltac:(discriminate) ltac:(reflexivity)) as (w' & Hrun & Hheap & Hlog).
    exists w'. split; [exact Hrun|]. rewrite Hheap, Hlog. repeat split.
  - destruct (X15_sharedptr_assignment two_objects 4096 5000 _ _ Ha Hb
                ltac:(discriminate) ltac:(discriminate) Hca Hcb
                ltac:(discriminate) ltac:(discriminate)) as (_ & _ & H).
    destruct (H ltac:(discriminate) ltac:(reflexivity) _ eq_refl)
      as (w' & Hrun & Hheap & Hlog).
    exists w'. split; [exact Hrun|]. rewrite Hheap, Hlog. repeat split.
Defined.

End Refs.

(** ** Counters and samples of the periodic tasks ([server.cpp]) *)

Module Stats.

(** A [long long] result: signed overflow has no meaning. *)
Definition ll {S} (z : Z) : M S Z :=
  if (LONG_MIN <=? z) && (z <=? LONG_MAX) then ret z
  else undefined "signed integer overflow".

(** *** [htNeedsResize] *)

Definition DICT_HT_INITIAL_SIZE : Z := 4.      (* dict.h *)
Definition HASHTABLE_MIN_FILL : Z := 10.       (* server.h *)

(** The two members [dictSlots] and [dictSize] of [dict.h] read, both
    [unsigned long]. *)
Record dict : Type := { ht_size : Z; ht_used : Z }.

Definition dictSlots (d : dict) : Z := ht_size d.
Definition dictSize (d : dict) : Z := ht_used d.

Definition htNeedsResize (d : dict) : M unit bool :=
  let size := s64 (dictSlots d) in
  let used := s64 (dictSize d) in
  if DICT_HT_INITIAL_SIZE <? size then
    do p <- ll (used * 100);
    ret (Z.quot p size <? HASHTABLE_MIN_FILL)
  else ret false.

(** *** Instantaneous metrics *)

Definition STATS_METRIC_SAMPLES : Z := 16.
Definition STATS_METRIC_COUNT : Z := 3.

Record inst_metric : Type := {
  last_sample_time : Z;      (* long long *)
  last_sample_count : Z;     (* long long *)
  samples : list Z;          (* long long [STATS_METRIC_SAMPLES] *)
  idx : Z                    (* int *)
}.

(** [g_pserver->inst_metric[metric]] *)
Definition metric_at (metric : Z) : M (list inst_metric) inst_metric :=
  fun st =>
    if metric <? 0 then Undefined "index outside inst_metric"
    else match st !! Z.to_nat metric with
         | Some m => Done (m, st)
         | None => Undefined "index outside inst_metric"
         end.

Definition metric_set (metric : Z) (m : inst_metric) : M (list inst_metric) unit :=
  modify (fun st => <[Z.to_nat metric := m]> st).

(** [trackInstantaneousMetric]; [now] is what [mstime()] returns. *)
Definition trackInstantaneousMetric (metric : Z) (now : Z) (current_reading : Z)
  : M (list inst_metric) unit :=
  do m <- metric_at metric;
  do t <- ll (now - last_sample_time m);
  do ops <- ll (current_reading - last_sample_count m);
  do ops_sec <- (if 0 <? t then (do p <- ll (ops * 1000); ret (Z.quot p t))
                 else ret 0);
  if (idx m <? 0) || (STATS_METRIC_SAMPLES <=? idx m)
  then undefined "write outside samples"
  else
    metric_set metric
      {| last_sample_time := now;
         last_sample_count := current_reading;
         samples := <[Z.to_nat (idx m) := ops_sec]> (samples m);
         idx := Z.rem (idx m + 1) STATS_METRIC_SAMPLES |}.

(** The [for] loop of [getInstantaneousMetric]. *)
Fixpoint sum_samples (n : nat) (j : Z) (sum : Z) (m : inst_metric)
  : M (list inst_metric) Z :=
  match n with
  | O => ret sum
  | S k =>
      match samples m !! Z.to_nat j with
      | Some x => do sum <- ll (sum + x); sum_samples k (j + 1) sum m
      | None => undefined "read outside samples"
      end
  end.

Definition getInstantaneousMetric (metric : Z) : M (list inst_metric) Z :=
  do m <- metric_at metric;
  do sum <- sum_samples (Z.to_nat STATS_METRIC_SAMPLES) 0 0 m;
  ret (Z.quot sum STATS_METRIC_SAMPLES).

(** Readings taken one after the other: time and counter. *)
Fixpoint track_all (metric : Z) (readings : list (Z * Z))
  : M (list inst_metric) unit :=
  match readings with
  | [] => ret tt
  | (now, reading) :: rest =>
      exec trackInstantaneousMetric metric now reading;
      track_all metric rest
  end.

(** *** Peak memory of clients *)

Definition CLIENTS_PEAK_MEM_USAGE_SLOTS : Z := 8.

Record peaks : Type := {
  ClientsPeakMemInput : list Z;       (* size_t [CLIENTS_PEAK_MEM_USAGE_SLOTS] *)
  ClientsPeakMemOutput : list Z
}.

(** [clientsCronTrackExpansiveClients]; the two usages are computed by
    [sdsZmallocSize], [zmalloc_size] and
    [getClientOutputBufferMemoryUsage], which are not in these sources. *)
Definition clientsCronTrackExpansiveClients (in_usage out_usage : Z) (time_idx : Z)
  : M peaks Z :=
  do p <- get;
  if (time_idx <? 0) || (CLIENTS_PEAK_MEM_USAGE_SLOTS <=? time_idx)
  then undefined "index outside the peak arrays"
  else
    match ClientsPeakMemInput p !! Z.to_nat time_idx,
          ClientsPeakMemOutput p !! Z.to_nat time_idx with
    | Some i, Some o =>
        exec put {| ClientsPeakMemInput :=
                      if i <? in_usage
                      then <[Z.to_nat time_idx := in_usage]> (ClientsPeakMemInput p)
                      else ClientsPeakMemInput p;
                    ClientsPeakMemOutput :=
                      if o <? out_usage
                      then <[Z.to_nat time_idx := out_usage]> (ClientsPeakMemOutput p)
                      else ClientsPeakMemOutput p |};
        ret 0
    | _, _ => undefined "index outside the peak arrays"
    end.

(** The [for] loop of [getExpansiveClientsInfo]. *)
Fixpoint peak_loop (n : nat) (j : Z) (i o : Z) (p : peaks) : M peaks (Z * Z) :=
  match n with
  | O => ret (i, o)
  | S k =>
      match ClientsPeakMemInput p !! Z.to_nat j,
            ClientsPeakMemOutput p !! Z.to_nat j with
      | Some x, Some y =>
          peak_loop k (j + 1) (if i <? x then x else i) (if o <? y then y else o) p
      | _, _ => undefined "read outside the peak arrays"
      end
  end.

Definition getExpansiveClientsInfo : M peaks (Z * Z) :=
  do p <- get;
  peak_loop (Z.to_nat CLIENTS_PEAK_MEM_USAGE_SLOTS) 0 0 0 p.

(** *** Memory of clients by type *)

Definition CLIENT_TYPE_COUNT : Z := 4.

Record client : Type := {
  client_cron_last_memory_usage : Z;     (* uint64_t *)
  client_cron_last_memory_type : Z       (* int *)
}.

(** What the allocator and the network code report for a client. *)
Record usage : Type := {
  output_buffer : Z;     (* getClientOutputBufferMemoryUsage(c) *)
  querybuf : Z;          (* sdsZmallocSize(c->querybuf) *)
  self : Z;              (* zmalloc_size(c) *)
  argv_len_sum : Z;      (* c->argv_len_sum() *)
  argv : option Z        (* zmalloc_size(c->argv), when c->argv is not null *)
}.

(** [clientsCronTrackClientsMemUsage] on the counters
    [g_pserver->stat_clients_type_memory]; [type] is [getClientType(c)].
    The client after the call is returned with the result. *)
Definition clientsCronTrackClientsMemUsage (c : client) (type : Z) (u : usage)
  : M (list Z) (Z * client) :=
  let mem := 0 in
  let mem := u64 (mem + output_buffer u) in
  let mem := u64 (mem + querybuf u) in
  let mem := u64 (mem + self u) in
  let mem := u64 (mem + argv_len_sum u) in
  let mem := match argv u with Some a => u64 (mem + a) | None => mem end in
  let old := client_cron_last_memory_type c in
  do stat <- get;
  if (old <? 0) || (CLIENT_TYPE_COUNT <=? old) || (type <? 0)
     || (CLIENT_TYPE_COUNT <=? type)
  then undefined "index outside stat_clients_type_memory"
  else
    match stat !! Z.to_nat old with
    | None => undefined "index outside stat_clients_type_memory"
    | Some v =>
        let stat := <[Z.to_nat old := u64 (v - client_cron_last_memory_usage c)]> stat in
        match stat !! Z.to_nat type with
        | None => undefined "index outside stat_clients_type_memory"
        | Some v' =>
            exec put (<[Z.to_nat type := u64 (v' + mem)]> stat);
            ret (0, {| client_cron_last_memory_usage := mem;
                       client_cron_last_memory_type := type |})
        end
    end.

(** *** Facts *)

Lemma ll_ok {S} z (s : S) : LONG_MIN <= z <= LONG_MAX -> ll z s = Done (z, s).
Proof.
  intros H. unfold ll.
  destruct (Z.leb_spec LONG_MIN z); [|lia].
  destruct (Z.leb_spec z LONG_MAX); [|lia]. reflexivity.
Qed.

Lemma s64_id z : 0 <= z < 2 ^ 63 -> s64 z = z.
Proof.
  intros H. unfold s64. rewrite u64_small by lia.
  destruct (Z.ltb_spec z (2 ^ 63)); [reflexivity|lia].
Qed.

(** X16: for a table of fewer than 2^63 slots whose element count times
    100 fits a [long long], [htNeedsResize] answers yes exactly when the
    table has more than [DICT_HT_INITIAL_SIZE] (4) slots and fewer than
    one element per ten slots; it never fails, and a table of at most 4
    slots is never to be resized, whatever it holds. *)
Theorem X16_htNeedsResize_below_a_tenth d :
  0 <= ht_size d < 2 ^ 63 -> 0 <= ht_used d ->
  (ht_used d * 100 < 2 ^ 63 ->
     htNeedsResize d tt =
       Done ((4 <? ht_size d) && (ht_used d * 10 <? ht_size d), tt)) /\
  (ht_size d <= 4 -> htNeedsResize d tt = Done (false, tt)).
Proof.
  intros Hs Hu. unfold htNeedsResize, dictSlots, dictSize, DICT_HT_INITIAL_SIZE,
    HASHTABLE_MIN_FILL.
  rewrite (s64_id (ht_size d)) by exact Hs. split.
  - intros Hfit. rewrite (s64_id (ht_used d)) by lia.
    destruct (Z.ltb_spec 4 (ht_size d)) as [Hbig|Hsmall]; [|reflexivity].
    rewrite (bind_Done _ _ _ _ _ (ll_ok (ht_used d * 100) tt
               ltac:(unfold LONG_MIN, LONG_MAX; lia))).
    unfold ret. cbn [andb]. f_equal. f_equal.
    rewrite Z.quot_div_nonneg by lia.
    destruct (Z.ltb_spec (ht_used d * 10) (ht_size d)) as [Hlt|Hge].
    + apply Z.ltb_lt. apply Z.div_lt_upper_bound; lia.
    + apply Z.ltb_ge. apply Z.div_le_lower_bound; lia.
  - intros Hsmall. destruct (Z.ltb_spec 4 (ht_size d)); [lia|reflexivity].
Qed.

Lemma X16_htNeedsResize_below_a_tenth_witness :
  htNeedsResize {| ht_size := 1024; ht_used := 102 |} tt = Done (true, tt) /\
  htNeedsResize {| ht_size := 1024; ht_used := 103 |} tt = Done (false, tt) /\
  htNeedsResize {| ht_size := 4; ht_used := 0 |} tt = Done (false, tt).
Proof.
  split; [|split].
  - exact (proj1 (X16_htNeedsResize_below_a_tenth
                    {| ht_size := 1024; ht_used := 102 |}
                    ltac:(cbn; lia) ltac:(cbn; lia)) ltac:(cbn; lia)).
  - exact (proj1 (X16_htNeedsResize_below_a_tenth
                    {| ht_size := 1024; ht_used := 103 |}
                    ltac:(cbn; lia) ltac:(cbn; lia)) ltac:(cbn; lia)).
  - exact (proj2 (X16_htNeedsResize_below_a_tenth
                    {| ht_size := 4; ht_used := 0 |}
                    ltac:(cbn; lia) ltac:(cbn; lia)) ltac:(cbn; lia)).
Defined.

(** The largest of the values and [a]. *)
Definition peak_from (a : Z) (l : list Z) : Z := fold_left Z.max l a.

Definition peak (l : list Z) : Z := peak_from 0 l.

Lemma ltb_max a b : (if a <? b then b else a) = Z.max a b.
Proof. destruct (Z.ltb_spec a b); lia. Qed.

Lemma peak_from_max l a b : peak_from (Z.max a b) l = Z.max (peak_from a l) b.
Proof.
  revert a. induction l as [|x l IH]; intros a; [reflexivity|].
  unfold peak_from in *. cbn [fold_left].
  replace (Z.max (Z.max a b) x) with (Z.max (Z.max a x) b) by lia. apply IH.
Qed.

Lemma peak_from_raise (l : list Z) (k : nat) v x a :
  l !! k = Some v ->
  peak_from a (<[k := Z.max v x]> l) = Z.max (peak_from a l) x.
Proof.
  revert k a. induction l as [|y l IH]; intros k a Hk; [discriminate|].
  destruct k as [|k]; cbn in Hk.
  - injection Hk as ->. unfold peak_from. cbn [list_insert insert fold_left].
    change (fold_left Z.max l ?b) with (peak_from b l).
    replace (Z.max a (Z.max v x)) with (Z.max (Z.max a v) x) by lia.
    apply peak_from_max.
  - unfold peak_from. cbn [fold_left]. apply (IH k (Z.max a y) Hk).
Qed.

Lemma raise_slot (l : list Z) (k : nat) v x :
  l !! k = Some v ->
  (if v <? x then <[k := x]> l else l) = <[k := Z.max v x]> l.
Proof.
  intros Hk. destruct (Z.ltb_spec v x).
  - now rewrite Z.max_r by lia.
  - rewrite Z.max_l by lia. symmetry. now apply list_insert_id.
Qed.

Lemma peak_loop_spec n ins outs pi po i o :
  length pi = length po -> (n <= length ins)%nat -> (n <= length outs)%nat ->
  peak_loop n (Z.of_nat (length pi)) i o
    {| ClientsPeakMemInput := pi ++ ins; ClientsPeakMemOutput := po ++ outs |}
    {| ClientsPeakMemInput := pi ++ ins; ClientsPeakMemOutput := po ++ outs |}
  = Done ((peak_from i (firstn n ins), peak_from o (firstn n outs)),
          {| ClientsPeakMemInput := pi ++ ins; ClientsPeakMemOutput := po ++ outs |}).
Proof.
  revert ins outs pi po i o.
  induction n as [|n IH]; intros ins outs pi po i o Hlen Hi Ho; [reflexivity|].
  destruct ins as [|x ins]; [cbn in Hi; lia|].
  destruct outs as [|y outs]; [cbn in Ho; lia|].
  cbn [peak_loop ClientsPeakMemInput ClientsPeakMemOutput].
  rewrite Nat2Z.id.
  rewrite (lookup_app_r pi) by lia. rewrite Nat.sub_diag.
  rewrite (lookup_app_r po) by lia.
  replace (length pi - length po)%nat with 0%nat by lia.
  cbn [lookup list_lookup]. rewrite !ltb_max.
  replace (Z.of_nat (length pi) + 1) with (Z.of_nat (length (pi ++ [x])))
    by (rewrite length_app; cbn; lia).
  pose proof (IH ins outs (pi ++ [x]) (po ++ [y]) (Z.max i x) (Z.max o y)) as H.
  rewrite <- !app_assoc in H. cbn [app] in H. rewrite H.
  - reflexivity.
  - rewrite !length_app. cbn. lia.
  - cbn in Hi. lia.
  - cbn in Ho. lia.
Qed.

Lemma getExpansiveClientsInfo_spec p :
  length (ClientsPeakMemInput p) = 8%nat ->
  length (ClientsPeakMemOutput p) = 8%nat ->
  getExpansiveClientsInfo p
  = Done ((peak (ClientsPeakMemInput p), peak (ClientsPeakMemOutput p)), p).
Proof.
  intros Hi Ho. unfold getExpansiveClientsInfo, bind, get.
  destruct p as [ins outs]. cbn [ClientsPeakMemInput ClientsPeakMemOutput] in *.
  pose proof (peak_loop_spec 8 ins outs [] [] 0 0 eq_refl ltac:(lia) ltac:(lia)) as H.
  cbn [app length] in H. change (Z.of_nat 0) with 0 in H.
  change (Z.to_nat CLIENTS_PEAK_MEM_USAGE_SLOTS) with 8%nat. rewrite H.
  rewrite !firstn_all2 by lia. reflexivity.
Qed.

(** X17: tracking a client in a slot of the two peak arrays makes the
    peaks [getExpansiveClientsInfo] reports the larger of the peak
    reported before and the client's usage, separately for input and
    output: a report never goes down by tracking, and it is at least the
    usage of every client tracked.  The function returns 0 and keeps the
    arrays at their eight slots. *)
Theorem X17_peak_usage_is_tracked p in_usage out_usage time_idx :
  length (ClientsPeakMemInput p) = 8%nat ->
  length (ClientsPeakMemOutput p) = 8%nat ->
  0 <= time_idx < CLIENTS_PEAK_MEM_USAGE_SLOTS ->
  exists p' i o,
    getExpansiveClientsInfo p = Done ((i, o), p) /\
    clientsCronTrackExpansiveClients in_usage out_usage time_idx p = Done (0, p') /\
    getExpansiveClientsInfo p' = Done ((Z.max i in_usage, Z.max o out_usage), p') /\
    length (ClientsPeakMemInput p') = 8%nat /\
    length (ClientsPeakMemOutput p') = 8%nat.
Proof.
  intros Hi Ho Hidx. unfold CLIENTS_PEAK_MEM_USAGE_SLOTS in Hidx.
  destruct (lookup_lt_is_Some_2 (ClientsPeakMemInput p) (Z.to_nat time_idx)
              ltac:(lia)) as [vi Hvi].
  destruct (lookup_lt_is_Some_2 (ClientsPeakMemOutput p) (Z.to_nat time_idx)
              ltac:(lia)) as [vo Hvo].
  eexists _, _, _. split; [now apply getExpansiveClientsInfo_spec|].
  unfold clientsCronTrackExpansiveClients, bind, get, put, ret,
    CLIENTS_PEAK_MEM_USAGE_SLOTS.
  destruct (Z.ltb_spec time_idx 0); [lia|].
  destruct (Z.leb_spec 8 time_idx); [lia|]. cbn [orb].
  rewrite Hvi, Hvo. rewrite (raise_slot _ _ _ _ Hvi), (raise_slot _ _ _ _ Hvo).
  split; [reflexivity|].
  split; [|cbn; rewrite !length_insert; tauto].
  rewrite getExpansiveClientsInfo_spec
    by (cbn [ClientsPeakMemInput ClientsPeakMemOutput]; now rewrite length_insert).
  cbn [ClientsPeakMemInput ClientsPeakMemOutput]. unfold peak.
  now rewrite (peak_from_raise _ _ _ _ _ Hvi), (peak_from_raise _ _ _ _ _ Hvo).
Qed.

Definition no_peaks : peaks :=
  {| ClientsPeakMemInput := repeat 0 8; ClientsPeakMemOutput := repeat 0 8 |}.

Lemma X17_peak_usage_is_tracked_witness :
  exists p', clientsCronTrackExpansiveClients 4096 512 3 no_peaks = Done (0, p') /\
    getExpansiveClientsInfo p' = Done ((4096, 512), p').
Proof.
  destruct (X17_peak_usage_is_tracked no_peaks 4096 512 3 eq_refl eq_refl
              ltac:(unfold CLIENTS_PEAK_MEM_USAGE_SLOTS; lia))
    as (p' & i & o & H0 & H1 & H2 & _).
  vm_compute in H0. injection H0 as <- <-.
  exists p'. split; assumption.
Defined.

(** The memory the counters should show for type [t]: the usages last
    recorded for the clients last seen with that type. *)
Fixpoint total (t : Z) (cs : list client) : Z :=
  match cs with
  | [] => 0
  | c :: rest =>
      (if client_cron_last_memory_type c =? t
       then client_cron_last_memory_usage c else 0) + total t rest
  end.

Definition accounted (stat : list Z) (cs : list client) : Prop :=
  length stat = 4%nat /\
  forall t, 0 <= t < CLIENT_TYPE_COUNT ->
    stat !! Z.to_nat t = Some (u64 (total t cs)).

(** [mem] of [clientsCronTrackClientsMemUsage]. *)
Definition mem_of (u : usage) : Z :=
  u64 (output_buffer u + querybuf u + self u + argv_len_sum u
       + match argv u with Some a => a | None => 0 end).

Lemma total_app t cs1 cs2 : total t (cs1 ++ cs2) = total t cs1 + total t cs2.
Proof. induction cs1 as [|c cs1 IH]; cbn [app total]; lia. Qed.

Lemma u64_add_l a b : u64 (u64 a + b) = u64 (a + b).
Proof. unfold u64, wrap. apply Zplus_mod_idemp_l. Qed.

Lemma u64_add_r a b : u64 (a + u64 b) = u64 (a + b).
Proof. unfold u64, wrap. apply Zplus_mod_idemp_r. Qed.

Lemma u64_sub_l a b : u64 (u64 a - b) = u64 (a - b).
Proof. unfold u64, wrap. apply Zminus_mod_idemp_l. Qed.

Lemma mem_of_spec u :
  (let mem := 0 in
   let mem := u64 (mem + output_buffer u) in
   let mem := u64 (mem + querybuf u) in
   let mem := u64 (mem + self u) in
   let mem := u64 (mem + argv_len_sum u) in
   match argv u with Some a => u64 (mem + a) | None => mem end) = mem_of u.
Proof.
  cbv zeta. unfold mem_of. rewrite Z.add_0_l.
  destruct (argv u); repeat (rewrite u64_add_l || rewrite <- Z.add_assoc);
    f_equal; lia.
Qed.

(** X18: [clientsCronTrackClientsMemUsage] keeps the per-type counters
    equal, modulo 2^64, to the sum of the usages last recorded for the
    clients last seen with each type: the client's previous usage leaves
    the counter of its previous type and its present usage enters the
    counter of its present type, and both are remembered in the client.
    The function returns 0. *)
Theorem X18_client_memory_accounting stat before c after type u :
  accounted stat (before ++ c :: after) ->
  0 <= client_cron_last_memory_type c < CLIENT_TYPE_COUNT ->
  0 <= type < CLIENT_TYPE_COUNT ->
  exists stat',
    clientsCronTrackClientsMemUsage c type u stat =
      Done ((0, {| client_cron_last_memory_usage := mem_of u;
                   client_cron_last_memory_type := type |}), stat') /\
    accounted stat'
      (before ++ {| client_cron_last_memory_usage := mem_of u;
                    client_cron_last_memory_type := type |} :: after).
Proof.
  intros (Hlen & Hacc) Hold Htype. unfold CLIENT_TYPE_COUNT in *.
  set (old := client_cron_last_memory_type c) in *.
  unfold clientsCronTrackClientsMemUsage. rewrite mem_of_spec.
  fold old. unfold bind, get, put, ret, CLIENT_TYPE_COUNT.
  destruct (Z.ltb_spec old 0); [lia|]. destruct (Z.leb_spec 4 old); [lia|].
  destruct (Z.ltb_spec type 0); [lia|]. destruct (Z.leb_spec 4 type); [lia|].
  cbn [orb]. rewrite (Hacc old) by lia.
  set (stat1 := <[Z.to_nat old := _]> stat).
  assert (Hlen1 : length stat1 = 4%nat) by (unfold stat1; now rewrite length_insert).
  destruct (lookup_lt_is_Some_2 stat1 (Z.to_nat type) ltac:(lia)) as [v' Hv'].
  rewrite Hv'. eexists. split; [reflexivity|].
  split; [now rewrite length_insert|].
  assert (Hsplit : forall t c0, total t (before ++ c0 :: after) =
            total t before
            + (if client_cron_last_memory_type c0 =? t
               then client_cron_last_memory_usage c0 else 0)
            + total t after)
    by (intros t c0; rewrite total_app; cbn [total]; lia).
  intros t Ht.
  rewrite Hsplit. cbn [client_cron_last_memory_type client_cron_last_memory_usage].
  assert (Hst1 : forall t0, 0 <= t0 < 4 ->
            stat1 !! Z.to_nat t0 = Some (u64 (total t0 before + total t0 after))).
  { intros t0 Ht0. unfold stat1.
    destruct (Z.eqb_spec old t0) as [<-|Hne].
    - rewrite list_lookup_insert_eq by lia. f_equal. rewrite u64_sub_l.
      rewrite Hsplit. fold old. rewrite Z.eqb_refl. f_equal. lia.
    - rewrite list_lookup_insert_ne by lia. rewrite (Hacc t0) by lia.
      rewrite Hsplit. fold old.
      destruct (Z.eqb_spec old t0); [contradiction|]. f_equal. f_equal. lia. }
  destruct (Z.eqb_spec type t) as [->|Hne].
  - rewrite list_lookup_insert_eq by lia. f_equal.
    rewrite (Hst1 t Ht) in Hv'. injection Hv' as <-.
    rewrite u64_add_l. f_equal. lia.
  - rewrite list_lookup_insert_ne by lia. rewrite (Hst1 t Ht).
    f_equal. f_equal. lia.
Qed.

Definition one_client : client :=
  {| client_cron_last_memory_usage := 100; client_cron_last_memory_type := 0 |}.

Definition one_usage : usage :=
  {| output_buffer := 10; querybuf := 20; self := 25; argv_len_sum := 5;
     argv := None |}.

Lemma X18_client_memory_accounting_witness :
  exists stat',
    clientsCronTrackClientsMemUsage one_client 2 one_usage [100; 0; 0; 0] =
      Done ((0, {| client_cron_last_memory_usage := 60;
                   client_cron_last_memory_type := 2 |}), stat') /\
    accounted stat' [{| client_cron_last_memory_usage := 60;
                        client_cron_last_memory_type := 2 |}].
Proof.
  apply (X18_client_memory_accounting [100; 0; 0; 0] [] one_client [] 2 one_usage).
  - split; [reflexivity|]. intros t Ht. unfold CLIENT_TYPE_COUNT in Ht.
    assert (Hcases : t = 0 \/ t = 1 \/ t = 2 \/ t = 3) by lia.
    destruct Hcases as [->|[->|[->| ->]]]; reflexivity.
  - cbn. unfold CLIENT_TYPE_COUNT. lia.
  - unfold CLIENT_TYPE_COUNT. lia.
Defined.

(** The rates a run of readings records, starting from the time and the
    counter of the sample before. *)
Fixpoint rates (t0 c0 : Z) (readings : list (Z * Z)) : list Z :=
  match readings with
  | [] => []
  | (now, reading) :: rest =>
      (if 0 <? now - t0 then Z.quot ((reading - c0) * 1000) (now - t0) else 0)
        :: rates now reading rest
  end.

Definition sum_of (l : list Z) : Z := fold_right Z.add 0 l.

(** Times below 2^62 ms and counters below 2^48: no step overflows. *)
Definition moderate (x : Z * Z) : Prop :=
  0 <= fst x < 2 ^ 62 /\ 0 <= snd x < 2 ^ 48.

Definition small (r : Z) : Prop := - 2 ^ 58 <= r <= 2 ^ 58.

Lemma rate_small t0 c0 now reading :
  moderate (t0, c0) -> moderate (now, reading) ->
  small (if 0 <? now - t0 then Z.quot ((reading - c0) * 1000) (now - t0) else 0).
Proof.
  unfold moderate, small. cbn [fst snd]. intros H0 H1.
  destruct (Z.ltb_spec 0 (now - t0)) as [Hpos|Hneg]; [|lia].
  assert (Habs : Z.abs (Z.quot ((reading - c0) * 1000) (now - t0))
                 <= Z.abs ((reading - c0) * 1000)).
  { rewrite <- Z.quot_abs by lia. rewrite (Z.abs_eq (now - t0)) by lia.
    apply Z.quot_le_upper_bound; [lia|]. nia. }
  lia.
Qed.

(** One sample stored. *)
Definition stored (m : inst_metric) (now reading : Z) : inst_metric :=
  {| last_sample_time := now;
     last_sample_count := reading;
     samples := <[Z.to_nat (idx m) :=
                   hd 0 (rates (last_sample_time m) (last_sample_count m)
                           [(now, reading)])]> (samples m);
     idx := Z.rem (idx m + 1) STATS_METRIC_SAMPLES |}.

Lemma metric_at_live st metric m :
  0 <= metric -> st !! Z.to_nat metric = Some m ->
  metric_at metric st = Done (m, st).
Proof.
  intros H0 Hm. unfold metric_at. destruct (Z.ltb_spec metric 0); [lia|].
  now rewrite Hm.
Qed.

Lemma track_step st metric m now reading :
  0 <= metric -> st !! Z.to_nat metric = Some m ->
  0 <= idx m < STATS_METRIC_SAMPLES ->
  moderate (last_sample_time m, last_sample_count m) -> moderate (now, reading) ->
  trackInstantaneousMetric metric now reading st =
    Done (tt, <[Z.to_nat metric := stored m now reading]> st).
Proof.
  intros H0 Hm Hidx Hold Hnew. unfold trackInstantaneousMetric.
  rewrite (bind_Done _ _ _ _ _ (metric_at_live st metric m H0 Hm)).
  unfold moderate in *. cbn [fst snd] in *. unfold STATS_METRIC_SAMPLES in *.
  rewrite (bind_Done _ _ _ _ _ (ll_ok (now - last_sample_time m) st
             ltac:(unfold LONG_MIN, LONG_MAX; lia))).
  rewrite (bind_Done _ _ _ _ _ (ll_ok (reading - last_sample_count m) st
             ltac:(unfold LONG_MIN, LONG_MAX; lia))).
  assert (Hrate :
    (if 0 <? now - last_sample_time m
     then (do p <- ll ((reading - last_sample_count m) * 1000);
           ret (Z.quot p (now - last_sample_time m)))
     else ret 0) st
    = Done (hd 0 (rates (last_sample_time m) (last_sample_count m)
                    [(now, reading)]), st)).
  { cbn [rates hd]. destruct (0 <? now - last_sample_time m); [|reflexivity].
    rewrite (bind_Done _ _ _ _ _ (ll_ok ((reading - last_sample_count m) * 1000) st
               ltac:(unfold LONG_MIN, LONG_MAX; lia))).
    reflexivity. }
  rewrite (bind_Done _ _ _ _ _ Hrate).
  destruct (Z.ltb_spec (idx m) 0); [lia|].
  destruct (Z.leb_spec 16 (idx m)); [lia|]. reflexivity.
Qed.

(** The samples and the index after a run of rates. *)
Definition push (p : list Z * Z) (r : Z) : list Z * Z :=
  (<[Z.to_nat (snd p) := r]> (fst p), Z.rem (snd p + 1) STATS_METRIC_SAMPLES).

Lemma push_sixteen (old rs : list Z) (i : Z) :
  length old = 16%nat -> length rs = 16%nat -> 0 <= i < 16 ->
  fold_left push rs (old, i) =
    (skipn (16 - Z.to_nat i) rs ++ firstn (16 - Z.to_nat i) rs, i).
Proof.
  intros Ho Hr Hi.
  do 17 (destruct old as [|? old]; [try discriminate Ho|]); [|discriminate Ho].
  do 17 (destruct rs as [|? rs]; [try discriminate Hr|]); [|discriminate Hr].
  assert (Hcases : i = 0 \/ i = 1 \/ i = 2 \/ i = 3 \/ i = 4 \/ i = 5 \/ i = 6
                   \/ i = 7 \/ i = 8 \/ i = 9 \/ i = 10 \/ i = 11 \/ i = 12
                   \/ i = 13 \/ i = 14 \/ i = 15) by lia.
  repeat (destruct Hcases as [->|Hcases]; [reflexivity|]). subst i. reflexivity.
Qed.

(** The metric after a run of readings. *)
Fixpoint stored_all (m : inst_metric) (readings : list (Z * Z)) : inst_metric :=
  match readings with
  | [] => m
  | (now, reading) :: rest => stored_all (stored m now reading) rest
  end.

Lemma stored_all_samples m readings :
  (samples (stored_all m readings), idx (stored_all m readings)) =
  fold_left push (rates (last_sample_time m) (last_sample_count m) readings)
    (samples m, idx m).
Proof.
  revert m. induction readings as [|[now reading] rest IH]; intros m;
    [reflexivity|].
  cbn [stored_all rates fold_left]. rewrite IH. reflexivity.
Qed.

Lemma track_all_spec readings st metric m :
  0 <= metric -> st !! Z.to_nat metric = Some m ->
  0 <= idx m < STATS_METRIC_SAMPLES ->
  moderate (last_sample_time m, last_sample_count m) ->
  Forall moderate readings ->
  track_all metric readings st =
    Done (tt, <[Z.to_nat metric := stored_all m readings]> st).
Proof.
  intros H0. revert st m.
  induction readings as [|[now reading] rest IH]; intros st m Hm Hidx Hold Hall.
  - cbn [track_all stored_all]. unfold ret. now rewrite list_insert_id.
  - cbn [track_all stored_all]. inversion Hall as [|x l Hx Hrest]; subst.
    rewrite (bind_Done _ _ _ _ _ (track_step st metric m now reading H0 Hm Hidx Hold Hx)).
    rewrite (IH _ (stored m now reading)).
    + now rewrite list_insert_insert_eq.
    + apply list_lookup_insert_eq. now apply lookup_lt_Some in Hm.
    + cbn [idx stored]. unfold STATS_METRIC_SAMPLES in *.
      pose proof (Z.rem_bound_pos (idx m + 1) 16 ltac:(lia) ltac:(lia)). lia.
    + exact Hx.
    + exact Hrest.
Qed.

Lemma rates_small readings t0 c0 :
  moderate (t0, c0) -> Forall moderate readings ->
  Forall small (rates t0 c0 readings).
Proof.
  revert t0 c0. induction readings as [|[now reading] rest IH]; intros t0 c0 H0 Hall;
    [constructor|].
  inversion Hall as [|x l Hx Hrest]; subst. cbn [rates]. constructor.
  - now apply rate_small.
  - now apply IH.
Qed.

Lemma length_rates readings t0 c0 : length (rates t0 c0 readings) = length readings.
Proof.
  revert t0 c0. induction readings as [|[now reading] rest IH]; intros t0 c0;
    [reflexivity|]. cbn [rates length]. now rewrite IH.
Qed.

Lemma sum_of_app l1 l2 : sum_of (l1 ++ l2) = sum_of l1 + sum_of l2.
Proof. unfold sum_of. induction l1 as [|x l1 IH]; cbn [app fold_right]; lia. Qed.

Lemma sum_samples_spec rest pre acc m st :
  samples m = pre ++ rest -> Forall small rest ->
  (length rest <= 16)%nat ->
  Z.abs acc <= (16 - Z.of_nat (length rest)) * 2 ^ 58 ->
  sum_samples (length rest) (Z.of_nat (length pre)) acc m st =
    Done (acc + sum_of rest, st).
Proof.
  revert pre acc. induction rest as [|x rest IH]; intros pre acc Hs Hall Hlen Hacc.
  - cbn. unfold ret, sum_of. cbn. f_equal. f_equal. lia.
  - inversion Hall as [|y l Hx Hrest]; subst.
    cbn [length sum_samples]. rewrite Nat2Z.id, Hs.
    rewrite lookup_app_r by lia. rewrite Nat.sub_diag. cbn [lookup list_lookup].
    cbn [length] in Hacc, Hlen. unfold small in Hx.
    rewrite (bind_Done _ _ _ _ _ (ll_ok (acc + x) st
               ltac:(unfold LONG_MIN, LONG_MAX; lia))).
    replace (Z.of_nat (length pre) + 1) with (Z.of_nat (length (pre ++ [x])))
      by (rewrite length_app; cbn; lia).
    rewrite (IH (pre ++ [x]) (acc + x)).
    + unfold sum_of. cbn [fold_right]. f_equal. f_equal. lia.
    + now rewrite <- app_assoc.
    + exact Hrest.
    + lia.
    + lia.
Qed.

(** X19: sixteen readings taken one after the other fill the sixteen
    slots of a metric, each slot once, the oldest of them at the index,
    which is back where it was; [getInstantaneousMetric] then returns
    the sum of these sixteen rates divided by 16, rounded towards zero,
    and nothing recorded earlier counts any more.  A reading taken at the
    time of the one before, or earlier, counts as rate 0.  Other metrics
    are untouched. *)
Theorem X19_metric_is_mean_of_last_sixteen st metric m readings :
  0 <= metric -> st !! Z.to_nat metric = Some m ->
  length (samples m) = 16%nat -> 0 <= idx m < STATS_METRIC_SAMPLES ->
  moderate (last_sample_time m, last_sample_count m) ->
  Forall moderate readings -> length readings = 16%nat ->
  let rs := rates (last_sample_time m) (last_sample_count m) readings in
  exists st' m',
    track_all metric readings st = Done (tt, st') /\
    st' !! Z.to_nat metric = Some m' /\
    samples m' = skipn (16 - Z.to_nat (idx m)) rs ++ firstn (16 - Z.to_nat (idx m)) rs /\
    idx m' = idx m /\
    getInstantaneousMetric metric st' = Done (Z.quot (sum_of rs) 16, st') /\
    (forall k, k <> Z.to_nat metric -> st' !! k = st !! k).
Proof.
  intros H0 Hm Hlen Hidx Hold Hall Hn rs.
  pose proof (track_all_spec readings st metric m H0 Hm Hidx Hold Hall) as Hrun.
  pose proof (stored_all_samples m readings) as Hsam. fold rs in Hsam.
  assert (Hrs : length rs = 16%nat) by (unfold rs; now rewrite length_rates).
  unfold STATS_METRIC_SAMPLES in Hidx.
  rewrite (push_sixteen (samples m) rs (idx m) Hlen Hrs Hidx) in Hsam.
  injection Hsam as Hsamples Hindex.
  assert (Hlive : <[Z.to_nat metric := stored_all m readings]> st !! Z.to_nat metric
                  = Some (stored_all m readings))
    by (apply list_lookup_insert_eq; now apply lookup_lt_Some in Hm).
  exists (<[Z.to_nat metric := stored_all m readings]> st), (stored_all m readings).
  split; [exact Hrun|]. split; [exact Hlive|]. split; [exact Hsamples|].
  split; [exact Hindex|]. split.
  - unfold getInstantaneousMetric.
    rewrite (bind_Done _ _ _ _ _ (metric_at_live _ metric _ H0 Hlive)).
    assert (Hsmall : Forall small rs) by (now apply rates_small).
    assert (Hsmall' : Forall small (samples (stored_all m readings))).
    { rewrite Hsamples. apply Forall_app. split.
      - rewrite <- (firstn_skipn (16 - Z.to_nat (idx m)) rs) in Hsmall.
        now apply Forall_app in Hsmall.
      - rewrite <- (firstn_skipn (16 - Z.to_nat (idx m)) rs) in Hsmall.
        now apply Forall_app in Hsmall. }
    assert (Hlen' : length (samples (stored_all m readings)) = 16%nat).
    { rewrite Hsamples, length_app, length_skipn, length_firstn. lia. }
    pose proof (sum_samples_spec (samples (stored_all m readings)) [] 0
                  (stored_all m readings)
                  (<[Z.to_nat metric := stored_all m readings]> st)
                  eq_refl Hsmall' ltac:(lia)
                  ltac:(rewrite Hlen'; cbn; lia)) as Hsum.
    rewrite Hlen' in Hsum. cbn [length Z.of_nat] in Hsum.
    change (Z.to_nat STATS_METRIC_SAMPLES) with 16%nat.
    rewrite (bind_Done _ _ _ _ _ Hsum). unfold ret. f_equal. f_equal.
    unfold STATS_METRIC_SAMPLES. f_equal.
    rewrite Hsamples, sum_of_app, Z.add_0_l.
    rewrite <- (firstn_skipn (16 - Z.to_nat (idx m)) rs) at 3.
    rewrite sum_of_app. lia.
  - intros k Hk. now apply list_lookup_insert_ne.
Qed.

(** A metric whose slots all hold 7, and sixteen readings 100 ms apart
    with 50 more operations each. *)
Definition stale : inst_metric :=
  {| last_sample_time := 1000; last_sample_count := 0;
     samples := repeat 7 16; idx := 5 |}.

Definition steady : list (Z * Z) :=
  map (fun k => (1000 + 100 * Z.of_nat k, 50 * Z.of_nat k)) (seq 1 16).

Lemma X19_metric_is_mean_of_last_sixteen_witness :
  exists st',
    track_all 1 steady [stale; stale; stale] = Done (tt, st') /\
    getInstantaneousMetric 1 st' = Done (500, st') /\
    st' !! 0%nat = Some stale.
Proof.
  destruct (X19_metric_is_mean_of_last_sixteen [stale; stale; stale] 1 stale steady
              ltac:(lia) eq_refl eq_refl
              ltac:(unfold STATS_METRIC_SAMPLES; cbn; lia)
              ltac:(unfold moderate; cbn; lia)
              ltac:(unfold steady; cbn [map seq]; repeat constructor; cbn; lia)
              eq_refl)
    as (st' & m' & Hrun & _ & _ & _ & Hget & Hother).
  exists st'. split; [exact Hrun|]. split; [exact Hget|].
  now rewrite (Hother 0%nat ltac:(discriminate)).
Defined.

End Stats.

(** ** Opening a store again ([rocksdbfactory.cpp]) *)

Module FlashOpen.

Import Flash.

Lemma append_cons c s t : (String c s ++ t)%string = String c (s ++ t).
Proof. reflexivity. Qed.

Lemma c_str_terminated s : c_str (s ++ String zero EmptyString) = c_str s.
Proof.
  induction s as [|c s IH]; [reflexivity|].
  rewrite append_cons. cbn [c_str].
  destruct (Ascii.eqb c zero); [reflexivity|]. now rewrite IH.
Qed.

Lemma compare_members_same a b c :
  compare_members [(a, a); (b, b); (c, c)] = EqualVersion.
Proof. cbn [compare_members]. now rewrite !Z.ltb_irrefl. Qed.

Section Version.

(** [KEYDB_REAL_VERSION] is in [version.h] and [version_key] in
    [rocksdbfactor_internal.h]; neither file is part of these sources. *)
Variable KEYDB_REAL_VERSION : string.
Variable version_key : string.

Definition this_version : SymVer := parseVersion KEYDB_REAL_VERSION.
Definition stamp : string := version_value KEYDB_REAL_VERSION.

Lemma parseVersion_stamp : parseVersion stamp = this_version.
Proof.
  unfold stamp, this_version, parseVersion, version_value.
  now rewrite c_str_terminated.
Qed.

(** The running version is one [compareVersion] does not take for a
    store from before 6.3.4. *)
Definition reopens : Prop :=
  is_zero this_version = true \/
  ~ (major this_version <= 6 /\ minor this_version <= 3 /\ build this_version <= 3).

Lemma compareVersion_stamp :
  reopens -> compareVersion KEYDB_REAL_VERSION (parseVersion stamp) = EqualVersion.
Proof.
  intros Hre. rewrite parseVersion_stamp. unfold reopens in Hre.
  unfold this_version in *.
  destruct (is_zero (parseVersion KEYDB_REAL_VERSION)) eqn:Hz.
  - unfold compareVersion. now rewrite Hz.
  - destruct Hre as [Hre|Hre]; [congruence|].
    rewrite compareVersion_not_incompatible; [apply compare_members_same| |exact Hre].
    now rewrite Hz.
Qed.

Lemma check_stamped db handle :
  reopens -> stored_version version_key db handle = Some stamp -> check_version KEYDB_REAL_VERSION version_key handle db = Done (tt, db).
Proof.
  intros Hre Hst. rewrite (check_version_present _ _ _ _ _ Hst).
  now rewrite compareVersion_stamp.
Qed.

(** X20: the constructor's step on a column family without a version
    writes the stamp of the running version, and the same step on the
    stamped store, as when the store is opened again by the same
    version, succeeds and writes nothing, provided the running version
    is 0.0.0 or has a member above that of 6.3.3.  A running version
    that is not 0.0.0 and has no such member (as one that does not
    parse, which reads -1.-1.-1) cannot open the store it has stamped:
    the step fails as for a store from before 6.3.4. *)
Theorem X20_stamped_store_opens_again db handle :
  write_status db = None -> stored_version version_key db handle = None ->
  exists db',
    check_version KEYDB_REAL_VERSION version_key handle db = Done (tt, db') /\
    stored_version version_key db' handle = Some stamp /\
    (reopens -> check_version KEYDB_REAL_VERSION version_key handle db' = Done (tt, db')) /\
    (~ reopens ->
       check_version KEYDB_REAL_VERSION version_key handle db' = Throw "Cannot load FLASH database from before 6.3.4").
Proof.
  intros Hw Hnone.
  destruct (setVersion_ok KEYDB_REAL_VERSION version_key db handle Hw)
    as (db' & Hrun & Hst & _).
  exists db'. split; [now rewrite check_version_absent|].
  split; [exact Hst|]. split.
  - intros Hre. now apply check_stamped.
  - intros Hno. rewrite (check_version_present _ _ _ _ _ Hst).
    fold stamp. rewrite parseVersion_stamp. unfold reopens in Hno.
    unfold this_version in *.
    destruct (is_zero (parseVersion KEYDB_REAL_VERSION)) eqn:Hz;
      [exfalso; apply Hno; now left|].
    rewrite compareVersion_incompatible; [reflexivity| | | |].
    + now rewrite Hz.
    + destruct (Z.le_gt_cases (major (parseVersion KEYDB_REAL_VERSION)) 6);
        [assumption|]. exfalso. apply Hno. right. lia.
    + destruct (Z.le_gt_cases (minor (parseVersion KEYDB_REAL_VERSION)) 3);
        [assumption|]. exfalso. apply Hno. right. lia.
    + destruct (Z.le_gt_cases (build (parseVersion KEYDB_REAL_VERSION)) 3);
        [assumption|]. exfalso. apply Hno. right. lia.
Qed.

End Version.

Lemma X20_stamped_store_opens_again_witness :
  (exists db',
     check_version release_6_3_4 sample_version_key "0" (one_database ∅)
       = Done (tt, db') /\
     check_version release_6_3_4 sample_version_key "0" db' = Done (tt, db')) /\
  (exists db',
     check_version "unknown" sample_version_key "0" (one_database ∅)
       = Done (tt, db') /\
     check_version "unknown" sample_version_key "0" db'
       = Throw "Cannot load FLASH database from before 6.3.4").
Proof.
  assert (Hnone : stored_version sample_version_key (one_database ∅) "0" = None)
    by (rewrite one_database_stored; apply lookup_empty).
  split.
  - destruct (X20_stamped_store_opens_again release_6_3_4 sample_version_key
                (one_database ∅) "0" eq_refl Hnone) as (db' & H1 & _ & H2 & _).
    exists db'. split; [exact H1|]. apply H2. right. vm_compute.
    intros (_ & _ & H). now apply H.
  - destruct (X20_stamped_store_opens_again "unknown" sample_version_key
                (one_database ∅) "0" eq_refl Hnone) as (db' & H1 & _ & _ & H2).
    exists db'. split; [exact H1|]. apply H2. unfold reopens. vm_compute.
    intros [H|H]; [discriminate|]. apply H. repeat split; discriminate.
Defined.

(** *** The column families the constructor returns *)

Fixpoint all_digits (s : string) : bool :=
  match s with
  | EmptyString => true
  | String c rest =>
      ((48 <=? Z.of_N (N_of_ascii c)) && (Z.of_N (N_of_ascii c) <=? 57))
      && all_digits rest
  end.

Lemma all_digits_uint d : all_digits (NilEmpty.string_of_uint d) = true.
Proof. induction d; cbn; auto. Qed.

Lemma all_digits_to_string k : all_digits (to_string k) = true.
Proof.
  unfold to_string, NilZero.string_of_uint.
  destruct (Nat.to_uint k); try apply all_digits_uint. reflexivity.
Qed.

Lemma all_digits_substring s n m :
  all_digits s = true -> all_digits (substring n m s) = true.
Proof.
  revert n m. induction s as [|c s IH]; intros n m Hs.
  - destruct n, m; reflexivity.
  - cbn [all_digits] in Hs. apply andb_prop in Hs. destruct Hs as [Hc Hs].
    destruct n as [|n]; cbn [substring].
    + destruct m as [|m]; [reflexivity|]. cbn [all_digits].
      now rewrite Hc, (IH 0%nat m Hs).
    + now apply IH.
Qed.

Lemma is_expires_number k : is_expires (to_string k) = false.
Proof.
  unfold is_expires. destruct (7 <? String.length (to_string k))%nat; [|reflexivity].
  cbn [andb]. apply String.eqb_neq. intros Heq.
  pose proof (all_digits_substring (to_string k)
                (String.length (to_string k) - 7) 7 (all_digits_to_string k)) as H.
  rewrite Heq in H. discriminate H.
Qed.

Lemma length_append s t :
  String.length (s ++ t) = (String.length s + String.length t)%nat.
Proof.
  induction s as [|c s IH]; [reflexivity|].
  rewrite append_cons. cbn [String.length]. now rewrite IH.
Qed.

Lemma substring_append s t n m :
  substring (String.length s + n) m (s ++ t) = substring n m t.
Proof.
  induction s as [|c s IH]; [reflexivity|].
  rewrite append_cons. cbn [String.length Nat.add substring]. exact IH.
Qed.

Lemma is_expires_suffixed s : is_expires (s ++ "_expires") = true.
Proof.
  unfold is_expires. rewrite length_append. cbn [String.length].
  replace (String.length s + 8 - 7)%nat with (String.length s + 1)%nat by lia.
  rewrite substring_append.
  destruct (Nat.ltb_spec 7 (String.length s + 8)); [reflexivity|lia].
Qed.

Definition numbered (n : nat) : list string := map to_string (seq 0 n).

Definition numbered_expires (n : nat) : list string :=
  map (fun idb => (to_string idb ++ "_expires")%string) (seq 0 n).

Lemma descriptors_data n :
  List.filter (fun h => negb (is_expires h)) (descriptors n)
  = "default"%string :: numbered n.
Proof.
  unfold descriptors, numbered. cbn [List.filter]. change (is_expires "default") with false.
  cbn [negb]. f_equal.
  induction (seq 0 n) as [|k l IH]; [reflexivity|].
  cbn [flat_map app List.filter map].
  rewrite is_expires_number, is_expires_suffixed. cbn [negb]. now rewrite IH.
Qed.

Lemma descriptors_expires n :
  List.filter is_expires (descriptors n) = numbered_expires n.
Proof.
  unfold descriptors, numbered_expires. cbn [List.filter].
  change (is_expires "default") with false. cbv iota.
  induction (seq 0 n) as [|k l IH]; [reflexivity|].
  cbn [flat_map app List.filter map].
  rewrite is_expires_number, is_expires_suffixed. now rewrite IH.
Qed.

Section Columns.

Variable KEYDB_REAL_VERSION : string.
Variable version_key : string.

(** A store in which every column family is without a version or has the
    stamp of the running version, and that takes writes. *)
Definition settled (db : rocksdb) : Prop :=
  write_status db = None /\
  forall h, stored_version version_key db h = None \/
            stored_version version_key db h = Some (stamp KEYDB_REAL_VERSION).

Lemma setVersion_frame db handle :
  write_status db = None ->
  exists db',
    setVersion KEYDB_REAL_VERSION version_key handle db = Done (tt, db') /\
    write_status db' = None /\ open_status db' = open_status db /\
    stored_version version_key db' handle = Some (stamp KEYDB_REAL_VERSION) /\
    forall h, h <> handle ->
      stored_version version_key db' h = stored_version version_key db h.
Proof.
  intros Hw. unfold setVersion, Put, bind, get, put, ret. rewrite Hw.
  eexists. split; [reflexivity|]. split; [exact Hw|]. split; [reflexivity|].
  unfold stored_version, family. cbn [families set_families]. split.
  - rewrite lookup_insert_eq. cbn. apply lookup_insert_eq.
  - intros h Hne. now rewrite lookup_insert_ne by congruence.
Qed.

Lemma check_settled db handle :
  reopens KEYDB_REAL_VERSION -> settled db ->
  exists db',
    check_version KEYDB_REAL_VERSION version_key handle db = Done (tt, db') /\
    settled db' /\ open_status db' = open_status db /\
    stored_version version_key db' handle = Some (stamp KEYDB_REAL_VERSION) /\
    (forall h, stored_version version_key db h = Some (stamp KEYDB_REAL_VERSION) ->
       stored_version version_key db' h = Some (stamp KEYDB_REAL_VERSION)) /\
    (forall h, h <> handle ->
       stored_version version_key db' h = stored_version version_key db h).
Proof.
  intros Hre (Hw & Hall). destruct (Hall handle) as [Hnone|Hst].
  - destruct (setVersion_frame db handle Hw) as (db' & Hrun & Hw' & Ho & Hh & Hother).
    exists db'. rewrite check_version_absent by exact Hnone.
    split; [exact Hrun|].
    split; [|split; [exact Ho|split; [exact Hh|split; [|exact Hother]]]].
    + split; [exact Hw'|]. intros h.
      destruct (String.eqb_spec h handle) as [->|Hne]; [now right|].
      rewrite (Hother h Hne). apply Hall.
    + intros h Hh0. destruct (String.eqb_spec h handle) as [->|Hne]; [exact Hh|].
      now rewrite (Hother h Hne).
  - exists db.
    split; [now apply check_stamped|]. split; [now split|]. tauto.
Qed.

Lemma for_each_handle_settled hs : forall f db,
  reopens KEYDB_REAL_VERSION -> settled db ->
  exists db',
    for_each_handle KEYDB_REAL_VERSION version_key hs f db =
      Done ({| m_vecspcols :=
                 m_vecspcols f ++ List.filter (fun h => negb (is_expires h)) hs;
               m_vecspexpirecols :=
                 m_vecspexpirecols f ++ List.filter is_expires hs |}, db') /\
    settled db' /\ open_status db' = open_status db /\
    (forall h, In h hs -> is_expires h = false ->
       stored_version version_key db' h = Some (stamp KEYDB_REAL_VERSION)) /\
    (forall h, stored_version version_key db h = Some (stamp KEYDB_REAL_VERSION) ->
       stored_version version_key db' h = Some (stamp KEYDB_REAL_VERSION)) /\
    (forall h, is_expires h = true ->
       stored_version version_key db' h = stored_version version_key db h).
Proof.
  induction hs as [|handle rest IH]; intros f db Hre Hset.
  - exists db. cbn [for_each_handle List.filter]. rewrite !app_nil_r.
    destruct f. repeat split; try apply Hset; try tauto. intros h [].
  - cbn [for_each_handle List.filter]. destruct (is_expires handle) eqn:Hexp.
    + destruct (IH {| m_vecspcols := m_vecspcols f;
                      m_vecspexpirecols := m_vecspexpirecols f ++ [handle] |}
                   db Hre Hset) as (db' & Hrun & Hset' & Ho & Hdone & Hmono & Hfr).
      exists db'. rewrite Hrun. cbn [m_vecspcols m_vecspexpirecols negb].
      rewrite <- app_assoc. split; [reflexivity|]. split; [exact Hset'|].
      split; [exact Ho|]. split; [|split; [exact Hmono|exact Hfr]].
      intros h [<-|Hin] Hh; [congruence|]. now apply Hdone.
    + destruct (check_settled db handle Hre Hset)
        as (db1 & Hrun1 & Hset1 & Ho1 & Hh1 & Hmono1 & Hfr1).
      destruct (IH {| m_vecspcols := m_vecspcols f ++ [handle];
                      m_vecspexpirecols := m_vecspexpirecols f |}
                   db1 Hre Hset1) as (db' & Hrun & Hset' & Ho & Hdone & Hmono & Hfr).
      exists db'. rewrite (bind_Done _ _ _ _ _ Hrun1), Hrun.
      cbn [m_vecspcols m_vecspexpirecols negb].
      rewrite <- app_assoc. split; [reflexivity|]. split; [exact Hset'|].
      split; [congruence|]. split; [|split].
      * intros h [<-|Hin] Hh; [now apply Hmono|]. now apply Hdone.
      * intros h Hh. apply Hmono. now apply Hmono1.
      * intros h Hh. rewrite (Hfr h Hh). apply Hfr1. congruence.
Qed.

Lemma Open_settled names db :
  open_status db = None -> settled db ->
  exists db', Open names db = Done (tt, db') /\ settled db' /\
    forall h, stored_version version_key db' h = stored_version version_key db h.
Proof.
  intros Ho Hset. unfold Open, bind, get, put. rewrite Ho.
  eexists. split; [reflexivity|].
  assert (Hsame : forall h,
    stored_version version_key
      (set_families
         (fold_right (fun name f => match f !! name with
                                    | Some _ => f
                                    | None => <[name := ∅]> f
                                    end) (families db) names) db) h
    = stored_version version_key db h).
  { intros h. unfold stored_version, family. cbn [families set_families].
    induction names as [|name rest IH]; [reflexivity|]. cbn [fold_right].
    set (fams := fold_right _ (families db) rest) in *.
    destruct (fams !! name) eqn:E; [exact IH|].
    destruct (String.eqb_spec name h) as [->|Hne].
    - rewrite lookup_insert_eq. rewrite <- IH, E. reflexivity.
    - now rewrite lookup_insert_ne by congruence. }
  split; [|exact Hsame].
  destruct Hset as (Hw & Hall). split; [exact Hw|].
  intros h. rewrite Hsame. apply Hall.
Qed.

(** The number of numbered data column families the constructor asks
    for: one more than [dbnum], or half of the listed families when that
    is more. *)
Definition columns (db : rocksdb) (dbnum : Z) : nat :=
  let listed := Z.of_nat (size (families db)) in
  Z.to_nat (if negb (listed =? 0) && (dbnum + 1 <? Z.quot listed 2)
            then Z.quot listed 2 else dbnum + 1).

Lemma constructor_settled db dbnum :
  reopens KEYDB_REAL_VERSION -> open_status db = None -> settled db ->
  exists db',
    RocksDBStorageFactory KEYDB_REAL_VERSION version_key dbnum db =
      Done ({| m_vecspcols := "default"%string :: numbered (columns db dbnum);
               m_vecspexpirecols := numbered_expires (columns db dbnum) |}, db') /\
    settled db' /\
    (forall h, In h ("default"%string :: numbered (columns db dbnum)) ->
       stored_version version_key db' h = Some (stamp KEYDB_REAL_VERSION)) /\
    (forall h, is_expires h = true ->
       stored_version version_key db' h = stored_version version_key db h).
Proof.
  intros Hre Ho Hset. unfold RocksDBStorageFactory. unfold bind at 1. unfold get.
  fold (columns db dbnum).
  destruct (Open_settled (descriptors (columns db dbnum)) db Ho Hset)
    as (db1 & Hrun1 & Hset1 & Hsame1).
  rewrite (bind_Done _ _ _ _ _ Hrun1).
  destruct (for_each_handle_settled (descriptors (columns db dbnum))
              {| m_vecspcols := []; m_vecspexpirecols := [] |} db1 Hre Hset1)
    as (db' & Hrun & Hset' & _ & Hdone & _ & Hfr).
  exists db'. rewrite Hrun. cbn [m_vecspcols m_vecspexpirecols app].
  rewrite descriptors_data, descriptors_expires.
  split; [reflexivity|]. split; [exact Hset'|]. split.
  - intros h Hin. rewrite <- descriptors_data in Hin.
    apply filter_In in Hin. destruct Hin as [Hin Hneg].
    apply Hdone; [exact Hin|]. now destruct (is_expires h).
  - intros h Hh. rewrite (Hfr h Hh). apply Hsame1.
Qed.

(** X21: on a store that can be opened and written, in which every
    column family is without a version or carries the stamp of the
    running version, and for a running version that opens its own stamp,
    the constructor succeeds.  It returns the data handles in the order
    default, 0, 1, ... and the expire handles in the order 0_expires,
    1_expires, ...: one numbered pair more than [dbnum], or half of the
    families the store lists when that is more; "default" counts as a
    data family, so the data vector is one longer than the expire vector.
    Every data family then carries the stamp of the running version, and
    no version is written to a family whose name ends in "expires". *)
Theorem X21_constructor_orders_the_columns db dbnum :
  reopens KEYDB_REAL_VERSION -> open_status db = None -> settled db ->
  exists f db',
    RocksDBStorageFactory KEYDB_REAL_VERSION version_key dbnum db = Done (f, db') /\
    m_vecspcols f = "default"%string :: map to_string (seq 0 (columns db dbnum)) /\
    m_vecspexpirecols f =
      map (fun idb => (to_string idb ++ "_expires")%string)
          (seq 0 (columns db dbnum)) /\
    length (m_vecspcols f) = S (length (m_vecspexpirecols f)) /\
    (forall h, In h (m_vecspcols f) ->
       stored_version version_key db' h = Some (stamp KEYDB_REAL_VERSION)) /\
    (forall h, is_expires h = true ->
       stored_version version_key db' h = stored_version version_key db h).
Proof.
  intros Hre Ho Hset.
  destruct (constructor_settled db dbnum Hre Ho Hset)
    as (db' & Hrun & Hset' & Hst & Hfr).
  eexists _, db'. split; [exact Hrun|]. cbn [m_vecspcols m_vecspexpirecols].
  split; [reflexivity|]. split; [reflexivity|]. split.
  - unfold numbered, numbered_expires. cbn [length]. now rewrite !length_map.
  - split; [exact Hst|exact Hfr].
Qed.

(** The first lines of [create]: the database number is raised by one
    and the handles at that index of the two vectors go to the new
    storage provider; an index outside a vector has no meaning. *)
Definition create_handles (f : factory) (db : Z) : option (string * string) :=
  let db := db + 1 in
  if db <? 0 then None
  else match m_vecspcols f !! Z.to_nat db, m_vecspexpirecols f !! Z.to_nat db with
       | Some spcolfamily, Some spexpirecolfamily =>
           Some (spcolfamily, spexpirecolfamily)
       | _, _ => None
       end.

Lemma lookup_numbered n k :
  (k < n)%nat -> numbered n !! k = Some (to_string k).
Proof.
  intros Hk. unfold numbered. rewrite list_lookup_fmap.
  rewrite lookup_seq_lt by exact Hk. reflexivity.
Qed.

Lemma lookup_numbered_expires n k :
  (k < n)%nat ->
  numbered_expires n !! k = Some (to_string k ++ "_expires")%string.
Proof.
  intros Hk. unfold numbered_expires. rewrite list_lookup_fmap.
  rewrite lookup_seq_lt by exact Hk. reflexivity.
Qed.

(** X22: with the factory the constructor returns, [create] gives
    database [db] the data family named [db] together with the expire
    family named [db+1], and gives the metadata database (number -1) the
    family "default" together with "0_expires".  For a database number
    whose index reaches the end of the expire vector, as the number of
    the last numbered data family does, [create] reads past the end of
    that vector. *)
Theorem X22_create_pairs_the_columns db dbnum :
  reopens KEYDB_REAL_VERSION -> open_status db = None -> settled db ->
  exists f db',
    RocksDBStorageFactory KEYDB_REAL_VERSION version_key dbnum db = Done (f, db') /\
    (0 < columns db dbnum ->
       create_handles f (-1) = Some ("default", "0_expires")%string)%nat /\
    (forall k : nat, (k + 1 < columns db dbnum)%nat ->
       create_handles f (Z.of_nat k) =
         Some (to_string k, (to_string (k + 1) ++ "_expires")%string)) /\
    (forall k : Z, Z.of_nat (columns db dbnum) <= k + 1 ->
       create_handles f k = None).
Proof.
  intros Hre Ho Hset.
  destruct (constructor_settled db dbnum Hre Ho Hset) as (db' & Hrun & _).
  eexists _, db'. split; [exact Hrun|].
  unfold create_handles. cbn [m_vecspcols m_vecspexpirecols].
  split; [|split].
  - intros Hn. cbn. now rewrite lookup_numbered_expires.
  - intros k Hk. destruct (Z.ltb_spec (Z.of_nat k + 1) 0); [lia|].
    replace (Z.to_nat (Z.of_nat k + 1)) with (S k) by lia.
    cbn [lookup list_lookup]. change (list_lookup k (numbered ?n)) with (numbered n !! k).
    rewrite lookup_numbered by lia.
    rewrite lookup_numbered_expires by lia.
    now replace (k + 1)%nat with (S k) by lia.
  - intros k Hk. destruct (Z.ltb_spec (k + 1) 0); [reflexivity|].
    destruct (("default"%string :: numbered (columns db dbnum)) !! Z.to_nat (k + 1));
      [|reflexivity].
    rewrite (lookup_ge_None_2 (numbered_expires (columns db dbnum))); [reflexivity|].
    unfold numbered_expires. rewrite length_map, length_seq. lia.
Qed.

End Columns.


Lemma one_database_settled :
  settled release_6_3_4 sample_version_key (one_database ∅).
Proof.
  split; [reflexivity|]. intros h. left.
  unfold stored_version, family, one_database. cbn [families].
  destruct (String.eqb_spec h "default") as [->|H1]; [reflexivity|].
  rewrite lookup_insert_ne by congruence.
  destruct (String.eqb_spec h "0") as [->|H2]; [reflexivity|].
  rewrite lookup_insert_ne by congruence.
  destruct (String.eqb_spec h "0_expires") as [->|H3]; [reflexivity|].
  rewrite lookup_singleton_ne by congruence. reflexivity.
Qed.

Lemma release_6_3_4_reopens : reopens release_6_3_4.
Proof. right. vm_compute. intros (_ & _ & H). now apply H. Qed.

Lemma one_database_columns : columns (one_database ∅) 1 = 2%nat.
Proof. vm_compute. reflexivity. Qed.

Lemma X21_constructor_orders_the_columns_witness :
  exists f db',
    RocksDBStorageFactory release_6_3_4 sample_version_key 1 (one_database ∅)
      = Done (f, db') /\
    m_vecspcols f = ["default"; "0"; "1"]%string /\
    m_vecspexpirecols f = ["0_expires"; "1_expires"]%string /\
    stored_version sample_version_key db' "1" = Some (terminated "6.3.4") /\
    stored_version sample_version_key db' "1_expires" = None.
Proof.
  destruct (X21_constructor_orders_the_columns release_6_3_4 sample_version_key
              (one_database ∅) 1 release_6_3_4_reopens eq_refl one_database_settled)
    as (f & db' & Hrun & Hc & He & _ & Hst & Hfr).
  rewrite one_database_columns in Hc, He.
  exists f, db'. split; [exact Hrun|]. split; [exact Hc|]. split; [exact He|].
  split.
  - apply Hst. rewrite Hc. right. right. left. reflexivity.
  - rewrite (Hfr "1_expires"%string eq_refl).
    unfold stored_version, family, one_database. cbn [families].
    rewrite (lookup_insert_ne _ "default"%string) by discriminate.
    rewrite (lookup_insert_ne _ "0"%string) by discriminate.
    rewrite lookup_singleton_ne by discriminate. reflexivity.
Defined.

Lemma X22_create_pairs_the_columns_witness :
  exists f db',
    RocksDBStorageFactory release_6_3_4 sample_version_key 1 (one_database ∅)
      = Done (f, db') /\
    create_handles f (-1) = Some ("default", "0_expires")%string /\
    create_handles f 0 = Some ("0", "1_expires")%string /\
    create_handles f 1 = None.
Proof.
  destruct (X22_create_pairs_the_columns release_6_3_4 sample_version_key
              (one_database ∅) 1 release_6_3_4_reopens eq_refl one_database_settled)
    as (f & db' & Hrun & Hm & Hk & Hend).
  rewrite one_database_columns in Hm, Hk, Hend.
  exists f, db'. split; [exact Hrun|].
  split; [apply Hm; lia|].
  split; [apply (Hk 0%nat); lia|].
  apply Hend. lia.
Defined.

End FlashOpen.

(** ** Commands queued for propagation ([server.cpp]) *)

Module Propagate.

Import Obj.

(** [struct redisOp] and [struct redisOpArray] of [server.h].  [argv] is
    the address of an array of object pointers; [ops] is the block behind
    [oa->ops] with the elements written so far, [None] for a null
    pointer. *)
Record redisOp : Type := {
  argv : Z;        (* robj ** *)
  argc : Z;        (* int *)
  dbid : Z;
  target : Z;
  cmd : Z          (* struct redisCommand * *)
}.

Record redisOpArray : Type := {
  ops : option (list redisOp);
  numops : Z       (* int *)
}.

(** The process as these functions see it: the objects, the arrays of
    object pointers by address, [g_pserver->also_propagate] and
    [g_pserver->loading]. *)
Record server : Type := {
  objects : world;
  vectors : gmap Z (list Z);
  also_propagate : redisOpArray;
  loading : Z
}.

Definition set_objects (w : world) (s : server) : server :=
  {| objects := w; vectors := vectors s; also_propagate := also_propagate s;
     loading := loading s |}.
Definition set_vectors (f : gmap Z (list Z) -> gmap Z (list Z)) (s : server)
  : server :=
  {| objects := objects s; vectors := f (vectors s);
     also_propagate := also_propagate s; loading := loading s |}.
Definition set_also_propagate (oa : redisOpArray) (s : server) : server :=
  {| objects := objects s; vectors := vectors s; also_propagate := oa;
     loading := loading s |}.

(** The object code, run on the objects of the process. *)
Definition in_objects {A} (m : M world A) : M server A :=
  fun s =>
    match m (objects s) with
    | Done (a, w) => Done (a, set_objects w s)
    | Panic msg => Panic msg
    | Throw msg => Throw msg
    | Undefined what => Undefined what
    end.

(** [v[j]] *)
Definition vector_get (v : Z) (j : Z) : M server Z :=
  fun s =>
    match vectors s !! v with
    | Some l =>
        if j <? 0 then Undefined "read outside an array of pointers"
        else match l !! Z.to_nat j with
             | Some o => Done (o, s)
             | None => Undefined "read outside an array of pointers"
             end
    | None => Undefined "read through a pointer to no array"
    end.

(** [v[j] = o] *)
Definition vector_set (v : Z) (j : Z) (o : Z) : M server unit :=
  fun s =>
    match vectors s !! v with
    | Some l =>
        if (j <? 0) || (Z.of_nat (length l) <=? j)
        then Undefined "write outside an array of pointers"
        else Done (tt, set_vectors (insert v (<[Z.to_nat j := o]> l)) s)
    | None => Undefined "write through a pointer to no array"
    end.

(** [zfree] of an array of pointers. *)
Definition vector_free (v : Z) : M server unit :=
  fun s =>
    match vectors s !! v with
    | Some _ =>
        in_objects (emit (EvZfree v)) (set_vectors (delete v) s)
    | None => Undefined "zfree of a pointer to no block"
    end.

Definition INT_MAX : Z := 2 ^ 31 - 1.

Definition redisOpArrayInit : redisOpArray := {| ops := None; numops := 0 |}.

(** [redisOpArrayAppend]: the array after the call and the result. *)
Definition redisOpArrayAppend (oa : redisOpArray) (cmd dbid argv argc target : Z)
  : M server (Z * redisOpArray) :=
  let old := default [] (ops oa) in
  if (numops oa <? 0) || (Z.of_nat (length old) <? numops oa)
  then undefined "the element is not next to the ones written so far"
  else
    (* zrealloc keeps the first numops elements *)
    let block := firstn (Z.to_nat (numops oa)) old in
    let op := {| argv := argv; argc := argc; dbid := dbid; target := target;
                 cmd := cmd |} in
    if numops oa =? INT_MAX then undefined "signed integer overflow"
    else ret (numops oa + 1,
              {| ops := Some (block ++ [op]); numops := numops oa + 1 |}).

(** [for (j = 0; j < op->argc; j++) decrRefCount(op->argv[j])] *)
Fixpoint release_args (n : nat) (j : Z) (op : redisOp) : M server unit :=
  match n with
  | O => ret tt
  | S k =>
      do o <- vector_get (argv op) j;
      exec in_objects (decrRefCount o);
      release_args k (j + 1) op
  end.

(** The [while] of [redisOpArrayFree]. *)
Fixpoint free_ops (n : nat) (oa : redisOpArray) : M server redisOpArray :=
  match n with
  | O => ret oa
  | S k =>
      let oa := {| ops := ops oa; numops := numops oa - 1 |} in
      match default [] (ops oa) !! Z.to_nat (numops oa) with
      | None => undefined "read outside the array of operations"
      | Some op =>
          exec release_args (Z.to_nat (argc op)) 0 op;
          exec vector_free (argv op);
          free_ops k oa
      end
  end.

Definition redisOpArrayFree (oa : redisOpArray) : M server redisOpArray :=
  if numops oa <? 0 then undefined "read outside the array of operations"
  else
    do oa <- free_ops (Z.to_nat (numops oa)) oa;
    ret {| ops := None; numops := numops oa |}.

(** [for (j = 0; j < argc; j++)] of [alsoPropagate]. *)
Fixpoint retain_args (n : nat) (j : Z) (argvcopy argv : Z) : M server unit :=
  match n with
  | O => ret tt
  | S k =>
      do o <- vector_get argv j;
      exec vector_set argvcopy j o;
      exec in_objects (incrRefCount o);
      retain_args k (j + 1) argvcopy argv
  end.

(** What an element of a new array of pointers reads before it is
    written. *)
Definition junk_pointer (w : world) : Z := le_word (repeat (junk w) 8).

Definition alsoPropagate (cmd dbid argv argc target : Z) : M server unit :=
  do s <- get;
  if negb (loading s =? 0) then ret tt
  else
    do argvcopy <- in_objects (zmalloc (u64 (sizeof_void_ptr * argc)));
    exec modify (set_vectors
                   (insert argvcopy
                      (repeat (junk_pointer (objects s)) (Z.to_nat argc))));
    exec retain_args (Z.to_nat argc) 0 argvcopy argv;
    do s <- get;
    do r <- redisOpArrayAppend (also_propagate s) cmd dbid argvcopy argc target;
    modify (set_also_propagate (snd r)).

(** [redisOpArrayFree(&g_pserver->also_propagate)] *)
Definition free_also_propagate : M server unit :=
  do s <- get;
  do oa <- redisOpArrayFree (also_propagate s);
  modify (set_also_propagate oa).

(** *** References held by a list of arguments *)

(** How often [o] is among the pointers [l]. *)
Fixpoint times (l : list Z) (o : Z) : nat :=
  match l with
  | [] => 0
  | x :: rest => ((if Z.eqb x o then 1 else 0) + times rest o)%nat
  end.

(** The object with [k] references more; the shared marker stays. *)
Definition retained (k : nat) (obj : redisObject) : redisObject :=
  if getrefcount obj =? OBJ_SHARED_REFCOUNT then obj
  else set_refcount (refcount obj + Z.of_nat k) obj.

(** The objects [h], each with one reference more for each time it is
    among [l]. *)
Definition held (l : list Z) (h : gmap Z redisObject) : gmap Z redisObject :=
  map_imap (fun o obj => Some (retained (times l o) obj)) h.

(** An object that can take the references of [l]: live, and shared or
    counted from 1 with room below the stack marker. *)
Definition holdable (h : gmap Z redisObject) (l : list Z) (o : Z) : Prop :=
  exists obj, h !! o = Some obj /\ wf_obj obj /\
    (getrefcount obj = OBJ_SHARED_REFCOUNT \/
     (1 <= getrefcount obj /\
      getrefcount obj + Z.of_nat (times l o) < OBJ_STATIC_REFCOUNT)).

Lemma times_app l1 l2 o : times (l1 ++ l2) o = (times l1 o + times l2 o)%nat.
Proof. induction l1 as [|x l1 IH]; cbn [app times]; lia. Qed.

Lemma times_rev l o : times (rev l) o = times l o.
Proof.
  induction l as [|x l IH]; [reflexivity|].
  cbn [rev times]. rewrite times_app. cbn [times]. lia.
Qed.

Lemma held_lookup l h o :
  held l h !! o = option_map (retained (times l o)) (h !! o).
Proof. unfold held. rewrite map_lookup_imap. now destruct (h !! o). Qed.

Lemma held_ext l1 l2 h :
  (forall o, times l1 o = times l2 o) -> held l1 h = held l2 h.
Proof. intros H. apply map_eq. intros o. now rewrite !held_lookup, H. Qed.

Lemma retained_none obj : retained 0 obj = obj.
Proof.
  unfold retained. destruct (_ =? _); [reflexivity|].
  rewrite Z.add_0_r. now destruct obj.
Qed.

Lemma held_nil h : held [] h = h.
Proof.
  apply map_eq. intros o. rewrite held_lookup. cbn [times].
  destruct (h !! o); [cbn; now rewrite retained_none|reflexivity].
Qed.

Lemma retained_shared k obj :
  getrefcount obj = OBJ_SHARED_REFCOUNT -> retained k obj = obj.
Proof. intros H. unfold retained. now rewrite H, Z.eqb_refl. Qed.

Lemma retained_counted k obj :
  wf_obj obj -> 1 <= getrefcount obj ->
  getrefcount obj + Z.of_nat k < OBJ_STATIC_REFCOUNT ->
  retained k obj = set_refcount (refcount obj + Z.of_nat k) obj /\
  getrefcount (retained k obj) = getrefcount obj + Z.of_nat k /\
  wf_obj (retained k obj).
Proof.
  intros Hwf H1 Hk. unfold OBJ_STATIC_REFCOUNT, OBJ_SHARED_REFCOUNT in Hk.
  destruct (refcount_split obj Hwf) as (Hr & Hg).
  assert (Hne : (getrefcount obj =? OBJ_SHARED_REFCOUNT) = false)
    by (apply Z.eqb_neq; unfold OBJ_SHARED_REFCOUNT; lia).
  unfold retained. rewrite Hne. split; [reflexivity|]. split.
  - rewrite getrefcount_set_refcount. rewrite Hr.
    destruct (FExpires obj).
    + replace (getrefcount obj + 2 ^ 31 + Z.of_nat k)
        with (getrefcount obj + Z.of_nat k + 1 * 2 ^ 31) by lia.
      rewrite Z.mod_add by lia. apply Z.mod_small. lia.
    + rewrite Z.add_0_r. apply Z.mod_small. lia.
  - unfold wf_obj. cbn [refcount set_refcount]. rewrite Hr.
    destruct (FExpires obj); lia.
Qed.

Lemma set_heap_const h w :
  heap w = h -> set_heap (fun _ => h) w = w.
Proof. intros <-. now destruct w. Qed.

Lemma set_heap_insert_const o obj h w :
  set_heap (insert o obj) (set_heap (fun _ => h) w) = set_heap (fun _ => <[o := obj]> h) w.
Proof. reflexivity. Qed.

Lemma set_heap_const_twice h1 h2 w :
  set_heap (fun _ => h2) (set_heap (fun _ => h1) w) = set_heap (fun _ => h2) w.
Proof. reflexivity. Qed.

Lemma held_cons_other o l h x :
  x <> o -> held (o :: l) h !! x = held l h !! x.
Proof.
  intros Hne. rewrite !held_lookup. cbn [times].
  destruct (Z.eqb_spec o x); [congruence|]. reflexivity.
Qed.

(** One reference more. *)
Lemma incr_held w h l o :
  heap w = held l h -> holdable h (o :: l) o ->
  incrRefCount o w = Done (tt, set_heap (fun _ => held (o :: l) h) w).
Proof.
  intros Hw (obj & Ho & Hwf & Hc).
  assert (Hcur : heap w !! o = Some (retained (times l o) obj))
    by (rewrite Hw, held_lookup, Ho; reflexivity).
  cbn [times] in Hc. rewrite Z.eqb_refl in Hc.
  destruct Hc as [Hs|[H1 Hroom]].
  - rewrite (retained_shared _ _ Hs) in Hcur.
    rewrite (incrRefCount_shared w o obj Hcur Hs). f_equal. f_equal.
    symmetry. apply set_heap_const. rewrite Hw. apply map_eq. intros x.
    destruct (Z.eq_dec x o) as [->|Hne]; [|now rewrite held_cons_other].
    rewrite !held_lookup, Ho. cbn. now rewrite !retained_shared.
  - destruct (retained_counted (times l o) obj Hwf H1 ltac:(lia)) as (Hr & Hg & Hwf').
    destruct (retained_counted (S (times l o)) obj Hwf H1 ltac:(lia)) as (Hr' & _ & Hwf'').
    rewrite (incrRefCount_ordinary w o _ Hcur
               ltac:(unfold OBJ_FIRST_SPECIAL_REFCOUNT; lia)).
    f_equal. f_equal.
    rewrite <- (set_heap_const (held l h) w Hw) at 1.
    rewrite set_heap_insert_const. apply set_heap_ext. cbv beta.
    apply map_eq. intros x. destruct (Z.eq_dec x o) as [->|Hne].
    + rewrite lookup_insert_eq, held_lookup, Ho. cbn [option_map times].
      rewrite Z.eqb_refl. f_equal. change (1 + times l o)%nat with (S (times l o)).
      rewrite Hr', Hr. unfold addref. cbn [refcount set_refcount].
      unfold set_refcount. cbn. f_equal.
      unfold wf_obj in Hwf''. rewrite Hr' in Hwf''. cbn [refcount set_refcount] in Hwf''.
      rewrite u32_small by lia. lia.
    + rewrite lookup_insert_ne by congruence. now rewrite held_cons_other.
Qed.

(** One reference less. *)
Lemma decr_held w h l o :
  heap w = held (o :: l) h -> holdable h (o :: l) o ->
  decrRefCount o w = Done (tt, set_heap (fun _ => held l h) w).
Proof.
  intros Hw (obj & Ho & Hwf & Hc).
  assert (Hcur : heap w !! o = Some (retained (times (o :: l) o) obj))
    by (rewrite Hw, held_lookup, Ho; reflexivity).
  cbn [times] in Hc, Hcur. rewrite Z.eqb_refl in Hc, Hcur.
  change (1 + times l o)%nat with (S (times l o)) in *.
  destruct Hc as [Hs|[H1 Hroom]].
  - rewrite (retained_shared _ _ Hs) in Hcur.
    rewrite (decrRefCount_shared w o obj Hcur Hs). f_equal. f_equal.
    symmetry. apply set_heap_const. rewrite Hw. apply map_eq. intros x.
    destruct (Z.eq_dec x o) as [->|Hne]; [|now rewrite held_cons_other].
    rewrite !held_lookup, Ho. cbn. now rewrite !retained_shared.
  - destruct (retained_counted (times l o) obj Hwf H1 ltac:(lia)) as (Hr & _ & _).
    destruct (retained_counted (S (times l o)) obj Hwf H1 ltac:(lia))
      as (Hr' & Hg' & Hwf'').
    rewrite (decrRefCount_keep w o _ Hcur Hwf'' ltac:(lia)
               ltac:(unfold OBJ_STATIC_REFCOUNT in Hroom; lia)).
    f_equal. f_equal.
    rewrite <- (set_heap_const (held (o :: l) h) w Hw) at 1.
    rewrite set_heap_insert_const. apply set_heap_ext. cbv beta.
    apply map_eq. intros x. destruct (Z.eq_dec x o) as [->|Hne].
    + rewrite lookup_insert_eq, held_lookup, Ho. cbn [option_map].
      f_equal. rewrite Hr', Hr. cbn [refcount set_refcount].
      unfold set_refcount. cbn. f_equal. lia.
    + rewrite lookup_insert_ne by congruence. now rewrite held_cons_other.
Qed.

Lemma in_objects_Done {A} (m : M world A) s a w :
  m (objects s) = Done (a, w) -> in_objects m s = Done (a, set_objects w s).
Proof. intros H. unfold in_objects. now rewrite H. Qed.

Lemma holdable_fewer h l l' o :
  holdable h l o -> (times l' o <= times l o)%nat -> holdable h l' o.
Proof.
  intros (obj & Ho & Hwf & Hc) Hle. exists obj. split; [exact Ho|].
  split; [exact Hwf|]. destruct Hc as [Hs|[H1 Hroom]]; [now left|right].
  split; [exact H1|lia].
Qed.

Lemma vector_get_at s v pre o rest :
  vectors s !! v = Some (pre ++ o :: rest) ->
  vector_get v (Z.of_nat (length pre)) s = Done (o, s).
Proof.
  intros Hv. unfold vector_get. rewrite Hv.
  destruct (Z.ltb_spec (Z.of_nat (length pre)) 0); [lia|].
  rewrite Nat2Z.id, lookup_app_r by lia. now rewrite Nat.sub_diag.
Qed.

Lemma vector_set_at s v pre x rest o :
  vectors s !! v = Some (pre ++ x :: rest) ->
  vector_set v (Z.of_nat (length pre)) o s =
    Done (tt, set_vectors (insert v (pre ++ o :: rest)) s).
Proof.
  intros Hv. unfold vector_set. rewrite Hv.
  destruct (Z.ltb_spec (Z.of_nat (length pre)) 0); [lia|].
  destruct (Z.leb_spec (Z.of_nat (length (pre ++ x :: rest))) (Z.of_nat (length pre)))
    as [Hle|_]; [rewrite length_app in Hle; cbn in Hle; lia|].
  cbn [orb]. rewrite Nat2Z.id.
  rewrite insert_app_r_alt by lia. now rewrite Nat.sub_diag.
Qed.

Section Loops.

Variable h0 : gmap Z redisObject.

Lemma retain_loop copy argv rest : forall pre s fill,
  vectors s !! argv = Some (pre ++ rest) -> copy <> argv ->
  vectors s !! copy = Some (pre ++ fill) -> length fill = length rest ->
  heap (objects s) = held (rev pre) h0 ->
  (forall o, In o rest -> holdable h0 (pre ++ rest) o) ->
  retain_args (length rest) (Z.of_nat (length pre)) copy argv s =
    Done (tt, set_vectors (insert copy (pre ++ rest))
                (set_objects
                   (set_heap (fun _ => held (rev (pre ++ rest)) h0) (objects s)) s)).
Proof.
  induction rest as [|o rest IH]; intros pre s fill Hv Hne Hc Hlen Hh Hall.
  - destruct fill; [|discriminate]. rewrite app_nil_r in *.
    cbn [length retain_args]. unfold ret. f_equal. f_equal.
    rewrite set_heap_const by exact Hh.
    destruct s as [w vs oa ld]. unfold set_vectors, set_objects.
    cbn [objects vectors also_propagate loading] in *. f_equal.
    symmetry. now apply insert_id.
  - destruct fill as [|f0 fill]; [discriminate|]. cbn [length] in Hlen.
    cbn [length retain_args].
    rewrite (bind_Done _ _ _ _ _ (vector_get_at s argv pre o rest Hv)).
    rewrite (bind_Done _ _ _ _ _ (vector_set_at s copy pre f0 fill o Hc)).
    set (s1 := set_vectors (insert copy (pre ++ o :: fill)) s).
    assert (Hhold : holdable h0 (o :: rev pre) o).
    { apply (holdable_fewer h0 (pre ++ o :: rest)); [apply Hall; now left|].
      cbn [times]. rewrite times_app, times_rev. cbn [times]. lia. }
    assert (Hincr : in_objects (incrRefCount o) s1 =
              Done (tt, set_objects
                          (set_heap (fun _ => held (o :: rev pre) h0) (objects s)) s1)).
    { apply in_objects_Done. now apply incr_held. }
    rewrite (bind_Done _ _ _ _ _ Hincr).
    replace (Z.of_nat (length pre) + 1) with (Z.of_nat (length (pre ++ [o])))
      by (rewrite length_app; cbn; lia).
    rewrite (IH (pre ++ [o]) _ fill).
    + f_equal. f_equal. rewrite <- !app_assoc. cbn [app].
      destruct s as [w vs oa ld]. unfold s1, set_vectors, set_objects.
      cbn [objects vectors also_propagate loading]. f_equal.
      apply insert_insert_eq.
    + unfold s1. cbn [vectors set_vectors set_objects].
      rewrite lookup_insert_ne by exact Hne. now rewrite <- app_assoc.
    + exact Hne.
    + unfold s1. cbn [vectors set_vectors set_objects].
      rewrite lookup_insert_eq. now rewrite <- app_assoc.
    + lia.
    + cbn [objects set_objects heap set_heap]. now rewrite rev_unit.
    + intros o' Hin. rewrite <- app_assoc. apply Hall. now right.
Qed.

Lemma release_loop op rest : forall pre s,
  vectors s !! argv op = Some (pre ++ rest) ->
  heap (objects s) = held rest h0 ->
  (forall o, In o rest -> holdable h0 rest o) ->
  release_args (length rest) (Z.of_nat (length pre)) op s =
    Done (tt, set_objects (set_heap (fun _ => h0) (objects s)) s).
Proof.
  induction rest as [|o rest IH]; intros pre s Hv Hh Hall.
  - cbn [length release_args]. unfold ret. f_equal. f_equal.
    rewrite held_nil in Hh. rewrite set_heap_const by exact Hh. now destruct s.
  - cbn [length release_args].
    rewrite (bind_Done _ _ _ _ _ (vector_get_at s (argv op) pre o rest Hv)).
    assert (Hdecr : in_objects (decrRefCount o) s =
              Done (tt, set_objects (set_heap (fun _ => held rest h0) (objects s)) s)).
    { apply in_objects_Done. apply decr_held; [exact Hh|]. apply Hall. now left. }
    rewrite (bind_Done _ _ _ _ _ Hdecr).
    replace (Z.of_nat (length pre) + 1) with (Z.of_nat (length (pre ++ [o])))
      by (rewrite length_app; cbn; lia).
    rewrite (IH (pre ++ [o])).
    + f_equal.
    + cbn [vectors set_objects]. now rewrite <- app_assoc.
    + reflexivity.
    + intros o' Hin. apply (holdable_fewer h0 (o :: rest)); [apply Hall; now right|].
      cbn [times]. lia.
Qed.

End Loops.

(** X23: [alsoPropagate], when the server is not loading, copies the
    argument vector and takes one reference on each argument, once for
    each time the object is among the arguments (a shared object is left
    as it is), and queues one operation that owns the copy.
    [redisOpArrayFree] on the queue gives every one of these references
    back, in the same order, and frees the copy: the objects are exactly
    as before the two calls, none has been released, and the queue is
    empty again with a null block. *)
Theorem X23_propagated_arguments_are_held s cmd0 dbid0 target0 argv0 args :
  loading s = 0 -> also_propagate s = redisOpArrayInit ->
  vectors s !! argv0 = Some args ->
  vectors s !! brk (objects s) = None ->
  (forall o, In o args -> holdable (heap (objects s)) args o) ->
  exists s1 s2,
    alsoPropagate cmd0 dbid0 argv0 (Z.of_nat (length args)) target0 s
      = Done (tt, s1) /\
    also_propagate s1 =
      {| ops := Some [{| argv := brk (objects s);
                         argc := Z.of_nat (length args);
                         dbid := dbid0; target := target0; cmd := cmd0 |}];
         numops := 1 |} /\
    vectors s1 !! brk (objects s) = Some args /\
    heap (objects s1) = held args (heap (objects s)) /\
    free_also_propagate s1 = Done (tt, s2) /\
    heap (objects s2) = heap (objects s) /\
    vectors s2 = vectors s /\
    also_propagate s2 = redisOpArrayInit /\
    log (objects s2) = log (objects s) ++ [EvZfree (brk (objects s))].
Proof.
  intros Hload Hoa Hargv Hfresh Hall.
  set (h0 := heap (objects s)) in *.
  set (copy := brk (objects s)) in *.
  assert (Hne : copy <> argv0) by (intros ->; congruence).
  set (n := Z.of_nat (length args)).
  set (w1 := set_brk (brk (objects s) + u64 (sizeof_void_ptr * n)) (objects s)).
  set (sa := set_vectors (insert copy (repeat (junk_pointer (objects s))
                                          (Z.to_nat n)))
               (set_objects w1 s)).
  assert (Hretain : retain_args (Z.to_nat n) 0 copy argv0 sa =
            Done (tt, set_vectors (insert copy args)
                        (set_objects
                           (set_heap (fun _ => held (rev args) h0) (objects sa)) sa))).
  { unfold n. rewrite Nat2Z.id.
    apply (retain_loop h0 copy argv0 args [] sa
             (repeat (junk_pointer (objects s)) (length args))).
    - unfold sa. cbn [vectors set_vectors set_objects].
      now rewrite lookup_insert_ne by exact Hne.
    - exact Hne.
    - unfold sa, n. cbn [vectors set_vectors set_objects].
      now rewrite lookup_insert_eq, Nat2Z.id.
    - apply repeat_length.
    - cbn [rev]. now rewrite held_nil.
    - exact Hall. }
  set (sb := set_vectors (insert copy args)
               (set_objects (set_heap (fun _ => held (rev args) h0) (objects sa)) sa))
    in *.
  set (op := {| argv := copy; argc := n; dbid := dbid0; target := target0;
                cmd := cmd0 |}).
  set (s1 := set_also_propagate {| ops := Some [op]; numops := 1 |} sb).
  assert (Hrun : alsoPropagate cmd0 dbid0 argv0 n target0 s = Done (tt, s1)).
  { unfold alsoPropagate. unfold bind at 1. unfold get at 1.
    rewrite Hload. cbn [Z.eqb negb].
    rewrite (bind_Done _ _ _ _ _
               (in_objects_Done (zmalloc (u64 (sizeof_void_ptr * n))) s copy w1 eq_refl)).
    unfold bind at 1. unfold modify at 1. fold sa.
    rewrite (bind_Done _ _ _ _ _ Hretain). fold sb.
    unfold bind at 1. unfold get at 1.
    assert (Hoab : also_propagate sb = redisOpArrayInit) by exact Hoa.
    rewrite Hoab. reflexivity. }
  assert (Hheap1 : heap (objects s1) = held args h0).
  { cbn. apply held_ext. intros o. apply times_rev. }
  assert (Hvec1 : vectors s1 !! copy = Some args)
    by (cbn; apply lookup_insert_eq).
  assert (Hrel : release_args (length args) 0 op s1 =
            Done (tt, set_objects (set_heap (fun _ => h0) (objects s1)) s1)).
  { apply (release_loop h0 op args [] s1 Hvec1 Hheap1 Hall). }
  exists s1. eexists.
  split; [exact Hrun|]. split; [reflexivity|]. split; [exact Hvec1|].
  split; [exact Hheap1|].
  split; [|split; [|split; [|split]]].
  - unfold free_also_propagate. unfold bind at 1. unfold get at 1.
    change (also_propagate s1) with {| ops := Some [op]; numops := 1 |}.
    unfold redisOpArrayFree. cbn [numops Z.ltb Z.compare].
    change (Z.to_nat 1) with 1%nat. cbn [free_ops numops ops default].
    change (Z.to_nat (1 - 1)) with 0%nat.
    change (id [op] !! 0%nat) with (Some op). cbv iota.
    change (argc op) with n. unfold n at 1. rewrite Nat2Z.id.
    unfold bind. rewrite Hrel.
    unfold vector_free. cbn [vectors set_objects].
    change (argv op) with copy. rewrite Hvec1.
    reflexivity.
  - reflexivity.
  - cbn. rewrite delete_insert_eq, delete_insert_id; [reflexivity|exact Hfresh].
  - reflexivity.
  - reflexivity.
Qed.

(** A raw string held once and an embedded string held twice, and a
    vector that names the second one twice. *)
Definition some_objects : world :=
  set_heap (insert 5000 (string_object OBJ_ENCODING_EMBSTR 2 0 "b"))
    (holding quiet_server (string_object OBJ_ENCODING_RAW 1 9000 "a")).

Definition quiet : server :=
  {| objects := some_objects;
     vectors := {[ 100 := [5000; 4096; 5000] ]};
     also_propagate := redisOpArrayInit;
     loading := 0 |}.

Lemma X23_propagated_arguments_are_held_witness :
  exists s1 s2,
    alsoPropagate 7 0 100 3 3 quiet = Done (tt, s1) /\
    option_map getrefcount (heap (objects s1) !! 5000) = Some 4 /\
    option_map getrefcount (heap (objects s1) !! 4096) = Some 2 /\
    free_also_propagate s1 = Done (tt, s2) /\
    heap (objects s2) = heap some_objects /\
    log (objects s2) = [EvZfree 8192].
Proof.
  assert (Hall : forall o, In o [5000; 4096; 5000] ->
            holdable (heap (objects quiet)) [5000; 4096; 5000] o).
  { intros o [<-|[<-|[<-|[]]]].
    - exists (string_object OBJ_ENCODING_EMBSTR 2 0 "b").
      split; [reflexivity|]. split; [unfold wf_obj; cbn; lia|].
      right. vm_compute. split; [discriminate|reflexivity].
    - exists (string_object OBJ_ENCODING_RAW 1 9000 "a").
      split; [reflexivity|]. split; [unfold wf_obj; cbn; lia|].
      right. vm_compute. split; [discriminate|reflexivity].
    - exists (string_object OBJ_ENCODING_EMBSTR 2 0 "b").
      split; [reflexivity|]. split; [unfold wf_obj; cbn; lia|].
      right. vm_compute. split; [discriminate|reflexivity]. }
  destruct (X23_propagated_arguments_are_held quiet 7 0 3 100 [5000; 4096; 5000]
              eq_refl eq_refl eq_refl eq_refl Hall)
    as (s1 & s2 & Hrun & _ & _ & Hheap & Hfree & Hback & _ & _ & Hlog).
  exists s1, s2. split; [exact Hrun|]. rewrite Hheap.
  split; [reflexivity|]. split; [reflexivity|]. split; [exact Hfree|].
  split; [exact Hback|exact Hlog].
Defined.

End Propagate.

(** ** Copies and decoded views of string objects ([object.cpp]) *)

Module Strings.

Import Obj.

Section Externals.

(** The raw bytes of a default-constructed [expireEntry], as for the
    constructors of the object. *)
Variable expire_init : Z.

Definition dupStringObject (o : Z) : M world Z :=
  do obj <- deref o;
  exec serverAssert (type obj =? OBJ_STRING) "o->type == OBJ_STRING";
  if encoding obj =? OBJ_ENCODING_RAW then
    do s <- szFromObj o;
    createRawStringObject expire_init (Buffer (buf s)) (sdslen s)
  else if encoding obj =? OBJ_ENCODING_EMBSTR then
    do s <- szFromObj o;
    createEmbeddedStringObject expire_init (Buffer (buf s)) (sdslen s)
  else if encoding obj =? OBJ_ENCODING_INT then
    do d <- createObject expire_init OBJ_STRING 0 None;
    exec update d (set_encoding OBJ_ENCODING_INT);
    exec update d (set_m_ptr (ptrFromObj o obj) None);
    ret d
  else serverPanic "Wrong encoding.".

(** [ll2string] is in [util.c], which is not part of these sources: the
    decimal text of the number, as [sdsfromlonglong] gives it. *)
Definition ll2string (value : Z) : list Z := sdsfromlonglong value.

Definition getDecodedObject (o : Z) : M world Z :=
  do obj <- deref o;
  if sdsEncodedObject obj then
    exec incrRefCount o;
    ret o
  else if (type obj =? OBJ_STRING) && (encoding obj =? OBJ_ENCODING_INT) then
    let buf := ll2string (s64 (ptrFromObj o obj)) in
    createStringObject expire_init (Buffer buf) (Z.of_nat (length buf))
  else serverPanic "Unknown encoding type".

(** *** Facts *)

Lemma createRawStringObject_spec w bytes :
  createRawStringObject expire_init (Buffer bytes) (Z.of_nat (length bytes)) w =
    let w1 := set_brk (brk w + (sizeof_sdshdr8 + Z.of_nat (length bytes) + 1)) w in
    Done (brk w1 + extra_bytes w1,
          allocated (sizeof_robj + extra_bytes w1) (brk w1 + extra_bytes w1)
            (created expire_init w1 OBJ_STRING (brk w + sizeof_sdshdr8)
               (Some {| buf := bytes; avail := 0 |})) w1).
Proof.
  unfold createRawStringObject, sdsnewlen, initial_bytes.
  destruct (Z.leb_spec (Z.of_nat (length bytes)) (Z.of_nat (length bytes))); [|lia].
  rewrite Nat2Z.id, firstn_all. unfold bind at 1. unfold bind at 1. unfold ret at 1.
  unfold zmalloc. unfold bind at 1. unfold ret. cbn [fst snd].
  now rewrite createObject_spec.
Qed.

(** A new object: the only one at its address, counted once, not in the
    expiration index. *)
Definition fresh_copy (w w' : world) (d : Z) (dobj : redisObject) : Prop :=
  brk w <= d /\ heap w' !! d = Some dobj /\
  refcount dobj = 1 /\ type dobj = OBJ_STRING /\
  (forall a, a <> d -> heap w' !! a = heap w !! a) /\
  log w' = log w /\ g_pserver w' = g_pserver w.

Lemma allocated_fresh w w1 size d dobj :
  brk w <= d -> heap w1 = heap w -> log w1 = log w -> g_pserver w1 = g_pserver w ->
  refcount dobj = 1 -> type dobj = OBJ_STRING ->
  fresh_copy w (allocated size d dobj w1) d dobj.
Proof.
  intros Hd Hh Hl Hg Hr Ht. unfold fresh_copy, allocated.
  cbn [heap log g_pserver set_heap set_brk].
  split; [exact Hd|]. split; [apply lookup_insert_eq|].
  split; [exact Hr|]. split; [exact Ht|].
  split; [|split; assumption].
  intros a Ha. rewrite lookup_insert_ne by congruence. now rewrite Hh.
Qed.

(** X24: [dupStringObject] of a live string object returns a new object
    at an address the allocator had not handed out, with count 1 and no
    expire flag whatever the count of the original (the shared marker
    included), of the same encoding, holding the same bytes (RAW,
    EMBSTR of at most 255 bytes) or the same integer (INT); no other
    object changes and nothing is released. *)
Theorem X24_dupStringObject_is_unshared w o obj :
  heap w !! o = Some obj -> type obj = OBJ_STRING ->
  (sdsEncodedObject obj = true ->
     exists s, sdsdata obj = Some s /\
       (encoding obj = OBJ_ENCODING_EMBSTR -> sdslen s <= UINT8_MAX)) ->
  sdsEncodedObject obj = true \/ encoding obj = OBJ_ENCODING_INT ->
  exists d dobj w',
    dupStringObject o w = Done (d, w') /\
    fresh_copy w w' d dobj /\
    getrefcount dobj = 1 /\ FExpires dobj = false /\
    encoding dobj = encoding obj /\
    (sdsEncodedObject obj = true ->
       option_map buf (sdsdata dobj) = option_map buf (sdsdata obj)) /\
    (encoding obj = OBJ_ENCODING_INT ->
       m_ptr dobj = m_ptr obj /\ sdsdata dobj = None).
Proof.
  intros Ho Hty Hsds Henc. unfold dupStringObject.
  rewrite (bind_Done _ _ _ _ _ (deref_Some w o obj Ho)).
  rewrite Hty. change (OBJ_STRING =? OBJ_STRING) with true. unfold serverAssert.
  unfold bind at 1. unfold ret at 1.
  pose proof (extra_bytes_nonneg w) as Hex.
  unfold sdsEncodedObject in *.
  destruct (Z.eqb_spec (encoding obj) OBJ_ENCODING_RAW) as [Hraw|Hnraw].
  - destruct (Hsds eq_refl) as (s & Hs & _).
    rewrite (bind_Done _ _ _ _ _ (szFromObj_spec w o obj s Ho Hs)).
    unfold sdslen. rewrite createRawStringObject_spec. cbv zeta.
    set (w1 := set_brk _ w).
    pose proof (extra_bytes_nonneg w1) as Hex1.
    eexists _, _, _. split; [reflexivity|].
    split; [apply allocated_fresh; try reflexivity;
            change (brk w1)
              with (brk w + (sizeof_sdshdr8 + Z.of_nat (length (buf s)) + 1));
            unfold sizeof_sdshdr8; lia|].
    split; [apply refcount_one; reflexivity|].
    split; [apply refcount_one; reflexivity|].
    split; [now rewrite Hraw|].
    split; [intros _; now rewrite Hs|].
    intros Hint. rewrite Hint in Hraw. discriminate.
  - destruct (Z.eqb_spec (encoding obj) OBJ_ENCODING_EMBSTR) as [Hemb|Hnemb].
    + destruct (Hsds eq_refl) as (s & Hs & Hlen). specialize (Hlen Hemb).
      rewrite (bind_Done _ _ _ _ _ (szFromObj_spec w o obj s Ho Hs)).
      rewrite (createEmbeddedStringObject_spec expire_init w (buf s) (sdslen s) Hlen
                 ltac:(unfold sdslen; lia)).
      unfold sdslen. rewrite Nat2Z.id, firstn_all.
      eexists _, _, _. split; [reflexivity|].
      split; [apply allocated_fresh; try reflexivity; lia|].
      split; [apply refcount_one; reflexivity|].
      split; [apply refcount_one; reflexivity|].
      split; [now rewrite Hemb|].
      split; [intros _; now rewrite Hs|].
      intros Hint. rewrite Hint in Hemb. discriminate.
    + destruct Henc as [Hbad|Hint]; [discriminate|].
      rewrite Hint, Z.eqb_refl.
      rewrite (bind_Done _ _ _ _ _ (createObject_spec expire_init w OBJ_STRING 0 None)).
      unfold update, allocated, deref, store, bind, modify, ret.
      cbn [heap set_heap set_brk]. rewrite !lookup_insert_eq.
      cbn [heap set_heap set_brk]. rewrite !lookup_insert_eq.
      eexists _, _, _. split; [reflexivity|].
      split.
      * unfold fresh_copy. cbn [heap log g_pserver set_heap set_brk].
        split; [lia|]. split; [apply lookup_insert_eq|].
        split; [reflexivity|]. split; [reflexivity|].
        split; [|split; reflexivity].
        intros a Ha. now rewrite !lookup_insert_ne by congruence.
      * split; [apply refcount_one; reflexivity|].
        split; [apply refcount_one; reflexivity|].
        split; [reflexivity|]. split; [intros Hbad; discriminate|].
        intros _. unfold ptrFromObj. rewrite Hint. split; reflexivity.
Qed.

Lemma createStringObject_text w text :
  exists d dec w',
    createStringObject expire_init (Buffer text) (Z.of_nat (length text)) w
      = Done (d, w') /\
    fresh_copy w w' d dec /\
    heap w' = <[d := dec]> (heap w) /\
    sdsEncodedObject dec = true /\
    sdsdata dec = Some {| buf := text; avail := 0 |}.
Proof.
  unfold createStringObject. pose proof (extra_bytes_nonneg w) as Hex.
  destruct (Z.leb_spec (Z.of_nat (length text)) OBJ_ENCODING_EMBSTR_SIZE_LIMIT)
    as [Hshort|Hlong].
  - unfold OBJ_ENCODING_EMBSTR_SIZE_LIMIT in Hshort.
    rewrite (createEmbeddedStringObject_spec expire_init w text
               (Z.of_nat (length text)) ltac:(unfold UINT8_MAX; lia) ltac:(lia)).
    rewrite Nat2Z.id, firstn_all.
    eexists _, _, _. split; [reflexivity|].
    split; [apply allocated_fresh; try reflexivity; lia|].
    split; [reflexivity|]. split; reflexivity.
  - rewrite createRawStringObject_spec. cbv zeta. set (w1 := set_brk _ w).
    pose proof (extra_bytes_nonneg w1) as Hex1.
    eexists _, _, _. split; [reflexivity|].
    split; [apply allocated_fresh; try reflexivity;
            change (brk w1)
              with (brk w + (sizeof_sdshdr8 + Z.of_nat (length text) + 1));
            unfold sizeof_sdshdr8; lia|].
    split; [reflexivity|]. split; reflexivity.
Qed.

(** X25: [getDecodedObject] hands the caller exactly one reference to
    give back.  For a RAW or EMBSTR object it returns the object itself
    with one reference more (none for a shared object), and
    [decrRefCount] on the result restores everything as it was.  For an
    INT-encoded string it returns a new string object, counted once,
    that holds the decimal text of the integer, and leaves the original
    alone; [decrRefCount] on the result releases the new object and the
    objects are as they were.  For any other object it panics. *)
Theorem X25_getDecodedObject_gives_one_reference w o obj :
  heap w !! o = Some obj ->
  (sdsEncodedObject obj = true -> Refs.counted obj ->
     exists w',
       getDecodedObject o w = Done (o, w') /\
       heap w' !! o =
         Some (if getrefcount obj =? OBJ_SHARED_REFCOUNT then obj else addref obj) /\
       decrRefCount o w' = Done (tt, w)) /\
  (type obj = OBJ_STRING -> encoding obj = OBJ_ENCODING_INT ->
     exists d dec w',
       getDecodedObject o w = Done (d, w') /\
       fresh_copy w w' d dec /\
       getrefcount dec = 1 /\ sdsEncodedObject dec = true /\
       option_map buf (sdsdata dec) = Some (ll2string (s64 (m_ptr obj))) /\
       (heap w !! d = None ->
          exists w'', decrRefCount d w' = Done (tt, w'') /\ heap w'' = heap w)) /\
  (sdsEncodedObject obj = false ->
   type obj <> OBJ_STRING \/ encoding obj <> OBJ_ENCODING_INT ->
     getDecodedObject o w = Panic "Unknown encoding type").
Proof.
  intros Ho. unfold getDecodedObject.
  rewrite (bind_Done _ _ _ _ _ (deref_Some w o obj Ho)).
  split; [|split].
  - intros Hsds Hc. rewrite Hsds.
    pose proof (Refs.incr_then_decr w o obj Ho Hc) as Hboth.
    destruct Hc as (Hwf & [Hord|Hsh]).
    + pose proof (incrRefCount_ordinary w o obj Ho
                    ltac:(unfold OBJ_FIRST_SPECIAL_REFCOUNT; lia)) as Hincr.
      rewrite (bind_Done _ _ _ _ _ Hincr) in Hboth.
      rewrite (bind_Done _ _ _ _ _ Hincr). unfold ret.
      eexists. split; [reflexivity|]. split; [|exact Hboth].
      destruct (Z.eqb_spec (getrefcount obj) OBJ_SHARED_REFCOUNT) as [E|_];
        [unfold OBJ_STATIC_REFCOUNT in Hord; lia|].
      apply heap_store.
    + pose proof (incrRefCount_shared w o obj Ho Hsh) as Hincr.
      rewrite (bind_Done _ _ _ _ _ Hincr) in Hboth.
      rewrite (bind_Done _ _ _ _ _ Hincr). unfold ret.
      exists w. split; [reflexivity|]. split; [|exact Hboth].
      now rewrite Hsh, Z.eqb_refl.
  - intros Hty Hint.
    assert (Hsds : sdsEncodedObject obj = false)
      by (unfold sdsEncodedObject; now rewrite Hint).
    rewrite Hsds, Hty, Hint, !Z.eqb_refl. cbn [andb].
    unfold ptrFromObj. rewrite Hint.
    change (OBJ_ENCODING_INT =? OBJ_ENCODING_EMBSTR) with false. cbv iota.
    destruct (createStringObject_text w (ll2string (s64 (m_ptr obj))))
      as (d & dec & w' & Hrun & Hfresh & Hheap & Henc & Hdata).
    exists d, dec, w'. split; [exact Hrun|]. split; [exact Hfresh|].
    destruct Hfresh as (_ & Hd & Hr & Ht & _).
    split; [now apply refcount_one|]. split; [exact Henc|].
    split; [now rewrite Hdata|].
    intros Hnone.
    rewrite (decrRefCount_string w' d dec Hd ltac:(unfold wf_obj; lia)
               ltac:(now apply refcount_one) Ht).
    eexists. split; [reflexivity|].
    unfold released. cbn [heap set_heap add_logs]. rewrite Hheap.
    now apply delete_insert_id.
  - intros Hsds Hother. rewrite Hsds.
    destruct (Z.eqb_spec (type obj) OBJ_STRING) as [Ht|_]; [|reflexivity].
    destruct (Z.eqb_spec (encoding obj) OBJ_ENCODING_INT) as [He|_]; [|reflexivity].
    destruct Hother; contradiction.
Qed.

End Externals.

(** A shared RAW string, and an INT-encoded string. *)
Definition shared_value : redisObject :=
  string_object OBJ_ENCODING_RAW OBJ_SHARED_REFCOUNT 9000 "value".

Definition number : redisObject :=
  {| mvcc_tstamp := 77; type := OBJ_STRING; encoding := OBJ_ENCODING_INT;
     lru := 3; refcount := 1; expire := 0; m_ptr := 12345; sdsdata := None |}.

Lemma X24_dupStringObject_is_unshared_witness :
  exists d dobj w',
    dupStringObject 0 4096 (holding quiet_server shared_value) = Done (d, w') /\
    heap w' !! d = Some dobj /\ getrefcount dobj = 1 /\
    option_map buf (sdsdata dobj) = Some (bytes_of_string "value") /\
    heap w' !! 4096 = Some shared_value.
Proof.
  destruct (X24_dupStringObject_is_unshared 0 (holding quiet_server shared_value)
              4096 shared_value (holding_lookup _ _) eq_refl
              ltac:(intros _; eexists; split; [reflexivity|discriminate])
              ltac:(left; reflexivity))
    as (d & dobj & w' & Hrun & (Hd & Hlive & _ & _ & Hframe & _) & Hcount & _
        & _ & Hbytes & _).
  exists d, dobj, w'. split; [exact Hrun|]. split; [exact Hlive|].
  split; [exact Hcount|]. split; [exact (Hbytes eq_refl)|].
  rewrite Hframe; [reflexivity|]. cbn [brk holding] in Hd. lia.
Defined.

Lemma X25_getDecodedObject_gives_one_reference_witness :
  exists d dec w' w'',
    getDecodedObject 0 4096 (holding quiet_server number) = Done (d, w') /\
    heap w' !! d = Some dec /\
    option_map buf (sdsdata dec) = Some (bytes_of_string "12345") /\
    decrRefCount d w' = Done (tt, w'') /\
    heap w'' = heap (holding quiet_server number).
Proof.
  destruct (X25_getDecodedObject_gives_one_reference 0
              (holding quiet_server number) 4096 number (holding_lookup _ _))
    as (_ & Hint & _).
  destruct (Hint eq_refl eq_refl)
    as (d & dec & w' & Hrun & (Hd & Hlive & _ & _ & Hframe & _) & _ & _ & Htext & Hback).
  assert (Hnone : heap (holding quiet_server number) !! d = None).
  { cbn [heap holding]. apply lookup_singleton_ne. cbn [brk holding] in Hd. lia. }
  destruct (Hback Hnone) as (w'' & Hdecr & Hheap).
  exists d, dec, w', w''. split; [exact Hrun|]. split; [exact Hlive|].
  split; [exact Htext|]. split; [exact Hdecr|exact Hheap].
Defined.

End Strings.

(** ** Comparing string objects ([object.cpp]) *)

Module Compare.

Import Obj.

Definition REDIS_COMPARE_BINARY : Z := Z.shiftl 1 0.
Definition REDIS_COMPARE_COLL : Z := Z.shiftl 1 1.

(** The [(int)] reading of a 32-bit word. *)
Definition s32 (z : Z) : Z :=
  let w := u32 z in if w <? 2 ^ 31 then w else w - 2 ^ 32.

(** [memcmp] over the first [n] bytes: the C library fixes the sign of
    the result only, it is -1, 0 or 1 here; the bytes are compared as
    unsigned. *)
Fixpoint memcmp (a b : list Z) (n : nat) : Z :=
  match n, a, b with
  | S k, x :: a', y :: b' =>
      if x <? y then -1 else if y <? x then 1 else memcmp a' b' k
  | _, _, _ => 0
  end.

Section Externals.

(** [strcoll] depends on the locale of the process. *)
Variable strcoll : list Z -> list Z -> Z.

(** The text and the length [compareStringObjectsWithFlags] takes from
    an object: the string itself, or the decimal text of the integer
    written to a buffer by [ll2string] ([util.c], not part of these
    sources). *)
Definition text_of (o : Z) (obj : redisObject) : M world (list Z) :=
  if sdsEncodedObject obj then (do s <- szFromObj o; ret (buf s))
  else ret (Strings.ll2string (s64 (ptrFromObj o obj))).

Definition compareStringObjectsWithFlags (a b : Z) (flags : Z) : M world Z :=
  do obja <- deref a;
  exec (if type obja =? OBJ_STRING then
          do objb <- deref b;
          serverAssert (type objb =? OBJ_STRING)
            "a->type == OBJ_STRING && b->type == OBJ_STRING"
        else serverPanic "a->type == OBJ_STRING && b->type == OBJ_STRING");
  if a =? b then ret 0
  else
    do objb <- deref b;
    do astr <- text_of a obja;
    let alen := Z.of_nat (length astr) in
    do bstr <- text_of b objb;
    let blen := Z.of_nat (length bstr) in
    if negb (Z.land flags REDIS_COMPARE_COLL =? 0) then ret (strcoll astr bstr)
    else
      let minlen := if alen <? blen then alen else blen in
      let cmp := memcmp astr bstr (Z.to_nat minlen) in
      if cmp =? 0 then ret (s32 (alen - blen)) else ret cmp.

Definition compareStringObjects (a b : Z) : M world Z :=
  compareStringObjectsWithFlags a b REDIS_COMPARE_BINARY.

Definition collateStringObjects (a b : Z) : M world Z :=
  compareStringObjectsWithFlags a b REDIS_COMPARE_COLL.

Definition equalStringObjects (a b : Z) : M world Z :=
  do obja <- deref a;
  do both_int <- (if encoding obja =? OBJ_ENCODING_INT then
                    do objb <- deref b; ret (encoding objb =? OBJ_ENCODING_INT)
                  else ret false);
  if both_int then
    do objb <- deref b;
    ret (if m_ptr obja =? m_ptr objb then 1 else 0)
  else
    do r <- compareStringObjects a b;
    ret (if r =? 0 then 1 else 0).

(** *** Facts *)

Lemma memcmp_same a n : memcmp a a n = 0.
Proof.
  revert n. induction a as [|x a IH]; intros [|n]; try reflexivity.
  cbn [memcmp]. rewrite Z.ltb_irrefl. apply IH.
Qed.

Lemma memcmp_zero a b n :
  (n <= length a)%nat -> (n <= length b)%nat ->
  memcmp a b n = 0 -> firstn n a = firstn n b.
Proof.
  revert a b. induction n as [|n IH]; intros a b Ha Hb Hz; [reflexivity|].
  destruct a as [|x a]; [cbn in Ha; lia|]. destruct b as [|y b]; [cbn in Hb; lia|].
  cbn [memcmp] in Hz. cbn [firstn length] in *.
  destruct (Z.ltb_spec x y); [discriminate|].
  destruct (Z.ltb_spec y x); [discriminate|].
  f_equal; [lia|]. apply IH; [lia|lia|exact Hz].
Qed.

Lemma s32_zero z : - 2 ^ 31 < z < 2 ^ 31 -> s32 z = 0 -> z = 0.
Proof.
  intros Hz. unfold s32, u32, wrap.
  destruct (Z.neg_nonneg_cases z) as [Hn|Hp].
  - replace (z mod 2 ^ 32) with (z + 2 ^ 32).
    + destruct (Z.ltb_spec (z + 2 ^ 32) (2 ^ 31)); lia.
    + apply Z.mod_unique with (q := -1); lia.
  - rewrite Z.mod_small by lia. destruct (Z.ltb_spec z (2 ^ 31)); lia.
Qed.

Lemma text_of_sds w o obj s :
  heap w !! o = Some obj -> sdsEncodedObject obj = true -> sdsdata obj = Some s ->
  text_of o obj w = Done (buf s, w).
Proof.
  intros Ho He Hs. unfold text_of. rewrite He.
  now rewrite (bind_Done _ _ _ _ _ (szFromObj_spec w o obj s Ho Hs)).
Qed.

Lemma sds_not_int obj :
  sdsEncodedObject obj = true -> (encoding obj =? OBJ_ENCODING_INT) = false.
Proof.
  unfold sdsEncodedObject. intros H. apply Z.eqb_neq. intros E.
  rewrite E in H. discriminate.
Qed.

Lemma compare_bytes w a b obja objb sa sb :
  heap w !! a = Some obja -> heap w !! b = Some objb ->
  type obja = OBJ_STRING -> type objb = OBJ_STRING ->
  sdsEncodedObject obja = true -> sdsEncodedObject objb = true ->
  sdsdata obja = Some sa -> sdsdata objb = Some sb ->
  sdslen sa < 2 ^ 31 -> sdslen sb < 2 ^ 31 ->
  exists r, compareStringObjects a b w = Done (r, w) /\
            (r = 0 <-> buf sa = buf sb).
Proof.
  intros Ha Hb Hta Htb Hea Heb Hsa Hsb Hla Hlb.
  unfold compareStringObjects, compareStringObjectsWithFlags.
  rewrite (bind_Done _ _ _ _ _ (deref_Some w a obja Ha)).
  rewrite Hta, Z.eqb_refl.
  assert (Hassert :
    (do objb0 <- deref b;
     serverAssert (type objb0 =? OBJ_STRING)
       "a->type == OBJ_STRING && b->type == OBJ_STRING") w = Done (tt, w)).
  { rewrite (bind_Done _ _ _ _ _ (deref_Some w b objb Hb)).
    now rewrite Htb, Z.eqb_refl. }
  rewrite (bind_Done _ _ _ _ _ Hassert).
  destruct (Z.eqb_spec a b) as [->|Hne].
  - exists 0. split; [reflexivity|]. split; [|reflexivity]. intros _.
    rewrite Ha in Hb. injection Hb as <-. rewrite Hsa in Hsb. now injection Hsb as <-.
  - rewrite (bind_Done _ _ _ _ _ (deref_Some w b objb Hb)).
    rewrite (bind_Done _ _ _ _ _ (text_of_sds w a obja sa Ha Hea Hsa)).
    rewrite (bind_Done _ _ _ _ _ (text_of_sds w b objb sb Hb Heb Hsb)).
    change (Z.land REDIS_COMPARE_BINARY REDIS_COMPARE_COLL =? 0) with true.
    cbn [negb]. unfold sdslen in *.
    set (alen := Z.of_nat (length (buf sa))) in *.
    set (blen := Z.of_nat (length (buf sb))) in *.
    set (n := Z.to_nat (if alen <? blen then alen else blen)).
    assert (Hna : (n <= length (buf sa))%nat)
      by (unfold n, alen, blen; destruct (Z.ltb_spec (Z.of_nat (length (buf sa)))
            (Z.of_nat (length (buf sb)))); lia).
    assert (Hnb : (n <= length (buf sb))%nat)
      by (unfold n, alen, blen; destruct (Z.ltb_spec (Z.of_nat (length (buf sa)))
            (Z.of_nat (length (buf sb)))); lia).
    destruct (Z.eqb_spec (memcmp (buf sa) (buf sb) n) 0) as [Hz|Hnz].
    + eexists. split; [reflexivity|]. split.
      * intros Hr. apply s32_zero in Hr; [|unfold alen, blen in *; lia].
        pose proof (memcmp_zero _ _ _ Hna Hnb Hz) as Hfirst.
        assert (Hn : n = length (buf sa) /\ n = length (buf sb)).
        { unfold n. replace blen with alen by lia.
          destruct (alen <? alen); unfold alen, blen in *; lia. }
        destruct Hn as [Hn1 Hn2].
        rewrite Hn1 in Hfirst at 1. rewrite Hn2 in Hfirst.
        now rewrite !firstn_all in Hfirst.
      * intros Heq. unfold alen, blen. rewrite Heq, Z.sub_diag. reflexivity.
    + eexists. split; [reflexivity|]. split; [intros Hr; contradiction|].
      intros Heq. exfalso. apply Hnz. rewrite Heq. apply memcmp_same.
Qed.

(** X26: [equalStringObjects] on two live RAW or EMBSTR strings of
    fewer than 2^31 bytes returns 1 exactly when they hold the same
    bytes (zero bytes are compared like any other), and 0 otherwise; on two
    INT-encoded objects it returns 1 exactly when the integers in the
    pointer slots are equal.  It changes nothing. *)
Theorem X26_equalStringObjects_is_byte_equality w a b obja objb :
  heap w !! a = Some obja -> heap w !! b = Some objb ->
  (forall sa sb,
     type obja = OBJ_STRING -> type objb = OBJ_STRING ->
     sdsEncodedObject obja = true -> sdsEncodedObject objb = true ->
     sdsdata obja = Some sa -> sdsdata objb = Some sb ->
     sdslen sa < 2 ^ 31 -> sdslen sb < 2 ^ 31 ->
     exists r, equalStringObjects a b w = Done (r, w) /\
               (r = 0 \/ r = 1) /\ (r = 1 <-> buf sa = buf sb)) /\
  (encoding obja = OBJ_ENCODING_INT -> encoding objb = OBJ_ENCODING_INT ->
     exists r, equalStringObjects a b w = Done (r, w) /\
               (r = 0 \/ r = 1) /\ (r = 1 <-> m_ptr obja = m_ptr objb)).
Proof.
  intros Ha Hb. split.
  - intros sa sb Hta Htb Hea Heb Hsa Hsb Hla Hlb.
    destruct (compare_bytes w a b obja objb sa sb Ha Hb Hta Htb Hea Heb Hsa Hsb
                Hla Hlb) as (r & Hrun & Hr).
    unfold equalStringObjects.
    rewrite (bind_Done _ _ _ _ _ (deref_Some w a obja Ha)).
    rewrite (sds_not_int obja Hea). unfold bind at 1. unfold ret at 1.
    rewrite (bind_Done _ _ _ _ _ Hrun). unfold ret.
    eexists. split; [reflexivity|].
    destruct (Z.eqb_spec r 0) as [->|Hne].
    + split; [now right|]. split; [intros _; now apply Hr|reflexivity].
    + split; [now left|]. split; [discriminate|].
      intros Heq. exfalso. apply Hne. now apply Hr.
  - intros Hia Hib. unfold equalStringObjects.
    rewrite (bind_Done _ _ _ _ _ (deref_Some w a obja Ha)).
    rewrite Hia, Z.eqb_refl.
    assert (Hboth : (do objb0 <- deref b; ret (encoding objb0 =? OBJ_ENCODING_INT)) w
                    = Done (true, w)).
    { rewrite (bind_Done _ _ _ _ _ (deref_Some w b objb Hb)).
      now rewrite Hib, Z.eqb_refl. }
    rewrite (bind_Done _ _ _ _ _ Hboth).
    rewrite (bind_Done _ _ _ _ _ (deref_Some w b objb Hb)). unfold ret.
    eexists. split; [reflexivity|].
    destruct (Z.eqb_spec (m_ptr obja) (m_ptr objb)) as [He|Hne].
    + split; [now right|]. split; [intros _; exact He|reflexivity].
    + split; [now left|]. split; [discriminate|]. intros; contradiction.
Qed.

End Externals.

(** Two strings with the same bytes in different encodings, and a third
    one; the collation is not used. *)
Definition three_strings : world :=
  set_heap (insert 5000 (string_object OBJ_ENCODING_EMBSTR 2 0 "abc"))
    (set_heap (insert 6000 (string_object OBJ_ENCODING_RAW 1 9100 "abd"))
       (holding quiet_server (string_object OBJ_ENCODING_RAW 1 9000 "abc"))).

Lemma X26_equalStringObjects_is_byte_equality_witness :
  equalStringObjects (fun _ _ => 0) 4096 5000 three_strings = Done (1, three_strings) /\
  equalStringObjects (fun _ _ => 0) 4096 6000 three_strings = Done (0, three_strings).
Proof.
  split.
  - destruct (X26_equalStringObjects_is_byte_equality (fun _ _ => 0) three_strings
                4096 5000 _ _ eq_refl eq_refl) as [H _].
    destruct (H _ _ eq_refl eq_refl eq_refl eq_refl eq_refl eq_refl
                ltac:(vm_compute; reflexivity) ltac:(vm_compute; reflexivity))
      as (r & Hrun & _ & Hr).
    rewrite Hrun. f_equal. f_equal. now apply Hr.
  - destruct (X26_equalStringObjects_is_byte_equality (fun _ _ => 0) three_strings
                4096 6000 _ _ eq_refl eq_refl) as [H _].
    destruct (H _ _ eq_refl eq_refl eq_refl eq_refl eq_refl eq_refl
                ltac:(vm_compute; reflexivity) ltac:(vm_compute; reflexivity))
      as (r & Hrun & [-> | ->] & Hr).
    + exact Hrun.
    + exfalso. destruct Hr as [Hr _]. specialize (Hr eq_refl). discriminate Hr.
Defined.

End Compare.

(** ** The monotonic clock ([monotonic.c]) *)

Module Monotonic.

(** [struct timespec]: [time_t] and [long]. *)
Record timespec : Type := { tv_sec : Z; tv_nsec : Z }.

(** [getMonotonicUs_posix]; [ts] is what
    [clock_gettime(CLOCK_MONOTONIC, &ts)] has stored.  The seconds are
    converted to [uint64_t] and the arithmetic is unsigned. *)
Definition getMonotonicUs_posix (ts : timespec) : Z :=
  u64 (u64 (u64 (tv_sec ts) * 1000000) + u64 (Z.quot (tv_nsec ts) 1000)).

(** The reading in nanoseconds. *)
Definition nanoseconds (ts : timespec) : Z := tv_sec ts * 1000000000 + tv_nsec ts.

(** A reading as the clock gives it, fewer than 2^44 seconds after its
    origin. *)
Definition valid (ts : timespec) : Prop :=
  0 <= tv_sec ts < 2 ^ 44 /\ 0 <= tv_nsec ts < 1000000000.

Lemma getMonotonicUs_posix_spec ts :
  valid ts -> getMonotonicUs_posix ts = nanoseconds ts / 1000.
Proof.
  intros (Hs & Hn). unfold getMonotonicUs_posix, nanoseconds.
  rewrite Z.quot_div_nonneg by lia.
  assert (Hq : 0 <= tv_nsec ts / 1000 < 1000000).
  { split; [apply Z.div_pos; lia|apply Z.div_lt_upper_bound; lia]. }
  rewrite (u64_small (tv_sec ts)) by lia.
  rewrite (u64_small (tv_sec ts * 1000000)) by lia.
  rewrite (u64_small (tv_nsec ts / 1000)) by lia.
  rewrite u64_small by lia.
  replace (tv_sec ts * 1000000000 + tv_nsec ts)
    with (tv_nsec ts + tv_sec ts * 1000000 * 1000) by lia.
  rewrite Z.div_add by lia. lia.
Qed.

(** X27: for readings the clock can give, [getMonotonicUs_posix] is the
    reading in whole microseconds, without wrap-around: a later reading
    never gives a smaller value, and a reading at least 1000 ns later
    gives a larger one. *)
Theorem X27_monotonic_microseconds t1 t2 :
  valid t1 -> valid t2 ->
  getMonotonicUs_posix t1 = nanoseconds t1 / 1000 /\
  (nanoseconds t1 <= nanoseconds t2 ->
     getMonotonicUs_posix t1 <= getMonotonicUs_posix t2) /\
  (nanoseconds t1 + 1000 <= nanoseconds t2 ->
     getMonotonicUs_posix t1 < getMonotonicUs_posix t2).
Proof.
  intros H1 H2. rewrite !getMonotonicUs_posix_spec by assumption.
  split; [reflexivity|]. split.
  - intros Hle. apply Z.div_le_mono; lia.
  - intros Hlt.
    assert (Hstep : nanoseconds t1 / 1000 + 1 <= nanoseconds t2 / 1000).
    { replace (nanoseconds t1 / 1000 + 1) with ((nanoseconds t1 + 1 * 1000) / 1000)
        by (rewrite Z.div_add by lia; reflexivity).
      apply Z.div_le_mono; lia. }
    lia.
Qed.

Lemma X27_monotonic_microseconds_witness :
  getMonotonicUs_posix {| tv_sec := 3; tv_nsec := 999999999 |} = 3999999 /\
  getMonotonicUs_posix {| tv_sec := 3; tv_nsec := 999999999 |}
    < getMonotonicUs_posix {| tv_sec := 4; tv_nsec := 999 |}.
Proof.
  assert (H1 : valid {| tv_sec := 3; tv_nsec := 999999999 |})
    by (unfold valid; cbn; lia).
  assert (H2 : valid {| tv_sec := 4; tv_nsec := 999 |})
    by (unfold valid; cbn; lia).
  destruct (X27_monotonic_microseconds _ _ H1 H2) as (Hv & _ & Hlt).
  split; [rewrite Hv; reflexivity|]. apply Hlt. unfold nanoseconds. cbn. lia.
Defined.

End Monotonic.

(** ** The flags of a command ([server.cpp], [server.h]) *)

Module CommandFlags.

Definition C_OK : Z := 0.
Definition C_ERR : Z := -1.

Definition CMD_WRITE : Z := Z.shiftl 1 0.
Definition CMD_READONLY : Z := Z.shiftl 1 1.
Definition CMD_DENYOOM : Z := Z.shiftl 1 2.
Definition CMD_ADMIN : Z := Z.shiftl 1 4.
Definition CMD_PUBSUB : Z := Z.shiftl 1 5.
Definition CMD_NOSCRIPT : Z := Z.shiftl 1 6.
Definition CMD_RANDOM : Z := Z.shiftl 1 7.
Definition CMD_SORT_FOR_SCRIPT : Z := Z.shiftl 1 8.
Definition CMD_LOADING : Z := Z.shiftl 1 9.
Definition CMD_STALE : Z := Z.shiftl 1 10.
Definition CMD_SKIP_MONITOR : Z := Z.shiftl 1 11.
Definition CMD_SKIP_SLOWLOG : Z := Z.shiftl 1 12.
Definition CMD_ASKING : Z := Z.shiftl 1 13.
Definition CMD_FAST : Z := Z.shiftl 1 14.
Definition CMD_NO_AUTH : Z := Z.shiftl 1 15.
Definition CMD_MAY_REPLICATE : Z := Z.shiftl 1 16.
Definition CMD_CATEGORY_READ : Z := Z.shiftl 1 19.
Definition CMD_CATEGORY_WRITE : Z := Z.shiftl 1 20.
Definition CMD_CATEGORY_PUBSUB : Z := Z.shiftl 1 30.
Definition CMD_CATEGORY_ADMIN : Z := Z.shiftl 1 31.
Definition CMD_CATEGORY_FAST : Z := Z.shiftl 1 32.
Definition CMD_CATEGORY_SLOW : Z := Z.shiftl 1 33.
Definition CMD_CATEGORY_DANGEROUS : Z := Z.shiftl 1 35.
Definition CMD_SKIP_PROPOGATE : Z := Z.shiftl 1 40.
Definition CMD_ASYNC_OK : Z := Z.shiftl 1 41.

(** [tolower] in the C locale. *)
Definition tolower (c : ascii) : ascii :=
  let n := nat_of_ascii c in
  if (65 <=? n)%nat && (n <=? 90)%nat then ascii_of_nat (n + 32) else c.

Fixpoint lower (s : string) : string :=
  match s with
  | EmptyString => EmptyString
  | String c rest => String (tolower c) (lower rest)
  end.

(** [!strcasecmp(a, b)]: the two C strings are equal up to the case of
    their letters. *)
Definition same_word (a b : string) : bool :=
  String.eqb (lower (Flash.c_str a)) (lower (Flash.c_str b)).

Section Externals.

(** [ACLGetCommandCategoryFlagByName] is in [acl.cpp], which is not part
    of these sources: the flag of a category name, 0 when there is none. *)
Variable ACLGetCommandCategoryFlagByName : string -> Z.

(** The bits one word of the description sets; [None] is the word that
    makes the function return [C_ERR]. *)
Definition flag_bits (flag : string) : option Z :=
  if same_word flag "write" then Some (Z.lor CMD_WRITE CMD_CATEGORY_WRITE)
  else if same_word flag "read-only" then Some (Z.lor CMD_READONLY CMD_CATEGORY_READ)
  else if same_word flag "use-memory" then Some CMD_DENYOOM
  else if same_word flag "admin"
       then Some (Z.lor (Z.lor CMD_ADMIN CMD_CATEGORY_ADMIN) CMD_CATEGORY_DANGEROUS)
  else if same_word flag "pub-sub" then Some (Z.lor CMD_PUBSUB CMD_CATEGORY_PUBSUB)
  else if same_word flag "no-script" then Some CMD_NOSCRIPT
  else if same_word flag "random" then Some CMD_RANDOM
  else if same_word flag "to-sort" then Some CMD_SORT_FOR_SCRIPT
  else if same_word flag "ok-loading" then Some CMD_LOADING
  else if same_word flag "ok-stale" then Some CMD_STALE
  else if same_word flag "no-monitor" then Some CMD_SKIP_MONITOR
  else if same_word flag "no-slowlog" then Some CMD_SKIP_SLOWLOG
  else if same_word flag "cluster-asking" then Some CMD_ASKING
  else if same_word flag "fast" then Some (Z.lor CMD_FAST CMD_CATEGORY_FAST)
  else if same_word flag "noprop" then Some CMD_SKIP_PROPOGATE
  else if same_word flag "no-auth" then Some CMD_NO_AUTH
  else if same_word flag "may-replicate" then Some CMD_MAY_REPLICATE
  else if same_word flag "async" then Some CMD_ASYNC_OK
  else
    match flag with
    | String "@" name =>
        let catflag := ACLGetCommandCategoryFlagByName name in
        if negb (catflag =? 0) then Some catflag else None
    | _ => None
    end.

(** The [for] loop: the flags when it ends, and whether it ended
    without the early return. *)
Fixpoint parse_loop (argv : list string) (flags : Z) : Z * bool :=
  match argv with
  | [] => (flags, true)
  | flag :: rest =>
      match flag_bits flag with
      | Some bits => parse_loop rest (Z.lor flags bits)
      | None => (flags, false)
      end
  end.

(** [populateCommandTableParseFlags]: [flags] is [c->flags] before the
    call and [argv] what [sdssplitargs(strflags, &argc)] returns, [None]
    for a null pointer; the result is [c->flags] after the call and the
    value returned. *)
Definition populateCommandTableParseFlags (flags : Z) (argv : option (list string))
  : Z * Z :=
  match argv with
  | None => (flags, C_ERR)
  | Some argv =>
      let r := parse_loop argv flags in
      if snd r then
        (if Z.land (fst r) CMD_CATEGORY_FAST =? 0
         then Z.lor (fst r) CMD_CATEGORY_SLOW else fst r, C_OK)
      else (fst r, C_ERR)
  end.

(** *** Facts *)

(** All the bits of the words together. *)
Fixpoint all_bits (argv : list string) : Z :=
  match argv with
  | [] => 0
  | flag :: rest => Z.lor (default 0 (flag_bits flag)) (all_bits rest)
  end.

Lemma parse_loop_known argv : forall flags,
  Forall (fun flag => is_Some (flag_bits flag)) argv ->
  parse_loop argv flags = (Z.lor flags (all_bits argv), true).
Proof.
  induction argv as [|flag rest IH]; intros flags Hall.
  - cbn. now rewrite Z.lor_0_r.
  - inversion Hall as [|x l [bits Hb] Hrest]; subst.
    cbn [parse_loop all_bits]. rewrite Hb. cbn [default].
    rewrite IH by exact Hrest. now rewrite Z.lor_assoc.
Qed.

Lemma parse_loop_unknown argv : forall flags,
  snd (parse_loop argv flags) = true <->
  Forall (fun flag => is_Some (flag_bits flag)) argv.
Proof.
  induction argv as [|flag rest IH]; intros flags.
  - split; [constructor|reflexivity].
  - cbn [parse_loop]. destruct (flag_bits flag) as [bits|] eqn:Hb.
    + rewrite IH. split.
      * intros H. constructor; [now exists bits|exact H].
      * intros H. now inversion H.
    + split; [discriminate|]. intros H. inversion H as [|x l [bits Hb'] _]; subst.
      congruence.
Qed.

Lemma parse_loop_keeps argv : forall flags i,
  Z.testbit flags i = true -> Z.testbit (fst (parse_loop argv flags)) i = true.
Proof.
  induction argv as [|flag rest IH]; intros flags i Hi; [exact Hi|].
  cbn [parse_loop]. destruct (flag_bits flag) as [bits|]; [|exact Hi].
  apply IH. rewrite Z.lor_spec, Hi. reflexivity.
Qed.

Lemma all_bits_perm argv argv' :
  Permutation argv argv' -> all_bits argv = all_bits argv'.
Proof.
  induction 1 as [|x l l' _ IH|x y l|l l' l'' _ IH1 _ IH2]; cbn [all_bits].
  - reflexivity.
  - now rewrite IH.
  - rewrite !Z.lor_assoc. f_equal. apply Z.lor_comm.
  - now rewrite IH1.
Qed.

(** X28: [populateCommandTableParseFlags] never clears a flag of the
    command, whether it succeeds or not.  It returns [C_ERR] exactly when
    the description cannot be split or holds a word that is neither a
    known flag (compared without regard to case) nor the name of a
    category after an at sign.  When it succeeds, the flags of the command
    do not depend on the order of the words, and the command is in the
    fast or in the slow category. *)
Theorem X28_command_flags_accumulate flags argv :
  (forall i, Z.testbit flags i = true ->
     Z.testbit (fst (populateCommandTableParseFlags flags argv)) i = true) /\
  (snd (populateCommandTableParseFlags flags argv) = C_ERR <->
   argv = None \/
   exists words flag, argv = Some words /\ In flag words /\ flag_bits flag = None) /\
  (snd (populateCommandTableParseFlags flags argv) = C_OK ->
     (forall words words', argv = Some words -> Permutation words words' ->
        populateCommandTableParseFlags flags (Some words') =
        populateCommandTableParseFlags flags argv) /\
     (Z.testbit (fst (populateCommandTableParseFlags flags argv)) 32 = true \/
      Z.testbit (fst (populateCommandTableParseFlags flags argv)) 33 = true)).
Proof.
  split; [|split].
  - intros i Hi. destruct argv as [words|]; [|exact Hi].
    cbn [populateCommandTableParseFlags].
    pose proof (parse_loop_keeps words flags i Hi) as Hk.
    destruct (snd (parse_loop words flags)); cbn [fst]; [|exact Hk].
    destruct (_ =? 0); [|exact Hk]. rewrite Z.lor_spec, Hk. reflexivity.
  - destruct argv as [words|]; cbn [populateCommandTableParseFlags snd].
    + destruct (snd (parse_loop words flags)) eqn:Hok; cbn [snd].
      * split; [discriminate|]. intros [H|(ws & flag & Hw & Hin & Hnone)];
          [discriminate|]. injection Hw as <-.
        apply parse_loop_unknown in Hok. rewrite List.Forall_forall in Hok.
        destruct (Hok flag Hin) as [bits Hb]. congruence.
      * split; [|reflexivity]. intros _. right.
        assert (Hnot : ~ Forall (fun flag => is_Some (flag_bits flag)) words).
        { intros H. apply (parse_loop_unknown words flags) in H. congruence. }
        apply not_Forall_Exists in Hnot;
          [|intros x; destruct (flag_bits x); [left; eauto|right; intros [? ?]; discriminate]].
        apply List.Exists_exists in Hnot. destruct Hnot as (flag & Hin & Hno).
        exists words, flag. split; [reflexivity|]. split; [exact Hin|].
        destruct (flag_bits flag) eqn:Hfb; [exfalso; apply Hno; eauto|reflexivity].
    + split; [intros _; now left|reflexivity].
  - intros Hok. destruct argv as [words|]; [|discriminate].
    cbn [populateCommandTableParseFlags] in *.
    destruct (snd (parse_loop words flags)) eqn:Hs; [|discriminate].
    apply parse_loop_unknown in Hs. split.
    + intros ws ws' Hw Hperm. injection Hw as <-.
      assert (Hs' : Forall (fun flag => is_Some (flag_bits flag)) ws').
      { rewrite List.Forall_forall in *. intros x Hx. apply Hs.
        now apply (Permutation_in x (Permutation_sym Hperm)). }
      rewrite (parse_loop_known words flags Hs), (parse_loop_known ws' flags Hs').
      cbn [fst snd]. now rewrite (all_bits_perm _ _ Hperm).
    + cbn [fst].
      destruct (Z.eqb_spec (Z.land (fst (parse_loop words flags)) CMD_CATEGORY_FAST) 0)
        as [Hz|Hnz].
      * right. rewrite Z.lor_spec. change (Z.testbit CMD_CATEGORY_SLOW 33) with true.
        apply orb_true_r.
      * left. destruct (Z.testbit (fst (parse_loop words flags)) 32) eqn:Hb;
          [reflexivity|]. exfalso. apply Hnz. apply Z.bits_inj'. intros n Hn.
        rewrite Z.land_spec, Z.bits_0. unfold CMD_CATEGORY_FAST.
        rewrite Z.shiftl_1_l, Z.pow2_bits_eqb by lia.
        destruct (Z.eqb_spec 32 n) as [<-|_]; [now rewrite Hb|apply andb_false_r].
Qed.

End Externals.

(** No category is known. *)
Definition no_categories (name : string) : Z := 0.

Lemma X28_command_flags_accumulate_witness :
  populateCommandTableParseFlags no_categories 0 (Some ["fast"; "write"]%string)
    = populateCommandTableParseFlags no_categories 0 (Some ["write"; "fast"]%string) /\
  populateCommandTableParseFlags no_categories 0 (Some ["Write"; "FAST"]%string)
    = (Z.lor (Z.lor (Z.lor CMD_WRITE CMD_CATEGORY_WRITE) CMD_FAST) CMD_CATEGORY_FAST,
       C_OK) /\
  snd (populateCommandTableParseFlags no_categories 0 (Some ["write"; "@none"]%string))
    = C_ERR.
Proof.
  split; [|split].
  - destruct (X28_command_flags_accumulate no_categories 0
                (Some ["write"; "fast"]%string)) as (_ & _ & H).
    destruct (H ltac:(vm_compute; reflexivity)) as (Hperm & _).
    apply (Hperm ["write"; "fast"]%string ["fast"; "write"]%string eq_refl).
    apply perm_swap.
  - vm_compute. reflexivity.
  - apply (X28_command_flags_accumulate no_categories 0
             (Some ["write"; "@none"]%string)).
    right. exists ["write"; "@none"]%string, "@none"%string.
    split; [reflexivity|]. split; [right; left; reflexivity|].
    vm_compute. reflexivity.
Defined.

End CommandFlags.

(** ** Comparing the keys of a table ([server.cpp]) *)

Module Keys.

Import Obj.
Import Propagate.

(** [dictSdsKeyCompare] on the strings behind the two pointers; the
    lengths are taken as [int], and a negative length makes [memcmp] read
    past the end of the strings. *)
Definition dictSdsKeyCompare (key1 key2 : sds) : M world Z :=
  let l1 := Compare.s32 (sdslen key1) in
  let l2 := Compare.s32 (sdslen key2) in
  if negb (l1 =? l2) then ret 0
  else if l1 <? 0 then undefined "memcmp reads past the end of the strings"
  else ret (if Compare.memcmp (buf key1) (buf key2) (Z.to_nat l1) =? 0
            then 1 else 0).

Section Externals.

Variable expire_init : Z.

Definition dictEncObjKeyCompare (key1 key2 : Z) : M world Z :=
  let o1 := key1 in
  let o2 := key2 in
  do obj1 <- deref o1;
  do both_int <- (if encoding obj1 =? OBJ_ENCODING_INT then
                    do obj2 <- deref o2; ret (encoding obj2 =? OBJ_ENCODING_INT)
                  else ret false);
  if both_int then
    do obj2 <- deref o2;
    ret (if ptrFromObj o1 obj1 =? ptrFromObj o2 obj2 then 1 else 0)
  else
    do obj1 <- deref o1;
    do o1 <- (if negb (getrefcount obj1 =? OBJ_STATIC_REFCOUNT)
              then Strings.getDecodedObject expire_init o1 else ret o1);
    do obj2 <- deref o2;
    do o2 <- (if negb (getrefcount obj2 =? OBJ_STATIC_REFCOUNT)
              then Strings.getDecodedObject expire_init o2 else ret o2);
    do s1 <- szFromObj o1;
    do s2 <- szFromObj o2;
    do cmp <- dictSdsKeyCompare s1 s2;
    do obj1 <- deref o1;
    exec (if negb (getrefcount obj1 =? OBJ_STATIC_REFCOUNT)
          then decrRefCount o1 else ret tt);
    do obj2 <- deref o2;
    exec (if negb (getrefcount obj2 =? OBJ_STATIC_REFCOUNT)
          then decrRefCount o2 else ret tt);
    ret cmp.

(** *** Facts *)

Lemma retained_fields k obj :
  encoding (retained k obj) = encoding obj /\
  sdsdata (retained k obj) = sdsdata obj /\
  type (retained k obj) = type obj.
Proof. unfold retained. destruct (_ =? _); repeat split. Qed.

Lemma retained_not_static k obj :
  wf_obj obj ->
  getrefcount obj = OBJ_SHARED_REFCOUNT \/
  (1 <= getrefcount obj /\ getrefcount obj + Z.of_nat k < OBJ_STATIC_REFCOUNT) ->
  (getrefcount (retained k obj) =? OBJ_STATIC_REFCOUNT) = false.
Proof.
  intros Hwf [Hs|[H1 Hroom]]; apply Z.eqb_neq.
  - rewrite retained_shared by exact Hs. rewrite Hs. discriminate.
  - destruct (retained_counted k obj Hwf H1 Hroom) as (_ & Hg & _). lia.
Qed.

Lemma getDecodedObject_sds w o obj :
  heap w !! o = Some obj -> sdsEncodedObject obj = true ->
  Strings.getDecodedObject expire_init o w = (exec incrRefCount o; ret o) w.
Proof.
  intros Ho He. unfold Strings.getDecodedObject.
  rewrite (bind_Done _ _ _ _ _ (deref_Some w o obj Ho)). now rewrite He.
Qed.

Lemma dictSdsKeyCompare_spec w s1 s2 :
  sdslen s1 < 2 ^ 31 -> sdslen s2 < 2 ^ 31 ->
  exists r, dictSdsKeyCompare s1 s2 w = Done (r, w) /\
            (r = 0 \/ r = 1) /\ (r = 1 <-> buf s1 = buf s2).
Proof.
  intros H1 H2. unfold dictSdsKeyCompare, sdslen in *.
  assert (Hs : forall l : list Z, Z.of_nat (length l) < 2 ^ 31 ->
            Compare.s32 (Z.of_nat (length l)) = Z.of_nat (length l)).
  { intros l Hl. unfold Compare.s32. rewrite u32_small by lia.
    destruct (Z.ltb_spec (Z.of_nat (length l)) (2 ^ 31)); lia. }
  rewrite !Hs by assumption.
  destruct (Z.eqb_spec (Z.of_nat (length (buf s1))) (Z.of_nat (length (buf s2))))
    as [Heq|Hne]; cbn [negb].
  - destruct (Z.ltb_spec (Z.of_nat (length (buf s1))) 0); [lia|].
    rewrite Nat2Z.id. unfold ret. eexists. split; [reflexivity|].
    destruct (Z.eqb_spec (Compare.memcmp (buf s1) (buf s2) (length (buf s1))) 0)
      as [Hz|Hnz].
    + split; [now right|]. split; [intros _|reflexivity].
      apply Compare.memcmp_zero in Hz; [|lia|lia].
      rewrite firstn_all in Hz. rewrite Hz.
      replace (length (buf s1)) with (length (buf s2)) by lia. apply firstn_all.
    + split; [now left|]. split; [discriminate|].
      intros E. exfalso. apply Hnz. rewrite E. apply Compare.memcmp_same.
  - unfold ret. exists 0. split; [reflexivity|]. split; [now left|].
    split; [discriminate|]. intros E. rewrite E in Hne. contradiction.
Qed.

(** The keys that take a reference during the comparison: all but the
    ones on the stack. *)
Definition pins (obj : redisObject) (o : Z) : list Z :=
  if getrefcount obj =? OBJ_STATIC_REFCOUNT then [] else [o].

Lemma held_current w h l o obj :
  heap w = held l h -> h !! o = Some obj ->
  heap w !! o = Some (retained (times l o) obj).
Proof. intros Hw Ho. now rewrite Hw, held_lookup, Ho. Qed.

Lemma holdable_not_static h l o obj k :
  h !! o = Some obj -> holdable h l o -> (k <= times l o)%nat ->
  (getrefcount (retained k obj) =? OBJ_STATIC_REFCOUNT) = false.
Proof.
  intros Ho (obj' & Ho' & Hwf & Hc) Hk.
  assert (obj' = obj) by congruence. subst obj'.
  apply retained_not_static; [exact Hwf|].
  destruct Hc as [Hs|[H1 Hroom]]; [now left|right; lia].
Qed.

Lemma times_self o l : times (o :: l) o = S (times l o).
Proof. cbn [times]. now rewrite Z.eqb_refl. Qed.

Lemma decode_guarded {A} w h l o obj (k : Z -> M world A) :
  heap w = held l h -> h !! o = Some obj -> sdsEncodedObject obj = true ->
  getrefcount obj = OBJ_STATIC_REFCOUNT /\ times l o = 0%nat \/
  getrefcount obj <> OBJ_STATIC_REFCOUNT /\ holdable h (o :: l) o ->
  (do ob <- deref o;
   do o' <- (if negb (getrefcount ob =? OBJ_STATIC_REFCOUNT)
             then Strings.getDecodedObject expire_init o else ret o);
   k o') w
  = k o (set_heap (fun _ => held (pins obj o ++ l) h) w).
Proof.
  intros Hw Ho Hsds Hstatic.
  pose proof (held_current w h l o obj Hw Ho) as Hcur.
  rewrite (bind_Done _ _ _ _ _ (deref_Some w o _ Hcur)).
  destruct Hstatic as [[Hs Ht]|[Hns Hh]].
  - rewrite Ht, retained_none, Hs, Z.eqb_refl. cbn [negb].
    unfold pins. rewrite Hs, Z.eqb_refl. cbn [app].
    unfold bind at 1, ret at 1. now rewrite set_heap_const.
  - rewrite (holdable_not_static h (o :: l) o obj (times l o) Ho Hh)
      by (rewrite times_self; lia).
    cbn [negb]. unfold pins.
    destruct (Z.eqb_spec (getrefcount obj) OBJ_STATIC_REFCOUNT) as [|_];
      [contradiction|]. cbn [app].
    assert (Hsds' : sdsEncodedObject (retained (times l o) obj) = true).
    { unfold sdsEncodedObject in *.
      now destruct (retained_fields (times l o) obj) as (-> & _). }
    assert (Hrun : Strings.getDecodedObject expire_init o w
                   = Done (o, set_heap (fun _ => held (o :: l) h) w)).
    { rewrite (getDecodedObject_sds w o _ Hcur Hsds').
      now rewrite (bind_Done _ _ _ _ _ (incr_held w h l o Hw Hh)). }
    now rewrite (bind_Done _ _ _ _ _ Hrun).
Qed.

Lemma release_guarded {A} w h l o obj (k : M world A) :
  heap w = held (pins obj o ++ l) h -> h !! o = Some obj ->
  getrefcount obj = OBJ_STATIC_REFCOUNT /\ times l o = 0%nat \/
  getrefcount obj <> OBJ_STATIC_REFCOUNT /\ holdable h (o :: l) o ->
  (do ob <- deref o;
   exec (if negb (getrefcount ob =? OBJ_STATIC_REFCOUNT)
         then decrRefCount o else ret tt);
   k) w
  = k (set_heap (fun _ => held l h) w).
Proof.
  intros Hw Ho Hstatic.
  pose proof (held_current w h _ o obj Hw Ho) as Hcur.
  rewrite (bind_Done _ _ _ _ _ (deref_Some w o _ Hcur)).
  unfold pins in *.
  destruct Hstatic as [[Hs Ht]|[Hns Hh]].
  - rewrite Hs, Z.eqb_refl in *. cbn [app] in *.
    rewrite Ht, retained_none, Hs, Z.eqb_refl. cbn [negb].
    unfold bind at 1, ret at 1. now rewrite set_heap_const.
  - destruct (Z.eqb_spec (getrefcount obj) OBJ_STATIC_REFCOUNT) as [|_];
      [contradiction|]. cbn [app] in *.
    rewrite (holdable_not_static h (o :: l) o obj _ Ho Hh) by lia.
    cbn [negb].
    now rewrite (bind_Done _ _ _ _ _ (decr_held w h l o Hw Hh)).
Qed.

Lemma times_pins obj o x :
  times (pins obj o) x =
    if getrefcount obj =? OBJ_STATIC_REFCOUNT then 0%nat
    else if o =? x then 1%nat else 0%nat.
Proof.
  unfold pins. destruct (_ =? OBJ_STATIC_REFCOUNT); [reflexivity|].
  cbn [times]. now destruct (o =? x).
Qed.

Lemma holdable_is_counted h l o obj :
  h !! o = Some obj -> holdable h l o ->
  getrefcount obj <> OBJ_STATIC_REFCOUNT.
Proof.
  intros Ho (obj' & Ho' & _ & Hc). assert (obj' = obj) by congruence. subst.
  destruct Hc as [Hs|[_ Hroom]]; [rewrite Hs; discriminate|lia].
Qed.

Lemma szFromObj_held w h l o obj s :
  heap w = held l h -> h !! o = Some obj -> sdsdata obj = Some s ->
  szFromObj o w = Done (s, w).
Proof.
  intros Hw Ho Hs. unfold szFromObj.
  rewrite (bind_Done _ _ _ _ _ (deref_Some w o _ (held_current w h l o obj Hw Ho))).
  destruct (retained_fields (times l o) obj) as (_ & -> & _). now rewrite Hs.
Qed.

(** Two keys that hold integers are compared by their values. *)
Lemma compare_integers w key1 key2 obj1 obj2 :
  heap w !! key1 = Some obj1 -> heap w !! key2 = Some obj2 ->
  encoding obj1 = OBJ_ENCODING_INT -> encoding obj2 = OBJ_ENCODING_INT ->
  dictEncObjKeyCompare key1 key2 w
  = Done ((if m_ptr obj1 =? m_ptr obj2 then 1 else 0), w).
Proof.
  intros H1 H2 E1 E2. unfold dictEncObjKeyCompare.
  rewrite (bind_Done _ _ _ _ _ (deref_Some w key1 obj1 H1)).
  rewrite E1, Z.eqb_refl.
  assert (Hboth : (do obj2 <- deref key2; ret (encoding obj2 =? OBJ_ENCODING_INT)) w
                  = Done (true, w)).
  { rewrite (bind_Done _ _ _ _ _ (deref_Some w key2 obj2 H2)).
    now rewrite E2, Z.eqb_refl. }
  rewrite (bind_Done _ _ _ _ _ Hboth).
  rewrite (bind_Done _ _ _ _ _ (deref_Some w key2 obj2 H2)).
  unfold ptrFromObj. rewrite E1, E2.
  change (OBJ_ENCODING_INT =? OBJ_ENCODING_EMBSTR) with false. reflexivity.
Qed.

(** Two keys that hold strings are compared by their bytes, and no
    reference is left behind. *)
Lemma compare_strings w key1 key2 obj1 obj2 s1 s2 :
  heap w !! key1 = Some obj1 -> heap w !! key2 = Some obj2 ->
  sdsEncodedObject obj1 = true -> sdsEncodedObject obj2 = true ->
  sdsdata obj1 = Some s1 -> sdsdata obj2 = Some s2 ->
  sdslen s1 < 2 ^ 31 -> sdslen s2 < 2 ^ 31 ->
  getrefcount obj1 = OBJ_STATIC_REFCOUNT \/ holdable (heap w) [key1; key2] key1 ->
  getrefcount obj2 = OBJ_STATIC_REFCOUNT \/ holdable (heap w) [key1; key2] key2 ->
  exists r, dictEncObjKeyCompare key1 key2 w = Done (r, w) /\
            (r = 0 \/ r = 1) /\ (r = 1 <-> buf s1 = buf s2).
Proof.
  intros H1 H2 E1 E2 D1 D2 L1 L2 C1 C2.
  set (h := heap w) in *.
  assert (Hint : (encoding obj1 =? OBJ_ENCODING_INT) = false).
  { unfold sdsEncodedObject in E1. apply Z.eqb_neq. intros E. rewrite E in E1.
    discriminate. }
  assert (Hsame : key1 = key2 -> obj1 = obj2) by (intros <-; congruence).
  assert (C1' : getrefcount obj1 = OBJ_STATIC_REFCOUNT \/
                getrefcount obj1 <> OBJ_STATIC_REFCOUNT /\ holdable h [key1; key2] key1).
  { destruct C1 as [|Hh]; [now left|right].
    split; [exact (holdable_is_counted h _ key1 obj1 H1 Hh)|exact Hh]. }
  assert (C2' : getrefcount obj2 = OBJ_STATIC_REFCOUNT \/
                getrefcount obj2 <> OBJ_STATIC_REFCOUNT /\ holdable h [key1; key2] key2).
  { destruct C2 as [|Hh]; [now left|right].
    split; [exact (holdable_is_counted h _ key2 obj2 H2 Hh)|exact Hh]. }
  clear C1 C2.
  assert (T12 : forall x, times [key1; key2] x
                 = ((if Z.eqb key1 x then 1 else 0) + (if Z.eqb key2 x then 1 else 0))%nat).
  { intros x. cbn [times]. lia. }
  unfold dictEncObjKeyCompare.
  rewrite (bind_Done _ _ _ _ _ (deref_Some w key1 obj1 H1)).
  rewrite Hint. unfold bind at 1, ret at 1. cbv iota.
  (* the first key is decoded *)
  rewrite (decode_guarded w h [] key1 obj1 _ (eq_sym (held_nil h)) H1 E1); cycle 1.
  { destruct C1' as [Hs|[Hns Hh]]; [left; split; [exact Hs|reflexivity]|right].
    split; [exact Hns|]. apply (holdable_fewer _ _ _ _ Hh).
    rewrite T12. cbn [times]. rewrite Z.eqb_refl. lia. }
  rewrite app_nil_r.
  set (w1 := set_heap (fun _ => held (pins obj1 key1) h) w).
  (* the second key is decoded *)
  rewrite (decode_guarded w1 h (pins obj1 key1) key2 obj2 _ eq_refl H2 E2); cycle 1.
  { rewrite times_pins.
    destruct C2' as [Hs|[Hns Hh]]; [left; split; [exact Hs|]|right].
    - destruct (Z.eqb_spec (getrefcount obj1) OBJ_STATIC_REFCOUNT) as [|Hn];
        [reflexivity|].
      destruct (Z.eqb_spec key1 key2) as [E|]; [|reflexivity].
      rewrite (Hsame E) in Hn. contradiction.
    - split; [exact Hns|]. apply (holdable_fewer _ _ _ _ Hh).
      rewrite T12. cbn [times]. rewrite times_pins, Z.eqb_refl.
      destruct (_ =? OBJ_STATIC_REFCOUNT), (key1 =? key2); lia. }
  set (w2 := set_heap (fun _ => held (pins obj2 key2 ++ pins obj1 key1) h) w1).
  assert (Hw2 : heap w2 = held (pins obj1 key1 ++ pins obj2 key2) h).
  { cbn [w2 heap set_heap]. apply held_ext. intros x. rewrite !times_app. lia. }
  (* the strings are compared *)
  rewrite (bind_Done _ _ _ _ _ (szFromObj_held w2 h _ key1 obj1 s1 Hw2 H1 D1)).
  rewrite (bind_Done _ _ _ _ _ (szFromObj_held w2 h _ key2 obj2 s2 Hw2 H2 D2)).
  destruct (dictSdsKeyCompare_spec w2 s1 s2 L1 L2) as (r & Hr & Hbit & Hiff).
  rewrite (bind_Done _ _ _ _ _ Hr).
  (* the references are given back *)
  rewrite (release_guarded w2 h (pins obj2 key2) key1 obj1 _ Hw2 H1); cycle 1.
  { rewrite times_pins.
    destruct C1' as [Hs|[Hns Hh]]; [left; split; [exact Hs|]|right].
    - destruct (Z.eqb_spec (getrefcount obj2) OBJ_STATIC_REFCOUNT) as [|Hn];
        [reflexivity|].
      destruct (Z.eqb_spec key2 key1) as [E|]; [|reflexivity].
      rewrite <- (Hsame (eq_sym E)) in Hn. contradiction.
    - split; [exact Hns|]. apply (holdable_fewer _ _ _ _ Hh).
      rewrite T12. cbn [times]. rewrite times_pins, Z.eqb_refl.
      destruct (_ =? OBJ_STATIC_REFCOUNT), (key2 =? key1); lia. }
  set (w3 := set_heap (fun _ => held (pins obj2 key2) h) w2).
  assert (Hw3 : heap w3 = held (pins obj2 key2 ++ []) h)
    by (now rewrite app_nil_r).
  rewrite (release_guarded w3 h [] key2 obj2 _ Hw3 H2); cycle 1.
  { destruct C2' as [Hs|[Hns Hh]]; [left; split; [exact Hs|reflexivity]|right].
    split; [exact Hns|]. apply (holdable_fewer _ _ _ _ Hh).
    rewrite T12. cbn [times]. rewrite Z.eqb_refl.
    destruct (key1 =? key2); lia. }
  unfold ret. exists r. split; [|split; assumption].
  f_equal. f_equal. subst w3 w2 w1.
  rewrite !set_heap_const_twice, held_nil. now apply set_heap_const.
Qed.

(** *** The decimal text of a number is short *)

Lemma double_digits d :
  (Decimal.nb_digits (Decimal.Little.double d) <= S (Decimal.nb_digits d) /\
   Decimal.nb_digits (Decimal.Little.succ_double d) <= S (Decimal.nb_digits d))%nat.
Proof.
  induction d as [|d [IH1 IH2]|d [IH1 IH2]|d [IH1 IH2]|d [IH1 IH2]|d [IH1 IH2]
                 |d [IH1 IH2]|d [IH1 IH2]|d [IH1 IH2]|d [IH1 IH2]|d [IH1 IH2]];
    cbn [Decimal.Little.double Decimal.Little.succ_double Decimal.nb_digits]; lia.
Qed.

Lemma little_digits p (n : nat) :
  Z.pos p < 2 ^ Z.of_nat n ->
  (Decimal.nb_digits (Pos.to_little_uint p) <= n)%nat.
Proof.
  revert n. induction p as [p IH|p IH|]; intros n Hp.
  - destruct n as [|n]; [cbn in Hp; lia|].
    rewrite Nat2Z.inj_succ, Z.pow_succ_r in Hp by lia.
    cbn [Pos.to_little_uint].
    pose proof (proj2 (double_digits (Pos.to_little_uint p))).
    specialize (IH n ltac:(lia)). lia.
  - destruct n as [|n]; [cbn in Hp; lia|].
    rewrite Nat2Z.inj_succ, Z.pow_succ_r in Hp by lia.
    cbn [Pos.to_little_uint].
    pose proof (proj1 (double_digits (Pos.to_little_uint p))).
    specialize (IH n ltac:(lia)). lia.
  - destruct n as [|n]; [cbn in Hp; lia|]. cbn. lia.
Qed.

Lemma nb_digits_revapp d d' :
  Decimal.nb_digits (Decimal.revapp d d')
  = (Decimal.nb_digits d + Decimal.nb_digits d')%nat.
Proof.
  revert d'. induction d; intros d'; cbn [Decimal.revapp Decimal.nb_digits];
    [reflexivity|rewrite IHd; cbn [Decimal.nb_digits]; lia ..].
Qed.

Lemma length_string_of_uint d :
  (String.length (NilZero.string_of_uint d) <= S (Decimal.nb_digits d))%nat.
Proof.
  assert (H : forall u, String.length (NilEmpty.string_of_uint u)
                        = Decimal.nb_digits u)
    by (induction u; cbn; congruence).
  destruct d; cbn [NilZero.string_of_uint]; try (rewrite H; lia). cbn. lia.
Qed.

Lemma length_ll2string value :
  - 2 ^ 63 <= value < 2 ^ 63 ->
  Z.of_nat (length (Strings.ll2string value)) < 2 ^ 31.
Proof.
  intros Hv. unfold Strings.ll2string, sdsfromlonglong, bytes_of_string.
  rewrite length_map.
  assert (Hlen : forall s, length (list_ascii_of_string s) = String.length s)
    by (induction s; cbn; congruence).
  rewrite Hlen.
  assert (Hp : forall p, Z.pos p < 2 ^ Z.of_nat 64 ->
             (String.length (NilZero.string_of_uint (Pos.to_uint p)) <= 65)%nat).
  { intros p Hp. pose proof (length_string_of_uint (Pos.to_uint p)) as H.
    unfold Pos.to_uint, Decimal.rev in *. rewrite nb_digits_revapp in H.
    cbn [Decimal.nb_digits] in H.
    pose proof (little_digits p 64 Hp). lia. }
  destruct value as [|p|p]; cbn [Z.to_int NilZero.string_of_int String.length].
  - cbn. lia.
  - specialize (Hp p ltac:(change (2 ^ Z.of_nat 64) with (2 ^ 64); lia)). lia.
  - specialize (Hp p ltac:(change (2 ^ Z.of_nat 64) with (2 ^ 64); lia)). lia.
Qed.

(** *** An integer key against a string key *)

Lemma held_insert l h d x :
  times l d = 0%nat -> held l (<[d := x]> h) = <[d := x]> (held l h).
Proof.
  intros Ht. apply map_eq. intros a. rewrite held_lookup.
  destruct (decide (a = d)) as [->|Hne].
  - rewrite !lookup_insert_eq. cbn [option_map]. now rewrite Ht, retained_none.
  - rewrite !lookup_insert_ne by congruence. now rewrite held_lookup.
Qed.

Lemma held_delete l h d : delete d (held l h) = held l (delete d h).
Proof.
  apply map_eq. intros a. rewrite held_lookup.
  destruct (decide (a = d)) as [->|Hne].
  - now rewrite !lookup_delete_eq.
  - rewrite !lookup_delete_ne by congruence. now rewrite held_lookup.
Qed.

Lemma holdable_insert_other h l o d x :
  o <> d -> holdable h l o -> holdable (<[d := x]> h) l o.
Proof.
  intros Hne (obj & Ho & Hrest). exists obj. split; [|exact Hrest].
  now rewrite lookup_insert_ne by congruence.
Qed.

Lemma s64_range x : - 2 ^ 63 <= s64 x < 2 ^ 63.
Proof.
  unfold s64, u64, wrap.
  pose proof (Z.mod_pos_bound x (2 ^ 64) ltac:(lia)).
  destruct (Z.ltb_spec (x mod 2 ^ 64) (2 ^ 63)); lia.
Qed.

Lemma getDecodedObject_integer w o obj :
  heap w !! o = Some obj ->
  type obj = OBJ_STRING -> encoding obj = OBJ_ENCODING_INT ->
  exists d dec w',
    Strings.getDecodedObject expire_init o w = Done (d, w') /\
    Strings.fresh_copy w w' d dec /\
    heap w' = <[d := dec]> (heap w) /\
    sdsEncodedObject dec = true /\
    sdsdata dec = Some {| buf := Strings.ll2string (s64 (m_ptr obj)); avail := 0 |}.
Proof.
  intros Ho Hty Hint. unfold Strings.getDecodedObject.
  rewrite (bind_Done _ _ _ _ _ (deref_Some w o obj Ho)).
  assert (Hsds : sdsEncodedObject obj = false)
    by (unfold sdsEncodedObject; now rewrite Hint).
  rewrite Hsds, Hty, Hint, !Z.eqb_refl. cbn [andb].
  unfold ptrFromObj. rewrite Hint.
  change (OBJ_ENCODING_INT =? OBJ_ENCODING_EMBSTR) with false. cbv iota.
  apply Strings.createStringObject_text.
Qed.

Lemma release_fresh {A} w d dec (k : M world A) :
  heap w !! d = Some dec -> refcount dec = 1 -> type dec = OBJ_STRING ->
  (do ob <- deref d;
   exec (if negb (getrefcount ob =? OBJ_STATIC_REFCOUNT)
         then decrRefCount d else ret tt);
   k) w
  = k (released d dec w).
Proof.
  intros Hd Hr Ht.
  rewrite (bind_Done _ _ _ _ _ (deref_Some w d dec Hd)).
  destruct (refcount_one dec Hr) as (_ & Hg). rewrite Hg.
  change (1 =? OBJ_STATIC_REFCOUNT) with false. cbn [negb].
  now rewrite (bind_Done _ _ _ _ _
                 (decrRefCount_string w d dec Hd ltac:(unfold wf_obj; lia) Hg Ht)).
Qed.

Lemma heap_released d dec w : heap (released d dec w) = delete d (heap w).
Proof. reflexivity. Qed.

Lemma compare_integer_with_string w key1 key2 obj1 obj2 s2 :
  heap w !! key1 = Some obj1 -> heap w !! key2 = Some obj2 ->
  type obj1 = OBJ_STRING -> encoding obj1 = OBJ_ENCODING_INT ->
  getrefcount obj1 <> OBJ_STATIC_REFCOUNT ->
  sdsEncodedObject obj2 = true -> sdsdata obj2 = Some s2 ->
  sdslen s2 < 2 ^ 31 ->
  getrefcount obj2 = OBJ_STATIC_REFCOUNT \/ holdable (heap w) [key2] key2 ->
  (forall a, brk w <= a -> heap w !! a = None) ->
  exists r w', dictEncObjKeyCompare key1 key2 w = Done (r, w') /\
               heap w' = heap w /\ (r = 0 \/ r = 1) /\
               (r = 1 <-> buf s2 = Strings.ll2string (s64 (m_ptr obj1))).
Proof.
  intros H1 H2 T1 E1 N1 E2 D2 L2 C2 Hbrk.
  set (h := heap w) in *.
  assert (C2' : getrefcount obj2 = OBJ_STATIC_REFCOUNT \/
                getrefcount obj2 <> OBJ_STATIC_REFCOUNT /\ holdable h [key2] key2).
  { destruct C2 as [|Hh]; [now left|right].
    split; [exact (holdable_is_counted h _ key2 obj2 H2 Hh)|exact Hh]. }
  clear C2.
  unfold dictEncObjKeyCompare.
  rewrite (bind_Done _ _ _ _ _ (deref_Some w key1 obj1 H1)).
  rewrite E1, Z.eqb_refl.
  assert (Hboth : (do obj2 <- deref key2; ret (encoding obj2 =? OBJ_ENCODING_INT)) w
                  = Done (false, w)).
  { rewrite (bind_Done _ _ _ _ _ (deref_Some w key2 obj2 H2)). unfold ret.
    destruct (Z.eqb_spec (encoding obj2) OBJ_ENCODING_INT) as [E|]; [|reflexivity].
    unfold sdsEncodedObject in E2. rewrite E in E2. discriminate. }
  rewrite (bind_Done _ _ _ _ _ Hboth).
  (* the integer is written out as a fresh string *)
  rewrite (bind_Done _ _ _ _ _ (deref_Some w key1 obj1 H1)).
  apply Z.eqb_neq in N1. rewrite N1. cbn [negb].
  destruct (getDecodedObject_integer w key1 obj1 H1 T1 E1)
    as (d & dec & w1 & Hrun & Hfresh & Hw1 & Ed & Dd).
  rewrite (bind_Done _ _ _ _ _ Hrun).
  destruct Hfresh as (Hd & _ & Hr & Ht & _).
  assert (Hnew : h !! d = None) by (now apply Hbrk).
  assert (Hd2 : key2 <> d) by congruence.
  set (h1 := <[d := dec]> h) in *.
  assert (H2' : h1 !! key2 = Some obj2)
    by (unfold h1; now rewrite lookup_insert_ne by congruence).
  assert (Hdd : h1 !! d = Some dec) by (unfold h1; now rewrite lookup_insert_eq).
  (* the string key is decoded *)
  rewrite (decode_guarded w1 h1 [] key2 obj2 _
             ltac:(now rewrite held_nil) H2' E2); cycle 1.
  { destruct C2' as [Hs|[Hns Hh]]; [left; split; [exact Hs|reflexivity]|right].
    split; [exact Hns|]. now apply holdable_insert_other. }
  set (w2 := set_heap (fun _ => held (pins obj2 key2 ++ []) h1) w1).
  assert (Hw2 : heap w2 = held (pins obj2 key2 ++ []) h1) by reflexivity.
  assert (Hpd : times (pins obj2 key2 ++ []) d = 0%nat).
  { rewrite app_nil_r, times_pins.
    destruct (getrefcount obj2 =? OBJ_STATIC_REFCOUNT); [reflexivity|].
    now destruct (Z.eqb_spec key2 d). }
  (* the strings are compared *)
  rewrite (bind_Done _ _ _ _ _ (szFromObj_held w2 h1 _ d dec _ Hw2 Hdd Dd)).
  rewrite (bind_Done _ _ _ _ _ (szFromObj_held w2 h1 _ key2 obj2 s2 Hw2 H2' D2)).
  destruct (dictSdsKeyCompare_spec w2
              {| buf := Strings.ll2string (s64 (m_ptr obj1)); avail := 0 |} s2
              ltac:(apply length_ll2string, s64_range) L2)
    as (r & Hcmp & Hbit & Hiff).
  rewrite (bind_Done _ _ _ _ _ Hcmp).
  (* the fresh string is freed, the reference given back *)
  rewrite (release_fresh w2 d dec _
             ltac:(rewrite Hw2, held_lookup, Hdd, Hpd; cbn [option_map];
                   now rewrite retained_none) Hr Ht).
  set (w3 := released d dec w2).
  assert (Hw3 : heap w3 = held (pins obj2 key2 ++ []) h).
  { unfold w3. rewrite heap_released, Hw2, held_delete. unfold h1.
    now rewrite delete_insert_id. }
  rewrite (release_guarded w3 h [] key2 obj2 _ Hw3 H2); cycle 1.
  { destruct C2' as [Hs|[Hns Hh]]; [left; split; [exact Hs|reflexivity]|right].
    split; [exact Hns|exact Hh]. }
  unfold ret. eexists r, _. split; [reflexivity|].
  split; [cbn [heap set_heap]; apply held_nil|]. split; [exact Hbit|].
  rewrite Hiff. cbn [buf]. split; congruence.
Qed.

Lemma compare_string_with_integer w key1 key2 obj1 obj2 s1 :
  heap w !! key1 = Some obj1 -> heap w !! key2 = Some obj2 ->
  sdsEncodedObject obj1 = true -> sdsdata obj1 = Some s1 ->
  sdslen s1 < 2 ^ 31 ->
  getrefcount obj1 = OBJ_STATIC_REFCOUNT \/ holdable (heap w) [key1] key1 ->
  type obj2 = OBJ_STRING -> encoding obj2 = OBJ_ENCODING_INT ->
  getrefcount obj2 <> OBJ_STATIC_REFCOUNT ->
  (forall a, brk w <= a -> heap w !! a = None) ->
  exists r w', dictEncObjKeyCompare key1 key2 w = Done (r, w') /\
               heap w' = heap w /\ (r = 0 \/ r = 1) /\
               (r = 1 <-> buf s1 = Strings.ll2string (s64 (m_ptr obj2))).
Proof.
  intros H1 H2 E1 D1 L1 C1 T2 E2 N2 Hbrk.
  set (h := heap w) in *.
  assert (C1' : getrefcount obj1 = OBJ_STATIC_REFCOUNT \/
                getrefcount obj1 <> OBJ_STATIC_REFCOUNT /\ holdable h [key1] key1).
  { destruct C1 as [|Hh]; [now left|right].
    split; [exact (holdable_is_counted h _ key1 obj1 H1 Hh)|exact Hh]. }
  clear C1.
  assert (Hint : (encoding obj1 =? OBJ_ENCODING_INT) = false).
  { unfold sdsEncodedObject in E1. apply Z.eqb_neq. intros E. rewrite E in E1.
    discriminate. }
  assert (H12 : key1 <> key2).
  { intros E. rewrite E in H1. assert (obj1 = obj2) by congruence. subst obj2.
    rewrite E2 in Hint. discriminate. }
  unfold dictEncObjKeyCompare.
  rewrite (bind_Done _ _ _ _ _ (deref_Some w key1 obj1 H1)).
  rewrite Hint. unfold bind at 1, ret at 1. cbv iota.
  (* the string key is decoded *)
  rewrite (decode_guarded w h [] key1 obj1 _ (eq_sym (held_nil h)) H1 E1); cycle 1.
  { destruct C1' as [Hs|[Hns Hh]]; [left; split; [exact Hs|reflexivity]|right].
    split; [exact Hns|exact Hh]. }
  set (w1 := set_heap (fun _ => held (pins obj1 key1 ++ []) h) w).
  assert (Hw1 : heap w1 = held (pins obj1 key1 ++ []) h) by reflexivity.
  assert (Hp2 : forall x, x <> key1 -> times (pins obj1 key1 ++ []) x = 0%nat).
  { intros x Hx. rewrite app_nil_r, times_pins.
    destruct (getrefcount obj1 =? OBJ_STATIC_REFCOUNT); [reflexivity|].
    destruct (Z.eqb_spec key1 x); [congruence|reflexivity]. }
  (* the integer is written out as a fresh string *)
  assert (H2' : heap w1 !! key2 = Some obj2).
  { rewrite Hw1, held_lookup, H2, Hp2 by congruence. cbn [option_map].
    now rewrite retained_none. }
  rewrite (bind_Done _ _ _ _ _ (deref_Some w1 key2 obj2 H2')).
  apply Z.eqb_neq in N2. rewrite N2. cbn [negb].
  destruct (getDecodedObject_integer w1 key2 obj2 H2' T2 E2)
    as (d & dec & w2 & Hrun & Hfresh & Hw2 & Ed & Dd).
  rewrite (bind_Done _ _ _ _ _ Hrun).
  destruct Hfresh as (Hd & _ & Hr & Ht & _).
  assert (Hnew : h !! d = None) by (now apply Hbrk).
  assert (Hd1 : d <> key1) by congruence.
  set (h1 := <[d := dec]> h) in *.
  assert (H1' : h1 !! key1 = Some obj1)
    by (unfold h1; now rewrite lookup_insert_ne by congruence).
  assert (Hdd : h1 !! d = Some dec) by (unfold h1; now rewrite lookup_insert_eq).
  assert (Hw2' : heap w2 = held (pins obj1 key1 ++ []) h1).
  { rewrite Hw2, Hw1. unfold h1. symmetry. apply held_insert. now apply Hp2. }
  (* the strings are compared *)
  rewrite (bind_Done _ _ _ _ _ (szFromObj_held w2 h1 _ key1 obj1 s1 Hw2' H1' D1)).
  rewrite (bind_Done _ _ _ _ _ (szFromObj_held w2 h1 _ d dec _ Hw2' Hdd Dd)).
  destruct (dictSdsKeyCompare_spec w2 s1
              {| buf := Strings.ll2string (s64 (m_ptr obj2)); avail := 0 |}
              L1 ltac:(apply length_ll2string, s64_range))
    as (r & Hcmp & Hbit & Hiff).
  rewrite (bind_Done _ _ _ _ _ Hcmp).
  (* the reference is given back, the fresh string freed *)
  rewrite (release_guarded w2 h1 [] key1 obj1 _ Hw2' H1'); cycle 1.
  { destruct C1' as [Hs|[Hns Hh]]; [left; split; [exact Hs|reflexivity]|right].
    split; [exact Hns|]. now apply holdable_insert_other. }
  set (w3 := set_heap (fun _ => held [] h1) w2).
  rewrite (release_fresh w3 d dec _
             ltac:(cbn [w3 heap set_heap]; now rewrite held_nil) Hr Ht).
  unfold ret. eexists r, _. split; [reflexivity|].
  split; [|split; [exact Hbit|exact Hiff]].
  rewrite heap_released. cbn [w3 heap set_heap]. rewrite held_nil. unfold h1.
  now rewrite delete_insert_id.
Qed.

(** *** The comparison of two keys *)

(** X29. [dictEncObjKeyCompare] compares two keys by content and leaves
    the objects as they were.  Two integer keys are equal when their
    values are; two string keys when their bytes are, and the world is
    unchanged after the call; an integer key and a string key are equal
    when the string is the decimal text of the integer, and after the call
    the objects are the ones from before: the text written out for the
    comparison is freed again.  A key is on the stack
    ([OBJ_STATIC_REFCOUNT], never counted) or shared or counted with room
    for the references of the call; strings are shorter than 2^31 bytes;
    in the mixed case the integer key is not on the stack and the
    allocator hands out addresses no object lives at. *)
Theorem X29_keys_are_compared_by_content w key1 key2 obj1 obj2 :
  heap w !! key1 = Some obj1 -> heap w !! key2 = Some obj2 ->
  (encoding obj1 = OBJ_ENCODING_INT -> encoding obj2 = OBJ_ENCODING_INT ->
     dictEncObjKeyCompare key1 key2 w
     = Done ((if m_ptr obj1 =? m_ptr obj2 then 1 else 0), w)) /\
  (forall s1 s2,
     sdsEncodedObject obj1 = true -> sdsdata obj1 = Some s1 -> sdslen s1 < 2 ^ 31 ->
     sdsEncodedObject obj2 = true -> sdsdata obj2 = Some s2 -> sdslen s2 < 2 ^ 31 ->
     getrefcount obj1 = OBJ_STATIC_REFCOUNT \/ holdable (heap w) [key1; key2] key1 ->
     getrefcount obj2 = OBJ_STATIC_REFCOUNT \/ holdable (heap w) [key1; key2] key2 ->
     exists r, dictEncObjKeyCompare key1 key2 w = Done (r, w) /\
               (r = 0 \/ r = 1) /\ (r = 1 <-> buf s1 = buf s2)) /\
  (forall s2,
     type obj1 = OBJ_STRING -> encoding obj1 = OBJ_ENCODING_INT ->
     getrefcount obj1 <> OBJ_STATIC_REFCOUNT ->
     sdsEncodedObject obj2 = true -> sdsdata obj2 = Some s2 -> sdslen s2 < 2 ^ 31 ->
     getrefcount obj2 = OBJ_STATIC_REFCOUNT \/ holdable (heap w) [key2] key2 ->
     (forall a, brk w <= a -> heap w !! a = None) ->
     exists r w', dictEncObjKeyCompare key1 key2 w = Done (r, w') /\
                  heap w' = heap w /\ (r = 0 \/ r = 1) /\
                  (r = 1 <-> buf s2 = Strings.ll2string (s64 (m_ptr obj1)))) /\
  (forall s1,
     sdsEncodedObject obj1 = true -> sdsdata obj1 = Some s1 -> sdslen s1 < 2 ^ 31 ->
     getrefcount obj1 = OBJ_STATIC_REFCOUNT \/ holdable (heap w) [key1] key1 ->
     type obj2 = OBJ_STRING -> encoding obj2 = OBJ_ENCODING_INT ->
     getrefcount obj2 <> OBJ_STATIC_REFCOUNT ->
     (forall a, brk w <= a -> heap w !! a = None) ->
     exists r w', dictEncObjKeyCompare key1 key2 w = Done (r, w') /\
                  heap w' = heap w /\ (r = 0 \/ r = 1) /\
                  (r = 1 <-> buf s1 = Strings.ll2string (s64 (m_ptr obj2)))).
Proof.
  intros H1 H2. split; [|split; [|split]].
  - now apply compare_integers.
  - intros s1 s2 E1 D1 L1 E2 D2 L2 C1 C2.
    now apply (compare_strings w key1 key2 obj1 obj2 s1 s2).
  - intros s2 T1 E1 N1 E2 D2 L2 C2 Hbrk.
    now apply (compare_integer_with_string w key1 key2 obj1 obj2 s2).
  - intros s1 E1 D1 L1 C1 T2 E2 N2 Hbrk.
    now apply (compare_string_with_integer w key1 key2 obj1 obj2 s1).
Qed.

End Externals.

(** The integer 12345 as a key of a table, and the text 12345 as a key on
    the stack of a caller that looks it up. *)
Definition table_with_number : world :=
  set_heap (insert 5000 (string_object OBJ_ENCODING_RAW OBJ_STATIC_REFCOUNT 12288 "12345"))
    (holding quiet_server Strings.number).

Lemma X29_keys_are_compared_by_content_witness :
  exists w', dictEncObjKeyCompare 0 5000 4096 table_with_number = Done (1, w') /\
             heap w' = heap table_with_number.
Proof.
  assert (H1 : heap table_with_number !! 5000
               = Some (string_object OBJ_ENCODING_RAW OBJ_STATIC_REFCOUNT 12288 "12345"))
    by (cbn [table_with_number heap set_heap]; apply lookup_insert_eq).
  assert (H2 : heap table_with_number !! 4096 = Some Strings.number).
  { cbn [table_with_number heap set_heap holding].
    rewrite lookup_insert_ne by discriminate. apply lookup_singleton_eq. }
  destruct (X29_keys_are_compared_by_content 0 table_with_number 5000 4096 _ _ H1 H2)
    as (_ & _ & _ & Hmixed).
  destruct (Hmixed {| buf := bytes_of_string "12345"; avail := 0 |}
              eq_refl eq_refl ltac:(vm_compute; reflexivity)
              ltac:(left; reflexivity) eq_refl eq_refl ltac:(discriminate))
    as (r & w' & Hrun & Hheap & _ & Hiff).
  { intros a Ha. cbn [table_with_number heap set_heap holding brk] in *.
    rewrite lookup_insert_ne by lia. apply lookup_singleton_ne. lia. }
  assert (r = 1) as -> by (apply Hiff; vm_compute; reflexivity).
  exists w'. split; [exact Hrun|exact Hheap].
Defined.

End Keys.
